(* ===== verification/_CoqProject ===== *)
-Q . S2P
Prelude.v
GoStrings.v
Patterns.v
Netip.v
Netmatch.v
Floats.v
Duration.v
Config.v
Atomics.v
Http.v
Httputil.v
Middleware.v
ClientIP.v
Geoip.v
IPFilter.v
IPFilterProofs.v
GeoLock.v
RateLimit.v
RateStage.v
Waf.v
WafProofs.v
AccessLog.v
Proxy.v
Admin.v
AdminProofs.v
Dashboard.v
PersistRace.v
Metrics.v
Server.v
ProxyFrame.v
Main.v
Pipeline.v
System.v
Requests.v
Concurrent.v
Lifecycle.v
SystemDemo.v
