(* ===== verification/Prelude.v ===== *)
(** * go-firewall: a verification library

    go-firewall is a reverse proxy with filters in front of it.  This library
    models the Go sources under src/ as executable definitions and proves what
    the program promises about them.  This file holds the header and what all
    components share: errors and results, parts of a product state, the tactics
    and the list and option lemmas.

    ** The program

    [run] (src/cmd/go-firewall/main.go) builds every component from the
    configuration and chains the middleware around the proxy:
<<
      AttachRecorder -> ResolveClientIP -> access log -> metrics
        -> IP filter -> rate limiter -> WAF (when enabled) -> proxy
>>
    The outer stages share a [Recorder] per request, through the request's
    context: the inner stages write the verdict in it, the access log and the
    metrics read it once the inner handler is done.  SIGHUP runs [reloadOnce],
    which reads the configuration again and swaps the WAF rules, the IP lists
    with the geo state, and the rate limits.  The dashboard edits the lists and
    the rule overrides while requests are served and saves these edits to a
    state file, which the next start replays over the configuration.

    ** Files, and the code they model

    Language and libraries of the Go distribution (of these files only
    [WithRecorder] in Http and [rewrite] in Httputil stand for lines of the
    repository: the context value of chain.go, the Rewrite hook of proxy.go):
    - GoStrings: [strings], [strconv], [net/url], [net/textproto] functions;
    - Patterns: the patterns [http.ServeMux] accepts;
    - Floats: the float64 operations, and when they are exact;
    - Netip: [net/netip] addresses, prefixes, parsers and printers;
    - Http: requests, headers, bodies read once, the server's connection;
    - Httputil: the outgoing request of [httputil.ReverseProxy].

    An idiom of the repository:
    - Atomics: the compare-and-swap loop over an [atomic.Pointer] that edits the
      IP lists ([addCIDR], [removeCIDR] and [reloadListState] in filter.go) and
      the rule overrides (engine.go).  [round] is what a turn of the loop ends
      in, [step] the loop itself, any number of them interleaved; the bodies are
      in IPFilter and Waf.  Refinement, progress and bounds are proved once for
      every body and then used with these.

    Components, each with its state as a record:
    - Netmatch: internal/netmatch/matcher.go, [Matcher];
    - Duration: internal/config/duration.go, with [time.ParseDuration] and
      [Duration.String];
    - Config: internal/config/config.go, [Config], defaults, [Validate], [Load];
    - Middleware: internal/middleware/chain.go and statusrecorder.go,
      [Recorder], [StatusRecorder], [Chain], and the [World] handlers run in;
    - ClientIP: internal/middleware/clientip.go;
    - Geoip: internal/geoip/geoip.go, [DB];
    - IPFilter, IPFilterProofs: internal/middleware/ipfilter/filter.go,
      [listState], [geoState], [Filter];
    - GeoLock: the same file's geo state under its RWMutex: lookups, reloads and
      [Close] as interleaved threads ([geo_thread]);
    - RateLimit: internal/middleware/ratelimit/limiter.go, [shardedLimiter];
    - RateStage: internal/middleware/ratelimit/middleware.go, [Limiter];
    - Waf, WafProofs: internal/middleware/waf/rule.go, ruleset.go, engine.go,
      [RuleSet], [Engine];
    - AccessLog: internal/log/entry.go, ring.go, access.go;
    - Proxy, ProxyFrame: internal/proxy/proxy.go, [upstream], [Proxy];
    - Admin, AdminProofs, Dashboard: internal/admin/state.go and admin.go,
      [State], [Server], the handlers, [persist] and the replay at start;
    - PersistRace: the same handlers, concurrent: the edit, each of the three
      loads of [currentState] and the save as steps ([race_advance]);
    - Metrics: internal/metrics/metrics.go, as the calls on its collectors;
    - Server: internal/server/server.go, binding, serving and shutdown;
    - Main, Pipeline, System, Lifecycle, SystemDemo: cmd/go-firewall/main.go,
      with internal/log/default.go and internal/version/version.go; the
      composition and the process around it ([Process]), what it does to a
      request, what always holds of it, how it ends, and the whole program
      evaluated on a concrete configuration;
    - Requests, Concurrent: the same pipeline as steps ([advance]), and any number
      of requests in flight over the shared components ([pool_step]).

    Operations keep the names of the Go functions.  A name used in several
    packages is told apart by its file ([IPFilter.Reload], [RateStage.Reload]).

    ** How the code is modelled

    - Pure functions are functions; a function that returns an error returns a
      [result], and [let!] is the early return.
    - A handler is a function on requests and a [World]: the heap of recorders,
      which are shared by pointer, the connection, a clock and random source,
      and the components' state.  A stage changes its own component only: the
      class [Part] picks that component out of the whole state, and [PartIndep]
      says that two stages own different ones, so each stage is proved once,
      for any program it is put in.
    - A panic in a handler ([http.ErrAbortHandler], on a response cut short) is a
      flag of the connection: the code after a call of [next] tests it, a
      deferred call does not.  A panic in [run] is an [ending] of it.
    - The process is a record with the deferred calls as a list of names: a call
      acts, when it runs, on what its receiver has become by then.
    - Pointers that the code shares or compares are addresses in a heap:
      recorders, geo databases (closed ones included), bucket entries, rate
      limiters replaced by a reload, the values behind an [atomic.Pointer].
    - Requests are interleaved twice.  In System each is one step, with reloads,
      edits, time and disk faults in between.  In Concurrent a step is one action
      of a request on what the goroutines share: a decision of the filter, of the
      limiter or of the engine, a pick, a store in an upstream, a call on a
      collector, an entry of the ring, a line of the log; the swaps of a reload
      are steps too.  Requests proves that the steps of a request with nothing in
      between are the pipeline.  A decision of the filter, the limiter or the
      engine, a pick and a dashboard request remain whole (so one decision sees
      one pair of lists, or one set of overrides); the finer interleavings inside
      them are modelled on their own: the compare-and-swap
      loops of the lists and overrides (Atomics, IPFilterProofs, WafProofs), the
      lock of the geo state (GeoLock), the loads and saves of the dashboard
      (PersistRace),
      and in RateLimit the use of a bucket entry after its shard is unlocked.
    - Machine integers wrap: the round-robin counter (uint64), the shard hash
      (uint32), an upstream's failure count (int32), times in nanoseconds and
      counted bytes (int64).  A float is a [spec_float].
    - The disk is a map from paths to contents, with a possible fault at each
      call of a save; a crash is any prefix of the save's writes.

    Code outside the repository is a parameter, a class of functions with, where
    needed, a second class of documented laws: the IP set ([IPSetLib],
    [IPSetSpec]), the MaxMind reader ([MaxMindLib]), x/time/rate ([RateLib],
    [RateSpec]), regular expressions ([RegexpLib]), YAML and JSON ([ConfigYaml],
    [RulesYaml], [StateJson], [StateJsonSpec], [ApiJson]), files and
    environment ([Files], [AppendFiles], [ConfigEnv], [AdminEnv], [ServerLib]),
    the HTTP transport ([Transport]), the order of a map's range ([MapOrder]),
    URL parsing ([UrlParse]), Unicode tables ([UnicodeTables], [LetterTables]).  Every law has
    an instance, and each theorem with hypotheses is applied to concrete inputs.

    ** What is proved

    - The whole request (Pipeline): a refused request is answered with the
      stage's status, logged and counted with the stage that refused it, and
      touches neither the proxy nor a later stage; a request that passes every
      stage runs the proxy, once, and what the proxy sends is what the client
      gets, logged and counted unless the handler panics.
    - The whole program (System): an invariant of every reachable state; when a
      start succeeds, fails or panics; what a reload does, and when it is
      partial.
    - Requests in flight (Requests, Concurrent): a request alone is the pipeline;
      among others, whatever the order, the collectors and the log hold what the
      requests did and nothing else, the gauge is the number in flight, no
      request is ever stuck, and once all have ended the collectors agree.
    - The process (Lifecycle): whatever way [run] ends, its deferred calls
      release what it opened, reloads included; a signal shuts down every
      server; the exit status in every case.
    - Durations: what is written to YAML reads back, for every int64.
    - IP filter: [Allowed] in terms of the CIDRs that cover an address; edits
      refine a layered specification (configuration plus overlay) and linearize
      under any interleaving, all end, in a bounded number of steps, having been
      made once each, and no edit is lost; a reload of a
      validated configuration is all or nothing and never uses a closed database,
      also with lookups in flight, and the lock does not deadlock.
    - Client address: the peer, or behind a trusted proxy the last entry of the
      first X-Forwarded-For line that is no trusted proxy; what a client puts
      before it in that line is ignored.
    - Rate limits: the sharded, evicting limiter refines one map of buckets; no
      client gets more than the burst plus the rate times the window in any
      window, when the idle time is long enough to refill a bucket; a client that waits is accepted; the first matching route decides;
      reloads stop what they replace.
    - WAF: loading as a validator; [Inspect] is exact against a declarative
      reading of the rules, and hands on the body as it was; overrides survive
      concurrent edits, and the dashboard's view is the engine's.
    - Proxy: the circuit breaker; round robin; a healthy upstream is found; at
      most one retry, on another healthy upstream, and what a 502 records; a
      response is delivered whole or cut, and resets its upstream; every header
      sent upstream, the forwarding ones unforgeable; serving always ends.
    - Dashboard: no API without the token; what each edit does to memory and to
      disk, working or not; the save is atomic at every crash point; a restart
      restores the edits and every decision, geo included; an invariant of the
      dashboard's state under every request; under concurrent requests the state
      file always holds a whole state whose three parts were each current in the
      run, though not always the latest, nor always current together.
    - Logs, metrics, listeners: the ring keeps the last entries; each request
      that returns is one count under its outcome; the status recorder's status
      is the one sent; the listeners' lifecycle.

    ** Fuel and bounds

    - [rp_ServeHTTP] takes fuel 2, a round trip and its one retry;
      [rp_serves] in ProxyFrame proves that it always returns.
    - The IPv6 parser runs over at most 8 groups, as the standard library's
      loop does; the printer takes one round more than the 8 groups, and 4 digits
      for each.
    - [trim_left] takes the length of the string, and each step drops a byte.
    - [parse_loop] takes the length of the string: [parse_loop_fuel] proves that
      more turns change nothing; [fmtInt_loop] takes the 20 digits of a uint64.
    - [run_alone] takes a number of steps: a request ends in at most 26
      ([remaining]).
    - Compare-and-swap loops take no fuel: they are step relations, with a bound
      on the retries of every execution.

    ** Not modelled

    - internal/geoip/geoiptest: builds a database for the tests.
    - Of main.go: flag parsing, which gives the path of the configuration; that
      the linker may set the version.  Signals, bound sockets and the ends of
      listeners are events of [wait]; a request or a reload still under way when
      [run] returns is not followed further, as the process exits then.
    - The types of YAML values: the decoder of the configuration is a parameter
      that gives durations in nanoseconds, and [UnmarshalYAML] takes the scalar
      it decodes.
    - The Prometheus client and the dashboard's static page: a library and an
      asset.  A client's connection takes every byte written to it.  The
      answer to a HEAD request is as for GET, and there are no trailers. *)
From Stdlib Require Export Ascii String ZArith Lia.
From stdpp Require Export base tactics option list list_numbers numbers strings gmap fin_maps.

#[export] Set Warnings "-clear-no-such-hyp".

Declare Scope go_scope.
Delimit Scope go_scope with go.
Open Scope Z_scope.

Create Rewrite HintDb parts.

(** ** Errors and results

    A Go [error] is nil (no error, [Ok]) or a value.  The code builds its own
    errors with [fmt.Errorf], whose format string, string arguments and wrapped
    error are kept; an error made inside the standard library or a third-party
    package is known only by the call that returned it. *)
Inductive error : Type :=
  | LibError (call : string)
  | Errorf (format : string) (args : list string)
  | Errorw (format : string) (args : list string) (wrapped : error).

Inductive result (A : Type) : Type :=
  | Ok (a : A)
  | Err (e : error).
Arguments Ok {A} _.
Arguments Err {A} _.

Definition result_bind {A B} (r : result A) (f : A -> result B) : result B :=
  match r with
  | Ok a => f a
  | Err e => Err e
  end.

(** [wrap_err fmt args r] is the idiom
    [if err != nil { return ..., fmt.Errorf(fmt, args..., err) }]. *)
Definition wrap_err {A} (format : string) (args : list string) (r : result A) : result A :=
  match r with
  | Ok a => Ok a
  | Err e => Err (Errorw format args e)
  end.

(** A library call that reports failure by its error value. *)
Definition of_lib {A} (call : string) (o : option A) : result A :=
  match o with
  | Some a => Ok a
  | None => Err (LibError call)
  end.

Definition is_ok {A} (r : result A) : bool :=
  match r with Ok _ => true | Err _ => false end.

Notation "'let!' x ':=' r 'in' k" := (result_bind r (fun x => k))
  (at level 10, x pattern, r at level 100, k at level 200) : go_scope.
Open Scope go_scope.

(** ** Machine integers

    Go's integer arithmetic wraps around silently. *)
Definition wrapU (w : Z) (z : Z) : Z := z mod 2 ^ w.

Definition wrapS (w : Z) (z : Z) : Z := (z + 2 ^ (w - 1)) mod 2 ^ w - 2 ^ (w - 1).

Definition uint32 : Z -> Z := wrapU 32.
Definition uint64 : Z -> Z := wrapU 64.
Definition int32 : Z -> Z := wrapS 32.
Definition int64 : Z -> Z := wrapS 64.

(** ** Components inside a larger state

    The program's components share one state [C]; a handler reaches the [X] it
    works on through this interface. *)
Class Part (X C : Type) := {
  part : C -> X;
  set_part : X -> C -> C
}.

Class PartLaws (X C : Type) `{!Part X C} := {
  part_set (x : X) (c : C) : part (set_part x c) = x;
  set_part_part (c : C) : set_part (part c) c = c;
  set_part_twice (x y : X) (c : C) : set_part x (set_part y c) = set_part x c
}.

(** Writing one part leaves another alone. *)
Class PartIndep (X Y C : Type) `{!Part X C} `{!Part Y C} :=
  part_other (x : X) (c : C) : part (set_part x c) = (part c : Y).

(** A component is a part of itself. *)
#[export] Instance Part_refl {X} : Part X X | 100 := {| part := fun x => x; set_part := fun x _ => x |}.
#[export] Instance PartLaws_refl {X} : PartLaws X X | 100.
Proof. split; done. Qed.

(** The first component of a pair, and the parts of the second. *)
#[export] Instance Part_fst {X C} : Part X (X * C) | 10 := {| part := fst; set_part := fun x c => (x, c.2) |}.
#[export] Instance Part_snd {X Y C} `{!Part Y C} : Part Y (X * C) | 20 :=
  {| part := fun c => part c.2; set_part := fun y c => (c.1, set_part y c.2) |}.
#[export] Instance PartLaws_fst {X C} : PartLaws X (X * C) | 10.
Proof. split; intros; by try destruct c. Qed.
#[export] Instance PartLaws_snd {X Y C} `{!Part Y C} `{!PartLaws Y C} : PartLaws Y (X * C) | 20.
Proof. split; intros; cbn; rewrite ?part_set, ?set_part_part, ?set_part_twice; by try destruct c. Qed.
#[export] Instance PartIndep_fst {X Y C} `{!Part Y C} : PartIndep X Y (X * C) | 10.
Proof. done. Qed.
#[export] Instance PartIndep_snd {X Y C} `{!Part Y C} : PartIndep Y X (X * C) | 10.
Proof. done. Qed.
#[export] Instance PartIndep_both {X Y Z C} `{!Part Y C} `{!Part Z C} `{!PartIndep Y Z C} : PartIndep Y Z (X * C) | 20.
Proof. intros y c. apply (part_other (X := Y) (Y := Z) (C := C)). Qed.

#[export] Hint Rewrite @part_set @set_part_part @set_part_twice : parts.

(** ** Tactics of the development *)

(** Case analysis on the scrutinee of the first match or if of the goal. *)
Ltac break_goal :=
  match goal with
  | |- context [match ?x with _ => _ end] => destruct x eqn:?
  end.

(** The same in the hypotheses. *)
Ltac break_hyp :=
  match goal with
  | H : context [match ?x with _ => _ end] |- _ => destruct x eqn:?
  end.

(** Inverts an equation between results of the same constructor. *)
Ltac inv_ok :=
  repeat match goal with
  | H : Ok _ = Ok _ |- _ => injection H as H
  | H : Err _ = Err _ |- _ => injection H as H
  | H : Ok _ = Err _ |- _ => discriminate H
  | H : Err _ = Ok _ |- _ => discriminate H
  end.

(** An early return: the guard's taken branch contradicts the goal's premise. *)
Ltac pass_guard E :=
  match goal with
  | |- (if ?b then None else _) = _ -> _ => destruct b eqn:E; [intros ?; discriminate|]
  | |- (if ?b then Err _ else _) = _ -> _ => destruct b eqn:E; [intros ?; discriminate|]
  end.

(** Opens a bind that is known to succeed. *)
Ltac bind_ok H :=
  match type of H with
  | result_bind ?r _ = Ok _ =>
      let E := fresh "E" in destruct r eqn:E; cbn [result_bind] in H; [|discriminate H]
  end.

Create HintDb firewall.

(** ** Generic lemmas *)

Lemma wrapU_id w z : 0 <= z < 2 ^ w -> wrapU w z = z.
Proof. intros H. unfold wrapU. by rewrite Z.mod_small. Qed.

Lemma wrapU_bound w z : 0 < w -> 0 <= wrapU w z < 2 ^ w.
Proof. intros Hw. unfold wrapU. apply Z.mod_pos_bound. apply Z.pow_pos_nonneg; lia. Qed.

Lemma int64_bound z : - 2 ^ 63 <= int64 z < 2 ^ 63.
Proof. unfold int64, wrapS. pose proof (Z.mod_pos_bound (z + 2 ^ (64 - 1)) (2 ^ 64)). lia. Qed.

Lemma wrapS_id w z : 0 < w -> - 2 ^ (w - 1) <= z < 2 ^ (w - 1) -> wrapS w z = z.
Proof.
  intros Hw H. unfold wrapS.
  assert (2 ^ w = 2 * 2 ^ (w - 1)) as Hp.
  { rewrite <- Z.pow_succ_r by lia. f_equal. lia. }
  rewrite Z.mod_small; lia.
Qed.

Lemma wrap_err_ok {A} format args (r : result A) a :
  wrap_err format args r = Ok a <-> r = Ok a.
Proof. destruct r; cbn; split; congruence. Qed.

Lemma of_lib_ok {A} call (o : option A) a : of_lib call o = Ok a <-> o = Some a.
Proof. destruct o; cbn; split; congruence. Qed.

Lemma is_ok_true {A} (r : result A) : is_ok r = true <-> exists a, r = Ok a.
Proof. destruct r; cbn; split; [eauto|done|done|]. intros [a Ha]. done. Qed.

Create Rewrite HintDb results.
#[export] Hint Rewrite @wrap_err_ok @of_lib_ok : results.
#[export] Hint Resolve wrapU_id wrapU_bound wrapS_id : firewall.
