(* ===== verification/GoStrings.v ===== *)
(** * Strings of the Go standard library

    A Go string is a sequence of bytes; it is a [string] here, and the loops run
    over its list of bytes.  This file models the functions of [strings],
    [strconv], [net/url], [net/textproto] and [net] that go-firewall calls, on
    every input (invalid input included).  They belong to the language's
    standard library, so no definition here stands for lines of the
    repository. *)
From S2P Require Import Prelude.

Abbreviation bytes := (list ascii).
Definition to_bytes (s : string) : bytes := list_ascii_of_string s.
Definition of_bytes (b : bytes) : string := string_of_list_ascii b.

Definition code (c : ascii) : Z := Z.of_N (N_of_ascii c).
Definition chr (z : Z) : ascii := ascii_of_N (Z.to_N z).
Definition byte_eqb (a b : ascii) : bool := Ascii.eqb a b.

Definition in_range (lo hi : Z) (c : ascii) : bool := (lo <=? code c) && (code c <=? hi).
Definition is_digit : ascii -> bool := in_range 48 57.
Definition is_lower : ascii -> bool := in_range 97 122.
Definition is_upper : ascii -> bool := in_range 65 90.

(** The value of a hexadecimal digit. *)
Definition hexval (c : ascii) : option Z :=
  if is_digit c then Some (code c - 48)
  else if in_range 97 102 c then Some (code c - 97 + 10)
  else if in_range 65 70 c then Some (code c - 65 + 10)
  else None.

(** ** Searching *)

Fixpoint index_byte (c : ascii) (s : bytes) : option nat :=
  match s with
  | [] => None
  | d :: s' => if byte_eqb d c then Some 0%nat else S <$> index_byte c s'
  end.

Fixpoint last_index_byte (c : ascii) (s : bytes) : option nat :=
  match s with
  | [] => None
  | d :: s' =>
      match last_index_byte c s' with
      | Some n => Some (S n)
      | None => if byte_eqb d c then Some 0%nat else None
      end
  end.

Fixpoint starts_with (p s : bytes) : bool :=
  match p, s with
  | [], _ => true
  | c :: p', d :: s' => byte_eqb c d && starts_with p' s'
  | _ :: _, [] => false
  end.

(** [strings.HasPrefix], [strings.TrimPrefix]. *)
Definition HasPrefix (s p : string) : bool := starts_with (to_bytes p) (to_bytes s).
Definition TrimPrefix (s p : string) : string :=
  if HasPrefix s p then of_bytes (drop (length (to_bytes p)) (to_bytes s)) else s.

(** [strings.Split s sep] for a separator of one byte: never empty. *)
Fixpoint split_bytes (sep : ascii) (s : bytes) : list bytes :=
  match s with
  | [] => [[]]
  | c :: s' =>
      if byte_eqb c sep then [] :: split_bytes sep s'
      else match split_bytes sep s' with
           | w :: ws => (c :: w) :: ws
           | [] => [[c]]
           end
  end.
Definition Split (s : string) (sep : ascii) : list string := of_bytes <$> split_bytes sep (to_bytes s).

(** [path.Clean] of a path that starts with a slash, and the cleaning
    [http.ServeMux] adds to it: a final slash is kept. *)
Definition clean_segment (out : list string) (seg : string) : list string :=
  if String.eqb seg "" || String.eqb seg "." then out
  else if String.eqb seg ".." then removelast out
  else out ++ [seg].

Definition path_Clean (p : string) : string := "/" +:+ String.concat "/" (foldl clean_segment [] (Split p "/")).

Definition cleanPath (p : string) : string :=
  let p := if HasPrefix p "/" then p else "/" +:+ p in
  let np := path_Clean p in
  if bool_decide (last (to_bytes p) = Some "/"%char) && negb (String.eqb np "/") then np +:+ "/" else np.

Example cleanPath_examples :
  map cleanPath ["" : string; "/"; "/admin//api/../x/."; "admin/"; "/../a//"; "/a/.."]
  = ["/" : string; "/"; "/admin/x"; "/admin/"; "/a/"; "/"].
Proof. reflexivity. Qed.

(** ** Trimming

    The white space of [unicode.IsSpace] in UTF-8: the ASCII spaces, U+0085,
    U+00A0, U+1680, U+2000 to U+200A, U+2028, U+2029, U+202F, U+205F, U+3000. *)
Definition space_runes : list bytes :=
  (fun z => [chr z]) <$> [9; 10; 11; 12; 13; 32].
Definition wide_space_runes : list bytes :=
  [chr <$> [0xC2; 0x85]; chr <$> [0xC2; 0xA0]; chr <$> [0xE1; 0x9A; 0x80]] ++
  ((fun z => chr <$> [0xE2; 0x80; 0x80 + z]) <$> [0; 1; 2; 3; 4; 5; 6; 7; 8; 9; 10; 0x28; 0x29; 0x2F]) ++
  [chr <$> [0xE2; 0x81; 0x9F]; chr <$> [0xE3; 0x80; 0x80]].

Definition leading_space (spaces : list bytes) (s : bytes) : option nat :=
  length <$> List.find (fun p => starts_with p s) spaces.

(** Each round drops at least one byte, so [length s] rounds are enough. *)
Fixpoint trim_left (spaces : list bytes) (fuel : nat) (s : bytes) : bytes :=
  match fuel with
  | O => s
  | S fuel' =>
      match leading_space spaces s with
      | Some n => trim_left spaces fuel' (drop n s)
      | None => s
      end
  end.

Definition TrimSpace (s : string) : string :=
  let spaces := space_runes ++ wide_space_runes in
  let l := trim_left spaces (String.length s) (to_bytes s) in
  of_bytes (reverse (trim_left (reverse <$> spaces) (length l) (reverse l))).

(** ** Numbers *)

Fixpoint digits_value (acc : Z) (s : bytes) : option Z :=
  match s with
  | [] => Some acc
  | c :: s' => if is_digit c then digits_value (acc * 10 + (code c - 48)) s' else None
  end.

(** [strconv.Atoi]: an optional sign and at least one decimal digit, within the
    range of a 64-bit int. *)
Definition Atoi (s : string) : option Z :=
  let unsigned (neg : bool) (d : bytes) :=
    match d with
    | [] => None
    | _ =>
        v ← digits_value 0 d;
        let z := if neg then - v else v in
        if (- 2 ^ 63 <=? z) && (z <? 2 ^ 63) then Some z else None
    end in
  match to_bytes s with
  | c :: d =>
      if byte_eqb c "-" then unsigned true d
      else if byte_eqb c "+" then unsigned false d
      else unsigned false (c :: d)
  | [] => None
  end.

(** ** [net/url] unescaping: [plus] is set for the query component. *)
Fixpoint unescape (plus : bool) (s : bytes) : option bytes :=
  match s with
  | [] => Some []
  | c :: s' =>
      if byte_eqb c "%" then
        match s' with
        | a :: b :: s'' =>
            match hexval a, hexval b with
            | Some x, Some y => r ← unescape plus s''; Some (chr (x * 16 + y) :: r)
            | _, _ => None
            end
        | _ => None
        end
      else if byte_eqb c "+" && plus then
        r ← unescape plus s'; Some ((" "%char : ascii) :: r)
      else r ← unescape plus s'; Some (c :: r)
  end.
Definition PathUnescape (s : string) : option string := of_bytes <$> unescape false (to_bytes s).
Definition QueryUnescape (s : string) : option string := of_bytes <$> unescape true (to_bytes s).

(** ** Header names: [http.CanonicalHeaderKey]. *)
Definition header_byte (c : ascii) : bool :=
  is_digit c || is_lower c || is_upper c ||
  existsb (byte_eqb c) (to_bytes "!#$%&'*+-.^_`|~").

Fixpoint canonical_bytes (up : bool) (s : bytes) : bytes :=
  match s with
  | [] => []
  | c :: s' =>
      let c' := if up && is_lower c then chr (code c - 32)
                else if negb up && is_upper c then chr (code c + 32) else c in
      c' :: canonical_bytes (byte_eqb c' "-") s'
  end.

Definition CanonicalHeaderKey (s : string) : string :=
  if forallb header_byte (to_bytes s) then of_bytes (canonical_bytes true (to_bytes s)) else s.

(** ** [net.SplitHostPort]: the host and the port. *)
Definition SplitHostPort (hostport : string) : option (string * string) :=
  let hp := to_bytes hostport in
  i ← last_index_byte ":" hp;
  let finish (host : bytes) (j k : nat) :=
    if existsb (byte_eqb "[") (drop j hp) then None
    else if existsb (byte_eqb "]") (drop k hp) then None
    else Some (of_bytes host, of_bytes (drop (S i) hp)) in
  match hp with
  | c :: _ =>
      if byte_eqb c "[" then
        e ← index_byte "]" hp;
        if Nat.eqb (S e) i then finish (take (e - 1) (drop 1 hp)) 1%nat (S e) else None
      else
        let host := take i hp in
        if existsb (byte_eqb ":") host then None else finish host 0%nat 0%nat
  | [] => None
  end.

(** ** Lemmas *)

Lemma byte_eqb_eq a b : byte_eqb a b = true <-> a = b.
Proof. apply Ascii.eqb_eq. Qed.

Lemma of_to_bytes s : of_bytes (to_bytes s) = s.
Proof. apply string_of_list_ascii_of_string. Qed.

Lemma to_of_bytes b : to_bytes (of_bytes b) = b.
Proof. apply list_ascii_of_string_of_list_ascii. Qed.

Lemma code_bound c : 0 <= code c < 256.
Proof. unfold code. pose proof (N_ascii_bounded c). lia. Qed.

Lemma starts_with_app p s : starts_with p s = true <-> exists t, s = p ++ t.
Proof.
  revert s. induction p as [|c p IH]; intros s; cbn.
  { split; [by exists s|done]. }
  destruct s as [|d s]; [split; [done|by intros [t Ht]]|].
  rewrite andb_true_iff, byte_eqb_eq, IH. split.
  - intros [-> [t ->]]. by exists t.
  - intros [t [= -> ->]]. split; [done|by exists t].
Qed.

Lemma split_bytes_length sep s : (1 <= length (split_bytes sep s))%nat.
Proof.
  induction s as [|c s IH]; cbn; [lia|].
  destruct (byte_eqb c sep); cbn; [lia|]. destruct (split_bytes sep s); cbn in *; lia.
Qed.

(** Without a separator the result is the string itself. *)
Lemma split_bytes_none sep s : sep ∉ s -> split_bytes sep s = [s].
Proof.
  induction s as [|c s IH]; cbn; [done|]. intros [Hc Hs]%not_elem_of_cons.
  destruct (byte_eqb c sep) eqn:E; [apply byte_eqb_eq in E; congruence|]. by rewrite IH.
Qed.

(** A separator splits the list of fields. *)
Lemma split_bytes_app sep a b :
  sep ∉ a -> split_bytes sep (a ++ sep :: b) = a :: split_bytes sep b.
Proof.
  induction a as [|c a IH]; cbn.
  - intros _. by rewrite (proj2 (byte_eqb_eq sep sep)).
  - intros [Hc Ha]%not_elem_of_cons.
    destruct (byte_eqb c sep) eqn:E; [apply byte_eqb_eq in E; congruence|]. by rewrite IH.
Qed.

Lemma drop_length_shorter {A} n (s : list A) :
  (0 < n)%nat -> s <> [] -> (length (drop n s) < length s)%nat.
Proof. intros Hn Hs. destruct s; [done|]. rewrite length_drop. cbn. lia. Qed.

Lemma digits_value_nonneg acc s z : 0 <= acc -> digits_value acc s = Some z -> acc <= z.
Proof.
  revert acc. induction s as [|c s IH]; intros acc Ha; cbn; [by intros [= <-]|].
  destruct (is_digit c) eqn:E; [|done]. intros H.
  assert (48 <= code c) by (unfold is_digit, in_range in E; lia).
  apply IH in H; lia.
Qed.

#[export] Hint Resolve code_bound split_bytes_length : firewall.

#[global] Arguments TrimSpace : simpl never.
#[global] Arguments Split : simpl never.
#[global] Arguments SplitHostPort : simpl never.
#[global] Arguments Atoi : simpl never.
#[global] Arguments HasPrefix : simpl never.
#[global] Arguments TrimPrefix : simpl never.
#[global] Arguments CanonicalHeaderKey : simpl never.
#[global] Arguments PathUnescape : simpl never.
(** [strings.Cut] at a byte. *)
Definition Cut (s : string) (sep : ascii) : string * string :=
  match index_byte sep (to_bytes s) with
  | Some i => (of_bytes (take i (to_bytes s)), of_bytes (drop (S i) (to_bytes s)))
  | None => (s, "")
  end.

(** [url.ParseQuery], its error ignored: the pairs that decode, in order. *)
Definition ParseQuery (query : string) : list (string * string) :=
  omap (fun p : string =>
    if String.eqb p "" || existsb (byte_eqb ";") (to_bytes p) then None
    else
      let '(key, value) := Cut p "=" in
      key ← QueryUnescape key; value ← QueryUnescape value; Some (key, value)) (Split query "&").

(** [Values.Get] *)
Definition Values_Get (pairs : list (string * string)) (key : string) : string :=
  match find (fun kv => String.eqb kv.1 key) pairs with Some kv => kv.2 | None => "" end.

Definition upper_hex (d : Z) : ascii := if d <? 10 then chr (48 + d) else chr (55 + d).
Definition unreserved (c : ascii) : bool :=
  is_digit c || is_lower c || is_upper c || existsb (byte_eqb c) ["-"; "_"; "."; "~"]%char.

(** [url.QueryEscape] *)
Definition QueryEscape (s : string) : string :=
  of_bytes (concat ((fun c : ascii =>
    if unreserved c then [c]
    else if byte_eqb c " " then ["+"%char]
    else ["%"%char; upper_hex (code c / 16); upper_hex (code c mod 16)]) <$> to_bytes s)).

(** [Values.Encode]: the keys sorted, the values of a key in order. *)
Fixpoint insert_pair (kv : string * string) (pairs : list (string * string)) : list (string * string) :=
  match pairs with
  | [] => [kv]
  | kv' :: pairs' => if String.leb kv.1 kv'.1 then kv :: pairs else kv' :: insert_pair kv pairs'
  end.
Definition Encode (pairs : list (string * string)) : string :=
  String.concat "&" ((fun kv => QueryEscape kv.1 +:+ "=" +:+ QueryEscape kv.2) <$> foldr insert_pair [] pairs).

Example query_examples :
  ParseQuery "b=2&a=%2B1&&c;d=1&x=%zz&a" = [("b", "2"); ("a", "+1"); ("a", "")] /\
  Encode [("b", "2"); ("a", "+1"); ("a", "")] = "a=%2B1&a=&b=2".
Proof. by split. Qed.

#[global] Arguments QueryUnescape : simpl never.

(** ** [strings.ToUpper]

    ASCII letters are mapped byte by byte; on any other string the result comes
    from the Unicode tables of the standard library, a parameter. *)
Class UnicodeTables := { unicode_upper : string -> string }.

Definition is_ascii (s : string) : bool := forallb (fun c => code c <? 128) (to_bytes s).
Definition upper_byte (c : ascii) : ascii := if is_lower c then chr (code c - 32) else c.
Definition ToUpper `{UnicodeTables} (s : string) : string :=
  if is_ascii s then of_bytes (upper_byte <$> to_bytes s) else unicode_upper s.

#[global] Arguments ToUpper {_} : simpl never.

(** ** Bytes and concatenation *)

Lemma append_assoc (s t u : string) : (s +:+ t) +:+ u = s +:+ (t +:+ u).
Proof.
  induction s as [|c s IH]; [done|].
  change (String c ((s +:+ t) +:+ u) = String c (s +:+ (t +:+ u))). by rewrite IH.
Qed.

Lemma to_bytes_app s t : to_bytes (s +:+ t) = to_bytes s ++ to_bytes t.
Proof.
  unfold to_bytes. induction s as [|c s IH]; [done|].
  change (c :: to_bytes (s +:+ t) = c :: to_bytes s ++ to_bytes t). unfold to_bytes. by rewrite IH.
Qed.

Lemma to_bytes_inj s t : to_bytes s = to_bytes t -> s = t.
Proof. intros H. by rewrite <- (of_to_bytes s), H, of_to_bytes. Qed.

(** A string with a prefix and what [TrimPrefix] leaves of it. *)
Lemma HasPrefix_TrimPrefix s p t : HasPrefix s p = true /\ TrimPrefix s p = t <-> s = p +:+ t.
Proof.
  unfold TrimPrefix, HasPrefix. split.
  - intros [Hp Ht]. rewrite Hp in Ht. apply starts_with_app in Hp as [u Hu]. apply to_bytes_inj.
    rewrite to_bytes_app, <- Ht, to_of_bytes, Hu. by rewrite drop_app_length.
  - intros ->. assert (starts_with (to_bytes p) (to_bytes (p +:+ t)) = true) as Hp
      by (apply starts_with_app; exists (to_bytes t); apply to_bytes_app).
    rewrite Hp. split; [done|]. by rewrite to_bytes_app, drop_app_length, of_to_bytes.
Qed.
