(* ===== verification/Patterns.v ===== *)
(** * Go's [net/http]: the patterns [ServeMux.Handle] accepts

    [http.ServeMux] panics at registration on a pattern it cannot parse, so
    whether a string is a pattern decides whether a program that registers it
    starts.  This file models the parser of patterns, [METHOD HOST/PATH] with
    wildcard segments, as far as whether it accepts. *)
From S2P Require Import Prelude GoStrings.

(** The names of letters and digits outside ASCII. *)
Class LetterTables := { unicode_wildcard_name : string -> bool }.

Section Patterns.
Context `{LetterTables}.

Definition is_letter (c : ascii) : bool := is_lower c || is_upper c || byte_eqb c "_".

(** [isValidWildcardName] *)
Definition isValidWildcardName (name : bytes) : bool :=
  if is_ascii (of_bytes name) then
    match name with [] => false | c :: name' => is_letter c && forallb (fun c => is_letter c || is_digit c) name' end
  else unicode_wildcard_name (of_bytes name).

(** [strings.CutSuffix(name, "...")] *)
Definition cut_dots (name : bytes) : bytes * bool :=
  let dots := to_bytes "..." in
  let k := (length name - 3)%nat in
  if bool_decide (drop k name = dots) then (take k name, true) else (name, false).

(** The text between the braces, of a segment that starts with one. *)
Definition wildcard_name (seg : bytes) : option bytes :=
  match reverse (tail seg) with
  | c :: name => if byte_eqb c "}" then Some (reverse name) else None
  | [] => None
  end.

(** The loop over the segments: a wildcard is a whole segment, named once, and
    [{$}] and [{name...}] come last. *)
Fixpoint segments_ok (seen : list bytes) (segs : list bytes) : bool :=
  match segs with
  | [] => true
  | seg :: segs' =>
      let last := match segs' with [] => true | _ => false end in
      match index_byte "{" seg with
      | None => segments_ok seen segs'
      | Some (S _) => false
      | Some O =>
          match wildcard_name seg with
          | None => false
          | Some name =>
              if bool_decide (name = to_bytes "$") then last
              else
                let '(name, multi) := cut_dots name in
                negb (multi && negb last) && isValidWildcardName name && negb (bool_decide (name ∈ seen))
                && segments_ok (name :: seen) segs'
          end
      end
  end.

Definition is_blank (c : ascii) : bool := byte_eqb c " " || byte_eqb c "009".

Fixpoint index_blank (s : bytes) : option nat :=
  match s with [] => None | c :: s' => if is_blank c then Some O else S <$> index_blank s' end.

Fixpoint trim_blanks (s : bytes) : bytes :=
  match s with [] => [] | c :: s' => if is_blank c then trim_blanks s' else s end.

(** The host and path of a pattern, after its method. *)
Definition host_path_ok (method : bytes) (rest : bytes) : bool :=
  match index_byte "/" rest with
  | None => false
  | Some i =>
      let path := drop i rest in
      match index_byte "{" (take i rest) with
      | Some _ => false
      | None =>
          (bool_decide (method = []) || bool_decide (method = to_bytes "CONNECT")
           || String.eqb (of_bytes path) (cleanPath (of_bytes path)))
          && segments_ok [] (split_bytes "/" (tail path))
      end
  end.

(** Whether [parsePattern] accepts. *)
Definition pattern_ok (pattern : string) : bool :=
  let s := to_bytes pattern in
  match index_blank s with
  | None => host_path_ok [] s
  | Some i => forallb header_byte (take i s) && host_path_ok (take i s) (trim_blanks (drop (S i) s))
  end.

(** A pattern names a path: a string without a slash is never one. *)
Lemma pattern_has_slash pattern : pattern_ok pattern = true -> "/"%char ∈ to_bytes pattern.
Proof.
  assert (forall m rest, host_path_ok m rest = true -> "/"%char ∈ rest) as Hrest.
  { intros m rest. unfold host_path_ok. destruct (index_byte "/" rest) as [i|] eqn:E; [|done]. intros _. clear m.
    revert i E. induction rest as [|c rest IH]; cbn; [done|]. destruct (byte_eqb c "/") eqn:Ec; intros i.
    - intros _. apply Ascii.eqb_eq in Ec as ->. by left.
    - destruct (index_byte "/" rest); [|done]. intros _. right. by eapply IH. }
  assert (forall s, "/"%char ∈ trim_blanks s -> "/"%char ∈ s) as Htrim.
  { induction s as [|c s IH]; cbn; [done|]. destruct (is_blank c); [|done]. intros ?. right. by apply IH. }
  unfold pattern_ok. destruct (index_blank _) as [i|]; [|apply Hrest].
  intros [_ Hr%Hrest%Htrim]%andb_prop. apply list_elem_of_lookup in Hr as [j Hj].
  rewrite lookup_drop in Hj. by eapply list_elem_of_lookup_2.
Qed.

End Patterns.

Section Examples.
#[local] Instance ascii_names : LetterTables := {| unicode_wildcard_name _ := false |}.

Example pattern_examples :
  map pattern_ok ["/metrics" : string; "/"; "metrics"; ""; "GET /metrics"; "GET /a//b"; "/a//b"; "/{id}/x"; "/{id"; "/x{id}";
    "/{a}/{a}"; "/{rest...}"; "/{rest...}/"; "/{$}"; "host/x"; "{h}/x"; "B@D /x"; "/{1}"; " /x"]
  = [true; true; false; false; true; false; true; true; false; false;
     false; true; false; true; true; false; false; false; true].
Proof. reflexivity. Qed.
End Examples.
