(* ===== verification/Netip.v ===== *)
(** * Go's [net/netip]: addresses, prefixes and their parsers

    An address is the zero (invalid) value, an IPv4 address of 32 bits, or an
    IPv6 address of 128 bits with a zone ([""] when there is none).  The
    parsers follow the standard library's loops byte by byte; they return
    [None] where the library returns an error. *)
From stdpp Require Import pretty.
From S2P Require Import Prelude GoStrings.

Inductive Addr : Type :=
  | AddrZero
  | Addr4 (v : Z)
  | Addr6 (v : Z) (zone : string).

#[export] Instance Addr_eq_dec : EqDecision Addr.
Proof. solve_decision. Defined.

#[export] Program Instance Addr_countable : Countable Addr :=
  inj_countable'
    (fun a => match a with
              | AddrZero => None
              | Addr4 v => Some (inl v)
              | Addr6 v z => Some (inr (v, z))
              end)
    (fun x : option (Z + Z * string) =>
              match x with
              | None => AddrZero
              | Some (inl v) => Addr4 v
              | Some (inr (v, z)) => Addr6 v z
              end) _.
Next Obligation. by intros []. Qed.

Definition IsValid (a : Addr) : bool := match a with AddrZero => false | _ => true end.
Definition Is4 (a : Addr) : bool := match a with Addr4 _ => true | _ => false end.
Definition Is6 (a : Addr) : bool := match a with Addr6 _ _ => true | _ => false end.
Definition BitLen (a : Addr) : Z := match a with AddrZero => 0 | Addr4 _ => 32 | Addr6 _ _ => 128 end.
Definition zone_of (a : Addr) : string := match a with Addr6 _ z => z | _ => "" end.
Definition hasZone (a : Addr) : bool := negb (String.eqb (zone_of a) "").
Definition addr_bits (a : Addr) : Z := match a with AddrZero => 0 | Addr4 v => v | Addr6 v _ => v end.

(** The IPv4-mapped IPv6 addresses, [::ffff:a.b.c.d]. *)
Definition Is4In6 (a : Addr) : bool :=
  match a with Addr6 v _ => Z.shiftr v 32 =? 0xffff | _ => false end.
Definition Unmap (a : Addr) : Addr :=
  match a with
  | Addr6 v _ => if Is4In6 a then Addr4 (Z.land v 0xffffffff) else a
  | _ => a
  end.

(** The big-endian bytes of an address. *)
Fixpoint be_bytes (n : nat) (v : Z) : list Z :=
  match n with
  | O => []
  | S n' => Z.land (Z.shiftr v (8 * Z.of_nat n')) 255 :: be_bytes n' v
  end.
Definition AsSlice (a : Addr) : list Z :=
  match a with AddrZero => [] | Addr4 v => be_bytes 4 v | Addr6 v _ => be_bytes 16 v end.

(** ** [ParseAddr] *)

Fixpoint parseIPv4Fields (s : bytes) (first prevdot : bool) (val digLen : Z) (fields : list Z)
  : option (list Z) :=
  match s with
  | [] => if Nat.ltb (length fields) 3 then None else Some (fields ++ [val])
  | c :: s' =>
      if is_digit c then
        if (digLen =? 1) && (val =? 0) then None
        else
          let val' := val * 10 + (code c - 48) in
          if 255 <? val' then None else parseIPv4Fields s' false false val' (digLen + 1) fields
      else if byte_eqb c "." then
        if first || match s' with [] => true | _ => false end || prevdot then None
        else if Nat.eqb (length fields) 3 then None
        else parseIPv4Fields s' false true 0 0 (fields ++ [val])
      else None
  end.

Definition be_value (base : Z) (ds : list Z) : Z := foldl (fun acc d => acc * base + d) 0 ds.

Definition parseIPv4 (s : bytes) : option Addr :=
  fs ← parseIPv4Fields s true false 0 0 []; Some (Addr4 (be_value 256 fs)).

(** The hexadecimal digits at the head of [s]: their count, value, and the rest. *)
Fixpoint scan_hex (s : bytes) (off : nat) (acc : Z) : option (nat * Z * bytes) :=
  match s with
  | [] => Some (off, acc, [])
  | c :: s' =>
      match hexval c with
      | None => Some (off, acc, s)
      | Some d =>
          let acc' := acc * 16 + d in
          if Nat.ltb 3 off then None
          else if 65535 <? acc' then None
          else scan_hex s' (S off) acc'
      end
  end.

(** The loop of [parseIPv6] over 16-bit groups: [fuel] starts at 8, the loop's
    own bound ([i < 16] with [i] advancing by 2).  Returns the groups, the
    position of the ellipsis, and the unread bytes. *)
Fixpoint parseIPv6_loop (fuel : nat) (s : bytes) (groups : list Z) (ellipsis : option nat)
  : option (list Z * option nat * bytes) :=
  match fuel with
  | O => Some (groups, ellipsis, s)
  | S fuel' =>
      match scan_hex s 0 0 with
      | None => None
      | Some (off, acc, rest) =>
          if Nat.eqb off 0 then None
          else match rest with
          | [] => Some (groups ++ [acc], ellipsis, [])
          | c :: rest' =>
              if byte_eqb c "." then
                if match ellipsis with None => negb (Nat.eqb (length groups) 6) | Some _ => false end then None
                else if Nat.ltb 6 (length groups) then None
                else match parseIPv4Fields s true false 0 0 [] with
                     | Some [a; b; c; d] => Some (groups ++ [a * 256 + b; c * 256 + d], ellipsis, [])
                     | _ => None
                     end
              else if byte_eqb c ":" then
                match rest' with
                | [] => None
                | d :: rest'' =>
                    if byte_eqb d ":" then
                      match ellipsis with
                      | Some _ => None
                      | None =>
                          let e := Some (S (length groups)) in
                          match rest'' with
                          | [] => Some (groups ++ [acc], e, [])
                          | _ => parseIPv6_loop fuel' rest'' (groups ++ [acc]) e
                          end
                      end
                    else parseIPv6_loop fuel' rest' (groups ++ [acc]) ellipsis
                end
              else None
          end
      end
  end.

(** The end of [parseIPv6]: the whole string read, the ellipsis expanded. *)
Definition expand_groups (groups : list Z) (ellipsis : option nat) (rest : bytes) : option (list Z) :=
  match rest with
  | _ :: _ => None
  | [] =>
      if Nat.ltb (length groups) 8 then
        e ← ellipsis;
        Some (take e groups ++ replicate (8 - length groups) 0 ++ drop e groups)
      else match ellipsis with None => Some groups | Some _ => None end
  end.

Definition parseIPv6_body (s : bytes) (zone : string) : option Addr :=
  let finish (r : option (list Z * option nat * bytes)) :=
    '(groups, ellipsis, rest) ← r;
    gs ← expand_groups groups ellipsis rest;
    Some (Addr6 (be_value 65536 gs) zone) in
  match s with
  | c1 :: c2 :: s' =>
      if byte_eqb c1 ":" && byte_eqb c2 ":" then
        match s' with
        | [] => Some (Addr6 0 zone)
        | _ => finish (parseIPv6_loop 8 s' [] (Some 0%nat))
        end
      else finish (parseIPv6_loop 8 s [] None)
  | _ => finish (parseIPv6_loop 8 s [] None)
  end.

Definition parseIPv6 (s : bytes) : option Addr :=
  match index_byte "%" s with
  | None => parseIPv6_body s ""
  | Some i =>
      match drop (S i) s with
      | [] => None
      | z => parseIPv6_body (take i s) (of_bytes z)
      end
  end.

(** The first of the three bytes decides the family. *)
Fixpoint addr_family (s : bytes) : option ascii :=
  match s with
  | [] => None
  | c :: s' =>
      if byte_eqb c "." || byte_eqb c ":" || byte_eqb c "%" then Some c else addr_family s'
  end.

Definition ParseAddr (s : string) : option Addr :=
  match addr_family (to_bytes s) with
  | Some c =>
      if byte_eqb c "." then parseIPv4 (to_bytes s)
      else if byte_eqb c ":" then parseIPv6 (to_bytes s)
      else None
  | None => None
  end.

(** ** Prefixes *)

Record Prefix := mkPrefix { p_ip : Addr; p_bits : Z }.

#[export] Instance Prefix_eq_dec : EqDecision Prefix.
Proof. solve_decision. Defined.

Definition Prefix_IsValid (p : Prefix) : bool :=
  IsValid (p_ip p) && (0 <=? p_bits p) && (p_bits p <=? BitLen (p_ip p)).

Definition ParsePrefix (s : string) : option Prefix :=
  let b := to_bytes s in
  i ← last_index_byte "/" b;
  ip ← ParseAddr (of_bytes (take i b));
  if Is6 ip && hasZone ip then None
  else
    let bitsStr := drop (S i) b in
    if Nat.ltb 1 (length bitsStr) &&
       match bitsStr with c :: _ => negb (in_range 49 57 c) | [] => false end
    then None
    else
      bits ← Atoi (of_bytes bitsStr);
      if (bits <? 0) || (BitLen ip <? bits) then None else Some (mkPrefix ip bits).

(** The high [n] bits of 128. *)
Definition mask6 (n : Z) : Z := 2 ^ 128 - 2 ^ (128 - n).

Definition Prefix_Contains (p : Prefix) (ip : Addr) : bool :=
  if negb (Prefix_IsValid p) || hasZone ip then false
  else match p_ip p, ip with
  | Addr4 a, Addr4 v => uint32 (Z.shiftr (Z.lxor v a) (Z.land (32 - p_bits p) 63)) =? 0
  | Addr6 a _, Addr6 v _ => Z.land (Z.lxor v a) (mask6 (p_bits p)) =? 0
  | _, _ => false
  end.

(** ** Well-formedness *)

Definition addr_wf (a : Addr) : Prop := 0 <= addr_bits a < 2 ^ BitLen a.

Definition prefix_wf (p : Prefix) : Prop :=
  addr_wf (p_ip p) /\ Prefix_IsValid p = true /\ zone_of (p_ip p) = "".

(** The first and the last address of a prefix, as bits. *)
Definition prefix_size (p : Prefix) : Z := 2 ^ (BitLen (p_ip p) - p_bits p).
Definition prefix_first (p : Prefix) : Z := addr_bits (p_ip p) / prefix_size p * prefix_size p.
Definition prefix_last (p : Prefix) : Z := prefix_first p + prefix_size p - 1.

(** An address lies in the prefix's range: same family, no zone, and its bits
    between the first and the last address. *)
Definition prefix_range (p : Prefix) (ip : Addr) : Prop :=
  BitLen ip = BitLen (p_ip p) /\ zone_of ip = "" /\
  prefix_first p <= addr_bits ip <= prefix_last p.

(** ** The parsers build well-formed values *)

Definition digits_in (base : Z) (ds : list Z) : Prop := Forall (fun d => 0 <= d < base) ds.

Lemma be_value_app base ds d : be_value base (ds ++ [d]) = be_value base ds * base + d.
Proof. unfold be_value. by rewrite foldl_app. Qed.

Lemma be_value_bound base ds :
  0 < base -> digits_in base ds -> 0 <= be_value base ds < base ^ Z.of_nat (length ds).
Proof.
  intros Hb. induction ds as [|d ds IH] using rev_ind; intros Hds; [cbn; lia|].
  apply Forall_app in Hds as [Hds Hd]. apply Forall_cons in Hd as [Hd _]. specialize (IH Hds).
  rewrite be_value_app, length_app, Nat2Z.inj_add, Z.pow_add_r by lia. cbn [length].
  change (Z.of_nat 1) with 1. rewrite Z.pow_1_r.
  set (P := base ^ Z.of_nat (length ds)) in *.
  assert ((be_value base ds + 1) * base <= P * base) by (apply Z.mul_le_mono_nonneg_r; lia).
  assert (0 <= be_value base ds * base) by (apply Z.mul_nonneg_nonneg; lia). lia.
Qed.

Lemma parseIPv4Fields_spec s first prevdot val digLen fields fs :
  digits_in 256 fields -> 0 <= val < 256 -> (length fields <= 3)%nat ->
  parseIPv4Fields s first prevdot val digLen fields = Some fs ->
  digits_in 256 fs /\ length fs = 4%nat.
Proof.
  unfold digits_in. revert first prevdot val digLen fields.
  induction s as [|c s IH]; intros first prevdot val digLen fields Hf Hv Hl; cbn [parseIPv4Fields].
  - destruct (Nat.ltb_spec (length fields) 3); [done|]. intros [= <-].
    rewrite length_app. cbn. split; [|lia]. apply Forall_app. by rewrite Forall_singleton.
  - destruct (is_digit c) eqn:Ed; [|destruct (byte_eqb c "."); [|done]].
    + case_match; [done|]. case_match eqn:E255; [done|]. apply IH; try done.
      unfold is_digit, in_range in Ed. lia.
    + case_match; [done|]. destruct (Nat.eqb_spec (length fields) 3); [done|].
      apply IH; [|lia|].
      * apply Forall_app. by rewrite Forall_singleton.
      * rewrite length_app. cbn. lia.
Qed.

Lemma hexval_bound c d : hexval c = Some d -> 0 <= d < 16.
Proof.
  unfold hexval, is_digit, in_range. repeat case_match; intros H'; simplify_eq; lia.
Qed.

Lemma scan_hex_bound s off acc off' acc' rest :
  0 <= acc < 65536 -> scan_hex s off acc = Some (off', acc', rest) -> 0 <= acc' < 65536.
Proof.
  revert off acc. induction s as [|c s IH]; intros off acc Ha; cbn [scan_hex]; [by intros [= _ <- _]|].
  destruct (hexval c) as [d|] eqn:E; [|by intros [= _ <- _]]. apply hexval_bound in E.
  case_match; [done|]. case_match eqn:E2; [done|]. apply IH. lia.
Qed.

Lemma parseIPv6_loop_bound fuel s groups e gs e' rest :
  digits_in 65536 groups ->
  parseIPv6_loop fuel s groups e = Some (gs, e', rest) -> digits_in 65536 gs.
Proof.
  unfold digits_in. revert s groups e.
  induction fuel as [|fuel IH]; intros s groups e Hg; cbn [parseIPv6_loop]; [by intros [= <- _ _]|].
  destruct (scan_hex s 0 0) as [[[off acc] r]|] eqn:E; [|done].
  apply scan_hex_bound in E; [|lia].
  assert (Forall (fun d => 0 <= d < 65536) (groups ++ [acc])) as Hg'
    by (apply Forall_app; by rewrite Forall_singleton).
  repeat case_match; intros H'; simplify_eq; try done; try by apply IH in H'.
  all: match goal with H : parseIPv4Fields _ _ _ _ _ _ = _ |- _ =>
    apply parseIPv4Fields_spec in H as [H _]; [|by constructor|lia|cbn; lia] end.
  all: apply Forall_app; split; [done|].
  all: unfold digits_in in *; rewrite ?Forall_cons in *; split_and!; try done; lia.
Qed.

Lemma expand_groups_spec groups e rest gs :
  digits_in 65536 groups -> (length groups <= 8)%nat ->
  expand_groups groups e rest = Some gs -> digits_in 65536 gs /\ length gs = 8%nat.
Proof.
  unfold digits_in, expand_groups. intros Hg Hl. destruct rest; [|done].
  destruct (Nat.ltb_spec (length groups) 8).
  - destruct e as [e|]; cbn; [|done]. intros [= <-]. split.
    + rewrite !Forall_app. split_and!; [by apply Forall_take| |by apply Forall_drop].
      apply Forall_replicate. lia.
    + rewrite !length_app, length_replicate, length_take, length_drop. lia.
  - destruct e; [done|]. intros [= <-]. split; [done|lia].
Qed.

(** Every round adds one group, and the embedded IPv4 address, which adds two,
    is accepted with at most six groups before it. *)
Lemma parseIPv6_loop_length fuel s groups e gs e' rest :
  (length groups + fuel <= 8)%nat ->
  parseIPv6_loop fuel s groups e = Some (gs, e', rest) -> (length gs <= 8)%nat.
Proof.
  revert s groups e.
  induction fuel as [|fuel IH]; intros s groups e Hl; cbn [parseIPv6_loop];
    [intros [= <- _ _]; lia|].
  destruct (scan_hex s 0 0) as [[[off acc] r]|]; [|done].
  assert (length (groups ++ [acc]) = S (length groups)) as Hs
    by (rewrite length_app; cbn; lia).
  repeat case_match; intros H'; simplify_eq; try done;
    try (eapply IH, H'; lia); rewrite ?length_app in *; cbn [length] in *; try lia.
  all: match goal with H : (6 <? _)%nat = false |- _ => apply Nat.ltb_ge in H; lia end.
Qed.

Lemma ParseAddr_wf s a : ParseAddr s = Some a -> addr_wf a /\ a <> AddrZero.
Proof.
  assert (Hbody : forall b z a, parseIPv6_body b z = Some a -> addr_wf a /\ a <> AddrZero).
  { intros b z a'. unfold parseIPv6_body.
    assert (forall f l e, (length l + f <= 8)%nat -> digits_in 65536 l -> forall b,
      ('(groups, ellipsis, rest) ← parseIPv6_loop f b l e;
       gs ← expand_groups groups ellipsis rest; Some (Addr6 (be_value 65536 gs) z)) = Some a' ->
      addr_wf a' /\ a' <> AddrZero) as Hfin.
    { intros f l e Hl Hd b'.
      destruct (parseIPv6_loop f b' l e) as [[[gs e'] r]|] eqn:E; cbn; [|done].
      destruct (expand_groups gs e' r) as [gs'|] eqn:E2; cbn; [|done]. intros [= <-].
      apply expand_groups_spec in E2 as [Hgs Hlen];
        [|by eapply parseIPv6_loop_bound|by eapply parseIPv6_loop_length].
      split; [|done]. unfold addr_wf. cbn. apply be_value_bound in Hgs; [|lia].
      rewrite Hlen in Hgs. exact Hgs. }
    assert (digits_in 65536 []) by constructor.
    repeat case_match; try (apply Hfin; cbn; [lia|done]).
    intros [= <-]. split; [|done]. unfold addr_wf. cbn. lia. }
  unfold ParseAddr, parseIPv4, parseIPv6. repeat case_match; try done; eauto.
  destruct (parseIPv4Fields _ _ _ _ _ _) as [fs|] eqn:E; cbn; [|done]. intros [= <-].
  apply parseIPv4Fields_spec in E as [Hf Hl]; [|by constructor|lia|cbn; lia].
  apply be_value_bound in Hf; [|lia]. rewrite Hl in Hf. split; [exact Hf|done].
Qed.

Lemma ParsePrefix_wf s p : ParsePrefix s = Some p -> prefix_wf p.
Proof.
  unfold ParsePrefix, prefix_wf, Prefix_IsValid.
  destruct (last_index_byte _ _) as [i|]; cbn; [|done].
  destruct (ParseAddr _) as [ip|] eqn:E; cbn; [|done]. apply ParseAddr_wf in E as [Hwf Hv].
  pass_guard Ez.
  pass_guard Eg. destruct (Atoi _) as [bits|]; cbn; [|done]. pass_guard Eb. intros [= <-]. cbn.
  split_and!; [done| |].
  - destruct ip; cbn in *; try done; lia.
  - destruct ip as [| |v z]; cbn in *; try done.
    unfold hasZone in Ez. cbn in Ez. destruct (String.eqb_spec z ""); done.
Qed.

(** ** [Prefix.Contains] as an interval of addresses

    Both masks keep the bits above the prefix's host part, so containment is
    equality of the quotients by the prefix's size. *)

Lemma lxor_shiftr_eq0 a b n :
  0 <= n -> Z.shiftr (Z.lxor a b) n = 0 <-> a / 2 ^ n = b / 2 ^ n.
Proof. intros Hn. rewrite Z.shiftr_lxor, Z.lxor_eq_0_iff, !Z.shiftr_div_pow2 by lia. done. Qed.

Lemma mask6_shiftl n : 0 <= n <= 128 -> mask6 n = Z.shiftl (Z.ones n) (128 - n).
Proof.
  intros Hn. unfold mask6. rewrite Z.shiftl_mul_pow2, Z.ones_equiv by lia.
  rewrite <- Z.sub_1_r, Z.mul_sub_distr_r, <- Z.pow_add_r by lia.
  replace (n + (128 - n)) with 128 by lia. lia.
Qed.

(** Below [2^128], masking with [mask6 n] and shifting agree on being zero. *)
Lemma land_mask6_eq0 x n :
  0 <= x < 2 ^ 128 -> 0 <= n <= 128 -> Z.land x (mask6 n) = 0 <-> Z.shiftr x (128 - n) = 0.
Proof.
  intros Hx Hn. rewrite mask6_shiftl by lia.
  assert (Z.land x (Z.shiftl (Z.ones n) (128 - n)) = Z.shiftl (Z.shiftr x (128 - n)) (128 - n)) as ->.
  { apply Z.bits_inj'. intros i Hi. rewrite Z.land_spec.
    destruct (decide (i < 128 - n)) as [Hlt|Hge].
    - rewrite !Z.shiftl_spec_low by lia. by rewrite andb_false_r.
    - rewrite !Z.shiftl_spec, Z.shiftr_spec by lia.
      replace (i - (128 - n) + (128 - n)) with i by lia.
      destruct (decide (i < 128)).
      + rewrite Z.ones_spec_low by lia. by rewrite andb_true_r.
      + rewrite Z.ones_spec_high by lia. rewrite andb_false_r. symmetry.
        destruct (decide (x = 0)) as [->|]; [apply Z.bits_0|].
        apply Z.bits_above_log2; [lia|].
        enough (Z.log2 x < 128) by lia. apply Z.log2_lt_pow2; lia. }
  rewrite Z.shiftl_mul_pow2 by lia.
  assert (2 ^ (128 - n) <> 0) by (apply Z.pow_nonzero; lia). nia.
Qed.

Lemma div_interval a b k : 0 < k -> a / k = b / k <-> b / k * k <= a <= b / k * k + k - 1.
Proof. intros Hk. split; intros H; [|symmetry; apply Z.div_unique with (a - b / k * k)];
  Z.to_euclidean_division_equations; nia. Qed.

Lemma log2_bound w a : 0 < w -> 0 <= a < 2 ^ w -> Z.log2 a < w.
Proof.
  intros Hw Ha. destruct (decide (a = 0)) as [->|]; [cbn; lia|]. apply Z.log2_lt_pow2; lia.
Qed.

Lemma lxor_bound w a b :
  0 < w -> 0 <= a < 2 ^ w -> 0 <= b < 2 ^ w -> 0 <= Z.lxor a b < 2 ^ w.
Proof.
  intros Hw Ha Hb. assert (0 <= Z.lxor a b) by (apply Z.lxor_nonneg; lia). split; [done|].
  destruct (decide (Z.lxor a b = 0)) as [->|]; [apply Z.pow_pos_nonneg; lia|].
  apply Z.log2_lt_pow2; [lia|]. pose proof (Z.log2_lxor a b).
  pose proof (log2_bound w a Hw Ha). pose proof (log2_bound w b Hw Hb). lia.
Qed.

(** Equality of the top [n] bits of two addresses, as the code tests it in
    each family. *)
Lemma contains4 v a n :
  0 <= v < 2 ^ 32 -> 0 <= a < 2 ^ 32 -> 0 <= n <= 32 ->
  (uint32 (Z.shiftr (Z.lxor v a) (Z.land (32 - n) 63)) =? 0) = true
  <-> v / 2 ^ (32 - n) = a / 2 ^ (32 - n).
Proof.
  intros Hv Ha Hn. rewrite Z.eqb_eq.
  assert (Z.land (32 - n) 63 = 32 - n) as ->.
  { change 63 with (Z.ones 6). rewrite Z.land_ones by lia. apply Z.mod_small. lia. }
  rewrite <- lxor_shiftr_eq0 by lia. unfold uint32.
  rewrite wrapU_id; [done|]. rewrite Z.shiftr_div_pow2 by lia.
  pose proof (lxor_bound 32 v a ltac:(lia) Hv Ha).
  assert (0 < 2 ^ (32 - n)) by (apply Z.pow_pos_nonneg; lia).
  split; [apply Z.div_pos; lia|].
  apply Z.le_lt_trans with (Z.lxor v a); [|lia]. apply Z.div_le_upper_bound; nia.
Qed.

Lemma contains6 v a n :
  0 <= v < 2 ^ 128 -> 0 <= a < 2 ^ 128 -> 0 <= n <= 128 ->
  (Z.land (Z.lxor v a) (mask6 n) =? 0) = true <-> v / 2 ^ (128 - n) = a / 2 ^ (128 - n).
Proof.
  intros Hv Ha Hn. rewrite Z.eqb_eq, <- lxor_shiftr_eq0 by lia.
  apply land_mask6_eq0; [by apply lxor_bound|lia].
Qed.

(** [Contains] is membership in the prefix's interval of addresses. *)
Lemma Prefix_Contains_range p ip :
  prefix_wf p -> addr_wf ip -> Prefix_Contains p ip = true <-> prefix_range p ip.
Proof.
  intros (Hwf & Hv & Hz) Hip. unfold Prefix_Contains, prefix_range. rewrite Hv. cbn [negb orb].
  assert (Hzone : hasZone ip = false <-> zone_of ip = "").
  { unfold hasZone. rewrite negb_false_iff. apply String.eqb_eq. }
  unfold Prefix_IsValid in Hv. apply andb_prop in Hv as [Hv1 Hv2]. apply andb_prop in Hv1 as [Hv0 Hv1].
  apply Z.leb_le in Hv1, Hv2.
  assert (forall w v a, 0 <= p_bits p <= w -> v / 2 ^ (w - p_bits p) = a / 2 ^ (w - p_bits p) <->
    a / 2 ^ (w - p_bits p) * 2 ^ (w - p_bits p) <= v <=
    a / 2 ^ (w - p_bits p) * 2 ^ (w - p_bits p) + 2 ^ (w - p_bits p) - 1) as Hdiv.
  { intros. apply div_interval. apply Z.pow_pos_nonneg; lia. }
  unfold prefix_last, prefix_first, prefix_size. destruct p as [pa n]; cbn [p_ip p_bits] in *.
  destruct (hasZone ip) eqn:Eh.
  { split; [done|]. intros (_ & Hzip & _). by apply Hzone in Hzip. }
  pose proof (proj1 Hzone eq_refl) as Hzip.
  destruct pa as [|a|a za], ip as [|v|v zv]; cbn [BitLen addr_bits] in *; try done;
    try (split; [done|lia]).
  - rewrite contains4, Hdiv by (done || lia).
    split; [by intros []; split_and!|by intros (_ & _ & ?)].
  - rewrite contains6, Hdiv by (done || lia).
    split; [by intros []; split_and!|by intros (_ & _ & ?)].
Qed.

(** An address with a zone is in no prefix. *)
Lemma Prefix_Contains_zone p ip : hasZone ip = true -> Prefix_Contains p ip = false.
Proof. intros H. unfold Prefix_Contains. by rewrite H, orb_true_r. Qed.

Lemma Unmap_wf a : addr_wf a -> addr_wf (Unmap a).
Proof.
  destruct a as [|v|v z]; [done|done|]. unfold addr_wf, Unmap. case_match; [|done].
  intros _. cbn. change 0xffffffff with (Z.ones 32). rewrite Z.land_ones by lia.
  apply Z.mod_pos_bound. lia.
Qed.

Lemma Unmap_not_4in6 a : Is4In6 (Unmap a) = false.
Proof. destruct a as [|v|v z]; [done|done|]. unfold Unmap. by case_match. Qed.

Lemma Unmap_valid a : IsValid (Unmap a) = IsValid a.
Proof. destruct a as [|v|v z]; [done|done|]. unfold Unmap. by case_match. Qed.

Lemma AsSlice_bytes a : Forall (fun b => 0 <= b < 256) (AsSlice a).
Proof.
  assert (forall n v, Forall (fun b => 0 <= b < 256) (be_bytes n v)) as H.
  { induction n as [|n IH]; intros v; constructor; [|done].
    change 255 with (Z.ones 8). rewrite Z.land_ones by lia. apply Z.mod_pos_bound. lia. }
  destruct a; [constructor|apply H|apply H].
Qed.

#[export] Hint Resolve Unmap_wf AsSlice_bytes ParsePrefix_wf : firewall.

#[global] Arguments ParseAddr : simpl never.
#[global] Arguments ParsePrefix : simpl never.
#[global] Arguments Prefix_Contains : simpl never.
#[global] Arguments Unmap : simpl never.
#[global] Arguments Is4In6 : simpl never.

(** ** [Addr.String] *)

Fixpoint hex_digits (fuel : nat) (v : Z) (acc : string) : string :=
  match fuel with
  | O => acc
  | S fuel' =>
      let d := v mod 16 in
      let acc := String (chr (if d <? 10 then 48 + d else 87 + d)) acc in
      if v / 16 =? 0 then acc else hex_digits fuel' (v / 16) acc
  end.

(** A group of four hexadecimal digits, without leading zeros. *)
Definition hex16 (v : Z) : string := hex_digits 4 v "".

Fixpoint zero_run (gs : list Z) : nat :=
  match gs with g :: gs' => if g =? 0 then S (zero_run gs') else 0%nat | [] => 0%nat end.

(** The first longest run of two or more zero groups: start and length. *)
Fixpoint longest_run (i : nat) (gs : list Z) (best : nat * nat) : nat * nat :=
  match gs with
  | [] => best
  | _ :: gs' =>
      let l := zero_run gs in
      longest_run (S i) gs' (if (2 <=? l)%nat && (snd best <? l)%nat then (i, l) else best)
  end.

Fixpoint groups_string (fuel i : nat) (gs : list Z) (run : nat * nat) : string :=
  match fuel with
  | O => ""
  | S fuel' =>
      let in_run := (0 <? snd run)%nat && (i =? fst run)%nat in
      let '(sep, i) := if in_run then ("::", (i + snd run)%nat) else ((if (0 <? i)%nat then ":" else ""), i) in
      match gs !! i with
      | Some g => sep +:+ hex16 g +:+ groups_string fuel' (S i) gs run
      | None => if in_run then sep else ""
      end
  end.

Definition groups_of (v : Z) : list Z := (fun i => v / 2 ^ (112 - 16 * Z.of_nat i) mod 2 ^ 16) <$> seq 0 8.

Definition dotted (v : Z) : string :=
  pretty (v / 2 ^ 24) +:+ "." +:+ pretty (v / 2 ^ 16 mod 256) +:+ "." +:+
  pretty (v / 2 ^ 8 mod 256) +:+ "." +:+ pretty (v mod 256).

Definition Addr_String (a : Addr) : string :=
  match a with
  | AddrZero => "invalid IP"
  | Addr4 v => dotted v
  | Addr6 v z =>
      (if Is4In6 a then "::ffff:" +:+ dotted (addr_bits (Unmap a))
       else groups_string 9 0 (groups_of v) (longest_run 0 (groups_of v) (0, 0)%nat))
      +:+ (if String.eqb z "" then "" else "%" +:+ z)
  end.

#[local] Definition reprint (s : string) : option string := Addr_String <$> ParseAddr s.

Example String_examples :
  reprint "192.0.2.7" = Some "192.0.2.7" /\ reprint "2001:DB8:0:0:1:0:0:1" = Some "2001:db8::1:0:0:1" /\
  reprint "::1" = Some "::1" /\ reprint "fe80::%eth0" = Some "fe80::%eth0" /\
  reprint "::FFFF:10.0.0.1" = Some "::ffff:10.0.0.1" /\ reprint "1:0:2:3:4:5:6:7" = Some "1:0:2:3:4:5:6:7".
Proof. vm_compute. done. Qed.
