(* ===== verification/Netmatch.v ===== *)
(** * internal/netmatch: CIDR-set matching

    [NewMatcher] parses a list of CIDRs and picks one of two representations:
    a linear scan for up to [radixThreshold] prefixes, a [netipx.IPSet] above.
    netipx is a third-party package: the class [IPSetLib] is its interface and
    [IPSetSpec] what its documentation promises.  [RangeSet] is an instance, a
    list of address ranges. *)
From S2P Require Import Prelude GoStrings Netip.

(** ** The netipx interface *)

Class IPSetLib := {
  IPSetBuilder : Type;
  IPSetT : Type;
  emptyBuilder : IPSetBuilder;
  AddPrefix : IPSetBuilder -> Prefix -> IPSetBuilder;
  BuildIPSet : IPSetBuilder -> option IPSetT;
  IPSetContains : IPSetT -> Addr -> bool
}.

Definition build_prefixes `{IPSetLib} (ps : list Prefix) : option IPSetT :=
  BuildIPSet (foldl AddPrefix emptyBuilder ps).

(** A builder given valid prefixes builds a set, and the set holds the
    addresses of the prefixes added, zones never being in a set. *)
Class IPSetSpec `{IPSetLib} := {
  ipset_builds ps : Forall prefix_wf ps -> is_Some (build_prefixes ps);
  ipset_contains ps s ip :
    Forall prefix_wf ps -> addr_wf ip -> build_prefixes ps = Some s ->
    IPSetContains s ip = true <-> Exists (fun p => prefix_range p ip) ps
}.

(** ** The package *)

Section Netmatch.
Context `{IPSetLib}.

Definition radixThreshold : nat := 16.

Inductive Matcher : Type :=
  | linearMatcher (prefixes : list Prefix)
  | netipxMatcher (set : IPSetT).

Fixpoint linear_Contains (prefixes : list Prefix) (ip : Addr) : bool :=
  match prefixes with
  | [] => false
  | p :: ps => if Prefix_Contains p ip then true else linear_Contains ps ip
  end.

Definition netipx_Contains (set : IPSetT) (ip : Addr) : bool := IPSetContains set ip.

Definition Contains (m : Matcher) (ip : Addr) : bool :=
  match m with
  | linearMatcher prefixes => linear_Contains prefixes ip
  | netipxMatcher set => netipx_Contains set ip
  end.

(** The parsing loop, stopping at the first invalid CIDR. *)
Fixpoint parse_cidrs (cidrs : list string) : result (list Prefix) :=
  match cidrs with
  | [] => Ok []
  | c :: cs =>
      let! p := wrap_err "netmatch: invalid CIDR %q: %w" [c] (of_lib "netip.ParsePrefix" (ParsePrefix c)) in
      let! ps := parse_cidrs cs in
      Ok (p :: ps)
  end.

Definition NewMatcher (cidrs : list string) : result Matcher :=
  let! prefixes := parse_cidrs cidrs in
  if Nat.leb (length prefixes) radixThreshold then Ok (linearMatcher prefixes)
  else
    let! set := wrap_err "netmatch: build IP set: %w" []
                  (of_lib "netipx.IPSetBuilder.IPSet" (build_prefixes prefixes)) in
    Ok (netipxMatcher set).

(** ** The specification: a CIDR list denotes a set of addresses *)

Definition cidr_covers (ip : Addr) (c : string) : Prop :=
  exists p, ParsePrefix c = Some p /\ prefix_range p ip.

Definition valid_cidr (c : string) : Prop := is_Some (ParsePrefix c).

(** ** Lemmas *)

Lemma parse_cidrs_ok cidrs ps :
  parse_cidrs cidrs = Ok ps <-> Forall2 (fun c p => ParsePrefix c = Some p) cidrs ps.
Proof.
  revert ps. induction cidrs as [|c cs IH]; intros ps; cbn [parse_cidrs].
  { split; [intros [= <-]; constructor|by inversion 1]. }
  destruct (ParsePrefix c) as [p|] eqn:E; cbn.
  - destruct (parse_cidrs cs) as [qs|e]; cbn.
    + split.
      * intros [= <-]. constructor; [done|]. by apply IH.
      * inversion 1 as [|? q ? ps' Hq Hps]; subst. apply IH in Hps as [= ->]. congruence.
    + split; [done|]. inversion 1 as [|? q ? ps' Hq Hps]; subst. by apply IH in Hps.
  - split; [done|]. inversion 1; congruence.
Qed.

Lemma parse_cidrs_wf cidrs ps : parse_cidrs cidrs = Ok ps -> Forall prefix_wf ps.
Proof.
  rewrite parse_cidrs_ok. induction 1; constructor; eauto with firewall.
Qed.

Lemma parse_cidrs_valid cidrs :
  (exists ps, parse_cidrs cidrs = Ok ps) <-> Forall valid_cidr cidrs.
Proof.
  setoid_rewrite parse_cidrs_ok. split.
  - intros [ps Hps]. induction Hps; constructor; [by eexists|done].
  - induction 1 as [|c cs [p Hp] _ [ps IH]]; [by exists []|]. exists (p :: ps). by constructor.
Qed.

Lemma linear_Contains_exists ps ip :
  linear_Contains ps ip = true <-> Exists (fun p => Prefix_Contains p ip = true) ps.
Proof.
  induction ps as [|p ps IH]; cbn.
  - split; [done|]. by inversion 1.
  - rewrite Exists_cons. destruct (Prefix_Contains p ip); naive_solver.
Qed.

Lemma linear_Contains_range ps ip :
  Forall prefix_wf ps -> addr_wf ip ->
  linear_Contains ps ip = true <-> Exists (fun p => prefix_range p ip) ps.
Proof.
  intros Hps Hip. rewrite linear_Contains_exists. induction Hps as [|p ps Hp Hps IH].
  - split; by inversion 1.
  - by rewrite !Exists_cons, IH, Prefix_Contains_range.
Qed.

(** Both representations of the same prefixes contain the same addresses. *)
Lemma exists_range_covers cidrs ps ip :
  parse_cidrs cidrs = Ok ps ->
  Exists (fun p => prefix_range p ip) ps <-> Exists (cidr_covers ip) cidrs.
Proof.
  rewrite parse_cidrs_ok. induction 1 as [|c p cs ps Hp Hps IH].
  - split; by inversion 1.
  - rewrite !Exists_cons, IH. unfold cidr_covers. rewrite Hp. naive_solver.
Qed.

Lemma NewMatcher_parses cidrs m :
  NewMatcher cidrs = Ok m -> exists ps, parse_cidrs cidrs = Ok ps.
Proof. unfold NewMatcher. destruct (parse_cidrs cidrs); cbn; [eauto|done]. Qed.

Context `{!IPSetSpec}.

(** [NewMatcher] succeeds exactly on lists of valid CIDRs. *)
Lemma NewMatcher_ok cidrs : (exists m, NewMatcher cidrs = Ok m) <-> Forall valid_cidr cidrs.
Proof.
  rewrite <- parse_cidrs_valid. split; [by intros [m Hm]; eapply NewMatcher_parses|].
  intros [ps Hps]. unfold NewMatcher. rewrite Hps. cbn [result_bind].
  destruct (Nat.leb _ _); [eauto|].
  destruct (ipset_builds ps) as [s Hs]; [by eapply parse_cidrs_wf|]. rewrite Hs. cbn. eauto.
Qed.

Lemma Contains_covers cidrs m ip :
  NewMatcher cidrs = Ok m -> addr_wf ip ->
  Contains m ip = true <-> Exists (cidr_covers ip) cidrs.
Proof.
  intros Hm Hip. destruct (NewMatcher_parses _ _ Hm) as [ps Hps].
  pose proof (parse_cidrs_wf _ _ Hps) as Hwf.
  rewrite <- (exists_range_covers _ _ _ Hps). unfold NewMatcher in Hm. rewrite Hps in Hm.
  cbn [result_bind] in Hm. destruct (Nat.leb _ _).
  - injection Hm as <-. by apply linear_Contains_range.
  - destruct (build_prefixes ps) as [s|] eqn:Es; cbn in Hm; [|done]. injection Hm as <-.
    by apply ipset_contains.
Qed.

(** Two lists with the same CIDRs build matchers that agree, whatever the
    order, the repetitions, and the representation chosen. *)
Lemma Contains_ext cidrs1 cidrs2 m1 m2 ip :
  NewMatcher cidrs1 = Ok m1 -> NewMatcher cidrs2 = Ok m2 -> addr_wf ip ->
  (forall c, c ∈ cidrs1 <-> c ∈ cidrs2) ->
  Contains m1 ip = Contains m2 ip.
Proof.
  intros H1 H2 Hip Heq. apply eq_true_iff_eq.
  rewrite (Contains_covers _ _ _ H1), (Contains_covers _ _ _ H2), !Exists_exists by done.
  by setoid_rewrite Heq.
Qed.

Lemma NewMatcher_nil : NewMatcher [] = Ok (linearMatcher []).
Proof. done. Qed.

End Netmatch.

#[global] Arguments linearMatcher {_} _.
#[global] Arguments netipxMatcher {_} _.

(** ** An instance of the interface: a list of ranges

    Each valid prefix adds its range; an invalid one makes the build fail, as
    netipx's builder does. *)
Module RangeSet.

Definition range_of (p : Prefix) : Z * Z * Z := (BitLen (p_ip p), prefix_first p, prefix_last p).

Definition in_rangeb (ip : Addr) (r : Z * Z * Z) : bool :=
  let '(w, lo, hi) := r in
  (BitLen ip =? w) && negb (hasZone ip) && (lo <=? addr_bits ip) && (addr_bits ip <=? hi).

Definition add (b : list (Z * Z * Z) * bool) (p : Prefix) : list (Z * Z * Z) * bool :=
  if Prefix_IsValid p then (range_of p :: b.1, b.2) else (b.1, false).

#[export] Instance lib : IPSetLib := {|
  IPSetBuilder := list (Z * Z * Z) * bool;
  IPSetT := list (Z * Z * Z);
  emptyBuilder := ([], true);
  AddPrefix := add;
  BuildIPSet := fun b => if b.2 then Some b.1 else None;
  IPSetContains := fun s ip => existsb (in_rangeb ip) s
|}.

Lemma in_rangeb_spec p ip : in_rangeb ip (range_of p) = true <-> prefix_range p ip.
Proof.
  unfold in_rangeb, range_of, prefix_range, hasZone.
  rewrite !andb_true_iff, Z.eqb_eq, !Z.leb_le, negb_true_iff, negb_false_iff, String.eqb_eq. tauto.
Qed.

Lemma add_all ps b :
  Forall prefix_wf ps -> foldl add b ps = (reverse (range_of <$> ps) ++ b.1, b.2).
Proof.
  intros Hps. revert b. induction Hps as [|p ps (_ & Hv & _) Hps IH]; intros b; [by destruct b|].
  cbn [foldl]. rewrite IH, fmap_cons, reverse_cons, <- app_assoc. unfold add. by rewrite Hv.
Qed.

#[export] Instance spec : IPSetSpec.
Proof.
  split.
  - intros ps Hps. unfold build_prefixes. cbn. rewrite add_all by done. cbn. eauto.
  - intros ps s ip Hps Hip. unfold build_prefixes. cbn. rewrite add_all by done. cbn.
    intros [= <-]. rewrite app_nil_r, existsb_exists, Exists_exists. split.
    + intros (r & Hr & Hin). apply list_elem_of_In, elem_of_reverse, list_elem_of_fmap in Hr as (p & -> & Hp).
      exists p. by rewrite <- in_rangeb_spec.
    + intros (p & Hp & Hin). exists (range_of p). rewrite in_rangeb_spec. split; [|done].
      apply list_elem_of_In, elem_of_reverse, list_elem_of_fmap. eauto.
Qed.

End RangeSet.

#[global] Arguments Contains {_} : simpl never.
#[global] Arguments NewMatcher {_} : simpl never.
