(* ===== verification/Floats.v ===== *)
(** * Go's [float64]: whole numbers

    A float64 is a [spec_float] of the Standard Library with 53 bits of
    mantissa.  Whole numbers below 2^53 are exact, and so is a product of two
    of them that stays below: what the durations and latencies rely on. *)
From Corelib Require Import SpecFloat.
From S2P Require Import Prelude.

(** [float64(z)] *)
Definition float64 (z : Z) : spec_float := binary_normalize 53 1024 z 0 false.

Abbreviation fmul := (SFmul 53 1024).
Abbreviation fdiv := (SFdiv 53 1024).
Abbreviation fadd := (SFadd 53 1024).

(** [uint64(x)] of a float in range: towards zero. *)
Definition ftrunc (x : spec_float) : Z :=
  match x with
  | S754_finite false m e => Z.shiftl (Z.pos m) e
  | S754_finite true m e => - Z.shiftl (Z.pos m) e
  | _ => 0
  end.

(** ** Exactness *)

Lemma digits2_log2 p : Z.pos (digits2_pos p) = Z.log2 (Z.pos p) + 1.
Proof.
  induction p as [p IH|p IH|]; cbn [digits2_pos]; [| |done].
  - rewrite Pos2Z.inj_succ, IH. change (Z.pos p~1) with (2 * Z.pos p + 1). rewrite Z.log2_succ_double by lia. lia.
  - rewrite Pos2Z.inj_succ, IH. change (Z.pos p~0) with (2 * Z.pos p). rewrite Z.log2_double by lia. lia.
Qed.

Lemma iter_pos_nat {A} (f : A -> A) p x : SpecFloat.iter_pos f p x = Nat.iter (Pos.to_nat p) f x.
Proof.
  revert x. induction p as [p IH|p IH|]; intros x; cbn [SpecFloat.iter_pos]; rewrite ?IH, <- ?Nat.iter_add; [| |done].
  - rewrite Pos2Nat.inj_xI, <- Nat.iter_succ_r. f_equal. lia.
  - f_equal. lia.
Qed.

(** Dropping bits that are 0 loses nothing. *)
Lemma shr_exact n k :
  0 < n -> Nat.iter k shr_1 (Build_shr_record (n * 2 ^ Z.of_nat k) false false) = Build_shr_record n false false.
Proof.
  intros Hn. induction k as [|k IH]; [cbn; f_equal; lia|]. rewrite Nat.iter_succ_r, <- IH. f_equal.
  replace (n * 2 ^ Z.of_nat (S k)) with (2 * (n * 2 ^ Z.of_nat k)) by (rewrite Nat2Z.inj_succ, Z.pow_succ_r by lia; lia).
  assert (0 < n * 2 ^ Z.of_nat k) as Hpos by (apply Z.mul_pos_pos; [lia|apply Z.pow_pos_nonneg; lia]).
  by destruct (n * 2 ^ Z.of_nat k).
Qed.

(** A whole number [n] below 2^53 as it is stored: 53 bits of mantissa. *)
Definition exact (n : Z) : spec_float :=
  S754_finite false (Z.to_pos (n * 2 ^ (52 - Z.log2 n))) (Z.log2 n - 52).

Lemma log2_53 n : 0 < n < 2 ^ 53 -> 0 <= Z.log2 n <= 52.
Proof. intros [H0 H1]. split; [apply Z.log2_nonneg|]. apply Z.log2_lt_pow2 in H1; lia. Qed.

Lemma round_exact n j m :
  0 < n < 2 ^ 53 -> 0 <= j < 1000 -> 52 <= Z.log2 n + j -> Z.pos m = n * 2 ^ j ->
  binary_round_aux 53 1024 false (Z.pos m) (- j) loc_Exact = exact n.
Proof.
  intros Hn Hj Hd Hm. pose proof (log2_53 n Hn) as Hl.
  assert (forall x e, 0 < x -> Z.log2 x = 52 -> -1000 < e ->
    shr_fexp 53 1024 x e loc_Exact = (Build_shr_record x false false, e)) as Hid.
  { intros x e Hx Hlx He. unfold shr_fexp, fexp, emin.
    assert (Zdigits2 x = 53) as -> by (destruct x; [lia| |lia]; cbn [Zdigits2]; rewrite digits2_log2; lia).
    replace (Z.max (53 + e - 53) (3 - 1024 - 53) - e) with 0 by lia. done. }
  set (x := n * 2 ^ (52 - Z.log2 n)).
  assert (0 < x) as Hx by (apply Z.mul_pos_pos; [lia|apply Z.pow_pos_nonneg; lia]).
  assert (Z.log2 x = 52) as Hlx by (unfold x; rewrite Z.log2_mul_pow2 by lia; lia).
  assert (shr_fexp 53 1024 (Z.pos m) (- j) loc_Exact = (Build_shr_record x false false, Z.log2 n - 52)) as Hshr.
  { unfold shr_fexp, fexp, emin. cbn [Zdigits2]. rewrite digits2_log2, Hm, Z.log2_mul_pow2 by lia.
    replace (Z.max (j + Z.log2 n + 1 + - j - 53) (3 - 1024 - 53) - - j) with (Z.log2 n + j - 52) by lia.
    set (k := Z.log2 n + j - 52). assert (n * 2 ^ j = x * 2 ^ k) as ->.
    { unfold x, k. rewrite <- Z.mul_assoc, <- Z.pow_add_r by lia. do 2 f_equal. lia. }
    unfold shr, shr_record_of_loc. destruct k as [|p|p] eqn:Hk; [|rewrite iter_pos_nat|lia].
    - f_equal; [f_equal; lia|lia].
    - rewrite <- (positive_nat_Z p), shr_exact by done. f_equal. lia. }
  unfold binary_round_aux. rewrite Hshr. cbn [shr_m loc_of_shr_record round_nearest_even].
  rewrite Hid by (done || lia). cbn [shr_m]. unfold exact. fold x. destruct x as [|p|p]; [lia| |lia].
  destruct (Z.leb_spec (Z.log2 n - 52) (1024 - 53)); [done|lia].
Qed.

Lemma iter_xO k p : Z.pos (Pos.iter xO p k) = Z.pos p * 2 ^ Z.pos k.
Proof.
  induction k as [|k IH] using Pos.peano_ind; [cbn; lia|].
  rewrite Pos.iter_succ, Pos2Z.inj_succ, Z.pow_succ_r by lia. lia.
Qed.

Lemma float64_exact n : 0 < n < 2 ^ 53 -> float64 n = exact n.
Proof.
  intros Hn. pose proof (log2_53 n Hn) as Hl. destruct n as [|p|p]; [lia| |lia].
  unfold float64, binary_normalize, binary_round, fexp, emin. rewrite digits2_log2.
  replace (Z.max (Z.log2 (Z.pos p) + 1 + 0 - 53) (3 - 1024 - 53)) with (- (52 - Z.log2 (Z.pos p))) by lia.
  unfold shl_align. replace (- (52 - Z.log2 (Z.pos p)) - 0) with (- (52 - Z.log2 (Z.pos p))) by lia.
  destruct (52 - Z.log2 (Z.pos p)) as [|k|k] eqn:Hk; cbn [Z.opp]; [| |lia].
  - apply (round_exact (Z.pos p) 0); lia.
  - apply (round_exact (Z.pos p) (Z.pos k)); [done|lia|lia|apply iter_xO].
Qed.

Lemma ftrunc_exact n : 0 < n < 2 ^ 53 -> ftrunc (exact n) = n.
Proof.
  intros Hn. pose proof (log2_53 n Hn) as Hl. unfold ftrunc, exact.
  assert (0 < 2 ^ (52 - Z.log2 n)) as Hp by (apply Z.pow_pos_nonneg; lia).
  rewrite Z2Pos.id by (apply Z.mul_pos_pos; lia).
  replace (Z.log2 n - 52) with (- (52 - Z.log2 n)) by lia. rewrite Z.shiftl_opp_r, Z.shiftr_div_pow2 by lia.
  apply Z.div_mul. lia.
Qed.

(** Converting a whole number and back. *)
Lemma ftrunc_float64 n : 0 <= n < 2 ^ 53 -> ftrunc (float64 n) = n.
Proof. intros Hn. destruct (decide (n = 0)) as [->|]; [done|]. by rewrite float64_exact, ftrunc_exact by lia. Qed.

Lemma fmul_exact x y : 0 < x -> 0 < y -> x * y < 2 ^ 53 -> fmul (float64 x) (float64 y) = float64 (x * y).
Proof.
  intros Hx Hy Hxy. assert (x < 2 ^ 53 /\ y < 2 ^ 53) as [Hx' Hy'] by nia.
  rewrite !float64_exact by nia. pose proof (log2_53 x ltac:(lia)) as Hlx. pose proof (log2_53 y ltac:(lia)) as Hly.
  assert (0 < 2 ^ (52 - Z.log2 x)) as H1 by (apply Z.pow_pos_nonneg; lia).
  assert (0 < 2 ^ (52 - Z.log2 y)) as H2 by (apply Z.pow_pos_nonneg; lia).
  unfold exact at 1 2, SFmul. cbn [xorb].
  replace (Z.log2 x - 52 + (Z.log2 y - 52)) with (- (104 - Z.log2 x - Z.log2 y)) by lia.
  apply round_exact; [nia|lia| |].
  - pose proof (Z.log2_mul_below x y ltac:(lia) ltac:(lia)). lia.
  - rewrite Pos2Z.inj_mul, !Z2Pos.id by (apply Z.mul_pos_pos; lia).
    replace (104 - Z.log2 x - Z.log2 y) with ((52 - Z.log2 x) + (52 - Z.log2 y)) by lia.
    rewrite Z.pow_add_r by lia. lia.
Qed.
