(* ===== verification/Duration.v ===== *)
(** * internal/config/duration.go: durations in YAML

    A [Duration] is an int64 of nanoseconds; in YAML it is a string such as
    "30s".  [ParseDuration] and [Duration_String] are the standard library's
    [time.ParseDuration] and [time.Duration.String], on every input;
    [UnmarshalYAML] and [MarshalYAML] are the repository's.  Marshalling an
    int64 and unmarshalling it gives it back. *)
From Corelib Require Import SpecFloat.
From S2P Require Import Prelude GoStrings Floats.

(** ** [time.ParseDuration] *)

Definition digit_of (c : ascii) : Z := code c - 48.

(** [leadingInt]: the leading digits as a number of at most 2^63, and the rest. *)
Fixpoint leadingInt (s : bytes) (x : Z) : option (Z * bytes) :=
  match s with
  | [] => Some (x, [])
  | c :: s' =>
      if negb (is_digit c) then Some (x, s)
      else if 2 ^ 63 / 10 <? x then None
      else
        let x := x * 10 + digit_of c in
        if 2 ^ 63 <? x then None else leadingInt s' x
  end.

(** [leadingFraction]: the leading digits as a number, the power of ten they
    are over, and the rest; digits that would overflow are dropped. *)
Fixpoint leadingFraction (s : bytes) (x : Z) (scale : spec_float) (overflow : bool) : Z * spec_float * bytes :=
  match s with
  | [] => (x, scale, [])
  | c :: s' =>
      if negb (is_digit c) then (x, scale, s)
      else if overflow then leadingFraction s' x scale true
      else if (2 ^ 63 - 1) / 10 <? x then leadingFraction s' x scale true
      else
        let y := x * 10 + digit_of c in
        if 2 ^ 63 <? y then leadingFraction s' x scale true
        else leadingFraction s' y (fmul scale (float64 10)) false
  end.

Definition unitMap (u : bytes) : option Z :=
  let named (s : string) := bool_decide (u = to_bytes s) in
  if named "ns" then Some 1
  else if named "us" then Some 1000
  else if named (String "194" (String "181" "s")) then Some 1000       (* U+00B5, micro *)
  else if named (String "206" (String "188" "s")) then Some 1000       (* U+03BC, mu *)
  else if named "ms" then Some 1000000
  else if named "s" then Some 1000000000
  else if named "m" then Some 60000000000
  else if named "h" then Some 3600000000000
  else None.

Definition in_number (c : ascii) : bool := byte_eqb c "." || is_digit c.

(** The unit: what comes before the next number. *)
Fixpoint span_unit (s : bytes) : bytes * bytes :=
  match s with
  | [] => ([], [])
  | c :: s' => if in_number c then ([], s) else let '(u, rest) := span_unit s' in (c :: u, rest)
  end.

(** One turn of the loop: a number and its unit in nanoseconds, and the rest. *)
Definition parse_turn (s : bytes) : option (Z * bytes) :=
  match s with
  | [] => None
  | c :: _ =>
      if negb (in_number c) then None
      else
        p ← leadingInt s 0;
        let '(v, s1) := p in
        let pre := negb (Nat.eqb (length s) (length s1)) in
        let '(f, scale, s2, post) :=
          match s1 with
          | c :: s1' =>
              if byte_eqb c "." then
                let '(f, scale, s2) := leadingFraction s1' 0 (float64 1) false in
                (f, scale, s2, negb (Nat.eqb (length s1') (length s2)))
              else (0, float64 1, s1, false)
          | [] => (0, float64 1, s1, false)
          end in
        if negb pre && negb post then None
        else
          let '(u, rest) := span_unit s2 in
          if Nat.eqb (length u) 0 then None
          else
            unit ← unitMap u;
            if 2 ^ 63 / unit <? v then None
            else
              let v := v * unit in
              if 0 <? f then
                let v := uint64 (v + ftrunc (fmul (float64 f) (fdiv (float64 unit) scale))) in
                if 2 ^ 63 <? v then None else Some (v, rest)
              else Some (v, rest)
  end.

(** Every turn consumes the digits and the unit, so [length s] turns are
    enough ([parse_loop_fuel]). *)
Fixpoint parse_loop (turns : nat) (s : bytes) (d : Z) : option Z :=
  match s, turns with
  | [], _ => Some d
  | _, O => None
  | _, S turns' =>
      p ← parse_turn s;
      let d := uint64 (d + p.1) in
      if 2 ^ 63 <? d then None else parse_loop turns' p.2 d
  end.

(** What follows the sign. *)
Definition parse_unsigned (neg : bool) (s : bytes) : option Z :=
  if bool_decide (s = ["0"%char]) then Some 0
  else if Nat.eqb (length s) 0 then None
  else
    d ← parse_loop (length s) s 0;
    if neg then Some (int64 (- int64 d))
    else if 2 ^ 63 - 1 <? d then None
    else Some d.

Definition ParseDuration (str : string) : option Z :=
  match to_bytes str with
  | c :: s =>
      if byte_eqb c "-" then parse_unsigned true s
      else if byte_eqb c "+" then parse_unsigned false s
      else parse_unsigned false (c :: s)
  | [] => parse_unsigned false []
  end.

(** ** [time.Duration.String] *)

Definition digit_char (d : Z) : ascii := chr (48 + d).

(** [fmtFrac]: the last [prec] digits of [v] as a fraction in front of [out],
    without its trailing zeros, and the digits before them. *)
Fixpoint fmtFrac_loop (prec : nat) (print : bool) (v : Z) (out : bytes) : bool * bytes * Z :=
  match prec with
  | O => (print, out, v)
  | S prec' =>
      let digit := v mod 10 in
      let print := print || negb (digit =? 0) in
      fmtFrac_loop prec' print (v / 10) (if print then digit_char digit :: out else out)
  end.
Definition fmtFrac (v : Z) (prec : nat) (out : bytes) : bytes * Z :=
  let '(print, out, v) := fmtFrac_loop prec false v out in
  (if print then "."%char :: out else out, v).

(** [fmtInt]: [v] in front of [out]; a uint64 has at most 20 digits. *)
Fixpoint fmtInt_loop (turns : nat) (v : Z) (out : bytes) : bytes :=
  match turns with
  | O => out
  | S turns' => if 0 <? v then fmtInt_loop turns' (v / 10) (digit_char (v mod 10) :: out) else out
  end.
Definition fmtInt (v : Z) (out : bytes) : bytes :=
  if v =? 0 then "0"%char :: out else fmtInt_loop 20 v out.

(** The magnitude [u] of a duration: what [format] writes after the sign. *)
Definition format_magnitude (u : Z) : bytes :=
  if u <? 1000000000 then
    if u =? 0 then to_bytes "0s"
    else
      let '(prec, unit) :=
        if u <? 1000 then (0%nat, "ns" : string)
        else if u <? 1000000 then (3%nat, String "194" (String "181" "s"))
        else (6%nat, "ms" : string) in
      let '(out, u) := fmtFrac u prec (to_bytes unit) in
      fmtInt u out
  else
    let '(out, u) := fmtFrac u 9 ["s"%char] in
    let out := fmtInt (u mod 60) out in
    let u := u / 60 in
    if 0 <? u then
      let out := fmtInt (u mod 60) ("m"%char :: out) in
      let u := u / 60 in
      if 0 <? u then fmtInt u ("h"%char :: out) else out
    else out.

Definition Duration_String (d : Z) : string :=
  let neg := d <? 0 in
  let u := if neg then uint64 (- uint64 d) else uint64 d in
  of_bytes (if neg then "-"%char :: format_magnitude u else format_magnitude u).

(** ** duration.go *)

(** [unmarshal] decodes the YAML node into a string; the result is the
    duration afterwards, [d] before. *)
Definition UnmarshalYAML (unmarshal : result string) (d : Z) : result Z :=
  let! s := unmarshal in
  if String.eqb s "" then Ok d
  else
    let! parsed := wrap_err "invalid duration %q: %w" [s] (of_lib "time.ParseDuration" (ParseDuration s)) in
    Ok parsed.

Definition MarshalYAML (d : Z) : result string := Ok (Duration_String d).

Example duration_examples :
  ParseDuration "1h15m30.918s" = Some 4530918000000 /\ ParseDuration "-1.5us" = Some (-1500) /\
  ParseDuration "0" = Some 0 /\ ParseDuration ".5s" = Some 500000000 /\ ParseDuration "1." = None /\ ParseDuration "3" = None /\
  ParseDuration "9223372036854775808ns" = None /\ ParseDuration "-9223372036854775808ns" = Some (- 2 ^ 63) /\
  Duration_String 0 = "0s" /\ Duration_String 1500000000 = "1.5s" /\ Duration_String (90 * 60000000000) = "1h30m0s" /\
  Duration_String (- 2 ^ 63) = "-2562047h47m16.854775808s" /\ Duration_String 1050000 = "1.05ms".
Proof. vm_compute. tauto. Qed.

(** ** Digits *)

(** The number a run of digits continues [x] to. *)
Definition digits_from (x : Z) (ds : bytes) : Z := foldl (fun x c => x * 10 + digit_of c) x ds.

Definition all_digits (ds : bytes) : Prop := Forall (fun c => is_digit c = true) ds.

(** What follows a number: nothing, or a byte that is not a digit. *)
Definition no_digit (s : bytes) : Prop := match s with c :: _ => is_digit c = false | [] => True end.

Lemma digit_of_range c : is_digit c = true -> 0 <= digit_of c <= 9.
Proof. unfold is_digit, in_range, digit_of. lia. Qed.

Lemma digit_char_spec d : 0 <= d < 10 -> is_digit (digit_char d) = true /\ digit_of (digit_char d) = d.
Proof.
  intros Hd. assert (d = 0 \/ d = 1 \/ d = 2 \/ d = 3 \/ d = 4 \/ d = 5 \/ d = 6 \/ d = 7 \/ d = 8 \/ d = 9) as Hc by lia.
  repeat (destruct Hc as [->|Hc]; [done|]). by subst.
Qed.

Lemma digits_from_app x ds ds' : digits_from x (ds ++ ds') = digits_from (digits_from x ds) ds'.
Proof. apply foldl_app. Qed.

Lemma digits_from_scale x ds : digits_from x ds = x * 10 ^ Z.of_nat (length ds) + digits_from 0 ds.
Proof.
  revert x. induction ds as [|c ds IH]; intros x; cbn [digits_from foldl length]; [cbn; lia|].
  fold (digits_from (x * 10 + digit_of c) ds) (digits_from (0 * 10 + digit_of c) ds).
  rewrite IH, (IH (0 * 10 + _)), Nat2Z.inj_succ, Z.pow_succ_r by lia. lia.
Qed.

Lemma digits_from_ge x ds : all_digits ds -> 0 <= x -> x <= digits_from x ds.
Proof.
  intros Hds. revert x. induction Hds as [|c ds Hc _ IH]; intros x Hx; cbn; [lia|].
  pose proof (digit_of_range c Hc). specialize (IH (x * 10 + digit_of c) ltac:(lia)). unfold digits_from in IH. lia.
Qed.

Lemma leadingInt_digits ds rest x :
  all_digits ds -> no_digit rest -> 0 <= x -> digits_from x ds <= 2 ^ 63 ->
  leadingInt (ds ++ rest) x = Some (digits_from x ds, rest).
Proof.
  intros Hds Hrest. revert x. induction Hds as [|c ds Hc Hds IH]; intros x Hx Hle; cbn [app leadingInt].
  { destruct rest as [|c rest]; [done|]. cbn in Hrest |- *. by rewrite Hrest. }
  rewrite Hc. cbn [negb]. pose proof (digit_of_range c Hc) as Hr. cbn in Hle. fold (digits_from (x * 10 + digit_of c) ds) in Hle.
  pose proof (digits_from_ge (x * 10 + digit_of c) ds Hds ltac:(lia)) as Hge.
  destruct (Z.ltb_spec (2 ^ 63 / 10) x) as [Hx'|_]; [change (2 ^ 63 / 10) with 922337203685477580 in Hx'; lia|].
  destruct (Z.ltb_spec (2 ^ 63) (x * 10 + digit_of c)); [lia|]. apply IH; lia.
Qed.

(** The scale after [k] digits. *)
Definition scale_of (k : nat) : spec_float := Nat.iter k (fun s => fmul s (float64 10)) (float64 1).

Lemma leadingFraction_digits ds rest x k :
  all_digits ds -> no_digit rest -> 0 <= x -> digits_from x ds < 10 ^ 18 ->
  leadingFraction (ds ++ rest) x (scale_of k) false = (digits_from x ds, scale_of (k + length ds), rest).
Proof.
  intros Hds Hrest. revert x k. induction Hds as [|c ds Hc Hds IH]; intros x k Hx Hle; cbn [app leadingFraction length].
  { rewrite Nat.add_0_r. destruct rest as [|c rest]; [done|]. cbn in Hrest |- *. by rewrite Hrest. }
  rewrite Hc. cbn [negb]. pose proof (digit_of_range c Hc) as Hr. cbn in Hle. fold (digits_from (x * 10 + digit_of c) ds) in Hle.
  pose proof (digits_from_ge (x * 10 + digit_of c) ds Hds ltac:(lia)) as Hge.
  destruct (Z.ltb_spec ((2 ^ 63 - 1) / 10) x) as [Hx'|_]; [change ((2 ^ 63 - 1) / 10) with 922337203685477580 in Hx'; lia|].
  destruct (Z.ltb_spec (2 ^ 63) (x * 10 + digit_of c)); [lia|].
  change (fmul (scale_of k) (float64 10)) with (scale_of (S k)). rewrite IH by lia.
  cbn [digits_from foldl]. do 2 f_equal. f_equal. lia.
Qed.

(** The nanoseconds of a fraction of [k] digits that are whole. *)
Lemma fraction_value f k unit g :
  (unit, k) ∈ [(1000, 1%nat); (1000, 2%nat); (1000, 3%nat)] ++ (pair 1000000 <$> seq 1 6) ++ (pair 1000000000 <$> seq 1 9) ->
  0 < f < 10 ^ Z.of_nat k -> unit = g * 10 ^ Z.of_nat k ->
  ftrunc (fmul (float64 f) (fdiv (float64 unit) (scale_of k))) = f * g.
Proof.
  intros Hin Hf Hg.
  assert (fdiv (float64 unit) (scale_of k) = float64 g) as ->.
  { assert (g = unit / 10 ^ Z.of_nat k) as -> by (rewrite Hg, Z.div_mul; lia). clear Hf Hg.
    cbn [app fmap list_fmap seq] in Hin. rewrite !elem_of_cons, elem_of_nil in Hin.
    repeat (destruct Hin as [[= -> ->]|Hin]; [vm_compute; reflexivity|]). done. }
  assert (unit <= 1000000000) as Hu.
  { cbn [app fmap list_fmap seq] in Hin. rewrite !elem_of_cons, elem_of_nil in Hin.
    repeat (destruct Hin as [[= -> ->]|Hin]; [lia|]). done. }
  assert (0 < 10 ^ Z.of_nat k) as Hpow by (apply Z.pow_pos_nonneg; lia).
  assert (0 < unit) as Hu0.
  { cbn [app fmap list_fmap seq] in Hin. rewrite !elem_of_cons, elem_of_nil in Hin.
    repeat (destruct Hin as [[= -> ->]|Hin]; [lia|]). done. }
  assert (0 < g) by nia. assert (f * g < 2 ^ 53) by nia.
  rewrite fmul_exact by lia. apply ftrunc_float64. nia.
Qed.

(** ** What [String] prints *)

Lemma fmtInt_loop_spec n v out :
  0 <= v < 10 ^ Z.of_nat n ->
  exists ds, fmtInt_loop n v out = ds ++ out /\ all_digits ds /\ digits_from 0 ds = v /\ (0 < v -> ds <> []).
Proof.
  revert v out. induction n as [|n IH]; intros v out Hv; [exists []; split_and!; [done|constructor|cbn in *; lia|cbn in *; lia]|].
  cbn [fmtInt_loop]. destruct (Z.ltb_spec 0 v) as [H0|H0]; [|exists []; split_and!; [done|constructor|cbn; lia|lia]].
  rewrite Nat2Z.inj_succ, Z.pow_succ_r in Hv by lia.
  destruct (digit_char_spec (v mod 10)) as [Hd Hval]; [apply Z.mod_pos_bound; lia|].
  destruct (IH (v / 10) (digit_char (v mod 10) :: out)) as (ds & -> & Hds & Hn & _).
  { split; [apply Z.div_pos; lia|apply Z.div_lt_upper_bound; lia]. }
  exists (ds ++ [digit_char (v mod 10)]). split_and!.
  - by rewrite <- app_assoc.
  - apply Forall_app. split; [done|by repeat constructor].
  - rewrite digits_from_app, Hn. cbn. rewrite Hval. pose proof (Z.div_mod v 10 ltac:(lia)). lia.
  - by destruct ds.
Qed.

Lemma fmtInt_spec v out :
  0 <= v < 10 ^ 20 ->
  exists ds, fmtInt v out = ds ++ out /\ all_digits ds /\ digits_from 0 ds = v /\ ds <> [].
Proof.
  intros Hv. unfold fmtInt. destruct (Z.eqb_spec v 0) as [->|Hne].
  - exists ["0"%char]. split_and!; [done|by repeat constructor|done|done].
  - destruct (fmtInt_loop_spec 20 v out Hv) as (ds & -> & Hds & Hn & Hne'). exists ds. split_and!; [done..|apply Hne'; lia].
Qed.

(** The digits [ds] printed of the number [r] below 10^i, none while it is 0. *)
Definition printed (print : bool) (ds : bytes) (i : nat) (r : Z) : Prop :=
  all_digits ds /\ (length ds <= i)%nat /\
  if print then 0 < r /\ digits_from 0 ds * 10 ^ Z.of_nat (i - length ds) = r else ds = [] /\ r = 0.

Lemma printed_step print ds i r d :
  0 <= d < 10 -> printed print ds i r ->
  let print' := print || negb (d =? 0) in
  printed print' (if print' then digit_char d :: ds else ds) (S i) (r + d * 10 ^ Z.of_nat i).
Proof.
  intros Hd (Hds & Hlen & Hp). cbn zeta. destruct (digit_char_spec d Hd) as [Hdig Hval].
  assert (0 < 10 ^ Z.of_nat i) as Hpow by (apply Z.pow_pos_nonneg; lia).
  assert (forall ds r, all_digits ds -> (length ds <= i)%nat -> 0 < r + d * 10 ^ Z.of_nat i ->
    digits_from 0 ds * 10 ^ Z.of_nat (i - length ds) = r -> printed true (digit_char d :: ds) (S i) (r + d * 10 ^ Z.of_nat i)) as Hstep.
  { intros ds' r' H1 H2 H3 H4. split; [by constructor|]. split; [cbn; lia|]. split; [done|].
    cbn [digits_from foldl length]. fold (digits_from (0 * 10 + digit_of (digit_char d)) ds'). rewrite digits_from_scale, Hval.
    replace (S i - S (length ds'))%nat with (i - length ds')%nat by lia.
    replace (Z.of_nat i) with (Z.of_nat (length ds') + Z.of_nat (i - length ds')) by lia. rewrite Z.pow_add_r by lia. lia. }
  destruct print; cbn [orb]; [apply Hstep; [done|done|nia|tauto]|].
  destruct Hp as [-> ->]. destruct (Z.eqb_spec d 0) as [->|Hne]; cbn [negb].
  - split; [constructor|]. split; [cbn; lia|]. split; [done|lia].
  - apply Hstep; [constructor|cbn; lia|nia|cbn; lia].
Qed.

Lemma fmtFrac_loop_spec n : forall print v ds i r out,
  0 <= v -> printed print ds i r ->
  exists print' ds', fmtFrac_loop n print v (ds ++ out) = (print', ds' ++ out, v / 10 ^ Z.of_nat n) /\
    printed print' ds' (i + n) (r + (v mod 10 ^ Z.of_nat n) * 10 ^ Z.of_nat i).
Proof.
  induction n as [|n IH]; intros print v ds i r out Hv Hp; cbn [fmtFrac_loop].
  { exists print, ds. cbn. rewrite Z.div_1_r, Z.mod_1_r, Nat.add_0_r. split; [done|]. by replace (r + 0 * _) with r by lia. }
  assert (0 <= v mod 10 < 10) as Hd by (apply Z.mod_pos_bound; lia).
  pose proof (printed_step print ds i r (v mod 10) Hd Hp) as Hp'. cbn zeta in Hp'.
  set (print' := print || negb (v mod 10 =? 0)) in *.
  destruct (IH print' (v / 10) (if print' then digit_char (v mod 10) :: ds else ds) (S i) _ out ltac:(apply Z.div_pos; lia) Hp')
    as (print'' & ds'' & Hrun & Hp'').
  exists print'', ds''. split.
  - replace (if print' then digit_char (v mod 10) :: ds ++ out else ds ++ out)
      with ((if print' then digit_char (v mod 10) :: ds else ds) ++ out) by (by destruct print').
    rewrite Hrun. rewrite Z.div_div by lia. by rewrite Nat2Z.inj_succ, Z.pow_succ_r by lia.
  - rewrite Nat.add_succ_r. rewrite Nat2Z.inj_succ, Z.pow_succ_r, Z.rem_mul_r by lia.
    replace (r + _) with (r + v mod 10 * 10 ^ Z.of_nat i + (v / 10) mod 10 ^ Z.of_nat n * 10 ^ Z.of_nat (S i)); [done|].
    rewrite Nat2Z.inj_succ, Z.pow_succ_r by lia. lia.
Qed.

(** A fraction over 10^prec, as it is printed. *)
Definition frac_printed (prec : nat) (r : Z) (frac : bytes) : Prop :=
  (r = 0 /\ frac = []) \/
  exists ds, frac = "."%char :: ds /\ all_digits ds /\ (length ds <= prec)%nat /\ 0 < digits_from 0 ds /\
    digits_from 0 ds * 10 ^ Z.of_nat (prec - length ds) = r.

Lemma fmtFrac_spec v prec out :
  0 <= v ->
  exists frac, fmtFrac v prec out = (frac ++ out, v / 10 ^ Z.of_nat prec) /\ frac_printed prec (v mod 10 ^ Z.of_nat prec) frac.
Proof.
  intros Hv. unfold fmtFrac.
  destruct (fmtFrac_loop_spec prec false v [] 0 0 out Hv) as (print & ds & Hrun & Hds & Hlen & Hp); [by split; [constructor|]|].
  cbn [app] in Hrun. rewrite Hrun. cbn in Hlen, Hp. rewrite Z.mul_1_r in Hp. destruct print.
  - exists ("."%char :: ds). split; [done|]. right. exists ds. destruct Hp as [H0 Hp]. split_and!; [done..| |done].
    assert (0 < 10 ^ Z.of_nat (prec - length ds)) by (apply Z.pow_pos_nonneg; lia). nia.
  - destruct Hp as [-> Hp]. exists []. split; [done|]. by left.
Qed.

(** ** What [ParseDuration] makes of it *)

Definition unit_name (u : bytes) : Prop := u <> [] /\ Forall (fun c => in_number c = false) u.

(** The start of the next number, or the end. *)
Definition at_number (s : bytes) : Prop := match s with c :: _ => in_number c = true | [] => True end.

Lemma span_unit_spec u rest :
  Forall (fun c => in_number c = false) u -> at_number rest -> span_unit (u ++ rest) = (u, rest).
Proof.
  intros Hu Hr. induction Hu as [|c u Hc _ IH]; cbn.
  - destruct rest as [|c rest]; [done|]. cbn in Hr |- *. by rewrite Hr.
  - by rewrite Hc, IH.
Qed.

Lemma not_in_number c : in_number c = false -> byte_eqb c "." = false /\ is_digit c = false.
Proof. apply orb_false_elim. Qed.

(** The units a fraction is printed with, and its digits. *)
Definition frac_units : list (nat * Z) := [(3%nat, 1000); (6%nat, 1000000); (9%nat, 1000000000)].

Lemma frac_value prec unit r ds :
  (prec, unit) ∈ frac_units -> 0 <= r < unit -> (length ds <= prec)%nat -> 0 < digits_from 0 ds ->
  digits_from 0 ds * 10 ^ Z.of_nat (prec - length ds) = r ->
  ftrunc (fmul (float64 (digits_from 0 ds)) (fdiv (float64 unit) (scale_of (length ds)))) = r.
Proof.
  intros Hin Hr Hlen Hpos Heq. set (k := length ds) in *. set (g := 10 ^ Z.of_nat (prec - k)) in *.
  assert (unit = 10 ^ Z.of_nat prec) as Hu.
  { unfold frac_units in Hin. rewrite !elem_of_cons, elem_of_nil in Hin. by destruct Hin as [[= -> ->]|[[= -> ->]|[[= -> ->]|[]]]]. }
  assert (unit = g * 10 ^ Z.of_nat k) as Hug by (unfold g; rewrite Hu, <- Z.pow_add_r by lia; f_equal; lia).
  assert (0 < g) as Hg by (apply Z.pow_pos_nonneg; lia). rewrite <- Heq. apply fraction_value; [|nia|done].
  assert (k <> 0)%nat as Hk by (unfold k; destruct ds; cbn in *; lia).
  unfold frac_units in Hin. rewrite !elem_of_cons, elem_of_nil in Hin. rewrite !elem_of_app.
  destruct Hin as [[= -> ->]|[[= -> ->]|[[= -> ->]|[]]]].
  - left. rewrite !elem_of_cons. assert (k = 1 \/ k = 2 \/ k = 3)%nat as [-> | [-> | ->]] by lia; tauto.
  - right; left. apply list_elem_of_fmap. exists k. split; [done|]. apply elem_of_seq. lia.
  - right; right. apply list_elem_of_fmap. exists k. split; [done|]. apply elem_of_seq. lia.
Qed.

Lemma parse_turn_spec ds frac u rest v prec r unit :
  all_digits ds -> ds <> [] -> digits_from 0 ds = v -> frac_printed prec r frac ->
  (frac = [] \/ (prec, unit) ∈ frac_units) -> 0 <= r < unit -> unit_name u -> unitMap u = Some unit -> at_number rest ->
  v * unit + r <= 2 ^ 63 ->
  parse_turn (ds ++ frac ++ u ++ rest) = Some (v * unit + r, rest).
Proof.
  intros Hds Hne Hv Hfrac Hprec Hr [Hu0 Hu] Hunit Hrest Hle.
  assert (0 <= v) as Hv0 by (rewrite <- Hv; by apply digits_from_ge).
  assert (0 <= v * unit <= 2 ^ 63 /\ v <= 2 ^ 63) as [Hvu Hv63] by nia.
  assert (forall s, no_digit (u ++ s) /\ (forall s', u ++ s = "."%char :: s' -> False)) as Hus.
  { intros s. destruct u as [|c u]; [done|]. apply Forall_cons in Hu as [[Hdot Hdig]%not_in_number _]. split; [done|].
    intros s' [= -> _]. done. }
  assert (no_digit (frac ++ u ++ rest)) as Hnd.
  { destruct Hfrac as [[_ ->]|(fds & -> & _)]; [apply Hus|done]. }
  unfold parse_turn. destruct ds as [|c ds]; [done|]. cbn [app].
  assert (in_number c = true) as -> by (apply Forall_cons in Hds as [Hc _]; unfold in_number; by rewrite Hc, orb_true_r).
  cbn [negb]. change (c :: ds ++ frac ++ u ++ rest) with ((c :: ds) ++ (frac ++ u ++ rest)).
  rewrite leadingInt_digits by (done || lia). rewrite Hv. cbn [mbind option_bind].
  assert (Nat.eqb (length ((c :: ds) ++ frac ++ u ++ rest)) (length (frac ++ u ++ rest)) = false) as ->
    by (apply Nat.eqb_neq; rewrite length_app; cbn; lia). cbn [negb andb].
  assert ((2 ^ 63 / unit <? v) = false) as Hov by (apply Z.ltb_ge, Z.div_le_lower_bound; lia).
  assert (Nat.eqb (length u) 0 = false) as Hul by (destruct u; [done|done]).
  destruct Hfrac as [[-> ->]|(fds & -> & Hfds & Hlen & Hpos & Heq)].
  - cbn [app]. destruct (u ++ rest) as [|c' s'] eqn:Es; [by destruct u|].
    assert (byte_eqb c' "." = false) as ->.
    { destruct (byte_eqb c' ".") eqn:Ec; [|done]. apply byte_eqb_eq in Ec as ->. by destruct (proj2 (Hus rest) s'). }
    rewrite <- Es, span_unit_spec by done. rewrite Hul, Hunit. cbn [mbind option_bind]. rewrite Hov. cbn. by rewrite Z.add_0_r.
  - destruct Hprec as [|Hprec]; [done|]. cbn [app byte_eqb Ascii.eqb Bool.eqb].
    change (float64 1) with (scale_of 0). assert (digits_from 0 fds < 10 ^ 18) as Hf18.
    { assert (0 < 10 ^ Z.of_nat (prec - length fds)) by (apply Z.pow_pos_nonneg; lia).
      assert (unit <= 1000000000); [|nia]. unfold frac_units in Hprec. rewrite !elem_of_cons, elem_of_nil in Hprec.
      destruct Hprec as [[= -> ->]|[[= -> ->]|[[= -> ->]|[]]]]; lia. }
    rewrite leadingFraction_digits by (done || apply Hus || lia). cbn [Nat.add].
    rewrite span_unit_spec, Hul, Hunit by done. cbn [mbind option_bind]. rewrite Hov.
    destruct (Z.ltb_spec 0 (digits_from 0 fds)); [|lia].
    rewrite (frac_value prec unit r fds) by done. unfold uint64. rewrite wrapU_id by lia.
    destruct (Z.ltb_spec (2 ^ 63) (v * unit + r)); [lia|done].
Qed.

(** The loop from [d], with turns to spare. *)
Definition parses (s : bytes) (d d' : Z) : Prop :=
  forall turns, (length s <= turns)%nat -> parse_loop turns s d = Some d'.

Lemma parses_nil d : parses [] d d.
Proof. by intros []. Qed.

Lemma parses_turn s v rest d d' :
  parse_turn s = Some (v, rest) -> (length rest < length s)%nat -> 0 <= d -> 0 <= v -> d + v <= 2 ^ 63 ->
  parses rest (d + v) d' -> parses s d d'.
Proof.
  intros Ht Hlen Hd Hv Hle Hrest turns Hturns. destruct s as [|c s]; [cbn in Hlen; lia|].
  destruct turns as [|turns]; [cbn in Hturns; lia|]. cbn [parse_loop]. rewrite Ht. cbn [mbind option_bind fst snd].
  unfold uint64. rewrite wrapU_id by lia. destruct (Z.ltb_spec (2 ^ 63) (d + v)); [lia|]. apply Hrest. cbn in *. lia.
Qed.

Lemma fmtInt_head v out :
  0 <= v < 10 ^ 20 -> exists c s, fmtInt v out = c :: s /\ is_digit c = true /\ (out <> [] -> s <> []).
Proof.
  intros Hv. destruct (fmtInt_spec v out Hv) as (ds & -> & Hds & _ & Hne). destruct ds as [|c ds]; [done|].
  apply Forall_cons in Hds as [Hc _]. exists c, (ds ++ out). split_and!; [done|done|by destruct ds].
Qed.

Lemma fmtInt_at_number v out : 0 <= v < 10 ^ 20 -> at_number (fmtInt v out).
Proof.
  intros Hv. destruct (fmtInt_head v out Hv) as (c & s & -> & Hc & _). cbn. unfold in_number. by rewrite Hc, orb_true_r.
Qed.

(** A number of [unit]s with its fraction, printed in front of [rest]. *)
Lemma parses_number v prec r unit frac u rest d d' :
  0 <= v < 10 ^ 20 -> frac_printed prec r frac -> (frac = [] \/ (prec, unit) ∈ frac_units) -> 0 <= r < unit ->
  unit_name u -> unitMap u = Some unit -> at_number rest -> 0 <= d -> d + (v * unit + r) <= 2 ^ 63 ->
  parses rest (d + (v * unit + r)) d' -> parses (fmtInt v (frac ++ u ++ rest)) d d'.
Proof.
  intros Hv Hfrac Hprec Hr Hu Hunit Hrest Hd Hle Hp.
  destruct (fmtInt_spec v (frac ++ u ++ rest) Hv) as (ds & -> & Hds & Hval & Hne).
  apply (parses_turn _ (v * unit + r) rest); [|rewrite !length_app; destruct ds; [done|cbn; lia]|done|nia|done|done].
  apply (parse_turn_spec ds frac u rest v prec r unit); done || nia.
Qed.

(** A name spelt out. *)
Ltac is_unit := split; [done|by repeat constructor].

(** Less than a second: one number. *)
Lemma parses_small u prec unit name :
  0 < u <= 2 ^ 63 -> (prec = 0%nat \/ (prec, unit) ∈ frac_units) -> unit = 10 ^ Z.of_nat prec ->
  unit_name (to_bytes name) -> unitMap (to_bytes name) = Some unit ->
  exists out v, fmtFrac u prec (to_bytes name) = (out, v) /\ out <> [] /\ 0 <= v < 10 ^ 20 /\ parses (fmtInt v out) 0 u.
Proof.
  intros Hu Hprec -> Hname Hunit.
  destruct (fmtFrac_spec u prec (to_bytes name) ltac:(lia)) as (frac & -> & Hfrac).
  assert (0 < 10 ^ Z.of_nat prec) as Hpow by (apply Z.pow_pos_nonneg; lia).
  pose proof (Z.div_mod u (10 ^ Z.of_nat prec) ltac:(lia)) as Hdm. pose proof (Z.mod_pos_bound u (10 ^ Z.of_nat prec) Hpow) as Hm.
  assert (0 <= u / 10 ^ Z.of_nat prec < 10 ^ 20) as Hq by (split; [apply Z.div_pos; lia|apply Z.div_lt_upper_bound; nia]).
  assert (u / 10 ^ Z.of_nat prec * 10 ^ Z.of_nat prec + u mod 10 ^ Z.of_nat prec = u) as Hsum by lia.
  eexists _, _. split; [done|]. split; [destruct Hname; by destruct frac|]. split; [done|].
  rewrite <- (app_nil_r (to_bytes name)).
  apply (parses_number _ prec (u mod 10 ^ Z.of_nat prec) (10 ^ Z.of_nat prec)); try done; [|lia|].
  - destruct Hprec as [->|Hprec]; [left|by right]. destruct Hfrac as [[_ ->]|(ds & _ & _ & Hl & Hpos & _)]; [done|].
    destruct ds; [cbn in Hpos; lia|cbn in Hl; lia].
  - rewrite Hsum. apply parses_nil.
Qed.

(** Seconds with their fraction, minutes and hours, each in front of the rest. *)
Lemma parses_seconds d s r frac :
  frac_printed 9 r frac -> 0 <= r < 1000000000 -> 0 <= s < 60 -> 0 <= d -> d + (s * 1000000000 + r) <= 2 ^ 63 ->
  parses (fmtInt s (frac ++ ["s"%char])) d (d + (s * 1000000000 + r)).
Proof.
  intros Hfrac Hr Hs Hd Hle. change ["s"%char] with (["s"%char] ++ []).
  apply (parses_number _ 9 r 1000000000); try done; [lia|right; right; right; left|is_unit|apply parses_nil].
Qed.

Lemma parses_whole d n unit u rest d' :
  0 <= n < 10 ^ 20 -> 0 < unit -> unit_name [u] -> unitMap [u] = Some unit -> at_number rest ->
  0 <= d -> d + n * unit <= 2 ^ 63 -> parses rest (d + n * unit) d' -> parses (fmtInt n (u :: rest)) d d'.
Proof.
  intros Hn Hunit Hu Hmap Hrest Hd Hle Hp. change (u :: rest) with ([] ++ [u] ++ rest).
  apply (parses_number _ 0 0 unit); try done; [by left|by left|lia|by rewrite Z.add_0_r].
Qed.

(** A second or more. *)
Lemma parses_large u :
  1000000000 <= u <= 2 ^ 63 ->
  parses (format_magnitude u) 0 u /\ exists c s, format_magnitude u = c :: s /\ is_digit c = true /\ s <> [].
Proof.
  intros Hu. unfold format_magnitude. destruct (Z.ltb_spec u 1000000000); [lia|].
  destruct (fmtFrac_spec u 9 ["s"%char] ltac:(lia)) as (frac & -> & Hfrac).
  change (10 ^ Z.of_nat 9) with 1000000000 in *.
  pose proof (Z.div_mod u 1000000000 ltac:(lia)) as Hsum. pose proof (Z.mod_pos_bound u 1000000000 ltac:(lia)) as Hr.
  set (secs := u / 1000000000) in *. set (r := u mod 1000000000) in *. assert (0 <= secs) by lia. clearbody secs r.
  pose proof (Z.div_mod secs 60 ltac:(lia)) as Hmin. pose proof (Z.mod_pos_bound secs 60 ltac:(lia)) as Hs.
  set (mins := secs / 60) in *. set (s := secs mod 60) in *. assert (0 <= mins) by lia. clearbody mins s.
  pose proof (Z.div_mod mins 60 ltac:(lia)) as Hhour. pose proof (Z.mod_pos_bound mins 60 ltac:(lia)) as Hm.
  set (hours := mins / 60) in *. set (m := mins mod 60) in *. assert (0 <= hours) by lia. clearbody hours m.
  assert (forall v out, 0 <= v < 10 ^ 20 -> out <> [] ->
    exists c s, fmtInt v out = c :: s /\ is_digit c = true /\ s <> []) as Hhead.
  { intros v out Hv Hout. destruct (fmtInt_head v out Hv) as (c & s' & Hf & Hc & Hn). exists c, s'. auto. }
  assert (forall d, 0 <= d -> d + (s * 1000000000 + r) = u -> parses (fmtInt s (frac ++ ["s"%char])) d u) as Hsec
    by (intros d Hd <-; apply parses_seconds; done || lia).
  assert (forall d, 0 <= d -> d + m * 60000000000 + (s * 1000000000 + r) = u ->
    parses (fmtInt m ("m"%char :: fmtInt s (frac ++ ["s"%char]))) d u) as Hminute.
  { intros d Hd Heq. apply (parses_whole d m 60000000000); [lia|lia|is_unit|done|by apply fmtInt_at_number; lia|lia|lia|].
    apply Hsec; lia. }
  destruct (Z.ltb_spec 0 mins); [destruct (Z.ltb_spec 0 hours)|]; (split; [|apply Hhead; [lia|by try destruct frac]]).
  - apply (parses_whole 0 hours 3600000000000); [lia|lia|is_unit|done|by apply fmtInt_at_number; lia|lia|lia|]. apply Hminute; lia.
  - apply Hminute; lia.
  - apply Hsec; lia.
Qed.

Lemma format_magnitude_parses u :
  0 < u <= 2 ^ 63 ->
  parses (format_magnitude u) 0 u /\ exists c s, format_magnitude u = c :: s /\ is_digit c = true /\ s <> [].
Proof.
  intros Hu. destruct (Z.ltb_spec u 1000000000) as [Hs|Hs]; [|by apply parses_large; lia].
  assert (forall prec unit name, (prec = 0%nat \/ (prec, unit) ∈ frac_units) -> unit = 10 ^ Z.of_nat prec ->
    unit_name (to_bytes name) -> unitMap (to_bytes name) = Some unit ->
    let '(out, v) := fmtFrac u prec (to_bytes name) in
    parses (fmtInt v out) 0 u /\ exists c s, fmtInt v out = c :: s /\ is_digit c = true /\ s <> []) as Hone.
  { intros prec unit name H1 H2 H3 H4. destruct (parses_small u prec unit name Hu H1 H2 H3 H4) as (out & v & -> & Hout & Hv & Hp).
    split; [done|]. destruct (fmtInt_head v out Hv) as (c & s & Hf & Hc & Hn). exists c, s. auto. }
  unfold format_magnitude. rewrite (proj2 (Z.ltb_lt u 1000000000)) by done. destruct (Z.eqb_spec u 0); [lia|].
  destruct (Z.ltb_spec u 1000); [|destruct (Z.ltb_spec u 1000000)].
  - apply (Hone 0%nat 1 "ns"); [by left|done|is_unit|done].
  - apply (Hone 3%nat 1000); [right; left|done|is_unit|done].
  - apply (Hone 6%nat 1000000 "ms"); [right; right; left|done|is_unit|done].
Qed.

Lemma format_magnitude_unsigned u :
  0 < u <= 2 ^ 63 ->
  parse_loop (length (format_magnitude u)) (format_magnitude u) 0 = Some u /\
  format_magnitude u <> ["0"%char] /\ exists c s, format_magnitude u = c :: s /\ is_digit c = true.
Proof.
  intros Hu. destruct (format_magnitude_parses u Hu) as [Hp (c & s & Hf & Hc & Hs)]. split; [by apply Hp|].
  rewrite Hf. split; [by intros [= _ ->]|by exists c, s].
Qed.

Lemma parse_format d : - 2 ^ 63 <= d < 2 ^ 63 -> ParseDuration (Duration_String d) = Some d.
Proof.
  intros Hd. unfold ParseDuration, Duration_String, parse_unsigned. rewrite to_of_bytes. destruct (Z.ltb_spec d 0) as [Hneg|Hpos].
  - assert (uint64 (- uint64 d) = - d) as ->.
    { unfold uint64, wrapU. rewrite <- (Z_mod_plus_full d 1 (2 ^ 64)), (Z.mod_small (d + 1 * 2 ^ 64)) by lia.
      rewrite <- (Z_mod_plus_full _ 1 (2 ^ 64)), Z.mod_small by lia. lia. }
    destruct (format_magnitude_unsigned (- d) ltac:(lia)) as (Hp & H0 & c & s & Hf & _).
    cbn [byte_eqb Ascii.eqb Bool.eqb]. rewrite bool_decide_false by done.
    assert (Nat.eqb (length (format_magnitude (- d))) 0 = false) as -> by (by rewrite Hf).
    rewrite Hp. cbn [mbind option_bind]. f_equal. unfold int64. destruct (decide (d = - 2 ^ 63)) as [->|Hne]; [done|].
    rewrite (wrapS_id 64 (- d)), wrapS_id by lia. lia.
  - unfold uint64. rewrite wrapU_id by lia. destruct (decide (d = 0)) as [->|Hne]; [done|].
    destruct (format_magnitude_unsigned d ltac:(lia)) as (Hp & H0 & c & s & Hf & Hc). rewrite Hf in *.
    assert (byte_eqb c "-" = false /\ byte_eqb c "+" = false) as [-> ->].
    { split; (destruct (byte_eqb c _) eqn:E; [apply byte_eqb_eq in E as ->; discriminate Hc|done]). }
    rewrite bool_decide_false by done. cbn [length Nat.eqb]. cbn [length] in Hp. rewrite Hp. cbn [mbind option_bind].
    destruct (Z.ltb_spec (2 ^ 63 - 1) d); [lia|done].
Qed.

Lemma format_nonempty d : - 2 ^ 63 <= d < 2 ^ 63 -> Duration_String d <> "".
Proof. intros Hd He. apply parse_format in Hd. by rewrite He in Hd. Qed.

(** *** The turns of the loop are enough *)

Lemma leadingInt_shorter s : forall x v rest, leadingInt s x = Some (v, rest) -> (length rest <= length s)%nat.
Proof.
  induction s as [|c s IH]; cbn -[Z.div Z.pow]; intros x v rest; [by intros [= _ <-]|].
  destruct (negb (is_digit c)); [by intros [= _ <-]|]. destruct (_ <? x); [done|]. destruct (_ <? _); [done|].
  intros ?%IH. lia.
Qed.

Lemma leadingFraction_shorter s : forall x scale over,
  (length (leadingFraction s x scale over).2 <= length s)%nat.
Proof.
  induction s as [|c s IH]; cbn -[Z.div Z.pow fmul]; intros x scale over; [done|].
  destruct (negb (is_digit c)); [done|].
  destruct over; [|destruct (_ <? x); [|destruct (_ <? _)]]; (etrans; [apply IH|lia]).
Qed.

Lemma span_unit_length s : (length (span_unit s).1 + length (span_unit s).2 = length s)%nat.
Proof.
  induction s as [|c s IH]; cbn; [done|]. destruct (in_number c); [done|].
  destruct (span_unit s) as [u rest]. cbn in *. lia.
Qed.

Lemma parse_turn_shorter s v rest : parse_turn s = Some (v, rest) -> (length rest < length s)%nat.
Proof.
  unfold parse_turn. destruct s as [|c s]; [done|]. set (s0 := c :: s). destruct (negb (in_number c)); [done|].
  destruct (leadingInt s0 0) as [[v0 s1]|] eqn:El; [|done]. apply leadingInt_shorter in El. cbn [mbind option_bind].
  match goal with |- context [match ?m with pair _ _ => _ end] => assert (length m.1.2 <= length s1)%nat as Hf end.
  { destruct s1 as [|c1 s1]; [done|]. destruct (byte_eqb c1 "."); [|done].
    pose proof (leadingFraction_shorter s1 0 (float64 1) false) as Hs.
    destruct (leadingFraction s1 _ _ _) as [[f scale] s2]. cbn in *. lia. }
  destruct (match s1 with [] => _ | _ => _ end) as [[[f scale] s2] post]. cbn [fst snd] in Hf.
  destruct (negb _ && negb post); [done|]. pose proof (span_unit_length s2) as Hu.
  destruct (span_unit s2) as [u rest']. cbn [fst snd] in Hu. destruct (Nat.eqb_spec (length u) 0); [done|].
  destruct (unitMap u) as [unit|]; [|done]. cbn [mbind option_bind]. destruct (_ <? v0); [done|].
  assert (length rest' < length s0)%nat by lia.
  destruct (0 <? f); [destruct (_ <? _); [done|]|]; by intros [= _ <-].
Qed.

Lemma parse_loop_fuel n s : forall d, (length s <= n)%nat -> parse_loop n s d = parse_loop (length s) s d.
Proof.
  assert (forall m n s d, (length s <= n)%nat -> (length s <= m)%nat -> parse_loop n s d = parse_loop m s d) as Hall.
  { clear. intros m n. revert m. induction n as [|n IH]; intros m s d Hn Hm; destruct s as [|c s]; [by destruct m|cbn in Hn; lia|by destruct m|].
    destruct m as [|m]; [cbn in Hm; lia|]. cbn -[Z.pow parse_turn].
    destruct (parse_turn (c :: s)) as [[v rest]|] eqn:Ht; [|done]. apply parse_turn_shorter in Ht. cbn -[Z.pow] in *.
    destruct (_ <? _); [done|]. apply IH; lia. }
  intros d Hn. by apply Hall.
Qed.

Lemma parse_loop_bound turns : forall s d d', 0 <= d <= 2 ^ 63 -> parse_loop turns s d = Some d' -> 0 <= d' <= 2 ^ 63.
Proof.
  induction turns as [|turns IH]; intros [|c s] d d' Hd; cbn [parse_loop]; try (intros [= <-]; lia).
  destruct (parse_turn (c :: s)) as [[v rest]|]; [|done]. cbn [mbind option_bind fst snd].
  destruct (Z.ltb_spec (2 ^ 63) (uint64 (d + v))) as [|Hle]; [done|]. apply IH. split; [|done].
  unfold uint64. apply wrapU_bound. lia.
Qed.

(** What is read is an int64. *)
Lemma parse_int64 s d : ParseDuration s = Some d -> - 2 ^ 63 <= d < 2 ^ 63.
Proof.
  assert (forall neg s, parse_unsigned neg s = Some d -> - 2 ^ 63 <= d < 2 ^ 63) as Hu.
  { intros neg s'. unfold parse_unsigned. case_bool_decide; [intros [= <-]; lia|]. destruct (Nat.eqb _ 0); [done|].
    destruct (parse_loop _ _ _) as [d'|] eqn:Hp; [|done]. cbn [mbind option_bind]. apply parse_loop_bound in Hp; [|lia].
    destruct neg; [intros [= <-]; apply int64_bound|].
    destruct (Z.ltb_spec (2 ^ 63 - 1) d'); [done|]. intros [= <-]. lia. }
  unfold ParseDuration. destruct (to_bytes s) as [|c s']; [apply Hu|]. destruct (byte_eqb c "-"); [apply Hu|]. destruct (byte_eqb c "+"); apply Hu.
Qed.

(** C28. A duration survives a round trip through YAML: for every int64, what
    [MarshalYAML] writes is what [UnmarshalYAML] reads back, to the nanosecond,
    the most negative duration included.  The empty string leaves the duration
    as it is; a string that is no duration is an error that names it; and what
    is read is always an int64. *)
Theorem duration_roundtrip d d0 :
  (- 2 ^ 63 <= d < 2 ^ 63 -> UnmarshalYAML (MarshalYAML d) d0 = Ok d) /\
  UnmarshalYAML (Ok "") d0 = Ok d0 /\
  (forall s, s <> "" -> ParseDuration s = None ->
     UnmarshalYAML (Ok s) d0 = Err (Errorw "invalid duration %q: %w" [s] (LibError "time.ParseDuration"))) /\
  forall r d1, - 2 ^ 63 <= d0 < 2 ^ 63 -> UnmarshalYAML r d0 = Ok d1 -> - 2 ^ 63 <= d1 < 2 ^ 63.
Proof.
  split; [|split; [done|split]].
  - intros Hd. unfold UnmarshalYAML, MarshalYAML. cbn [result_bind].
    rewrite (proj2 (String.eqb_neq _ _) (format_nonempty d Hd)). by rewrite parse_format.
  - intros s Hs Hp. unfold UnmarshalYAML. cbn [result_bind]. by rewrite (proj2 (String.eqb_neq _ _) Hs), Hp.
  - intros [s|e] d1 Hd0; cbn; [|done]. destruct (String.eqb s ""); [by intros [= <-]|].
    destruct (ParseDuration s) as [d'|] eqn:Hp; [|done]. intros [= <-]. by eapply parse_int64.
Qed.

Lemma duration_roundtrip_witness : UnmarshalYAML (MarshalYAML (- 2 ^ 63)) 0 = Ok (- 2 ^ 63).
Proof. apply (duration_roundtrip (- 2 ^ 63) 0). split; [reflexivity|]. reflexivity. Defined.
