(* ===== verification/Config.v ===== *)
(** * internal/config: the configuration record, its defaults and validation

    One record per YAML section.  Durations are nanoseconds, an int64; a
    [float64] is a [spec_float], the Standard Library's IEEE 754 data, so that
    infinities and NaN are compared the way Go compares them.  The YAML decoder,
    the file system and [url.Parse] are parameters of [Load] and [Validate]. *)
From Corelib Require Import SpecFloat.
From stdpp Require Import pretty.
From S2P Require Import Prelude GoStrings Netip.

(** ** The sections *)

Record TLSConfig := mkTLSConfig { tls_Enabled : bool; tls_CertFile : string; tls_KeyFile : string }.
Record ListenConfig := mkListenConfig { lc_Address : string; lc_TLS : TLSConfig }.
Record UpstreamConfig := mkUpstreamConfig {
  uc_Addresses : list string;
  uc_DialTimeout : Z;
  uc_ResponseHeaderTimeout : Z;
  uc_IdleConnTimeout : Z;
  uc_MaxIdleConnsPerHost : Z }.
Record ClientIPConfig := mkClientIPConfig { cc_TrustedProxies : list string }.
Record GeoConfig := mkGeoConfig {
  gc_Enabled : bool; gc_DBPath : string; gc_AllowCountries : list string }.
Record IPListConfig := mkIPListConfig {
  il_Allow : list string; il_Deny : list string; il_Geo : GeoConfig }.
Record AdminConfig := mkAdminConfig {
  ac_Enabled : bool; ac_Address : string; ac_AuthTokenEnv : string; ac_StateFile : string }.
Record RateLimitRule := mkRateLimitRule { rl_RequestsPerSecond : spec_float; rl_Burst : Z }.
Record RouteRateLimit := mkRouteRateLimit { rr_PathPrefix : string; rr_Rule : RateLimitRule }.
Record RateLimitConfig := mkRateLimitConfig {
  rc_Enabled : bool; rc_Default : RateLimitRule; rc_PerRoute : list RouteRateLimit; rc_IdleTTL : Z }.
Record BodyInspectionConfig := mkBodyInspectionConfig { bi_MaxBytes : Z }.
Record WAFConfig := mkWAFConfig {
  wc_Enabled : bool; wc_RulesFile : string; wc_BodyInspection : BodyInspectionConfig;
  wc_DefaultAction : string }.
Record LogConfig := mkLogConfig {
  lg_Level : string; lg_AccessLogPath : string; lg_Format : string; lg_RingBufferSize : Z }.
Record MetricsConfig := mkMetricsConfig { mc_Enabled : bool; mc_Address : string; mc_Path : string }.
Record ShutdownConfig := mkShutdownConfig { sc_DrainTimeout : Z }.

Record Config := mkConfig {
  c_Listen : list ListenConfig;
  c_Upstreams : UpstreamConfig;
  c_ClientIP : ClientIPConfig;
  c_IPLists : IPListConfig;
  c_Admin : AdminConfig;
  c_RateLimit : RateLimitConfig;
  c_WAF : WAFConfig;
  c_Log : LogConfig;
  c_Metrics : MetricsConfig;
  c_Shutdown : ShutdownConfig }.

(** ** Defaults *)

Definition Second : Z := 1000000000.
Definition Minute : Z := 60 * Second.

Definition or_default_Z (v d : Z) : Z := if v =? 0 then d else v.
Definition or_default_str (v d : string) : string := if String.eqb v "" then d else v.

Definition applyDefaults (c : Config) : Config :=
  mkConfig (c_Listen c)
    (let u := c_Upstreams c in
     mkUpstreamConfig (uc_Addresses u)
       (or_default_Z (uc_DialTimeout u) (2 * Second))
       (or_default_Z (uc_ResponseHeaderTimeout u) (10 * Second))
       (or_default_Z (uc_IdleConnTimeout u) (90 * Second))
       (or_default_Z (uc_MaxIdleConnsPerHost u) 100))
    (c_ClientIP c) (c_IPLists c)
    (let a := c_Admin c in
     mkAdminConfig (ac_Enabled a) (or_default_str (ac_Address a) "127.0.0.1:9091")
       (ac_AuthTokenEnv a) (ac_StateFile a))
    (let r := c_RateLimit c in
     mkRateLimitConfig (rc_Enabled r) (rc_Default r) (rc_PerRoute r)
       (or_default_Z (rc_IdleTTL r) (10 * Minute)))
    (let w := c_WAF c in
     mkWAFConfig (wc_Enabled w) (wc_RulesFile w)
       (mkBodyInspectionConfig (or_default_Z (bi_MaxBytes (wc_BodyInspection w)) 131072))
       (or_default_str (wc_DefaultAction w) "block"))
    (let l := c_Log c in
     mkLogConfig (or_default_str (lg_Level l) "info") (or_default_str (lg_AccessLogPath l) "-")
       (or_default_str (lg_Format l) "json") (or_default_Z (lg_RingBufferSize l) 1000))
    (let m := c_Metrics c in
     mkMetricsConfig (mc_Enabled m) (or_default_str (mc_Address m) "127.0.0.1:9090")
       (or_default_str (mc_Path m) "/metrics"))
    (mkShutdownConfig (or_default_Z (sc_DrainTimeout (c_Shutdown c)) (30 * Second))).

(** ** Validation *)

(** What validation asks of its environment: the scheme and host [url.Parse]
    finds, and whether [os.Stat] succeeds on a path. *)
Class ConfigEnv := {
  url_parse : string -> option (string * string);
  file_exists : string -> bool
}.

(** [x <= 0] on floats: false on NaN. *)
Definition float_le0 (x : spec_float) : bool := SFleb x (S754_zero false).

Section Validate.
Context `{ConfigEnv} `{UnicodeTables}.

(** A check that either lets validation go on or ends it with an error. *)
Definition fail_if (b : bool) (format : string) (args : list string) : result unit :=
  if b then Err (Errorf format args) else Ok tt.

Fixpoint for_each {A} (check : nat -> A -> result unit) (i : nat) (l : list A) : result unit :=
  match l with
  | [] => Ok tt
  | x :: l' => let! _ := check i x in for_each check (S i) l'
  end.

Definition check_listener (i : nat) (l : ListenConfig) : result unit :=
  let! _ := fail_if (String.eqb (lc_Address l) "") "listen[%d]: address is required" [pretty i] in
  if tls_Enabled (lc_TLS l) then
    fail_if (String.eqb (tls_CertFile (lc_TLS l)) "" || String.eqb (tls_KeyFile (lc_TLS l)) "")
      "listen[%d]: tls.cert_file and tls.key_file are required when tls.enabled is true" [pretty i]
  else Ok tt.

Definition check_upstream (_ : nat) (addr : string) : result unit :=
  match url_parse addr with
  | None => Err (Errorf "upstreams.addresses: invalid upstream URL %q" [addr])
  | Some (scheme, host) =>
      let! _ := fail_if (String.eqb scheme "" || String.eqb host "")
                  "upstreams.addresses: invalid upstream URL %q" [addr] in
      fail_if (negb (String.eqb scheme "http") && negb (String.eqb scheme "https"))
        "upstreams.addresses: unsupported scheme in %q (want http or https)" [addr]
  end.

Definition check_cidr (field : string) (_ : nat) (c : string) : result unit :=
  let! _ := wrap_err "%s: invalid CIDR %q: %w" [field; c] (of_lib "netip.ParsePrefix" (ParsePrefix c)) in Ok tt.

Definition validateCIDRs (field : string) (cidrs : list string) : result unit :=
  for_each (check_cidr field) 0 cidrs.

Definition check_country (_ : nat) (cc : string) : result unit :=
  fail_if (negb (Nat.eqb (String.length cc) 2) || negb (String.eqb (ToUpper cc) cc))
    "ip_lists.geo.allow_countries: %q is not a valid uppercase ISO 3166-1 alpha-2 code" [cc].

Definition check_geo (g : GeoConfig) : result unit :=
  if gc_Enabled g && match gc_AllowCountries g with [] => false | _ => true end then
    let! _ := fail_if (String.eqb (gc_DBPath g) "")
                "ip_lists.geo: db_path is required when geo.enabled is true" [] in
    let! _ := (if file_exists (gc_DBPath g) then Ok tt
               else Err (Errorw "ip_lists.geo.db_path: %w" [] (LibError "os.Stat"))) in
    for_each check_country 0 (gc_AllowCountries g)
  else Ok tt.

Definition check_route (i : nat) (r : RouteRateLimit) : result unit :=
  let! _ := fail_if (String.eqb (rr_PathPrefix r) "")
              "rate_limit.per_route[%d]: path_prefix is required" [pretty i] in
  fail_if (float_le0 (rl_RequestsPerSecond (rr_Rule r)) || (rl_Burst (rr_Rule r) <=? 0))
    "rate_limit.per_route[%d]: requests_per_second and burst must be > 0" [pretty i].

Definition check_ratelimit (r : RateLimitConfig) : result unit :=
  if rc_Enabled r then
    let! _ := fail_if (float_le0 (rl_RequestsPerSecond (rc_Default r)))
                "rate_limit.default.requests_per_second must be > 0" [] in
    let! _ := fail_if (rl_Burst (rc_Default r) <=? 0) "rate_limit.default.burst must be > 0" [] in
    for_each check_route 0 (rc_PerRoute r)
  else Ok tt.

Definition check_waf (w : WAFConfig) : result unit :=
  if wc_Enabled w then
    let! _ := fail_if (String.eqb (wc_RulesFile w) "")
                "waf.rules_file is required when waf.enabled is true" [] in
    let! _ := (if file_exists (wc_RulesFile w) then Ok tt
               else Err (Errorw "waf.rules_file: %w" [] (LibError "os.Stat"))) in
    fail_if (negb (String.eqb (wc_DefaultAction w) "block") && negb (String.eqb (wc_DefaultAction w) "log-only"))
      "waf.default_action must be %q or %q" ["block"; "log-only"]
  else Ok tt.

Definition log_levels : list string := ["debug"; "info"; "warn"; "error"].

Definition Validate (c : Config) : result unit :=
  let! _ := fail_if (match c_Listen c with [] => true | _ => false end)
              "listen: at least one listener is required" [] in
  let! _ := for_each check_listener 0 (c_Listen c) in
  let! _ := fail_if (match uc_Addresses (c_Upstreams c) with [] => true | _ => false end)
              "upstreams.addresses: at least one upstream is required" [] in
  let! _ := for_each check_upstream 0 (uc_Addresses (c_Upstreams c)) in
  let! _ := validateCIDRs "client_ip.trusted_proxies" (cc_TrustedProxies (c_ClientIP c)) in
  let! _ := validateCIDRs "ip_lists.allow" (il_Allow (c_IPLists c)) in
  let! _ := validateCIDRs "ip_lists.deny" (il_Deny (c_IPLists c)) in
  let! _ := check_geo (il_Geo (c_IPLists c)) in
  let! _ := check_ratelimit (c_RateLimit c) in
  let! _ := check_waf (c_WAF c) in
  let! _ := fail_if (ac_Enabled (c_Admin c) && String.eqb (ac_AuthTokenEnv (c_Admin c)) "")
              "admin.auth_token_env is required when admin.enabled is true" [] in
  fail_if (negb (existsb (String.eqb (lg_Level (c_Log c))) log_levels))
    "log.level must be one of debug|info|warn|error, got %q" [lg_Level (c_Log c)].

End Validate.

(** ** [Load]: open, decode, default, validate *)

(** The contents of the file at a path. *)
Class Files := { os_Open : string -> option string }.

(** The configuration a YAML document decodes to, unknown fields refused. *)
Class ConfigYaml := { yaml_Decode : string -> option Config }.

Section Load.
Context `{ConfigEnv} `{UnicodeTables} `{Files} `{ConfigYaml}.

Definition Load (path : string) : result Config :=
  let! f := wrap_err "open config: %w" [] (of_lib "os.Open" (os_Open path)) in
  let! cfg := wrap_err "parse config: %w" [] (of_lib "yaml.Decoder.Decode" (yaml_Decode f)) in
  let cfg := applyDefaults cfg in
  let! _ := wrap_err "invalid config: %w" [] (Validate cfg) in
  Ok cfg.

End Load.

(** ** Specification: what a valid configuration is *)

Section Spec.
Context `{ConfigEnv} `{UnicodeTables}.

Definition listener_valid (l : ListenConfig) : Prop :=
  lc_Address l <> "" /\
  (tls_Enabled (lc_TLS l) = true -> tls_CertFile (lc_TLS l) <> "" /\ tls_KeyFile (lc_TLS l) <> "").

Definition upstream_valid (addr : string) : Prop :=
  exists scheme host, url_parse addr = Some (scheme, host) /\ host <> "" /\
    (scheme = "http" \/ scheme = "https").

Definition geo_valid (g : GeoConfig) : Prop :=
  gc_Enabled g = true -> gc_AllowCountries g <> [] ->
  gc_DBPath g <> "" /\ file_exists (gc_DBPath g) = true /\
  Forall (fun cc => String.length cc = 2%nat /\ ToUpper cc = cc) (gc_AllowCountries g).

Definition rule_valid (r : RateLimitRule) : Prop :=
  float_le0 (rl_RequestsPerSecond r) = false /\ 0 < rl_Burst r.

Definition ratelimit_valid (r : RateLimitConfig) : Prop :=
  rc_Enabled r = true ->
  rule_valid (rc_Default r) /\
  Forall (fun x => rr_PathPrefix x <> "" /\ rule_valid (rr_Rule x)) (rc_PerRoute r).

Definition waf_valid (w : WAFConfig) : Prop :=
  wc_Enabled w = true ->
  wc_RulesFile w <> "" /\ file_exists (wc_RulesFile w) = true /\
  (wc_DefaultAction w = "block" \/ wc_DefaultAction w = "log-only").

Definition is_cidr (c : string) : Prop := is_Some (ParsePrefix c).

Definition config_valid (c : Config) : Prop :=
  (c_Listen c <> [] /\ Forall listener_valid (c_Listen c)) /\
  (uc_Addresses (c_Upstreams c) <> [] /\ Forall upstream_valid (uc_Addresses (c_Upstreams c))) /\
  Forall is_cidr (cc_TrustedProxies (c_ClientIP c)) /\
  (Forall is_cidr (il_Allow (c_IPLists c)) /\ Forall is_cidr (il_Deny (c_IPLists c)) /\
   geo_valid (il_Geo (c_IPLists c))) /\
  ratelimit_valid (c_RateLimit c) /\ waf_valid (c_WAF c) /\
  (ac_Enabled (c_Admin c) = true -> ac_AuthTokenEnv (c_Admin c) <> "") /\
  lg_Level (c_Log c) ∈ log_levels.

(** ** Lemmas *)

Lemma bind_tt (r : result unit) (k : result unit) :
  (let! _ := r in k) = Ok tt <-> r = Ok tt /\ k = Ok tt.
Proof. destruct r as [[]|e]; cbn; split; [auto|by intros []|done|by intros []]. Qed.

Lemma fail_if_ok b format args : fail_if b format args = Ok tt <-> b = false.
Proof. destruct b; cbn; split; done. Qed.

Lemma for_each_ok {A} (check : nat -> A -> result unit) P i l :
  (forall i x, check i x = Ok tt <-> P x) -> for_each check i l = Ok tt <-> Forall P l.
Proof.
  intros HP. revert i. induction l as [|x l IH]; intros i; cbn; [split; [constructor|done]|].
  by rewrite bind_tt, HP, IH, Forall_cons.
Qed.

Lemma eqb_empty s : String.eqb s "" = false <-> s <> "".
Proof. apply String.eqb_neq. Qed.

Create Rewrite HintDb validate.
#[local] Hint Rewrite bind_tt fail_if_ok eqb_empty orb_false_iff andb_false_iff negb_false_iff
  String.eqb_eq Z.leb_gt Nat.eqb_eq : validate.

Lemma check_listener_ok i l : check_listener i l = Ok tt <-> listener_valid l.
Proof.
  unfold check_listener, listener_valid. rewrite bind_tt, fail_if_ok, eqb_empty.
  destruct (tls_Enabled _); autorewrite with validate; naive_solver.
Qed.

Lemma check_upstream_ok i addr : check_upstream i addr = Ok tt <-> upstream_valid addr.
Proof.
  unfold check_upstream, upstream_valid. destruct (url_parse addr) as [[scheme host]|].
  - autorewrite with validate. split.
    + intros [[Hs Hh] Hd]. exists scheme, host. split_and!; [done|done|].
      done.
    + intros (s' & h' & [= <- <-] & Hh & Hs). split_and!; [|done|].
      * destruct Hs as [->| ->]; done.
      * destruct Hs as [->| ->]; [by left|by right].
  - split; [done|]. intros (? & ? & ? & _). done.
Qed.

Lemma validateCIDRs_ok field cs : validateCIDRs field cs = Ok tt <-> Forall is_cidr cs.
Proof.
  apply for_each_ok. intros i c. unfold check_cidr, is_cidr.
  destruct (ParsePrefix c); cbn; split; [by eexists|done|done|by intros []].
Qed.

Lemma check_geo_ok g : check_geo g = Ok tt <-> geo_valid g.
Proof.
  unfold check_geo, geo_valid. destruct (gc_Enabled g); [|naive_solver].
  destruct (gc_AllowCountries g) as [|c cs]; cbn [andb]; [naive_solver|].
  rewrite !bind_tt, fail_if_ok, eqb_empty,
    (for_each_ok check_country (fun cc => String.length cc = 2%nat /\ ToUpper cc = cc)).
  - destruct (file_exists _); naive_solver.
  - intros i cc. unfold check_country. autorewrite with validate. done.
Qed.

Lemma check_ratelimit_ok r : check_ratelimit r = Ok tt <-> ratelimit_valid r.
Proof.
  unfold check_ratelimit, ratelimit_valid, rule_valid. destruct (rc_Enabled r); [|naive_solver].
  rewrite !bind_tt, !fail_if_ok, Z.leb_gt,
    (for_each_ok check_route (fun x => rr_PathPrefix x <> "" /\ rule_valid (rr_Rule x))).
  - unfold rule_valid. naive_solver.
  - intros i x. unfold check_route, rule_valid. autorewrite with validate. done.
Qed.

Lemma check_waf_ok w : check_waf w = Ok tt <-> waf_valid w.
Proof.
  unfold check_waf, waf_valid. destruct (wc_Enabled w); [|naive_solver].
  rewrite !bind_tt, !fail_if_ok, eqb_empty, andb_false_iff, !negb_false_iff, !String.eqb_eq.
  destruct (file_exists _); naive_solver.
Qed.

Lemma Validate_valid c : Validate c = Ok tt <-> config_valid c.
Proof.
  unfold Validate, config_valid.
  rewrite !bind_tt, !fail_if_ok, (for_each_ok _ _ _ _ check_listener_ok),
    (for_each_ok _ _ _ _ check_upstream_ok), !validateCIDRs_ok, check_geo_ok, check_ratelimit_ok,
    check_waf_ok, andb_false_iff, eqb_empty, negb_false_iff.
  assert (existsb (String.eqb (lg_Level (c_Log c))) log_levels = true <-> lg_Level (c_Log c) ∈ log_levels) as ->.
  { rewrite existsb_exists. setoid_rewrite String.eqb_eq. setoid_rewrite <- list_elem_of_In. naive_solver. }
  destruct (c_Listen c), (uc_Addresses _), (ac_Enabled _); naive_solver.
Qed.

End Spec.

(** ** Properties *)

Section Properties.
Context `{ConfigEnv} `{UnicodeTables} `{Files} `{ConfigYaml}.

(** C27. Validation accepts exactly the valid configurations: at least one
    listener and upstream, every address, CIDR, URL, country code, TLS pair,
    rate, rules file, action, token variable and log level as [config_valid]
    states; what a disabled section holds does not matter. *)
Theorem Validate_iff_valid c : Validate c = Ok tt <-> config_valid c.
Proof. apply Validate_valid. Qed.

Lemma or_default_Z_idem v d : or_default_Z (or_default_Z v d) d = or_default_Z v d.
Proof. unfold or_default_Z. destruct (Z.eqb_spec v 0); [|by rewrite (proj2 (Z.eqb_neq v 0))]. by destruct (d =? 0). Qed.

Lemma or_default_str_idem v d : or_default_str (or_default_str v d) d = or_default_str v d.
Proof. unfold or_default_str. destruct (String.eqb v "") eqn:E; [by destruct (String.eqb d "")|by rewrite E]. Qed.

Lemma applyDefaults_idem c : applyDefaults (applyDefaults c) = applyDefaults c.
Proof. unfold applyDefaults. cbn. by rewrite !or_default_Z_idem, !or_default_str_idem. Qed.

Lemma or_default_Z_nonzero v d : d <> 0 -> or_default_Z v d <> 0.
Proof. unfold or_default_Z. by destruct (Z.eqb_spec v 0). Qed.

Lemma or_default_str_nonempty v d : d <> "" -> or_default_str v d <> "".
Proof. unfold or_default_str. by destruct (String.eqb_spec v ""). Qed.

(** What the rest of the program relies on about a loaded configuration. *)
Definition config_ready (c : Config) : Prop :=
  config_valid c /\ applyDefaults c = c /\
  uc_DialTimeout (c_Upstreams c) <> 0 /\ uc_ResponseHeaderTimeout (c_Upstreams c) <> 0 /\
  rc_IdleTTL (c_RateLimit c) <> 0 /\ bi_MaxBytes (wc_BodyInspection (c_WAF c)) <> 0 /\
  lg_RingBufferSize (c_Log c) <> 0 /\ sc_DrainTimeout (c_Shutdown c) <> 0 /\
  ac_Address (c_Admin c) <> "" /\ mc_Address (c_Metrics c) <> "" /\ mc_Path (c_Metrics c) <> "".

(** [Load] gives a configuration exactly when the file opens, decodes, and
    is valid once the defaults are filled in; what it gives is that
    configuration, with no zero timeout, capacity or address left. *)
Theorem Load_spec path c :
  Load path = Ok c <->
  exists f c0, os_Open path = Some f /\ yaml_Decode f = Some c0 /\
               c = applyDefaults c0 /\ config_ready c.
Proof.
  unfold Load, config_ready. destruct (os_Open path) as [f|]; cbn; [|naive_solver].
  destruct (yaml_Decode f) as [c0|] eqn:E; cbn; [|naive_solver].
  pose proof (Validate_valid (applyDefaults c0)) as HV.
  destruct (Validate (applyDefaults c0)) as [[]|e]; cbn; split.
  - intros [= <-]. exists f, c0. destruct HV as [HV _].
    split_and!; [done..|by apply HV|apply applyDefaults_idem| | | | | | | | |];
      first [by apply or_default_Z_nonzero | by apply or_default_str_nonempty].
  - intros (? & ? & [= <-] & ? & -> & _). congruence.
  - done.
  - intros (? & ? & [= <-] & ? & -> & Hc & _). replace x0 with c0 in Hc by congruence.
    apply HV in Hc. done.
Qed.

(** A configuration whose rate is not a number. *)
Definition with_rate (c : Config) (rule : RateLimitRule) : Config :=
  mkConfig (c_Listen c) (c_Upstreams c) (c_ClientIP c) (c_IPLists c) (c_Admin c)
    (mkRateLimitConfig true rule [] (rc_IdleTTL (c_RateLimit c)))
    (c_WAF c) (c_Log c) (c_Metrics c) (c_Shutdown c).

(** A rate of NaN requests per second passes validation, although the
    validator asks for a rate above zero: NaN <= 0 is false. *)
Theorem nan_rate_accepted c burst :
  config_valid c -> 0 < burst ->
  Validate (with_rate c (mkRateLimitRule S754_nan burst)) = Ok tt.
Proof.
  intros (Hl & Hu & Hp & Hi & _ & Hrest) Hb. apply Validate_valid.
  unfold config_valid, with_rate. cbn. split_and!; try apply Hl; try apply Hu; try apply Hi;
    try apply Hrest; try done.
Qed.

End Properties.

(** ** A concrete configuration *)

Section Witnesses.

#[local] Instance demo_env : ConfigEnv := {|
  url_parse := fun s => if String.eqb s "http://10.0.0.2:80" then Some ("http", "10.0.0.2:80") else None;
  file_exists := fun _ => true |}.
#[local] Instance demo_unicode : UnicodeTables := {| unicode_upper := fun s => s |}.

Definition demo_config : Config :=
  applyDefaults (mkConfig [mkListenConfig ":8080" (mkTLSConfig false "" "")]
    (mkUpstreamConfig ["http://10.0.0.2:80"] 0 0 0 0)
    (mkClientIPConfig ["10.0.0.0/8"])
    (mkIPListConfig [] ["192.0.2.0/24"] (mkGeoConfig true "/geo.mmdb" ["DE"]))
    (mkAdminConfig true "" "TOKEN" "")
    (mkRateLimitConfig true (mkRateLimitRule (S754_finite false 10 0) 20) [] 0)
    (mkWAFConfig true "/rules.yaml" (mkBodyInspectionConfig 0) "")
    (mkLogConfig "" "" "" 0) (mkMetricsConfig false "" "") (mkShutdownConfig 0)).

Lemma demo_config_valid : config_valid demo_config.
Proof. apply Validate_valid. vm_compute. reflexivity. Qed.

Lemma nan_rate_accepted_witness :
  config_valid demo_config /\ Validate (with_rate demo_config (mkRateLimitRule S754_nan 20)) = Ok tt.
Proof.
  split; [exact demo_config_valid|].
  apply (nan_rate_accepted demo_config 20); [exact demo_config_valid|lia].
Defined.

End Witnesses.
