(* ===== verification/Atomics.v ===== *)
(** * Compare-and-swap loops over an [atomic.Pointer]

    The IP lists (internal/middleware/ipfilter/filter.go) and the WAF overrides
    (internal/middleware/waf/engine.go) are edited by one idiom:
<<
    for {
        old := p.Load()
        ...                       // compute next from *old, or return
        if p.CompareAndSwap(old, next) { return ... }
    }
>>
    A loop body is a function from the loaded value to a [round]: return, or
    attempt a swap.  [step] interleaves any number of such loops on one pointer,
    pointers being addresses in a heap of immutable values, so that the
    comparison is the code's comparison of addresses and not of contents.  The
    abstract machine [atomic_step] runs each edit in one indivisible step; the
    refinement and the bounds below are proved once for every loop of this
    form. *)
From stdpp Require Import relations.
From S2P Require Import Prelude.

Section Atomics.
Context {V R : Type}.

Inductive round : Type :=
  | Return (r : R)
  | Swap (next : V) (r : R).

Abbreviation body := (V -> round).

(** ** The sequential meaning of a loop: one round, undisturbed *)
Definition run_body (f : body) (v : V) : R * V :=
  match f v with
  | Return r => (r, v)
  | Swap next r => (r, next)
  end.

(** ** The interleaving semantics *)

Inductive thread : Type :=
  | Ready (f : body)
  | Loaded (f : body) (old : nat)
  | Done (r : R).

Record config := mkConfig { mem : list V; cur : nat; threads : list thread }.

Inductive step : config -> config -> Prop :=
  | step_load m p ts i f :
      ts !! i = Some (Ready f) ->
      step (mkConfig m p ts) (mkConfig m p (<[i := Loaded f p]> ts))
  | step_return m p ts i f old v r :
      ts !! i = Some (Loaded f old) -> m !! old = Some v -> f v = Return r ->
      step (mkConfig m p ts) (mkConfig m p (<[i := Done r]> ts))
  | step_cas_ok m p ts i f old v next r :
      ts !! i = Some (Loaded f old) -> m !! old = Some v -> f v = Swap next r -> old = p ->
      step (mkConfig m p ts) (mkConfig (m ++ [next]) (length m) (<[i := Done r]> ts))
  | step_cas_fail m p ts i f old v next r :
      ts !! i = Some (Loaded f old) -> m !! old = Some v -> f v = Swap next r -> old <> p ->
      step (mkConfig m p ts) (mkConfig (m ++ [next]) p (<[i := Ready f]> ts)).

Definition init (v : V) (fs : list body) : config := mkConfig [v] 0 (Ready <$> fs).
Definition current (c : config) : option V := mem c !! cur c.

(** ** The atomic machine: each edit happens in one step *)

Inductive athread : Type :=
  | Pending (f : body)
  | Completed (r : R).

Record aconfig := mkAConfig { avalue : V; athreads : list athread }.

Inductive atomic_step (i : nat) : aconfig -> aconfig -> Prop :=
  | atomic_edit v ts f :
      ts !! i = Some (Pending f) ->
      atomic_step i (mkAConfig v ts)
        (mkAConfig (run_body f v).2 (<[i := Completed (run_body f v).1]> ts)).

(** A run of the atomic machine that performs the edits of the threads in
    [order], one after the other. *)
Inductive atomic_run : list nat -> aconfig -> aconfig -> Prop :=
  | run_nil a : atomic_run [] a a
  | run_snoc order i a b c :
      atomic_run order a b -> atomic_step i b c -> atomic_run (order ++ [i]) a c.

Definition ainit (v : V) (fs : list body) : aconfig := mkAConfig v (Pending <$> fs).

(** The state after running the edits one at a time in a given order. *)
Definition run_order (fs : list body) (order : list nat) (v : V) : V :=
  foldl (fun acc i => match fs !! i with Some f => (run_body f acc).2 | None => acc end) v order.

(** ** The simulation relation

    A loop that loaded a value on which it returns has taken effect already;
    one that loaded a value it will try to replace has not. *)
Definition thread_sim (m : list V) (t : thread) (a : athread) : Prop :=
  match t, a with
  | Ready f, Pending g => f = g
  | Loaded f old, Pending g =>
      f = g /\ exists v next r, m !! old = Some v /\ f v = Swap next r
  | Loaded f old, Completed r => exists v, m !! old = Some v /\ f v = Return r
  | Done r, Completed r' => r = r'
  | _, _ => False
  end.

Definition sim (c : config) (a : aconfig) : Prop :=
  current c = Some (avalue a) /\ Forall2 (thread_sim (mem c)) (threads c) (athreads a).

(** ** The measure of a configuration: rounds still to run *)

Definition thread_weight (p : nat) (t : thread) : nat :=
  match t with
  | Ready _ => 2
  | Loaded _ old => if decide (old = p) then 1 else 3
  | Done _ => 0
  end.

Definition running (t : thread) : nat := match t with Done _ => 0 | _ => 1 end.

Definition unfinished (ts : list thread) : nat := sum_list_with running ts.

Definition weight (c : config) : nat := sum_list_with (thread_weight (cur c)) (threads c).

Definition measure (c : config) : nat :=
  (unfinished (threads c) * (2 * length (threads c) + 1) + weight c)%nat.

Definition round_bound (n : nat) : nat := (n * (2 * n + 3))%nat.

(** ** Lemmas *)

Lemma sum_list_with_insert {A} (w : A -> nat) (l : list A) i x y :
  l !! i = Some x -> (sum_list_with w (<[i := y]> l) + w x = sum_list_with w l + w y)%nat.
Proof.
  revert i. induction l as [|z l IH]; intros [|i]; cbn; [done|done|intros [= ->]; lia|].
  intros H. rewrite <- !Nat.add_assoc. f_equal. by apply IH.
Qed.

Lemma sum_list_with_le {A} (w w' : A -> nat) (l : list A) k :
  (forall x, w' x <= w x + k)%nat -> (sum_list_with w' l <= sum_list_with w l + k * length l)%nat.
Proof. intros H. induction l as [|x l IH]; cbn; [lia|]. specialize (H x). lia. Qed.

Lemma sum_list_with_ready (w : thread -> nat) k fs :
  (forall f, w (Ready f) = k) -> sum_list_with w (Ready <$> fs) = (k * length fs)%nat.
Proof. intros H. induction fs as [|f fs IH]; cbn; [lia|]. rewrite H. cbn in IH. lia. Qed.

Lemma insert_replace {A} (l : list A) i x y : <[i := y]> (<[i := x]> l) = <[i := y]> l.
Proof. apply list_insert_insert_eq. Qed.

Lemma thread_sim_mono m next t a : thread_sim m t a -> thread_sim (m ++ [next]) t a.
Proof.
  destruct t as [f|f old|r], a as [g|r']; cbn; try done.
  - intros [-> (v & n & r & Hm & Hf)]. split; [done|]. exists v, n, r.
    split; [by apply lookup_app_l_Some|done].
  - intros (v & Hm & Hf). exists v. split; [by apply lookup_app_l_Some|done].
Qed.

Lemma atomic_run_single i a b : atomic_step i a b -> atomic_run [i] a b.
Proof. intros H. change [i] with ([] ++ [i]). eapply run_snoc; [constructor|done]. Qed.

(** A concrete step is at most one atomic edit. *)
Lemma sim_step c c' a :
  step c c' -> sim c a -> exists order a', atomic_run order a a' /\ sim c' a'.
Proof.
  intros Hstep [Hcur Hts]. destruct a as [v ats]. unfold current in Hcur.
  inversion Hstep as [m p ts i f Hi|m p ts i f old u r Hi Hm Hf
                     |m p ts i f old u next r Hi Hm Hf Hold
                     |m p ts i f old u next r Hi Hm Hf Hold]; subst; cbn in *.
  - destruct (Forall2_lookup_l _ _ _ _ _ Hts Hi) as (a & Ha & Hsim).
    destruct a as [g|r]; cbn in Hsim; [subst g|done].
    destruct (f v) as [r|next r] eqn:Ef.
    + exists [i], (mkAConfig v (<[i := Completed r]> ats)). split.
      * apply atomic_run_single. pose proof (atomic_edit i v ats f Ha) as H.
        unfold run_body in H. by rewrite Ef in H.
      * split; [done|]. cbn. apply Forall2_insert; [done|]. exists v. done.
    + exists [], (mkAConfig v ats). split; [constructor|]. split; [done|]. cbn.
      rewrite <- (list_insert_id ats i (Pending f)) by done.
      apply Forall2_insert; [done|]. split; [done|]. eauto.
  - destruct (Forall2_lookup_l _ _ _ _ _ Hts Hi) as (a & Ha & Hsim).
    exists [], (mkAConfig v ats). split; [constructor|]. split; [done|]. cbn.
    destruct a as [g|r']; cbn in Hsim;
      [destruct Hsim as (<- & ? & ? & ? & ? & ?); congruence|].
    rewrite <- (list_insert_id ats i (Completed r')) by done.
    apply Forall2_insert; [done|]. cbn. destruct Hsim as (? & ? & ?). congruence.
  - destruct (Forall2_lookup_l _ _ _ _ _ Hts Hi) as (a & Ha & Hsim).
    destruct a as [g|r']; cbn in Hsim; [destruct Hsim as [<- _]|destruct Hsim as (? & ? & ?); congruence].
    exists [i], (mkAConfig next (<[i := Completed r]> ats)). split.
    + apply atomic_run_single. pose proof (atomic_edit i v ats f Ha) as H.
      unfold run_body in H. replace u with v in * by congruence. by rewrite Hf in H.
    + split; [cbn; by rewrite lookup_app_r, Nat.sub_diag by done|]. cbn.
      apply Forall2_insert; [|done].
      eapply Forall2_impl; [done|]. intros. by apply thread_sim_mono.
  - destruct (Forall2_lookup_l _ _ _ _ _ Hts Hi) as (a & Ha & Hsim).
    destruct a as [g|r']; cbn in Hsim; [destruct Hsim as [<- _]|destruct Hsim as (? & ? & ?); congruence].
    exists [], (mkAConfig v ats). split; [constructor|].
    split; [by apply lookup_app_l_Some|]. cbn.
    rewrite <- (list_insert_id ats i (Pending f)) by done.
    apply Forall2_insert; [|done].
    eapply Forall2_impl; [done|]. intros. by apply thread_sim_mono.
Qed.

Lemma atomic_run_app o1 o2 a b c :
  atomic_run o1 a b -> atomic_run o2 b c -> atomic_run (o1 ++ o2) a c.
Proof.
  intros H1 H2. induction H2; [by rewrite app_nil_r|]. rewrite app_assoc. eapply run_snoc; eauto.
Qed.

(** Forward simulation, over whole executions. *)
Lemma sim_steps c c' a :
  rtc step c c' -> sim c a -> exists order a', atomic_run order a a' /\ sim c' a'.
Proof.
  intros Hs. revert a. induction Hs as [c|c1 c2 c3 H12 H23 IH]; intros a Hsim.
  { exists [], a. split; [constructor|done]. }
  destruct (sim_step _ _ _ H12 Hsim) as (o1 & a2 & Hr1 & Hsim2).
  destruct (IH _ Hsim2) as (o2 & a3 & Hr2 & Hsim3).
  exists (o1 ++ o2), a3. split; [by eapply atomic_run_app|done].
Qed.

Lemma sim_init v fs : sim (init v fs) (ainit v fs).
Proof.
  split; [done|]. cbn. apply Forall2_fmap_l, Forall2_fmap_r.
  apply Forall_Forall2_diag, Forall_forall. done.
Qed.

Lemma run_order_snoc fs order i v f :
  fs !! i = Some f -> run_order fs (order ++ [i]) v = (run_body f (run_order fs order v)).2.
Proof. intros Hi. unfold run_order. rewrite foldl_app. cbn. by rewrite Hi. Qed.

(** What a run of the atomic machine has done: every thread of [order] once,
    each on the value its predecessors left, and no other. *)
Definition run_outcome (v : V) (fs : list body) (order : list nat) (b : aconfig) : Prop :=
  avalue b = run_order fs order v /\ NoDup order /\ length (athreads b) = length fs /\
  (forall i, i ∉ order -> athreads b !! i = Pending <$> fs !! i) /\
  (forall pre i post, order = pre ++ i :: post ->
     exists f, fs !! i = Some f /\
       athreads b !! i = Some (Completed (run_body f (run_order fs pre v)).1)).

Lemma atomic_run_outcome v fs order b :
  atomic_run order (ainit v fs) b -> run_outcome v fs order b.
Proof.
  remember (ainit v fs) as a eqn:Ea. intros H.
  induction H as [a|order i a b c Hrun IH Hstep]; subst.
  { split_and!; [done|constructor|by cbn; rewrite length_fmap| |].
    - intros i _. cbn. by rewrite list_lookup_fmap.
    - intros pre i post Heq. by destruct pre. }
  destruct (IH eq_refl) as (Hv & Hnd & Hlen & Hpend & Hdone). clear IH.
  destruct Hstep as [u ts f Hi]. cbn in *. subst u.
  assert (i ∉ order) as Hni.
  { intros (pre & post & ->)%list_elem_of_split.
    destruct (Hdone pre i post eq_refl) as (g & _ & Hc). congruence. }
  assert (fs !! i = Some f) as Hf.
  { rewrite Hpend in Hi by done. destruct (fs !! i); naive_solver. }
  split_and!; cbn.
  - by erewrite run_order_snoc.
  - apply NoDup_app. split_and!; [done|set_solver|apply NoDup_singleton].
  - by rewrite length_insert.
  - intros j Hj. rewrite not_elem_of_app, not_elem_of_cons in Hj. destruct Hj as (Hj & Hji & _).
    rewrite list_lookup_insert_ne by done. by apply Hpend.
  - intros pre j post Heq. destruct post as [|k post _] using rev_ind.
    + apply app_inj_tail in Heq as [<- <-]. exists f. split; [done|].
      apply list_lookup_insert_eq. by eapply lookup_lt_Some.
    + rewrite app_comm_cons, app_assoc in Heq. apply app_inj_tail in Heq as [-> <-].
      destruct (Hdone pre j post eq_refl) as (g & Hg & Hc). exists g. split; [done|].
      rewrite list_lookup_insert_ne; [done|]. intros ->. apply Hni.
      apply elem_of_app. right. by left.
Qed.

(** Refinement: an execution of the loops, interleaved in any way, leaves the
    value some sequence of whole edits leaves, and every loop that has
    returned gave the result its edit gives at its place in that sequence. *)
Lemma loops_linearize v fs c :
  rtc step (init v fs) c ->
  exists order, NoDup order /\ current c = Some (run_order fs order v) /\
    forall i r, threads c !! i = Some (Done r) ->
      exists pre post f, order = pre ++ i :: post /\ fs !! i = Some f /\
        r = (run_body f (run_order fs pre v)).1.
Proof.
  intros Hs. destruct (sim_steps _ _ _ Hs (sim_init v fs)) as (order & b & Hrun & Hcur & Hts).
  destruct (atomic_run_outcome _ _ _ _ Hrun) as (Hv & Hnd & _ & Hpend & Hdone).
  exists order. split_and!; [done|congruence|]. intros i r Hi.
  destruct (Forall2_lookup_l _ _ _ _ _ Hts Hi) as ([g|r'] & Ha & Hsim); cbn in Hsim; [done|].
  destruct (decide (i ∈ order)) as [Hin|Hni].
  - apply list_elem_of_split in Hin as (pre & post & Heq).
    destruct (Hdone _ _ _ Heq) as (f & Hf & Hc). exists pre, post, f. split_and!; congruence.
  - rewrite (Hpend _ Hni) in Ha. destruct (fs !! i); naive_solver.
Qed.

(** When every loop has returned, every edit has been made, in some order, and
    has given the result of its place in it. *)
Lemma loops_all_done v fs c :
  rtc step (init v fs) c -> Forall (fun t => exists r, t = Done r) (threads c) ->
  exists order, order ≡ₚ seq 0 (length fs) /\ current c = Some (run_order fs order v) /\
    forall i f, fs !! i = Some f -> exists pre post, order = pre ++ i :: post /\
      threads c !! i = Some (Done (run_body f (run_order fs pre v)).1).
Proof.
  intros Hs Hall. destruct (sim_steps _ _ _ Hs (sim_init v fs)) as (order & b & Hrun & Hcur & Hts).
  destruct (atomic_run_outcome _ _ _ _ Hrun) as (Hv & Hnd & Hlen & Hpend & Hdone).
  assert (order ≡ₚ seq 0 (length fs)) as Hperm.
  2: { exists order. split_and!; [done|congruence|]. intros i f Hf.
       assert (i ∈ order) as (pre & post & Heq)%list_elem_of_split
         by (rewrite Hperm, elem_of_seq; apply lookup_lt_Some in Hf; lia).
       exists pre, post. split; [done|]. destruct (Hdone _ _ _ Heq) as (g & Hg & Hc).
       destruct (Forall2_lookup_r _ _ _ _ _ Hts Hc) as (t & Ht & Hsim).
       rewrite Forall_lookup in Hall. destruct (Hall _ _ Ht) as [r ->]. cbn in Hsim. congruence. }
  apply NoDup_Permutation; [done|apply NoDup_seq|]. intros i. rewrite elem_of_seq. split.
  - intros (pre & post & Heq)%list_elem_of_split.
    destruct (Hdone _ _ _ Heq) as (f & Hf & _). apply lookup_lt_Some in Hf. lia.
  - intros [_ Hi]. cbn in Hi. destruct (decide (i ∈ order)) as [|Hni]; [done|exfalso].
    destruct (lookup_lt_is_Some_2 fs i Hi) as [f Hf].
    specialize (Hpend _ Hni). rewrite Hf in Hpend. cbn in Hpend.
    destruct (Forall2_lookup_r _ _ _ _ _ Hts Hpend) as (t & Ht & Hsim).
    rewrite Forall_lookup in Hall. destruct (Hall _ _ Ht) as [r ->]. done.
Qed.

(** ** Progress and termination

    Every step lowers the measure, whatever the scheduler does: a successful
    swap makes the other loops retry once, and there are only so many edits. *)
Lemma step_threads c c' : step c c' -> length (threads c') = length (threads c).
Proof. by destruct 1; cbn; rewrite length_insert. Qed.

Lemma step_measure c c' : step c c' -> (measure c' < measure c)%nat.
Proof.
  intros Hs. unfold measure. rewrite (step_threads _ _ Hs).
  destruct Hs as [m p ts i f Hi|m p ts i f old u r Hi Hm Hf
                 |m p ts i f old u next r Hi Hm Hf ->
                 |m p ts i f old u next r Hi Hm Hf Hold]; unfold weight, unfinished; cbn;
    match goal with |- context [<[i := ?t]> ts] =>
      pose proof (sum_list_with_insert running ts i _ t Hi) as Hu;
      pose proof (sum_list_with_insert (thread_weight p) ts i _ t Hi) as Hw
    end; cbn in Hu, Hw.
  - rewrite decide_True in Hw by done. nia.
  - destruct (decide (old = p)); nia.
  - rewrite decide_True in Hw by done.
    pose proof (sum_list_with_le (thread_weight p) (thread_weight (length m)) (<[i := Done r]> ts) 2) as Hle.
    rewrite length_insert in Hle.
    assert (forall t, (thread_weight (length m) t <= thread_weight p t + 2)%nat) as Hpt.
    { intros [g|g old|r']; cbn; repeat case_decide; lia. }
    specialize (Hle Hpt). nia.
  - rewrite decide_False in Hw by done. nia.
Qed.

Lemma init_measure v fs : measure (init v fs) = round_bound (length fs).
Proof.
  unfold measure, weight, unfinished, round_bound, init. cbn [threads cur].
  rewrite length_fmap, (sum_list_with_ready running 1), (sum_list_with_ready (thread_weight 0) 2) by done.
  lia.
Qed.

Lemma nsteps_measure n c c' : nsteps step n c c' -> (n + measure c' <= measure c)%nat.
Proof. induction 1 as [|n c1 c2 c3 Hs _ IH]; [done|]. apply step_measure in Hs. lia. Qed.

(** No execution of [n] loops has more than [n * (2 * n + 3)] steps. *)
Lemma loops_terminate v fs n c :
  nsteps step n (init v fs) c -> (n <= round_bound (length fs))%nat.
Proof. intros H. apply nsteps_measure in H. rewrite init_measure in H. lia. Qed.

(** An execution that cannot continue has returned from every loop. *)
Lemma loops_progress v fs c :
  rtc step (init v fs) c -> (forall c', ~ step c c') ->
  Forall (fun t => exists r, t = Done r) (threads c).
Proof.
  intros Hs Hstuck. destruct (sim_steps _ _ _ Hs (sim_init v fs)) as (order & b & _ & _ & Hts).
  apply Forall_lookup. intros i t Hi.
  destruct (Forall2_lookup_l _ _ _ _ _ Hts Hi) as (a & _ & Hsim).
  destruct c as [m p ts]. cbn in *. destruct t as [f|f old|r]; [| |by eexists].
  - exfalso. eapply Hstuck, step_load, Hi.
  - exfalso. assert (exists u, m !! old = Some u) as [u Hu] by (destruct a; naive_solver).
    destruct (f u) as [r|next r] eqn:Hf.
    + eapply Hstuck, step_return; eauto.
    + destruct (decide (old = p)) as [Heq|Hne].
      * eapply Hstuck, step_cas_ok; eauto.
      * eapply Hstuck, step_cas_fail; eauto.
Qed.
End Atomics.
Arguments round : clear implicits.
Arguments thread : clear implicits.
Arguments config : clear implicits.
Arguments athread : clear implicits.
Arguments aconfig : clear implicits.
