(* ===== verification/Http.v ===== *)
(** * Go's [net/http]: requests, headers, bodies and connections

    What go-firewall's handlers use of the standard library's HTTP server: the
    header multimap with canonical keys, a request body read once, and the
    server's own response writer ([Conn]), whose first final status is the one
    sent. *)
From S2P Require Import Prelude GoStrings.

(** ** Headers *)

Abbreviation Header := (gmap string (list string)).

(** [Header.Values]: the lines of a header, in order. *)
Definition Header_Values (h : Header) (key : string) : list string :=
  default [] (h !! CanonicalHeaderKey key).

(** [Header.Get]: the first line of a header, or [""]. *)
Definition Header_Get (h : Header) (key : string) : string :=
  match Header_Values h key with v :: _ => v | [] => "" end.

Definition Header_Set (h : Header) (key value : string) : Header :=
  <[CanonicalHeaderKey key := [value]]> h.

(** ** Bodies

    A reader yields its bytes and then fails or ends. *)
Record Reader := mkReader { rd_data : bytes; rd_fails : bool }.

Inductive Body : Type :=
  | NilBody
  | NoBody
  | BodyReader (rd : Reader).

(** [io.ReadAll(io.LimitReader(rd, n))]: the bytes read, or an error, and what
    is left of the reader. *)
Definition read_limit (rd : Reader) (n : Z) : result bytes * Reader :=
  let k := Z.to_nat n in
  if Z.of_nat (length (rd_data rd)) <? n then
    (if rd_fails rd then Err (LibError "io.ReadAll") else Ok (rd_data rd),
     mkReader [] (rd_fails rd))
  else (Ok (take k (rd_data rd)), mkReader (drop k (rd_data rd)) (rd_fails rd)).

(** [io.MultiReader(bytes.NewReader(prefix), rest)]. *)
Definition multi_reader (prefix : bytes) (rest : Reader) : Reader :=
  mkReader (prefix ++ rd_data rest) (rd_fails rest).

(** ** Requests *)

Record Request := mkRequest {
  r_method : string;
  r_path : string;            (* URL.Path *)
  r_rawquery : string;        (* URL.RawQuery *)
  r_host : string;
  r_remoteaddr : string;
  r_header : Header;
  r_body : Body;
  r_contentlength : Z;
  r_tls : option Z;           (* TLS version, None without TLS *)
  r_recorder : option nat     (* the *Recorder of the context *)
}.

Definition with_body (r : Request) (b : Body) : Request :=
  mkRequest (r_method r) (r_path r) (r_rawquery r) (r_host r) (r_remoteaddr r)
    (r_header r) b (r_contentlength r) (r_tls r) (r_recorder r).

Definition WithRecorder (r : Request) (l : nat) : Request :=
  mkRequest (r_method r) (r_path r) (r_rawquery r) (r_host r) (r_remoteaddr r)
    (r_header r) (r_body r) (r_contentlength r) (r_tls r) (Some l).

(** ** The server's response writer *)

Record Conn := mkConn {
  c_wroteHeader : bool;
  c_status : Z;               (* the final status, once the header is written *)
  c_informational : list Z;   (* 1xx responses already sent *)
  c_header : Header;
  c_body : bytes;
  c_hijackable : bool;        (* HTTP/1.1 connections can be taken over *)
  c_aborted : bool            (* a handler panicked with ErrAbortHandler *)
}.

Definition fresh_conn (hijackable : bool) : Conn := mkConn false 0 [] ∅ [] hijackable false.

Definition informational (code : Z) : bool := (100 <=? code) && (code <=? 199) && negb (code =? 101).

(** [response.WriteHeader]: an informational status is sent at once and is not
    the final one; after the final one, calls are superfluous. *)
Definition Conn_WriteHeader (c : Conn) (code : Z) : Conn :=
  if c_wroteHeader c then c
  else if informational code then
    mkConn false (c_status c) (c_informational c ++ [code]) (c_header c) (c_body c) (c_hijackable c) (c_aborted c)
  else mkConn true code (c_informational c) (c_header c) (c_body c) (c_hijackable c) (c_aborted c).

Definition body_allowed (status : Z) : bool :=
  negb (((100 <=? status) && (status <=? 199)) || (status =? 204) || (status =? 304)).

(** [response.Write]: the header is written first, with status 200; a status
    without a body refuses the bytes.  Returns the number of bytes taken. *)
Definition Conn_Write (c : Conn) (b : bytes) : Z * Conn :=
  let c := if c_wroteHeader c then c else Conn_WriteHeader c 200 in
  if body_allowed (c_status c) then
    (Z.of_nat (length b),
     mkConn (c_wroteHeader c) (c_status c) (c_informational c) (c_header c) (c_body c ++ b) (c_hijackable c)
       (c_aborted c))
  else (0, c).

Definition Conn_UpdHeader (f : Header -> Header) (c : Conn) : Conn :=
  mkConn (c_wroteHeader c) (c_status c) (c_informational c) (f (c_header c)) (c_body c) (c_hijackable c) (c_aborted c).

Definition Conn_SetHeader (c : Conn) (key value : string) : Conn :=
  Conn_UpdHeader (fun h => Header_Set h key value) c.

(** [panic(http.ErrAbortHandler)]: the panic unwinds the handlers, running
    their deferred calls only, up to the server, which closes the connection. *)
Definition Conn_Abort (c : Conn) : Conn :=
  mkConn (c_wroteHeader c) (c_status c) (c_informational c) (c_header c) (c_body c) (c_hijackable c) true.

(** ** Status codes used by the handlers *)
Definition StatusOK := 200.
Definition StatusNoContent := 204.
Definition StatusMovedPermanently := 301.
Definition StatusBadRequest := 400.
Definition StatusUnauthorized := 401.
Definition StatusForbidden := 403.
Definition StatusMethodNotAllowed := 405.
Definition StatusNotFound := 404.
Definition StatusTooManyRequests := 429.
Definition StatusBadGateway := 502.
Definition StatusServiceUnavailable := 503.

(** ** Lemmas *)

Lemma read_limit_rest rd n p rest :
  0 <= n -> read_limit rd n = (Ok p, rest) ->
  multi_reader p rest = rd /\ p = take (Z.to_nat n) (rd_data rd).
Proof.
  intros Hn. unfold read_limit, multi_reader. destruct rd as [d f]; cbn [rd_data rd_fails].
  destruct (Z.ltb_spec (Z.of_nat (length d)) n).
  - destruct f; [done|]. intros [= <- <-]. cbn. rewrite app_nil_r.
    split; [done|]. rewrite take_ge; [done|lia].
  - intros [= <- <-]. cbn. by rewrite take_drop.
Qed.

Lemma read_limit_neg rd n : n <= 0 -> read_limit rd n = (Ok [], rd).
Proof.
  intros Hn. unfold read_limit. destruct (Z.ltb_spec (Z.of_nat (length (rd_data rd))) n); [lia|].
  replace (Z.to_nat n) with 0%nat by lia. destruct rd. by rewrite take_0, drop_0.
Qed.

Lemma Conn_WriteHeader_final c code :
  c_wroteHeader c = false -> informational code = false ->
  c_status (Conn_WriteHeader c code) = code /\ c_wroteHeader (Conn_WriteHeader c code) = true.
Proof. intros H1 H2. unfold Conn_WriteHeader. by rewrite H1, H2. Qed.

Lemma Conn_WriteHeader_superfluous c code :
  c_wroteHeader c = true -> Conn_WriteHeader c code = c.
Proof. intros H. unfold Conn_WriteHeader. by rewrite H. Qed.

Lemma Conn_Write_spec c b n c' :
  Conn_Write c b = (n, c') ->
  c_wroteHeader c' = true /\
  c_status c' = (if c_wroteHeader c then c_status c else StatusOK) /\
  Z.of_nat (length (c_body c')) = Z.of_nat (length (c_body c)) + n.
Proof.
  unfold Conn_Write, Conn_WriteHeader. destruct c as [[] st inf h body hj ab]; cbn -[body_allowed];
    destruct (body_allowed _); intros [= <- <-]; cbn; rewrite ?length_app; split_and!; done || lia.
Qed.

Lemma Conn_WriteHeader_aborted c code : c_aborted (Conn_WriteHeader c code) = c_aborted c.
Proof. unfold Conn_WriteHeader. destruct (c_wroteHeader c); [done|]. by destruct (informational code). Qed.

Lemma Conn_Write_aborted c b : c_aborted (Conn_Write c b).2 = c_aborted c.
Proof.
  unfold Conn_Write. destruct (body_allowed _); cbn; (destruct (c_wroteHeader c); [done|]); apply Conn_WriteHeader_aborted.
Qed.
