(* ===== verification/Httputil.v ===== *)
(** * Go's [net/http/httputil]: what [ReverseProxy] does around a round trip

    The outgoing request a [ReverseProxy] with a [Rewrite] function builds:
    hop-by-hop and forwarding headers dropped, the query cleaned, then
    [pr.SetURL] and [pr.SetXForwarded].  It belongs to the language's standard
    library; the proxy's own code is in Proxy. *)
From S2P Require Import Prelude GoStrings Http.

(** ** Header tokens *)

Definition lower_byte (c : ascii) : ascii := if is_upper c then chr (code c + 32) else c.

(** [ascii.EqualFold] and [ascii.IsPrint] *)
Definition EqualFold (s t : string) : bool := bool_decide ((lower_byte <$> to_bytes s) = (lower_byte <$> to_bytes t)).
Definition IsPrint (s : string) : bool := forallb (in_range 32 126) (to_bytes s).

Fixpoint drop_spaces (s : bytes) : bytes :=
  match s with
  | c :: s' => if existsb (byte_eqb c) [" "; "009"; "010"; "013"]%char then drop_spaces s' else s
  | [] => []
  end.
(** [textproto.TrimString] *)
Definition TrimString (s : string) : string := of_bytes (reverse (drop_spaces (reverse (drop_spaces (to_bytes s))))).

(** The comma-separated tokens of a header's lines. *)
Definition header_tokens (values : list string) : list string :=
  TrimString <$> concat ((fun v => Split v ",") <$> values).

(** [httpguts.HeaderValuesContainsToken], the token being ASCII. *)
Definition contains_token (values : list string) (token : string) : bool :=
  existsb (EqualFold token) (header_tokens values).

(** ** Hop-by-hop headers *)

Definition hopHeaders : list string :=
  ["Connection"; "Proxy-Connection"; "Keep-Alive"; "Proxy-Authenticate"; "Proxy-Authorization"; "Te"; "Trailer";
   "Transfer-Encoding"; "Upgrade"].

Definition Header_Del (h : Header) (key : string) : Header := delete (CanonicalHeaderKey key) h.

Definition removeHopByHopHeaders (h : Header) : Header :=
  let listed := filter (fun f => f <> "") (header_tokens (Header_Values h "Connection")) in
  foldl Header_Del (foldl Header_Del h listed) hopHeaders.

(** The protocol a request or a response switches to, [""] for none. *)
Definition upgradeType (h : Header) : string :=
  if contains_token (Header_Values h "Connection") "Upgrade" then Header_Get h "Upgrade" else "".

(** [copyHeader]: the lines of [src] after those of [dst]. *)
Definition copyHeader (src dst : Header) : Header := union_with (fun a b => Some (a ++ b)) dst src.

(** ** The outgoing request *)

(** [cleanQueryParams]: a query with a malformed escape or a semicolon is
    encoded again from the pairs that decode. *)
Definition is_hex (c : ascii) : bool := match hexval c with Some _ => true | None => false end.
Fixpoint well_escaped (s : bytes) : bool :=
  match s with
  | [] => true
  | c :: s' =>
      if byte_eqb c ";" then false
      else if byte_eqb c "%" then
        match s' with a :: b :: s'' => is_hex a && is_hex b && well_escaped s'' | _ => false end
      else well_escaped s'
  end.
Definition cleanQueryParams (query : string) : string :=
  if well_escaped (to_bytes query) then query else Encode (ParseQuery query).

Record URL := mkURL { u_Scheme : string; u_Host : string; u_Path : string; u_RawQuery : string }.

(** [singleJoiningSlash], the path part of [SetURL]. *)
Definition single_join (a b : string) : string :=
  let aslash := match last (to_bytes a) with Some c => byte_eqb c "/" | None => false end in
  let bslash := HasPrefix b "/" in
  if aslash && bslash then a +:+ TrimPrefix b "/"
  else if negb aslash && negb bslash then a +:+ "/" +:+ b
  else a +:+ b.

Definition join_query (a b : string) : string :=
  if String.eqb a "" || String.eqb b "" then a +:+ b else a +:+ "&" +:+ b.

(** The header [ServeHTTP] gives to [Rewrite]. *)
Definition stripped_header (h : Header) : Header :=
  let out := removeHopByHopHeaders h in
  let out := if contains_token (Header_Values h "Te") "trailers" then <["Te" := ["trailers"]]> out else out in
  let out := if String.eqb (upgradeType h) "" then out
             else <["Upgrade" := [upgradeType h]]> (<["Connection" := ["Upgrade"]]> out) in
  delete "X-Forwarded-Proto" (delete "X-Forwarded-Host" (delete "X-Forwarded-For" (delete "Forwarded" out))).

(** [pr.SetXForwarded()] *)
Definition SetXForwarded (remoteaddr host : string) (tls : option Z) (out : Header) : Header :=
  let out := match SplitHostPort remoteaddr with
             | Some (clientIP, _) => <["X-Forwarded-For" := [clientIP]]> out
             | None => delete "X-Forwarded-For" out
             end in
  let out := <["X-Forwarded-Host" := [host]]> out in
  <["X-Forwarded-Proto" := [match tls with Some _ => "https" | None => "http" end]]> out.

(** An empty body is dropped when the length is 0. *)
Definition out_body (r : Request) : Request := if r_contentlength r =? 0 then with_body r NilBody else r.

(** [rewrite target r]: the request sent to [target] on behalf of [r]. *)
Definition rewrite (target : URL) (r : Request) : Request :=
  let h := SetXForwarded (r_remoteaddr r) (r_host r) (r_tls r) (stripped_header (r_header r)) in
  let h := match h !! "User-Agent" with Some _ => h | None => <["User-Agent" := [""]]> h end in
  mkRequest (r_method r) (single_join (u_Path target) (r_path r))
    (join_query (u_RawQuery target) (cleanQueryParams (r_rawquery r)))
    "" (r_remoteaddr r) h (r_body (out_body r)) (r_contentlength r) (r_tls r) (r_recorder r).

Example rewrite_example :
  let r := mkRequest "GET" "/x" "q=%3Cb%3E&%zz" "shop.example" "192.0.2.1:5000"
    (<["Connection" := ["close, X-Secret"]]> (<["X-Secret" := ["s"]]> (<["X-Forwarded-For" := ["10.0.0.1"]]> ∅)))
    NoBody 0 None None in
  let out := rewrite (mkURL "http" "a:80" "/api/" "k=1") r in
  r_path out = "/api/x" /\ r_rawquery out = "k=1&q=%3Cb%3E" /\ r_body out = NilBody /\
  r_header out = <["X-Forwarded-For" := ["192.0.2.1"]]> (<["X-Forwarded-Host" := ["shop.example"]]>
    (<["X-Forwarded-Proto" := ["http"]]> (<["User-Agent" := [""]]> ∅))).
Proof. by vm_compute. Qed.

(** ** What the upstream sees of the client's headers *)

Lemma foldl_Header_Del_lookup names h k :
  foldl Header_Del h names !! k = if decide (k ∈ CanonicalHeaderKey <$> names) then None else h !! k.
Proof.
  revert h. induction names as [|n names IH]; intros h; cbn; [done|]. rewrite IH. unfold Header_Del.
  destruct (decide (k = CanonicalHeaderKey n)) as [->|Hne].
  - rewrite lookup_delete_eq. rewrite (decide_True (P := _ ∈ _ :: _)) by apply elem_of_cons, or_introl, eq_refl.
    by case_decide.
  - rewrite lookup_delete_ne by done. repeat case_decide; set_solver.
Qed.

(** The headers the client's Connection header names. *)
Definition connection_options (h : Header) : list string :=
  CanonicalHeaderKey <$> filter (fun f => f <> "") (header_tokens (Header_Values h "Connection")).

Lemma hopHeaders_canonical : CanonicalHeaderKey <$> hopHeaders = hopHeaders.
Proof. vm_compute. reflexivity. Qed.

Lemma removeHopByHopHeaders_lookup h k :
  removeHopByHopHeaders h !! k = if decide (k ∈ hopHeaders \/ k ∈ connection_options h) then None else h !! k.
Proof.
  unfold removeHopByHopHeaders. rewrite !foldl_Header_Del_lookup, hopHeaders_canonical.
  fold (connection_options h). repeat case_decide; try done; tauto.
Qed.

Definition forwarding_headers : list string :=
  ["Forwarded"; "X-Forwarded-For"; "X-Forwarded-Host"; "X-Forwarded-Proto"].

(** Forwarding and hop-by-hop headers apart, a header is passed on as it is
    unless the client's Connection header names it. *)
Lemma stripped_header_lookup h k :
  k ∉ ["Connection"; "Upgrade"; "Te"] ->
  stripped_header h !! k =
    if decide (k ∈ forwarding_headers \/ k ∈ hopHeaders \/ k ∈ connection_options h) then None else h !! k.
Proof.
  intros Hk. unfold stripped_header. rewrite !elem_of_cons, elem_of_nil in Hk.
  assert (forall out : Header, (if String.eqb (upgradeType h) "" then out
     else <["Upgrade" := [upgradeType h]]> (<["Connection" := ["Upgrade"]]> out)) !! k = out !! k) as Hup.
  { intros out. destruct (String.eqb _ _); [done|]. rewrite !lookup_insert_ne; [done|intros <-; tauto..]. }
  assert (forall (b : bool) (out : Header), (if b then <["Te" := ["trailers"]]> out else out) !! k = out !! k) as Hte.
  { intros [] out; [|done]. rewrite lookup_insert_ne; [done|intros <-; tauto]. }
  destruct (decide (k ∈ forwarding_headers)) as [Hf|Hf].
  - rewrite decide_True by tauto. unfold forwarding_headers in Hf. rewrite !elem_of_cons, elem_of_nil in Hf.
    destruct Hf as [->|[->|[->|[->|[]]]]]; rewrite !lookup_delete_None; tauto.
  - unfold forwarding_headers in Hf. rewrite !elem_of_cons, elem_of_nil in Hf.
    rewrite !lookup_delete_ne by (intros <-; tauto). rewrite Hup, Hte, removeHopByHopHeaders_lookup.
    rewrite (decide_ext (k ∈ forwarding_headers \/ k ∈ hopHeaders \/ k ∈ connection_options h)
      (k ∈ hopHeaders \/ k ∈ connection_options h)); [done|]. unfold forwarding_headers.
    rewrite !elem_of_cons, elem_of_nil. tauto.
Qed.

(** The three headers that are dropped and, in one case each, set again. *)
Lemma stripped_header_reset h :
  stripped_header h !! "Te" =
    (if contains_token (Header_Values h "Te") "trailers" then Some ["trailers" : string] else None) /\
  stripped_header h !! "Connection" = (if String.eqb (upgradeType h) "" then None else Some ["Upgrade" : string]) /\
  stripped_header h !! "Upgrade" = (if String.eqb (upgradeType h) "" then None else Some [upgradeType h]).
Proof.
  assert (forall k, bool_decide (k ∈ hopHeaders) = true -> removeHopByHopHeaders h !! k = None) as Hhop
    by (intros k Hk%bool_decide_eq_true; rewrite removeHopByHopHeaders_lookup; apply decide_True; by left).
  unfold stripped_header. rewrite !lookup_delete_ne by done.
  split_and!; destruct (String.eqb _ _), (contains_token _ "trailers");
    rewrite ?lookup_insert_eq; repeat (rewrite lookup_insert_ne by done; rewrite ?lookup_insert_eq);
    first [reflexivity | by apply Hhop].
Qed.

(** The headers [SetXForwarded] and the User-Agent default leave alone. *)
Lemma rewrite_header_lookup target r k :
  k ∉ ["X-Forwarded-For"; "X-Forwarded-Host"; "X-Forwarded-Proto"; "User-Agent"] ->
  r_header (rewrite target r) !! k = stripped_header (r_header r) !! k.
Proof.
  rewrite !not_elem_of_cons. intros (H1 & H2 & H3 & H4 & _). unfold rewrite. cbn [r_header].
  assert (SetXForwarded (r_remoteaddr r) (r_host r) (r_tls r) (stripped_header (r_header r)) !! k =
    stripped_header (r_header r) !! k) as <-.
  { unfold SetXForwarded. rewrite !lookup_insert_ne by done.
    destruct (SplitHostPort _) as [[host port]|]; by rewrite ?lookup_insert_ne, ?lookup_delete_ne. }
  destruct (_ !! "User-Agent"); [done|]. by rewrite lookup_insert_ne.
Qed.

(** What [SetXForwarded] and the User-Agent default set. *)
Lemma rewrite_header_set target r :
  let h := r_header (rewrite target r) in
  h !! "X-Forwarded-For" = (fun hp => [hp.1]) <$> SplitHostPort (r_remoteaddr r) /\
  h !! "X-Forwarded-Host" = Some [r_host r] /\
  h !! "X-Forwarded-Proto" = Some [match r_tls r with Some _ => "https" : string | None => "http" end] /\
  h !! "User-Agent" = Some (default [""] (stripped_header (r_header r) !! "User-Agent")).
Proof.
  cbn zeta. set (h0 := SetXForwarded (r_remoteaddr r) (r_host r) (r_tls r) (stripped_header (r_header r))).
  assert (forall k, k <> "User-Agent" -> r_header (rewrite target r) !! k = h0 !! k) as Hua.
  { intros k Hk. unfold rewrite. cbn [r_header]. fold h0. destruct (h0 !! "User-Agent"); [done|]. by rewrite lookup_insert_ne. }
  rewrite !Hua by done. split_and!.
  - unfold h0, SetXForwarded. rewrite !lookup_insert_ne by done. destruct (SplitHostPort _) as [[host port]|]; cbn;
      [apply lookup_insert_eq|apply lookup_delete_eq].
  - unfold h0, SetXForwarded. rewrite lookup_insert_ne by done. apply lookup_insert_eq.
  - apply lookup_insert_eq.
  - assert (h0 !! "User-Agent" = stripped_header (r_header r) !! "User-Agent") as Hh.
    { unfold h0, SetXForwarded. rewrite !lookup_insert_ne by done.
      destruct (SplitHostPort _) as [[host port]|]; by rewrite ?lookup_insert_ne, ?lookup_delete_ne. }
    unfold rewrite. cbn [r_header]. fold h0. rewrite <- Hh. destruct (h0 !! "User-Agent") eqn:E; [done|]. by simplify_map_eq.
Qed.

(** C25. Every header of the outgoing request, by its canonical name.  The
    forwarding headers are those of the connection the request came on, whatever
    the client sent, and there is no Forwarded header.  Of the hop-by-hop
    headers, and those the client's Connection header names, none is passed on,
    with two exceptions: Te is ["trailers"] when the client's Te lists that
    token, and when the client asks for an upgrade (an Upgrade token in its
    Connection header and a protocol in Upgrade) the request carries
    ["Connection: Upgrade"] and that protocol.  The User-Agent is the client's,
    or empty when there is none or the Connection header names it.  Every other
    header is passed on unchanged. *)
Theorem outgoing_headers target r :
  let h := r_header (rewrite target r) in
  h !! "X-Forwarded-For" = (fun hp => [hp.1]) <$> SplitHostPort (r_remoteaddr r) /\
  h !! "X-Forwarded-Host" = Some [r_host r] /\
  h !! "X-Forwarded-Proto" = Some [match r_tls r with Some _ => "https" : string | None => "http" end] /\
  h !! "Forwarded" = None /\
  h !! "Te" = (if contains_token (Header_Values (r_header r) "Te") "trailers" then Some ["trailers" : string] else None) /\
  (if String.eqb (upgradeType (r_header r)) "" then h !! "Connection" = None /\ h !! "Upgrade" = None
   else h !! "Connection" = Some ["Upgrade" : string] /\ h !! "Upgrade" = Some [upgradeType (r_header r)]) /\
  h !! "User-Agent" = Some (if decide ("User-Agent" ∈ connection_options (r_header r)) then [""]
                            else default [""] (r_header r !! "User-Agent")) /\
  forall k, k ∉ ["Connection"; "Upgrade"; "Te"; "User-Agent"] -> k ∉ forwarding_headers ->
    h !! k = if decide (k ∈ hopHeaders \/ k ∈ connection_options (r_header r)) then None else r_header r !! k.
Proof.
  cbn zeta. destruct (rewrite_header_set target r) as (Hfor & Hhost & Hproto & Hua).
  destruct (stripped_header_reset (r_header r)) as (Hte & Hconn & Hup).
  do 3 (split; [done|]). rewrite !rewrite_header_lookup, Hua, Hte, Hconn, Hup by (apply (bool_decide_unpack _); vm_compute; exact I).
  split; [|split; [done|split; [by destruct (String.eqb _ _)|split]]].
  - unfold stripped_header. rewrite !lookup_delete_None. tauto.
  - rewrite stripped_header_lookup by (apply (bool_decide_unpack _); vm_compute; exact I). f_equal.
    case_decide as H1; case_decide as H2; try done; [exfalso; destruct H1 as [H1|[H1|H1]]; [..|done]|tauto].
    all: revert H1; apply (bool_decide_unpack _); vm_compute; exact I.
  - intros k Hk Hf. rewrite rewrite_header_lookup, stripped_header_lookup.
    + case_decide as H1; case_decide as H2; tauto.
    + rewrite !not_elem_of_cons in *. repeat split; tauto || apply not_elem_of_nil.
    + unfold forwarding_headers in Hf. rewrite !not_elem_of_cons in *. repeat split; tauto || apply not_elem_of_nil.
Qed.

Lemma outgoing_headers_witness :
  let r := mkRequest "GET" "/x" "" "shop.example" "192.0.2.1:5000"
    (<["X-Forwarded-For" := ["10.0.0.1" : string]]> (<["Accept" := ["a"; "b"]]> ∅)) NoBody 0 None None in
  r_header (rewrite (mkURL "http" "a:80" "" "") r) !! "Accept" = Some ["a" : string; "b"].
Proof.
  intros r. destruct (outgoing_headers (mkURL "http" "a:80" "" "") r) as (_ & _ & _ & _ & _ & _ & _ & Hk).
  etrans; [apply (Hk "Accept"); apply (bool_decide_unpack _); vm_compute; exact I|vm_compute; reflexivity].
Defined.
