(* ===== verification/Middleware.v ===== *)
(** * internal/middleware: the recorder, the status recorder and the chain

    chain.go and statusrecorder.go.  Handlers run in a [World]: a heap of
    [Recorder]s and of [StatusRecorder]s, which outer and inner handlers share
    by pointer, the connection, a clock and a source of random bytes, and the
    state [C] of the program's components. *)
From S2P Require Import Prelude GoStrings Netip Http.

(** ** Outcomes and reasons *)
Definition OutcomeAllowed : string := "allowed".
Definition OutcomeBlocked : string := "blocked".

Definition BlockReasonIPDeny : string := "ip-deny".
Definition BlockReasonGeoDeny : string := "geo-deny".
Definition BlockReasonRateLimit : string := "rate-limit".
Definition BlockReasonWAF : string := "waf".
Definition BlockReasonUpstreamError : string := "upstream-error".

(** ** The recorder *)

Record Recorder := mkRecorder {
  clientIP : Addr;
  outcome : string;
  blockReason : string;
  wafRuleID : Z;
  wafCategory : string;
  upstream : string;
  upstreamStatus : Z;
  upstreamErrorReason : string;
  requestID : string
}.

Definition NewRecorder (requestID : string) : Recorder :=
  mkRecorder AddrZero OutcomeAllowed "" 0 "" "" 0 "" requestID.

Definition SetClientIP (ip : Addr) (r : Recorder) : Recorder :=
  mkRecorder ip (outcome r) (blockReason r) (wafRuleID r) (wafCategory r)
    (upstream r) (upstreamStatus r) (upstreamErrorReason r) (requestID r).

Definition SetBlocked (reason : string) (r : Recorder) : Recorder :=
  mkRecorder (clientIP r) OutcomeBlocked reason (wafRuleID r) (wafCategory r)
    (upstream r) (upstreamStatus r) (upstreamErrorReason r) (requestID r).

Definition SetWAFMatch (ruleID : Z) (category : string) (r : Recorder) : Recorder :=
  mkRecorder (clientIP r) (outcome r) (blockReason r) ruleID category
    (upstream r) (upstreamStatus r) (upstreamErrorReason r) (requestID r).

Definition SetUpstream (addr : string) (status : Z) (r : Recorder) : Recorder :=
  mkRecorder (clientIP r) (outcome r) (blockReason r) (wafRuleID r) (wafCategory r)
    addr status (upstreamErrorReason r) (requestID r).

Definition SetUpstreamErrorReason (reason : string) (r : Recorder) : Recorder :=
  mkRecorder (clientIP r) (outcome r) (blockReason r) (wafRuleID r) (wafCategory r)
    (upstream r) (upstreamStatus r) reason (requestID r).

Record Snapshot := mkSnapshot {
  s_ClientIP : Addr;
  s_Outcome : string;
  s_BlockReason : string;
  s_WAFRuleID : Z;
  s_WAFCategory : string;
  s_Upstream : string;
  s_UpstreamStatus : Z;
  s_UpstreamErrorReason : string;
  s_RequestID : string
}.

Definition Snapshot_of (r : Recorder) : Snapshot :=
  mkSnapshot (clientIP r) (outcome r) (blockReason r) (wafRuleID r) (wafCategory r)
    (upstream r) (upstreamStatus r) (upstreamErrorReason r) (requestID r).

(** The zero [Snapshot] of [var snap mw.Snapshot]. *)
Definition zero_Snapshot : Snapshot := mkSnapshot AddrZero "" "" 0 "" "" 0 "" "".

(** ** The status recorder's fields *)
Record StatusRecorder := mkStatusRecorder { Status : Z; Bytes : Z; wrote : bool }.

(** ** The world a handler runs in *)

(** A response writer is the connection, or a [*StatusRecorder] around another
    writer. *)
Inductive ResponseWriter : Type :=
  | ConnWriter
  | RecorderWriter (l : nat) (inner : ResponseWriter).

Record World (C : Type) := mkWorld {
  recorders : list Recorder;
  statuses : list StatusRecorder;
  conn : Conn;
  clock : Z;                 (* time.Now(), in nanoseconds *)
  entropy : nat -> Z;        (* crypto/rand: the bytes still to come *)
  comp : C
}.
Arguments mkWorld {C} _ _ _ _ _ _.
Arguments recorders {C} _.
Arguments statuses {C} _.
Arguments conn {C} _.
Arguments clock {C} _.
Arguments entropy {C} _.
Arguments comp {C} _.

Section World.
Context {C : Type}.
Implicit Types w : World C.

Definition upd_recorders (f : list Recorder -> list Recorder) w : World C :=
  mkWorld (f (recorders w)) (statuses w) (conn w) (clock w) (entropy w) (comp w).
Definition upd_statuses (f : list StatusRecorder -> list StatusRecorder) w : World C :=
  mkWorld (recorders w) (f (statuses w)) (conn w) (clock w) (entropy w) (comp w).
Definition upd_conn (f : Conn -> Conn) w : World C :=
  mkWorld (recorders w) (statuses w) (f (conn w)) (clock w) (entropy w) (comp w).
Definition upd_comp (f : C -> C) w : World C :=
  mkWorld (recorders w) (statuses w) (conn w) (clock w) (entropy w) (f (comp w)).

(** A mutation through a [*Recorder]. *)
Definition at_recorder (l : nat) (f : Recorder -> Recorder) w : World C :=
  upd_recorders (alter f l) w.

(** [mw.RecorderFrom(r.Context())]: the pointer of the context, if any. *)
Definition RecorderFrom (r : Request) w : option (nat * Recorder) :=
  l ← r_recorder r; rec ← recorders w !! l; Some (l, rec).

(** [n] bytes of [crypto/rand]. *)
Definition rand_read (n : nat) w : list Z * World C :=
  (entropy w <$> seq 0 n,
   mkWorld (recorders w) (statuses w) (conn w) (clock w) (fun i => entropy w (n + i)%nat) (comp w)).

(** ** Writers: the methods of [StatusRecorder] *)

Definition WrapStatusRecorder (rw : ResponseWriter) w : ResponseWriter * World C :=
  (RecorderWriter (length (statuses w)) rw,
   upd_statuses (fun ss => ss ++ [mkStatusRecorder StatusOK 0 false]) w).

Definition sr_note_header (code : Z) (sr : StatusRecorder) : StatusRecorder :=
  if wrote sr then sr else mkStatusRecorder code (Bytes sr) true.

Fixpoint WriteHeader (rw : ResponseWriter) (code : Z) w : World C :=
  match rw with
  | ConnWriter => upd_conn (fun c => Conn_WriteHeader c code) w
  | RecorderWriter l inner =>
      WriteHeader inner code (upd_statuses (alter (sr_note_header code) l) w)
  end.

Definition sr_note_wrote (sr : StatusRecorder) : StatusRecorder :=
  mkStatusRecorder (Status sr) (Bytes sr) true.
Definition sr_add_bytes (n : Z) (sr : StatusRecorder) : StatusRecorder :=
  mkStatusRecorder (Status sr) (int64 (Bytes sr + n)) (wrote sr).

Fixpoint Write (rw : ResponseWriter) (b : bytes) w : Z * World C :=
  match rw with
  | ConnWriter => let '(n, c) := Conn_Write (conn w) b in (n, upd_conn (fun _ => c) w)
  | RecorderWriter l inner =>
      let '(n, w) := Write inner b (upd_statuses (alter sr_note_wrote l) w) in
      (n, upd_statuses (alter (sr_add_bytes n) l) w)
  end.

Definition SetHeader (rw : ResponseWriter) (key value : string) w : World C :=
  upd_conn (fun c => Conn_SetHeader c key value) w.
Definition UpdHeader (rw : ResponseWriter) (f : Header -> Header) w : World C := upd_conn (Conn_UpdHeader f) w.

(** Whether a panic is unwinding the handlers. *)
Definition panicking w : bool := c_aborted (conn w).
Definition panic_abort w : World C := upd_conn Conn_Abort w.

(** [http.NewResponseController(rw).Hijack()] asks the writer itself, then what
    its [Unwrap] method returns.  A [StatusRecorder] embeds the
    [http.ResponseWriter] interface, which promotes [Header], [Write] and
    [WriteHeader] only, and has no [Unwrap]. *)
Definition can_hijack (rw : ResponseWriter) w : bool :=
  match rw with
  | ConnWriter => c_hijackable (conn w)
  | RecorderWriter _ _ => false
  end.

(** ** Handlers and middlewares *)

Definition Handler : Type := ResponseWriter -> Request -> World C -> World C.
Definition Middleware : Type := Handler -> Handler.

(** [for i := len(mws) - 1; i >= 0; i-- { h = mws[i](h) }] *)
Fixpoint chain_loop (h : Handler) (mws : list Middleware) (n : nat) : Handler :=
  match n with
  | O => h
  | S i => chain_loop (match (mws !! i : option Middleware) with Some mw => mw h | None => h end) mws i
  end.

Definition Chain (h : Handler) (mws : list Middleware) : Handler :=
  chain_loop h mws (length mws).

(** ** Request identifiers: 16 random bytes in hexadecimal *)
Definition hex_digit (d : Z) : ascii := if d <? 10 then chr (48 + d) else chr (87 + d).
Definition hex_byte (b : Z) : bytes := [hex_digit (b / 16); hex_digit (b mod 16)].
Definition EncodeToString (bs : list Z) : string := of_bytes (concat (hex_byte <$> bs)).

Definition newRequestID w : string * World C :=
  let '(bs, w) := rand_read 16 w in (EncodeToString bs, w).

Definition AttachRecorder : Middleware := fun next rw r w =>
  let '(id, w) := newRequestID w in
  let l := length (recorders w) in
  let w := upd_recorders (fun rs => rs ++ [NewRecorder id]) w in
  next rw (WithRecorder r l) w.

End World.
Arguments Handler : clear implicits.
Arguments Middleware : clear implicits.

(** ** Specifications *)

(** What any sequence of calls on a recorder keeps: a blocked request has a
    reason, an allowed one has none. *)
Definition recorder_wf (r : Recorder) : Prop :=
  (outcome r = OutcomeAllowed /\ blockReason r = "") \/
  (outcome r = OutcomeBlocked /\ blockReason r <> "").

Inductive recorder_op : Type :=
  | OpClientIP (ip : Addr)
  | OpBlocked (reason : string)
  | OpWAFMatch (id : Z) (category : string)
  | OpUpstream (addr : string) (status : Z)
  | OpUpstreamError (reason : string).

Definition run_recorder_op (op : recorder_op) : Recorder -> Recorder :=
  match op with
  | OpClientIP ip => SetClientIP ip
  | OpBlocked reason => SetBlocked reason
  | OpWAFMatch id category => SetWAFMatch id category
  | OpUpstream addr status => SetUpstream addr status
  | OpUpstreamError reason => SetUpstreamErrorReason reason
  end.

Definition run_recorder_ops (ops : list recorder_op) (r : Recorder) : Recorder :=
  foldl (fun r op => run_recorder_op op r) r ops.

(** The reason of the last [SetBlocked], if any. *)
Definition last_reason (ops : list recorder_op) : option string :=
  foldl (fun acc op => match op with OpBlocked reason => Some reason | _ => acc end) None ops.

(** The calls a handler makes on its response writer. *)
Inductive writer_op : Type :=
  | OpWriteHeader (code : Z)
  | OpWrite (b : bytes).

Definition run_writer_op {C} (rw : ResponseWriter) (op : writer_op) (w : World C) : World C :=
  match op with
  | OpWriteHeader code => WriteHeader rw code w
  | OpWrite b => (Write rw b w).2
  end.

Definition run_writer_ops {C} (rw : ResponseWriter) (ops : list writer_op) (w : World C) : World C :=
  foldl (fun w op => run_writer_op rw op w) w ops.

Definition final_op (op : writer_op) : Prop :=
  match op with OpWriteHeader code => informational code = false | OpWrite _ => True end.

(** The recorder's fields describe the connection. *)
Definition sr_agrees (sr : StatusRecorder) (c : Conn) : Prop :=
  wrote sr = c_wroteHeader c /\
  Status sr = (if c_wroteHeader c then c_status c else StatusOK) /\
  Bytes sr = int64 (Z.of_nat (length (c_body c))).

(** ** Lemmas *)

Lemma chain_loop_foldr {C} (h : Handler C) (mws : list (Middleware C)) n :
  (n <= length mws)%nat -> chain_loop h mws n = foldr (fun (mw : Middleware C) (h : Handler C) => mw h) h (take n mws).
Proof.
  revert h. induction n as [|n IH]; intros h Hn; [done|]. cbn [chain_loop].
  match goal with |- context [match ?x with _ => _ end] => destruct x as [mw|] eqn:Hmw end.
  - by rewrite IH, (take_S_r _ _ _ Hmw), foldr_app by lia.
  - apply lookup_ge_None in Hmw. lia.
Qed.

Lemma Chain_foldr {C} (h : Handler C) (mws : list (Middleware C)) :
  Chain h mws = foldr (fun (mw : Middleware C) (h : Handler C) => mw h) h mws.
Proof. unfold Chain. by rewrite chain_loop_foldr, firstn_all by done. Qed.

Lemma run_recorder_op_wf op r :
  (forall reason, op = OpBlocked reason -> reason <> "") ->
  recorder_wf r -> recorder_wf (run_recorder_op op r).
Proof.
  intros Hop Hr. destruct op as [ip|reason|id cat|addr st|reason]; try exact Hr.
  right. split; [done|]. by apply Hop.
Qed.

Lemma run_recorder_ops_snoc ops op r :
  run_recorder_ops (ops ++ [op]) r = run_recorder_op op (run_recorder_ops ops r).
Proof. unfold run_recorder_ops. by rewrite foldl_app. Qed.

Lemma last_reason_snoc ops op :
  last_reason (ops ++ [op]) =
  match op with OpBlocked reason => Some reason | _ => last_reason ops end.
Proof. unfold last_reason. by rewrite foldl_app. Qed.

Lemma wrapS_add w x n : 0 < w -> wrapS w (wrapS w x + n) = wrapS w (x + n).
Proof.
  intros Hw. unfold wrapS. f_equal.
  replace ((x + 2 ^ (w - 1)) mod 2 ^ w - 2 ^ (w - 1) + n + 2 ^ (w - 1))
    with ((x + 2 ^ (w - 1)) mod 2 ^ w + n) by lia.
  rewrite Z.add_mod_idemp_l by (apply Z.pow_nonzero; lia). f_equal. lia.
Qed.

Lemma run_writer_ops_snoc {C} rw ops op (w : World C) :
  run_writer_ops rw (ops ++ [op]) w = run_writer_op rw op (run_writer_ops rw ops w).
Proof. unfold run_writer_ops. by rewrite foldl_app. Qed.

(** One call through a status recorder, whatever else the world holds. *)
Lemma run_writer_op_agrees {C} op l (w : World C) sr :
  final_op op -> statuses w !! l = Some sr -> sr_agrees sr (conn w) ->
  exists sr', statuses (run_writer_op (RecorderWriter l ConnWriter) op w) !! l = Some sr' /\
    sr_agrees sr' (conn (run_writer_op (RecorderWriter l ConnWriter) op w)).
Proof.
  intros Hop Hl (Hw & Hs & Hb). destruct op as [code|b]; cbn in *.
  - exists (sr_note_header code sr). split; [by rewrite list_lookup_alter_eq, Hl|].
    unfold sr_agrees, sr_note_header, Conn_WriteHeader. rewrite Hw.
    destruct (c_wroteHeader (conn w)) eqn:E; [by rewrite E, <- Hw in *|]. by rewrite Hop.
  - destruct (Conn_Write (conn w) b) as [n c] eqn:Ec. cbn.
    exists (sr_add_bytes n (sr_note_wrote sr)).
    split; [by rewrite !list_lookup_alter_eq, Hl|].
    apply Conn_Write_spec in Ec as (Hw' & Hs' & Hb').
    unfold sr_agrees, sr_add_bytes, sr_note_wrote. cbn. rewrite Hw', Hs', Hb', Hb, Hs.
    split_and!; [done|done|]. unfold int64. by rewrite wrapS_add.
Qed.

Lemma run_writer_ops_agree {C} ops l (w : World C) sr :
  Forall final_op ops -> statuses w !! l = Some sr -> sr_agrees sr (conn w) ->
  exists sr', statuses (run_writer_ops (RecorderWriter l ConnWriter) ops w) !! l = Some sr' /\
    sr_agrees sr' (conn (run_writer_ops (RecorderWriter l ConnWriter) ops w)).
Proof.
  revert w sr. induction ops as [|op ops IH]; intros w sr Hops Hl Hag; [by exists sr|].
  apply Forall_cons in Hops as [Hop Hops].
  destruct (run_writer_op_agrees op l w sr Hop Hl Hag) as (sr' & Hl' & Hag').
  exact (IH _ _ Hops Hl' Hag').
Qed.

(** Writing touches the writers and the connection only. *)
Lemma WriteHeader_frame {C} rw code (w : World C) :
  comp (WriteHeader rw code w) = comp w /\ recorders (WriteHeader rw code w) = recorders w /\
  length (statuses (WriteHeader rw code w)) = length (statuses w).
Proof.
  revert w. induction rw as [|l rw IH]; intros w; cbn; [done|].
  destruct (IH (upd_statuses (alter (sr_note_header code) l) w)) as (-> & -> & ->). cbn. by rewrite length_alter.
Qed.

Lemma Write_frame {C} rw b (w : World C) :
  comp (Write rw b w).2 = comp w /\ recorders (Write rw b w).2 = recorders w /\
  length (statuses (Write rw b w).2) = length (statuses w).
Proof.
  revert w. induction rw as [|l rw IH]; intros w; cbn.
  - by destruct (Conn_Write (conn w) b).
  - specialize (IH (upd_statuses (alter sr_note_wrote l) w)).
    destruct (Write rw b _) as [n w']. cbn in *. destruct IH as (-> & -> & IH). by rewrite length_alter, IH, length_alter.
Qed.

(** Whatever the writers in between, the connection gets the call. *)
Lemma conn_WriteHeader {C} rw code (w : World C) : conn (WriteHeader rw code w) = Conn_WriteHeader (conn w) code.
Proof. revert w. induction rw as [|l rw IH]; intros w; cbn; [done|by rewrite IH]. Qed.

Lemma Write_conn {C} rw b (w : World C) :
  (Write rw b w).1 = (Conn_Write (conn w) b).1 /\ conn (Write rw b w).2 = (Conn_Write (conn w) b).2.
Proof.
  revert w. induction rw as [|l rw IH]; intros w; cbn; [by destruct (Conn_Write (conn w) b)|].
  specialize (IH (upd_statuses (alter sr_note_wrote l) w)). by destruct (Write rw b _).
Qed.

Lemma panicking_WriteHeader {C} rw code (w : World C) : panicking (WriteHeader rw code w) = panicking w.
Proof. unfold panicking. rewrite conn_WriteHeader. apply Conn_WriteHeader_aborted. Qed.

Lemma panicking_Write {C} rw b (w : World C) : panicking (Write rw b w).2 = panicking w.
Proof. unfold panicking. destruct (Write_conn rw b w) as [_ ->]. apply Conn_Write_aborted. Qed.

Lemma comp_WriteHeader {C} rw code (w : World C) : comp (WriteHeader rw code w) = comp w.
Proof. apply WriteHeader_frame. Qed.
Lemma comp_Write {C} rw b (w : World C) : comp (Write rw b w).2 = comp w.
Proof. apply Write_frame. Qed.
Lemma recorders_WriteHeader {C} rw code (w : World C) : recorders (WriteHeader rw code w) = recorders w.
Proof. apply WriteHeader_frame. Qed.
Lemma recorders_Write {C} rw b (w : World C) : recorders (Write rw b w).2 = recorders w.
Proof. apply Write_frame. Qed.

#[export] Hint Rewrite @comp_WriteHeader @comp_Write : parts.

(** ** Request identifiers *)

Lemma hex_digit_inj x y : 0 <= x < 16 -> 0 <= y < 16 -> hex_digit x = hex_digit y -> x = y.
Proof.
  intros Hx Hy.
  assert (forall z, 0 <= z < 16 -> code (hex_digit z) = if z <? 10 then 48 + z else 87 + z) as Hc.
  { intros z Hz. unfold hex_digit, code, chr.
    destruct (Z.ltb_spec z 10); rewrite N_ascii_embedding by lia; lia. }
  intros H. apply (f_equal code) in H. rewrite !Hc in H by done.
  destruct (Z.ltb_spec x 10), (Z.ltb_spec y 10); lia.
Qed.

Definition is_byte (b : Z) : Prop := 0 <= b < 256.

Lemma concat_hex_inj bs bs' :
  Forall is_byte bs -> Forall is_byte bs' ->
  concat (hex_byte <$> bs) = concat (hex_byte <$> bs') -> bs = bs'.
Proof.
  intros H. revert bs'. induction H as [|b bs Hb Hbs IH]; intros [|b' bs'] H'; cbn; try done.
  intros [= H1 H2 H3]. apply Forall_cons in H' as [Hb' Hbs']. unfold is_byte in *.
  apply hex_digit_inj in H1; [|Z.to_euclidean_division_equations; lia..].
  apply hex_digit_inj in H2; [|Z.to_euclidean_division_equations; lia..].
  rewrite (IH _ Hbs' H3). f_equal. Z.to_euclidean_division_equations; lia.
Qed.

Lemma EncodeToString_inj bs bs' :
  Forall is_byte bs -> Forall is_byte bs' -> EncodeToString bs = EncodeToString bs' -> bs = bs'.
Proof.
  intros H H' Heq. apply concat_hex_inj; [done|done|]. unfold EncodeToString in Heq.
  by rewrite <- (to_of_bytes (concat (hex_byte <$> bs))), Heq, to_of_bytes.
Qed.

#[export] Hint Resolve run_recorder_op_wf EncodeToString_inj : firewall.

(** ** Properties *)

(** [Chain] nests the middlewares in order: the first is outermost, and a
    chain can be built in parts. *)
Theorem chain_order {C} (h : Handler C) (mw : Middleware C) (mws mws' : list (Middleware C)) :
  Chain h [] = h /\ Chain h (mw :: mws) = mw (Chain h mws) /\
  Chain h (mws ++ mws') = Chain (Chain h mws') mws.
Proof. rewrite !Chain_foldr. split_and!; [done|done|apply foldr_app]. Qed.

(** Whatever the handlers report, in whatever order, the recorder ends
    blocked with the reason of the last [SetBlocked], or allowed with no reason
    when there was none; the request identifier never changes. *)
Theorem recorder_reports_last_block id ops :
  Forall (fun op => forall reason, op = OpBlocked reason -> reason <> "") ops ->
  let r := run_recorder_ops ops (NewRecorder id) in
  recorder_wf r /\ requestID r = id /\
  outcome r = (match last_reason ops with Some _ => OutcomeBlocked | None => OutcomeAllowed end) /\
  blockReason r = default "" (last_reason ops).
Proof.
  intros Hops. cbn zeta. induction ops as [|op ops IH] using rev_ind.
  { split_and!; try done. by left. }
  apply Forall_app in Hops as [Hops Hop]. apply Forall_cons in Hop as [Hop _].
  destruct (IH Hops) as (Hwf & Hid & Ho & Hb).
  rewrite run_recorder_ops_snoc, last_reason_snoc. split; [by apply run_recorder_op_wf|].
  destruct op; cbn; auto.
Qed.

(** C39. The status recorder reports the response that was sent: after any
    calls that write no 1xx status, its status is the connection's (200 before
    anything is written) and its byte count is the length of the body sent. *)
Theorem status_recorder_faithful {C} (w : World C) ops hijackable rw w0 :
  conn w = fresh_conn hijackable -> WrapStatusRecorder ConnWriter w = (rw, w0) ->
  Forall final_op ops ->
  exists sr, statuses (run_writer_ops rw ops w0) !! length (statuses w) = Some sr /\
    let c := conn (run_writer_ops rw ops w0) in
    Status sr = (if c_wroteHeader c then c_status c else StatusOK) /\
    Bytes sr = int64 (Z.of_nat (length (c_body c))).
Proof.
  intros Hc [= <- <-] Hops.
  edestruct (run_writer_ops_agree ops (length (statuses w))
    (upd_statuses (fun ss => ss ++ [mkStatusRecorder StatusOK 0 false]) w)
    (mkStatusRecorder StatusOK 0 false) Hops) as (sr & Hl & _ & Hs & Hb).
  - cbn. by rewrite lookup_app_r, Nat.sub_diag.
  - cbn. rewrite Hc. by split_and!.
  - exists sr. by split_and!.
Qed.

(** An informational status is recorded as if it were the final one: after
    an upstream's 1xx response and a final status, the recorder keeps the 1xx
    code while the client was sent the final status. *)
Theorem status_recorder_early_hints {C} (w : World C) hijackable early final rw w0 :
  conn w = fresh_conn hijackable -> WrapStatusRecorder ConnWriter w = (rw, w0) ->
  informational early = true -> informational final = false ->
  let w1 := run_writer_ops rw [OpWriteHeader early; OpWriteHeader final] w0 in
  c_status (conn w1) = final /\
  exists sr, statuses w1 !! length (statuses w) = Some sr /\ Status sr = early.
Proof.
  intros Hc [= <- <-] He Hf. cbn. rewrite Hc. unfold Conn_WriteHeader. cbn. rewrite He. cbn.
  rewrite Hf. split; [done|]. exists (mkStatusRecorder early 0 true). split; [|done].
  by rewrite !list_lookup_alter_eq, lookup_app_r, Nat.sub_diag.
Qed.

(** Request identifiers are 32 hexadecimal digits that determine the 16
    random bytes: two requests share one only if the generator repeated. *)
Theorem request_ids_distinct {C} (w1 w2 : World C) :
  (forall i, is_byte (entropy w1 i)) -> (forall i, is_byte (entropy w2 i)) ->
  (newRequestID w1).1 = (newRequestID w2).1 ->
  forall i, (i < 16)%nat -> entropy w1 i = entropy w2 i.
Proof.
  intros H1 H2 Heq i Hi. unfold newRequestID, rand_read in Heq. cbn -[seq] in Heq.
  apply EncodeToString_inj in Heq; [|by apply Forall_fmap, Forall_forall; cbn..].
  apply (f_equal (fun l => l !! i)) in Heq.
  rewrite !list_lookup_fmap, (lookup_seq_lt 0 16 i) in Heq by done. by injection Heq.
Qed.

(** ** Witnesses *)

Definition idle_world : World unit := mkWorld [] [] (fresh_conn true) 0 (fun i => Z.of_nat i mod 256) tt.

Lemma recorder_reports_last_block_witness :
  blockReason (run_recorder_ops [OpBlocked "waf"; OpUpstream "b" 502; OpBlocked "upstream-error"]
                 (NewRecorder "id")) = "upstream-error".
Proof.
  destruct (recorder_reports_last_block "id" [OpBlocked "waf"; OpUpstream "b" 502; OpBlocked "upstream-error"])
    as (_ & _ & _ & ->); [|vm_compute; reflexivity].
  repeat constructor; intros reason; intros [= <-]; discriminate.
Defined.

Lemma status_recorder_faithful_witness :
  exists sr, statuses (run_writer_ops (RecorderWriter 0 ConnWriter)
      [OpWriteHeader 403; OpWriteHeader 200; OpWrite (to_bytes "no")]
      (upd_statuses (fun ss => ss ++ [mkStatusRecorder StatusOK 0 false]) idle_world)) !! 0%nat = Some sr /\
    Status sr = 403 /\ Bytes sr = 2.
Proof.
  destruct (status_recorder_faithful idle_world
      [OpWriteHeader 403; OpWriteHeader 200; OpWrite (to_bytes "no")] true
      (RecorderWriter 0 ConnWriter)
      (upd_statuses (fun ss => ss ++ [mkStatusRecorder StatusOK 0 false]) idle_world)
      eq_refl eq_refl) as (sr & Hl & Hs & Hb).
  - repeat constructor.
  - exists sr. split; [exact Hl|]. rewrite Hs, Hb. vm_compute. split; reflexivity.
Defined.

Lemma status_recorder_early_hints_witness :
  c_status (conn (run_writer_ops (RecorderWriter 0 ConnWriter) [OpWriteHeader 103; OpWriteHeader 200]
    (upd_statuses (fun ss => ss ++ [mkStatusRecorder StatusOK 0 false]) idle_world))) = 200 /\
  exists sr, statuses (run_writer_ops (RecorderWriter 0 ConnWriter) [OpWriteHeader 103; OpWriteHeader 200]
    (upd_statuses (fun ss => ss ++ [mkStatusRecorder StatusOK 0 false]) idle_world)) !! 0%nat = Some sr /\
    Status sr = 103.
Proof.
  apply (status_recorder_early_hints idle_world true 103 200 (RecorderWriter 0 ConnWriter)
    (upd_statuses (fun ss => ss ++ [mkStatusRecorder StatusOK 0 false]) idle_world));
    vm_compute; reflexivity.
Defined.

Definition other_world : World unit :=
  mkWorld [] [] (fresh_conn true) 7 (fun i => if Nat.ltb i 16 then Z.of_nat i else 9) tt.

Lemma request_ids_distinct_witness : entropy idle_world 3 = entropy other_world 3.
Proof.
  apply (request_ids_distinct idle_world other_world); [| |vm_compute; reflexivity|lia];
    intros i; unfold is_byte, idle_world, other_world; cbn -[Nat.ltb].
  - apply Z.mod_pos_bound. lia.
  - destruct (Nat.ltb_spec i 16); lia.
Defined.
