(* ===== verification/ClientIP.v ===== *)
(** * internal/middleware/clientip.go: who is the client?

    The raw TCP peer, unless it is a trusted proxy: then the first entry of
    X-Forwarded-For, from the right, that parses and is not itself a trusted
    proxy. *)
From S2P Require Import Prelude GoStrings Netip Netmatch Http Middleware.

Section ClientIP.
Context `{IPSetLib}.

Definition ClientIP (r : Request) : result Addr :=
  let host := match SplitHostPort (r_remoteaddr r) with
              | Some (host, _) => host
              | None => r_remoteaddr r
              end in
  let! addr := wrap_err "clientip: parse remote addr %q: %w" [r_remoteaddr r]
                 (of_lib "netip.ParseAddr" (ParseAddr host)) in
  Ok (Unmap addr).

(** The loop over the entries of the header, from index [n - 1] down to 0. *)
Fixpoint xff_walk (trustedProxies : Matcher) (parts : list string) (n : nat) : option Addr :=
  match n with
  | O => None
  | S i =>
      match ParseAddr (TrimSpace (default "" (parts !! i))) with
      | None => xff_walk trustedProxies parts i
      | Some addr =>
          let candidate := Unmap addr in
          if negb (Contains trustedProxies candidate) then Some candidate
          else xff_walk trustedProxies parts i
      end
  end.

Definition resolveClientIP (r : Request) (trustedProxies : option Matcher) : Addr :=
  match ClientIP r with
  | Err _ => AddrZero
  | Ok peer =>
      match trustedProxies with
      | None => peer
      | Some m =>
          if negb (Contains m peer) then peer
          else
            let xff := Header_Get (r_header r) "X-Forwarded-For" in
            if String.eqb xff "" then peer
            else
              let parts := Split xff "," in
              match xff_walk m parts (length parts) with
              | Some candidate => candidate
              | None => peer
              end
      end
  end.

Definition ResolveClientIP {C} (trustedProxies : option Matcher) : Middleware C :=
  fun next rw r w =>
    let ip := resolveClientIP r trustedProxies in
    let w := match RecorderFrom r w with
             | Some (l, _) => at_recorder l (SetClientIP ip) w
             | None => w
             end in
    next rw r w.

(** ** Specification: the entries that may name the client *)

(** The entries of the header that parse, without the trusted proxies. *)
Definition xff_candidates (m : Matcher) (parts : list string) : list Addr :=
  filter (fun a => Contains m a = false)
    (omap (fun p => Unmap <$> ParseAddr (TrimSpace p)) parts).

Definition with_header (r : Request) (h : Header) : Request :=
  mkRequest (r_method r) (r_path r) (r_rawquery r) (r_host r) (r_remoteaddr r)
    h (r_body r) (r_contentlength r) (r_tls r) (r_recorder r).

(** ** Lemmas *)

Lemma xff_walk_spec m parts n :
  (n <= length parts)%nat -> xff_walk m parts n = last (xff_candidates m (take n parts)).
Proof.
  induction n as [|n IH]; intros Hn; [done|]. cbn [xff_walk].
  destruct (lookup_lt_is_Some_2 parts n) as [p Hp]; [lia|].
  rewrite (take_S_r _ _ _ Hp), Hp. cbn [from_option id]. unfold xff_candidates in *.
  rewrite omap_app, filter_app. cbn [omap list_omap].
  destruct (ParseAddr (TrimSpace p)) as [a|]; cbn.
  - destruct (Contains m (Unmap a)) eqn:E; cbn.
    + case_decide; [congruence|]. rewrite app_nil_r. apply IH. lia.
    + case_decide; [|congruence]. by rewrite last_snoc.
  - rewrite app_nil_r. apply IH. lia.
Qed.

Lemma ClientIP_wf r a : ClientIP r = Ok a -> addr_wf a /\ IsValid a = true /\ Is4In6 a = false.
Proof.
  unfold ClientIP. destruct (ParseAddr _) as [b|] eqn:E; cbn; [|done]. intros [= <-].
  apply ParseAddr_wf in E as [Hwf Hv]. split_and!; [by apply Unmap_wf| |apply Unmap_not_4in6].
  rewrite Unmap_valid. by destruct b.
Qed.

Lemma ClientIP_header r h : ClientIP (with_header r h) = ClientIP r.
Proof. done. Qed.

Lemma xff_candidates_wf m parts a :
  a ∈ xff_candidates m parts ->
  addr_wf a /\ IsValid a = true /\ Is4In6 a = false /\ Contains m a = false.
Proof.
  unfold xff_candidates. rewrite list_elem_of_filter, list_elem_of_omap.
  intros (Hc & p & _ & Hp). destruct (ParseAddr _) as [b|] eqn:E; cbn in Hp; [|done].
  injection Hp as <-. apply ParseAddr_wf in E as [Hwf Hv].
  split_and!; [by apply Unmap_wf| |apply Unmap_not_4in6|done].
  rewrite Unmap_valid. by destruct b.
Qed.

Lemma split_bytes_snoc sep a b :
  sep ∉ b -> split_bytes sep (a ++ sep :: b) = split_bytes sep a ++ [b].
Proof.
  intros Hb. induction a as [|c a IH]; cbn.
  - by rewrite (proj2 (byte_eqb_eq sep sep) eq_refl), split_bytes_none.
  - destruct (byte_eqb c sep); [by rewrite IH|].
    rewrite IH. pose proof (split_bytes_length sep a).
    destruct (split_bytes sep a); [cbn in *; lia|done].
Qed.

End ClientIP.

(** ** Properties *)

Section Properties.
Context `{IPSetLib}.

Lemma resolve_trusted r m peer :
  ClientIP r = Ok peer -> Contains m peer = true ->
  resolveClientIP r (Some m) =
  default peer (last (xff_candidates m (Split (Header_Get (r_header r) "X-Forwarded-For") ","))).
Proof.
  intros Hp Hm. unfold resolveClientIP. rewrite Hp, Hm. cbn [negb].
  destruct (String.eqb_spec (Header_Get (r_header r) "X-Forwarded-For") "") as [->|_]; [done|].
  rewrite xff_walk_spec, firstn_all by done. by destruct (last _).
Qed.

(** The header is trusted from trusted peers only: when the TCP peer is not
    a trusted proxy, the resolved client is the peer, whatever headers the
    request carries. *)
Theorem untrusted_peer_not_spoofable r trusted peer (h : Header) :
  ClientIP r = Ok peer ->
  (forall m, trusted = Some m -> Contains m peer = false) ->
  resolveClientIP (with_header r h) trusted = peer.
Proof.
  intros Hp Ht. unfold resolveClientIP. rewrite ClientIP_header, Hp.
  destruct trusted as [m|]; [|done]. by rewrite (Ht m eq_refl).
Qed.

(** C26. The resolved client, for every request: the zero address when the peer
    does not parse; the peer when it is not a trusted proxy; and behind a
    trusted proxy the last entry of the first X-Forwarded-For line that parses
    and is not itself a trusted proxy, or the peer when there is none.  Later
    lines of that header are never read ([later_header_lines_ignored]), so that
    with several of them this is not the walk of the whole header from the
    right. *)
Theorem resolve_is_last_untrusted_entry r trusted :
  resolveClientIP r trusted =
  match ClientIP r, trusted with
  | Err _, _ => AddrZero
  | Ok peer, None => peer
  | Ok peer, Some m =>
      if Contains m peer
      then default peer (last (xff_candidates m (Split (Header_Get (r_header r) "X-Forwarded-For") ",")))
      else peer
  end.
Proof.
  destruct (ClientIP r) as [peer|e] eqn:Hp; [|unfold resolveClientIP; by rewrite Hp].
  destruct trusted as [m|]; [|unfold resolveClientIP; by rewrite Hp].
  destruct (Contains m peer) eqn:Hm; [by apply resolve_trusted|]. unfold resolveClientIP. by rewrite Hp, Hm.
Qed.

(** C13. A client cannot choose its own address by sending a forged header
    through a trusted proxy that appends the address it saw: whatever comes
    before the appended entry, the appended entry is the result. *)
Theorem forged_prefix_ignored r m peer forged real a rest (h : Header) :
  ClientIP r = Ok peer -> Contains m peer = true ->
  ","%char ∉ to_bytes real -> ParseAddr (TrimSpace real) = Some a ->
  Contains m (Unmap a) = false ->
  resolveClientIP
    (with_header r (<["X-Forwarded-For" := of_bytes (to_bytes forged ++ ","%char :: to_bytes real) :: rest]> h))
    (Some m) = Unmap a.
Proof.
  intros Hp Hm Hreal Ha Hu. erewrite resolve_trusted by done. cbn [r_header with_header].
  unfold Header_Get, Header_Values.
  change (CanonicalHeaderKey "X-Forwarded-For") with "X-Forwarded-For".
  rewrite lookup_insert_eq. cbn [from_option id]. unfold Split.
  rewrite to_of_bytes, split_bytes_snoc, fmap_app by done. unfold xff_candidates.
  rewrite omap_app, filter_app. cbn [fmap list_fmap omap list_omap].
  rewrite of_to_bytes, Ha. cbn. case_decide; [|congruence]. by rewrite last_snoc.
Qed.

(** C40. The resolved address is a well-formed address, never an IPv4-mapped
    IPv6 one; it is invalid exactly when the peer's address does not parse; and
    otherwise it is the peer, or an entry outside the trusted proxies that a
    trusted peer sent. *)
Theorem resolved_client_wf r trusted :
  addr_wf (resolveClientIP r trusted) /\
  Is4In6 (resolveClientIP r trusted) = false /\
  IsValid (resolveClientIP r trusted) = is_ok (ClientIP r) /\
  (forall peer, ClientIP r = Ok peer -> resolveClientIP r trusted = peer \/
     exists m, trusted = Some m /\ Contains m peer = true /\
       Contains m (resolveClientIP r trusted) = false).
Proof.
  destruct (ClientIP r) as [peer|e] eqn:Hp.
  2:{ unfold resolveClientIP. rewrite Hp. by split_and!. }
  destruct (ClientIP_wf _ _ Hp) as (Hwf & Hv & H46).
  destruct trusted as [m|].
  2:{ unfold resolveClientIP. rewrite Hp. split_and!; try done. intros ? [= ->]. by left. }
  destruct (Contains m peer) eqn:Hm.
  2:{ unfold resolveClientIP. rewrite Hp, Hm. split_and!; try done. intros ? [= ->]. by left. }
  rewrite (resolve_trusted r m peer) by done.
  destruct (last _) as [a|] eqn:Hl; cbn.
  - apply last_Some_elem_of, xff_candidates_wf in Hl as (Ha & Hva & H46a & Hca).
    split_and!; try done. intros ? [= <-]. right. by exists m.
  - split_and!; try done. intros ? [= ->]. by left.
Qed.

(** Of several X-Forwarded-For lines only the first is read. *)
Theorem later_header_lines_ignored r trusted v rest (h : Header) :
  resolveClientIP (with_header r (<["X-Forwarded-For" := v :: rest]> h)) trusted =
  resolveClientIP (with_header r (<["X-Forwarded-For" := [v]]> h)) trusted.
Proof.
  unfold resolveClientIP, Header_Get, Header_Values. rewrite !ClientIP_header. cbn [r_header with_header].
  change (CanonicalHeaderKey "X-Forwarded-For") with "X-Forwarded-For".
  by rewrite !lookup_insert_eq.
Qed.

(** The middleware records the resolved address in the request's recorder,
    leaves every other recorder, the response and the components alone, and
    passes the request on. *)
Theorem ResolveClientIP_records {C} trusted (next : Handler C) rw r (w : World C) l rec :
  RecorderFrom r w = Some (l, rec) ->
  exists w', ResolveClientIP trusted next rw r w = next rw r w' /\
    RecorderFrom r w' = Some (l, SetClientIP (resolveClientIP r trusted) rec) /\
    (forall l', l' <> l -> recorders w' !! l' = recorders w !! l') /\
    conn w' = conn w /\ statuses w' = statuses w /\ comp w' = comp w.
Proof.
  intros Hr. unfold ResolveClientIP. rewrite Hr.
  exists (at_recorder l (SetClientIP (resolveClientIP r trusted)) w).
  unfold RecorderFrom in *. destruct (r_recorder r) as [l0|]; cbn in *; [|done].
  destruct (recorders w !! l0) as [rec0|] eqn:E; cbn in Hr; [|done]. injection Hr as -> ->.
  split_and!; try done.
  - by rewrite list_lookup_alter_eq, E.
  - intros l' Hl. by rewrite list_lookup_alter_ne.
Qed.

End Properties.

(** ** Witnesses *)

#[local] Existing Instance RangeSet.lib.
#[local] Existing Instance RangeSet.spec.

Definition demo_request (peer : string) (xff : list string) : Request :=
  mkRequest "GET" "/" "" "example.org" peer
    (match xff with [] => ∅ | _ => {["X-Forwarded-For" := xff]} end) NoBody 0 None (Some 0%nat).

Definition demo_trusted : Matcher := linearMatcher [mkPrefix (Addr4 0x0A000000) 8].

Lemma untrusted_peer_not_spoofable_witness :
  resolveClientIP (with_header (demo_request "192.0.2.7:5555" []) {["X-Forwarded-For" := ["6.6.6.6"]]})
    (Some demo_trusted) = Addr4 0xC0000207.
Proof.
  apply (untrusted_peer_not_spoofable (demo_request "192.0.2.7:5555" []) (Some demo_trusted)).
  - vm_compute. reflexivity.
  - intros m [= <-]. vm_compute. reflexivity.
Defined.

Lemma forged_prefix_ignored_witness :
  resolveClientIP
    (with_header (demo_request "10.0.0.1:5555" [])
       (<["X-Forwarded-For" := of_bytes (to_bytes "6.6.6.6,,10.9.9.9" ++ ","%char :: to_bytes " 198.51.100.9") :: []]> ∅))
    (Some demo_trusted) = Unmap (Addr4 0xC6336409).
Proof.
  apply (forged_prefix_ignored (demo_request "10.0.0.1:5555" []) demo_trusted (Addr4 0x0A000001)
           "6.6.6.6,,10.9.9.9" " 198.51.100.9" (Addr4 0xC6336409) [] ∅).
  - vm_compute. reflexivity.
  - vm_compute. reflexivity.
  - apply (bool_decide_unpack _). vm_compute. exact I.
  - vm_compute. reflexivity.
  - vm_compute. reflexivity.
Defined.

Lemma ResolveClientIP_records_witness :
  exists w', ResolveClientIP (Some demo_trusted) (fun _ _ w => w) ConnWriter
      (demo_request "10.0.0.1:5555" ["198.51.100.9"])
      (mkWorld [NewRecorder "id"] [] (fresh_conn true) 0 (fun _ => 0) tt) = w' /\
    RecorderFrom (demo_request "10.0.0.1:5555" ["198.51.100.9"]) w' =
      Some (0%nat, SetClientIP (Addr4 0xC6336409) (NewRecorder "id")).
Proof.
  destruct (ResolveClientIP_records (Some demo_trusted) (fun _ _ w => w) ConnWriter
      (demo_request "10.0.0.1:5555" ["198.51.100.9"])
      (mkWorld [NewRecorder "id"] [] (fresh_conn true) 0 (fun _ => 0) tt) 0%nat (NewRecorder "id"))
    as (w' & Hw & Hr & _); [vm_compute; reflexivity|].
  exists w'. split; [exact Hw|]. rewrite Hr. vm_compute. reflexivity.
Defined.
