(* ===== verification/Geoip.v ===== *)
(** * internal/geoip: country lookup in a MaxMind database

    The reader is third-party code (maxminddb): [MaxMindLib] gives what its
    [Open] finds at a path, and the country code of its record for an address
    ([""] when the record has none).  A closed database answers every lookup
    with an error. *)
From S2P Require Import Prelude GoStrings Netip.

Class MaxMindLib := {
  Reader_t : Type;
  maxmind_open : string -> option Reader_t;
  maxmind_iso_code : Reader_t -> Addr -> option string
}.

Section Geoip.
Context `{MaxMindLib}.

Record DB := mkDB { db_reader : Reader_t; db_closed : bool }.

Definition Open (path : string) : result DB :=
  let! r := wrap_err "geoip: open database %q: %w" [path] (of_lib "maxminddb.Open" (maxmind_open path)) in
  Ok (mkDB r false).

Definition Close (db : DB) : DB := mkDB (db_reader db) true.

Definition Country (db : DB) (ip : Addr) : result string :=
  let lookup := if db_closed db then None else maxmind_iso_code (db_reader db) ip in
  let! code := wrap_err "geoip: lookup %s: %w" [] (of_lib "maxminddb.Reader.Lookup" lookup) in
  if String.eqb code "" then Err (Errorf "geoip: no country found for %s" [])
  else Ok code.

Lemma Country_ok db ip c :
  Country db ip = Ok c <->
  db_closed db = false /\ maxmind_iso_code (db_reader db) ip = Some c /\ c <> "".
Proof.
  unfold Country. destruct (db_closed db); [cbn; split; [done|by intros []]|].
  destruct (maxmind_iso_code _ ip) as [c'|]; cbn; [|split; [done|by intros (_ & ? & _)]].
  destruct (String.eqb_spec c' ""); split; naive_solver.
Qed.

Lemma Open_open path db : Open path = Ok db -> db_closed db = false.
Proof. unfold Open. destruct (maxmind_open path); cbn; [by intros [= <-]|done]. Qed.

End Geoip.
