(* ===== verification/IPFilter.v ===== *)
(** * internal/middleware/ipfilter: allow and deny lists, geo filtering

    A [listState] layers the administrator's overlay over the configuration's
    CIDRs; [addCIDR], [removeCIDR] and [reloadListState] are compare-and-swap
    loops whose bodies are given here and whose interleavings are those of
    [Atomics].  [Filter] adds the geo state, whose databases live in a heap so
    that closing one is visible through every pointer to it. *)
From S2P Require Import Prelude GoStrings Netip Netmatch Config Atomics Http Middleware Geoip.

(** ** Lists of CIDRs *)

Fixpoint containsStr (s : list string) (v : string) : bool :=
  match s with
  | [] => false
  | x :: s' => if String.eqb x v then true else containsStr s' v
  end.

Fixpoint removeStr (s : list string) (v : string) : list string :=
  match s with
  | [] => []
  | x :: s' => if negb (String.eqb x v) then x :: removeStr s' v else removeStr s' v
  end.

(** One of the two loops of [effectiveCIDRs]: append the CIDRs neither removed
    nor seen. *)
Fixpoint effective_loop (removed seen : gset string) (out cs : list string) : gset string * list string :=
  match cs with
  | [] => (seen, out)
  | c :: cs' =>
      if bool_decide (c ∈ removed) || bool_decide (c ∈ seen) then effective_loop removed seen out cs'
      else effective_loop removed ({[c]} ∪ seen) (out ++ [c]) cs'
  end.

Definition effectiveCIDRs (base adminAdded adminRemoved : list string) : list string :=
  let removed := list_to_set adminRemoved in
  let '(seen, out) := effective_loop removed ∅ [] base in
  (effective_loop removed seen out adminAdded).2.

Section IPFilter.
Context `{IPSetLib} `{MaxMindLib} `{UnicodeTables}.

Record listState := mkListState {
  base : list string;
  adminAdded : list string;
  adminRemoved : list string;
  effective : list string;
  matcher : Matcher
}.

Definition newListState (b added removed : list string) : result listState :=
  let eff := effectiveCIDRs b added removed in
  let! m := NewMatcher eff in
  Ok (mkListState b added removed eff m).

(** ** The bodies of the compare-and-swap loops *)

Definition addCIDR_body (cidr : string) (old : listState) : round listState (result unit) :=
  if containsStr (effective old) cidr then Return (Ok tt)
  else
    let newAdminRemoved := removeStr (adminRemoved old) cidr in
    let newAdminAdded :=
      if negb (containsStr (base old) cidr) then adminAdded old ++ [cidr] else adminAdded old in
    match newListState (base old) newAdminAdded newAdminRemoved with
    | Err e => Return (Err e)
    | Ok next => Swap next (Ok tt)
    end.

Definition addCIDR (cidr : string) (p : listState) : result unit * listState :=
  match ParsePrefix cidr with
  | None => (Err (Errorw "ipfilter: invalid CIDR %q: %w" [cidr] (LibError "netip.ParsePrefix")), p)
  | Some _ => run_body (addCIDR_body cidr) p
  end.

Definition removeCIDR_body (cidr : string) (old : listState) : round listState (result bool) :=
  if negb (containsStr (effective old) cidr) then Return (Ok false)
  else
    let newAdminAdded := removeStr (adminAdded old) cidr in
    let newAdminRemoved :=
      if containsStr (base old) cidr then adminRemoved old ++ [cidr] else adminRemoved old in
    match newListState (base old) newAdminAdded newAdminRemoved with
    | Err e => Return (Err e)
    | Ok next => Swap next (Ok true)
    end.

Definition removeCIDR (cidr : string) (p : listState) : result bool * listState :=
  run_body (removeCIDR_body cidr) p.

Definition reloadListState_body (b : list string) (old : listState) : round listState (result unit) :=
  match newListState b (adminAdded old) (adminRemoved old) with
  | Err e => Return (Err e)
  | Ok next => Swap next (Ok tt)
  end.

Definition reloadListState (b : list string) (p : listState) : result unit * listState :=
  run_body (reloadListState_body b) p.

(** ** The filter *)

Record geoState := mkGeoState { geo_db : option nat; geo_allowCountries : gset string }.

(** [g_heap] holds every database opened so far; a [*geoip.DB] is an index. *)
Record Filter := mkFilter { f_allow : listState; f_deny : listState; f_geo : geoState; g_heap : list DB }.

Definition buildGeoState (cfg : GeoConfig) (heap : list DB) : result (geoState * list DB) :=
  if negb (gc_Enabled cfg) || match gc_AllowCountries cfg with [] => true | _ => false end
  then Ok (mkGeoState None ∅, heap)
  else
    let! db := wrap_err "ipfilter: %w" [] (Open (gc_DBPath cfg)) in
    Ok (mkGeoState (Some (length heap)) (list_to_set (ToUpper <$> gc_AllowCountries cfg)), heap ++ [db]).

Definition NewFilter (cfg : IPListConfig) : result Filter :=
  let! allowState := newListState (il_Allow cfg) [] [] in
  let! denyState := newListState (il_Deny cfg) [] [] in
  let! gs := buildGeoState (il_Geo cfg) [] in
  let '(g, heap) := gs in
  Ok (mkFilter allowState denyState g heap).

Definition close_geo (g : geoState) (heap : list DB) : list DB :=
  match geo_db g with Some l => alter Close l heap | None => heap end.

(** [Reload] returns the error and the state it leaves: each step fails
    without undoing the ones before it. *)
Definition Reload (cfg : IPListConfig) (f : Filter) : result unit * Filter :=
  match buildGeoState (il_Geo cfg) (g_heap f) with
  | Err e => (Err (Errorw "ipfilter: reload geo: %w" [] e), f)
  | Ok (newGeo, heap) =>
      let f1 := mkFilter (f_allow f) (f_deny f) (f_geo f) heap in
      match reloadListState (il_Allow cfg) (f_allow f1) with
      | (Err e, _) => (Err (Errorw "ipfilter: reload allow list: %w" [] e), f1)
      | (Ok _, allow') =>
          let f2 := mkFilter allow' (f_deny f1) (f_geo f1) (g_heap f1) in
          match reloadListState (il_Deny cfg) (f_deny f2) with
          | (Err e, _) => (Err (Errorw "ipfilter: reload deny list: %w" [] e), f2)
          | (Ok _, deny') =>
              (Ok tt, mkFilter (f_allow f2) deny' newGeo (close_geo (f_geo f2) (g_heap f2)))
          end
      end
  end.

(** [Filter.Close]. *)
Definition FilterClose (f : Filter) : Filter :=
  mkFilter (f_allow f) (f_deny f) (f_geo f) (close_geo (f_geo f) (g_heap f)).

Definition geo_Allowed (f : Filter) (ip : Addr) : bool * string :=
  match geo_db (f_geo f) ≫= (g_heap f !!.) with
  | None => (true, "")
  | Some db =>
      match Country db ip with
      | Err _ => (false, BlockReasonGeoDeny)
      | Ok country =>
          if bool_decide (country ∈ geo_allowCountries (f_geo f)) then (true, "")
          else (false, BlockReasonGeoDeny)
      end
  end.

Definition Allowed (f : Filter) (ip : Addr) : bool * string :=
  if Nat.ltb 0 (length (effective (f_allow f))) && negb (Contains (matcher (f_allow f)) ip)
  then (false, BlockReasonIPDeny)
  else if Contains (matcher (f_deny f)) ip then (false, BlockReasonIPDeny)
  else geo_Allowed f ip.

Definition ListAllow (f : Filter) : list string := effective (f_allow f).
Definition ListDeny (f : Filter) : list string := effective (f_deny f).

Definition overlayOf (s : listState) : list string * list string := (adminAdded s, adminRemoved s).
Definition AllowOverlay (f : Filter) := overlayOf (f_allow f).
Definition DenyOverlay (f : Filter) := overlayOf (f_deny f).

Definition set_allow (f : Filter) (s : listState) : Filter := mkFilter s (f_deny f) (f_geo f) (g_heap f).
Definition set_deny (f : Filter) (s : listState) : Filter := mkFilter (f_allow f) s (f_geo f) (g_heap f).

Definition AddAllow (cidr : string) (f : Filter) : result unit * Filter :=
  let '(r, s) := addCIDR cidr (f_allow f) in (r, set_allow f s).
Definition AddDeny (cidr : string) (f : Filter) : result unit * Filter :=
  let '(r, s) := addCIDR cidr (f_deny f) in (r, set_deny f s).
Definition RemoveAllow (cidr : string) (f : Filter) : result bool * Filter :=
  let '(r, s) := removeCIDR cidr (f_allow f) in (r, set_allow f s).
Definition RemoveDeny (cidr : string) (f : Filter) : result bool * Filter :=
  let '(r, s) := removeCIDR cidr (f_deny f) in (r, set_deny f s).

(** ** The pipeline stage: [filter_of] reads the filter among the components. *)
Definition FilterMiddleware {C} (filter_of : C -> Filter) : Middleware C :=
  fun next rw r w =>
    match RecorderFrom r w with
    | None => WriteHeader rw StatusForbidden w
    | Some (l, rec) =>
        let ip := clientIP rec in
        if negb (IsValid ip) then
          WriteHeader rw StatusForbidden (at_recorder l (SetBlocked BlockReasonIPDeny) w)
        else
          let '(ok, reason) := Allowed (filter_of (comp w)) ip in
          if negb ok then
            WriteHeader rw StatusForbidden (at_recorder l (SetBlocked reason) w)
          else next rw r w
    end.

(** ** Edits of one list, with a common type of replies *)

Inductive list_edit : Type :=
  | EditAdd (cidr : string)
  | EditRemove (cidr : string)
  | EditReload (b : list string).

Inductive edit_reply : Type := Edited | NotFound | Rejected.

Definition reply_unit (r : result unit) : edit_reply := if is_ok r then Edited else Rejected.
Definition reply_bool (r : result bool) : edit_reply :=
  match r with Ok true => Edited | Ok false => NotFound | Err _ => Rejected end.

Definition map_round {A B} (g : A -> B) (r : round listState A) : round listState B :=
  match r with Return a => Return (g a) | Swap s a => Swap s (g a) end.

(** The loop body an edit runs on each value it loads. *)
Definition edit_body (e : list_edit) (s : listState) : round listState edit_reply :=
  match e with
  | EditAdd c =>
      if is_ok (of_lib "netip.ParsePrefix" (ParsePrefix c)) then map_round reply_unit (addCIDR_body c s)
      else Return Rejected
  | EditRemove c => map_round reply_bool (removeCIDR_body c s)
  | EditReload b => map_round reply_unit (reloadListState_body b s)
  end.

Definition run_edit (e : list_edit) (s : listState) : edit_reply * listState := run_body (edit_body e) s.

(** ** The abstract specification: a base list under a map of decisions *)

Record layers := mkLayers { l_base : list string; l_overlay : gmap string bool }.

Definition in_effect (a : layers) (c : string) : bool :=
  match l_overlay a !! c with Some d => d | None => bool_decide (c ∈ l_base a) end.

Definition valid_cidrb (c : string) : bool := match ParsePrefix c with Some _ => true | None => false end.

Definition spec_edit (e : list_edit) (a : layers) : edit_reply * layers :=
  match e with
  | EditAdd c =>
      if negb (valid_cidrb c) then (Rejected, a)
      else if in_effect a c then (Edited, a)
      else (Edited, mkLayers (l_base a)
              (if bool_decide (c ∈ l_base a) then delete c (l_overlay a) else <[c := true]> (l_overlay a)))
  | EditRemove c =>
      if negb (in_effect a c) then (NotFound, a)
      else (Edited, mkLayers (l_base a)
              (if bool_decide (c ∈ l_base a) then <[c := false]> (l_overlay a) else delete c (l_overlay a)))
  | EditReload b =>
      let a' := mkLayers b (l_overlay a) in
      if forallb (fun c => negb (in_effect a' c) || valid_cidrb c) b then (Edited, a') else (Rejected, a)
  end.

(** The concrete state represents the layers, its caches are up to date, and
    the overlay lists are duplicate-free and disjoint. *)
Record represents (s : listState) (a : layers) : Prop := {
  rep_base : base s = l_base a;
  rep_added : forall c, c ∈ adminAdded s <-> l_overlay a !! c = Some true;
  rep_removed : forall c, c ∈ adminRemoved s <-> l_overlay a !! c = Some false;
  rep_nodup_added : NoDup (adminAdded s);
  rep_nodup_removed : NoDup (adminRemoved s);
  rep_effective : effective s = effectiveCIDRs (base s) (adminAdded s) (adminRemoved s);
  rep_matcher : NewMatcher (effective s) = Ok (matcher s)
}.

Definition listState_wf (s : listState) : Prop := exists a, represents s a.

End IPFilter.

(** ** Lemmas on the string lists *)

Lemma containsStr_elem s v : containsStr s v = bool_decide (v ∈ s).
Proof.
  induction s as [|x s IH]; cbn; [done|].
  destruct (String.eqb_spec x v) as [->|Hne].
  - symmetry. apply bool_decide_eq_true. by left.
  - rewrite IH. apply bool_decide_ext. set_solver.
Qed.

Lemma elem_of_removeStr s v x : x ∈ removeStr s v <-> x ∈ s /\ x <> v.
Proof.
  induction s as [|y s IH]; cbn; [set_solver|].
  destruct (String.eqb_spec y v) as [->|Hne]; cbn; rewrite ?elem_of_cons, IH.
  - split; [intros []; auto|intros [[->|] ?]; [done|auto]].
  - split; [intros [->|[]]; auto|intros [[->|] ?]; auto].
Qed.

Lemma removeStr_NoDup s v : NoDup s -> NoDup (removeStr s v).
Proof.
  induction 1 as [|x s Hx Hs IH]; cbn; [constructor|].
  destruct (String.eqb_spec x v); cbn; [done|]. constructor; [|done].
  rewrite elem_of_removeStr. by intros [? _].
Qed.

Lemma removeStr_id s v : v ∉ s -> removeStr s v = s.
Proof.
  induction s as [|x s IH]; cbn; [done|]. intros [Hx Hs]%not_elem_of_cons.
  destruct (String.eqb_spec x v); cbn; [congruence|]. by rewrite IH.
Qed.

Lemma NoDup_snoc {A} (l : list A) x : NoDup l -> x ∉ l -> NoDup (l ++ [x]).
Proof. intros. apply NoDup_app. split_and!; [done|set_solver|apply NoDup_singleton]. Qed.

(** The reference for [effectiveCIDRs]: first occurrences, outside a set. *)
Fixpoint nub (skip : gset string) (cs : list string) : list string :=
  match cs with
  | [] => []
  | c :: cs' => if bool_decide (c ∈ skip) then nub skip cs' else c :: nub ({[c]} ∪ skip) cs'
  end.

Lemma effective_loop_nub removed seen out cs :
  effective_loop removed seen out cs =
    ((effective_loop removed seen out cs).1, out ++ nub (removed ∪ seen) cs) /\
  removed ∪ (effective_loop removed seen out cs).1 = removed ∪ seen ∪ list_to_set cs.
Proof.
  revert seen out. induction cs as [|c cs IH]; intros seen out; cbn [effective_loop nub list_to_set].
  { rewrite app_nil_r. split; [done|set_solver]. }
  destruct (bool_decide_reflect (c ∈ removed)) as [Hr|Hr];
    [|destruct (bool_decide_reflect (c ∈ seen)) as [Hs|Hs]]; cbn [orb].
  - rewrite bool_decide_true by (clear IH; set_solver). destruct (IH seen out) as [H1 H2].
    split; [done|]. rewrite H2. clear -Hr. set_solver.
  - rewrite bool_decide_true by (clear IH; set_solver). destruct (IH seen out) as [H1 H2].
    split; [done|]. rewrite H2. clear -Hs. set_solver.
  - rewrite bool_decide_false by (clear IH; set_solver).
    destruct (IH ({[c]} ∪ seen) (out ++ [c])) as [H1 H2].
    assert (removed ∪ ({[c]} ∪ seen) = {[c]} ∪ (removed ∪ seen)) as Hu by (clear; set_solver).
    split; [by rewrite H1, <- app_assoc, Hu at 1|]. rewrite H2. clear. set_solver.
Qed.

Lemma effectiveCIDRs_nub b added removed :
  effectiveCIDRs b added removed = nub (list_to_set removed) (b ++ added).
Proof.
  assert (forall s l1 l2, nub s (l1 ++ l2) = nub s l1 ++ nub (s ∪ list_to_set l1) l2) as Happ.
  { intros s l1. revert s. induction l1 as [|c l1 IH]; intros s l2; cbn.
    - by rewrite union_empty_r_L.
    - case_bool_decide; rewrite IH; [|cbn; f_equal]; do 2 f_equal; set_solver. }
  unfold effectiveCIDRs.
  destruct (effective_loop_nub (list_to_set removed) ∅ [] b) as [H1 H2].
  destruct (effective_loop _ ∅ [] b) as [seen out]. cbn in H1, H2. injection H1 as ->.
  destruct (effective_loop_nub (list_to_set removed) seen (nub (list_to_set removed ∪ ∅) b) added) as [-> _].
  cbn [snd]. by rewrite H2, union_empty_r_L, Happ.
Qed.

Lemma elem_of_nub skip cs c : c ∈ nub skip cs <-> c ∈ cs /\ c ∉ skip.
Proof.
  revert skip. induction cs as [|d cs IH]; intros skip; cbn; [set_solver|].
  case_bool_decide; [|rewrite elem_of_cons]; rewrite IH; [set_solver|].
  destruct (decide (c = d)); set_solver.
Qed.

Lemma NoDup_nub skip cs : NoDup (nub skip cs).
Proof.
  revert skip. induction cs as [|d cs IH]; intros skip; cbn; [constructor|].
  case_bool_decide; [done|]. constructor; [|done]. rewrite elem_of_nub. set_solver.
Qed.

Lemma elem_of_effectiveCIDRs b added removed c :
  c ∈ effectiveCIDRs b added removed <-> (c ∈ b \/ c ∈ added) /\ c ∉ removed.
Proof. rewrite effectiveCIDRs_nub, elem_of_nub. set_solver. Qed.

(** ** The list edits implement the layers *)

Section Refinement.
Context `{IPSetLib} `{!IPSetSpec} `{UnicodeTables}.

Lemma valid_cidrb_spec c : valid_cidrb c = true <-> valid_cidr c.
Proof.
  unfold valid_cidrb, valid_cidr. destruct (ParsePrefix c); split; [by eexists|done|done|by intros []].
Qed.

Lemma newListState_spec b added removed :
  match newListState b added removed with
  | Ok s => base s = b /\ adminAdded s = added /\ adminRemoved s = removed /\
            effective s = effectiveCIDRs b added removed /\ NewMatcher (effective s) = Ok (matcher s)
  | Err _ => ~ Forall valid_cidr (effectiveCIDRs b added removed)
  end.
Proof.
  unfold newListState. destruct (NewMatcher (effectiveCIDRs b added removed)) as [m|e] eqn:E; cbn.
  - by split_and!.
  - rewrite <- NewMatcher_ok. rewrite E. by intros [m Hm].
Qed.

Lemma in_effect_spec s a c : represents s a -> in_effect a c = bool_decide (c ∈ effective s).
Proof.
  intros [Hb Ha Hr _ _ He _]. rewrite He. apply eq_true_iff_eq.
  rewrite bool_decide_eq_true, elem_of_effectiveCIDRs, Ha, Hr, Hb. unfold in_effect.
  destruct (l_overlay a !! c) as [[]|]; [..|rewrite bool_decide_eq_true]; naive_solver.
Qed.

Lemma effective_valid s a c : represents s a -> c ∈ effective s -> valid_cidr c.
Proof.
  intros [_ _ _ _ _ _ Hm] Hc.
  assert (exists m, NewMatcher (effective s) = Ok m) as Hv%NewMatcher_ok by eauto.
  rewrite Forall_forall in Hv. by apply Hv.
Qed.

(** Building the next state of a representable one: the overlay lists need only
    be described, the caches follow. *)
Lemma next_state b added removed O :
  (forall c, c ∈ added <-> O !! c = Some true) -> (forall c, c ∈ removed <-> O !! c = Some false) ->
  NoDup added -> NoDup removed ->
  Forall valid_cidr (effectiveCIDRs b added removed) ->
  exists s, newListState b added removed = Ok s /\ represents s (mkLayers b O).
Proof.
  intros Ha Hr Hna Hnr Hv. pose proof (newListState_spec b added removed) as Hn.
  destruct (newListState b added removed) as [s|e]; [|done]. exists s. split; [done|].
  destruct Hn as (Hb & Had & Hrm & He & Hm). split; cbn; rewrite ?Hb, ?Had, ?Hrm; done.
Qed.

Lemma added_valid s a c : represents s a -> c ∈ adminAdded s -> valid_cidr c.
Proof.
  intros Hs Hc. apply (effective_valid s a); [done|]. destruct Hs as [_ Ha Hr _ _ He _].
  rewrite He, elem_of_effectiveCIDRs. split; [by right|]. rewrite Hr. apply Ha in Hc. congruence.
Qed.

Lemma base_valid s a c : represents s a -> c ∈ base s -> c ∉ adminRemoved s -> valid_cidr c.
Proof.
  intros Hs Hc Hn. apply (effective_valid s a); [done|]. destruct Hs as [_ _ _ _ _ He _].
  rewrite He, elem_of_effectiveCIDRs. naive_solver.
Qed.

Lemma run_add_refines c s a :
  represents s a -> valid_cidr c ->
  exists s', run_body (addCIDR_body c) s = (Ok tt, s') /\ represents s' (spec_edit (EditAdd c) a).2.
Proof.
  intros Hs Hc. pose proof (in_effect_spec s a c Hs) as Hin.
  cbn [spec_edit]. rewrite (proj2 (valid_cidrb_spec c) Hc), Hin. cbn [negb].
  unfold run_body, addCIDR_body. rewrite !containsStr_elem.
  case_bool_decide as Heff; [exists s; split; [done|exact Hs]|]. cbn [snd].
  pose proof Hs as [Hb Ha Hr Hna Hnr He _].
  assert (Hnot : c ∉ adminAdded s).
  { intros Hca. apply Heff. rewrite He, elem_of_effectiveCIDRs. split; [by right|].
    rewrite Hr. apply Ha in Hca. congruence. }
  destruct (next_state (base s)
    (if negb (bool_decide (c ∈ base s)) then adminAdded s ++ [c] else adminAdded s)
    (removeStr (adminRemoved s) c)
    (if bool_decide (c ∈ l_base a) then delete c (l_overlay a) else <[c := true]> (l_overlay a)))
    as (s' & -> & Hs').
  - intros d. rewrite Hb. case_bool_decide as Hcb; cbn [negb]; rewrite ?elem_of_app, ?list_elem_of_singleton, Ha.
    + destruct (decide (d = c)) as [->|]; [rewrite lookup_delete_eq|by rewrite lookup_delete_ne by done].
      rewrite <- Ha. naive_solver.
    + destruct (decide (d = c)) as [->|]; [rewrite lookup_insert_eq|rewrite lookup_insert_ne by done]; naive_solver.
  - intros d. rewrite elem_of_removeStr, Hr. case_bool_decide;
      (destruct (decide (d = c)) as [->|];
       [rewrite ?lookup_delete_eq, ?lookup_insert_eq|rewrite ?lookup_delete_ne, ?lookup_insert_ne by done]);
      naive_solver.
  - destruct (negb _); [by apply NoDup_snoc|done].
  - by apply removeStr_NoDup.
  - apply Forall_forall. intros d. rewrite elem_of_effectiveCIDRs, elem_of_removeStr. intros [Hd Hdr].
    destruct (decide (d = c)) as [->|Hne]; [done|]. destruct Hd as [Hd|Hd].
    + apply (base_valid s a); [done|done|]. naive_solver.
    + apply (added_valid s a); [done|]. destruct (negb _); [|done].
      apply elem_of_app in Hd as [Hd|Hd]; [done|]. apply list_elem_of_singleton in Hd. done.
  - exists s'. split; [done|]. by rewrite Hb in Hs'.
Qed.

Lemma run_remove_refines c s a :
  represents s a ->
  exists r s', run_body (removeCIDR_body c) s = (Ok r, s') /\
    r = bool_decide (c ∈ effective s) /\ represents s' (spec_edit (EditRemove c) a).2.
Proof.
  intros Hs. pose proof (in_effect_spec s a c Hs) as Hin. cbn [spec_edit]. rewrite Hin.
  unfold run_body, removeCIDR_body. rewrite !containsStr_elem.
  case_bool_decide as Heff; cbn [negb snd]; [|by exists false, s].
  pose proof Hs as [Hb Ha Hr Hna Hnr He _].
  assert (Hnot : c ∉ adminRemoved s) by (rewrite He, elem_of_effectiveCIDRs in Heff; by destruct Heff).
  destruct (next_state (base s) (removeStr (adminAdded s) c)
    (if bool_decide (c ∈ base s) then adminRemoved s ++ [c] else adminRemoved s)
    (if bool_decide (c ∈ l_base a) then <[c := false]> (l_overlay a) else delete c (l_overlay a)))
    as (s' & -> & Hs').
  - intros d. rewrite elem_of_removeStr, Ha. case_bool_decide;
      (destruct (decide (d = c)) as [->|];
       [rewrite ?lookup_delete_eq, ?lookup_insert_eq|rewrite ?lookup_delete_ne, ?lookup_insert_ne by done]);
      naive_solver.
  - intros d. rewrite Hb. case_bool_decide as Hcb; rewrite ?elem_of_app, ?list_elem_of_singleton, Hr.
    + destruct (decide (d = c)) as [->|]; [rewrite lookup_insert_eq|rewrite lookup_insert_ne by done]; naive_solver.
    + destruct (decide (d = c)) as [->|]; [rewrite lookup_delete_eq|by rewrite lookup_delete_ne by done].
      rewrite <- Hr. naive_solver.
  - by apply removeStr_NoDup.
  - case_bool_decide; [by apply NoDup_snoc|done].
  - apply Forall_forall. intros d. rewrite elem_of_effectiveCIDRs, elem_of_removeStr. intros [Hd Hdr].
    assert (d ∉ adminRemoved s) as Hdr' by (case_bool_decide; set_solver).
    destruct Hd as [Hd|[Hd _]]; [by apply (base_valid s a)|by apply (added_valid s a)].
  - exists true, s'. split; [done|]. split; [done|]. by rewrite Hb in Hs'.
Qed.

Lemma run_reload_refines b s a :
  represents s a ->
  let '(r, s') := run_body (reloadListState_body b) s in
  reply_unit r = (spec_edit (EditReload b) a).1 /\ represents s' (spec_edit (EditReload b) a).2.
Proof.
  intros Hs. pose proof Hs as [Hb Ha Hr Hna Hnr He _].
  unfold run_body, reloadListState_body. cbn [spec_edit].
  set (a' := mkLayers b (l_overlay a)).
  assert (Hv : Forall valid_cidr (effectiveCIDRs b (adminAdded s) (adminRemoved s)) <->
    forallb (fun c => negb (in_effect a' c) || valid_cidrb c) b = true).
  { rewrite forallb_forall, Forall_forall. setoid_rewrite elem_of_effectiveCIDRs.
    setoid_rewrite <- list_elem_of_In. setoid_rewrite orb_true_iff. setoid_rewrite valid_cidrb_spec.
    setoid_rewrite negb_true_iff. split.
    - intros Hall c Hc. unfold in_effect. cbn. destruct (l_overlay a !! c) as [[]|] eqn:Eo.
      + right. apply Hall. rewrite Hr, Eo. naive_solver.
      + by left.
      + right. apply Hall. rewrite Hr, Eo. naive_solver.
    - intros Hall c [[Hc|Hc] Hn]; [|by apply (added_valid s a)].
      destruct (Hall c Hc) as [Hf|]; [|done]. unfold in_effect in Hf. cbn in Hf.
      destruct (l_overlay a !! c) as [[]|] eqn:Eo; [done|by apply Hr in Eo|].
      by rewrite bool_decide_true in Hf. }
  destruct (forallb _ b) eqn:Ef.
  - destruct (next_state b (adminAdded s) (adminRemoved s) (l_overlay a)) as (s' & -> & Hs');
      [done..|by apply Hv|]. done.
  - pose proof (newListState_spec b (adminAdded s) (adminRemoved s)) as Hn.
    destruct (newListState _ _ _) as [s'|e] eqn:En; [exfalso|done].
    enough (false = true) by done. apply Hv. destruct Hn as (_ & _ & _ & <- & Hm).
    apply NewMatcher_ok. eauto.
Qed.

(** Each edit of the list, run on its own, is the edit of the layers. *)
Lemma run_edit_refines e s a :
  represents s a ->
  (run_edit e s).1 = (spec_edit e a).1 /\ represents (run_edit e s).2 (spec_edit e a).2.
Proof.
  intros Hs. unfold run_edit, edit_body. destruct e as [c|c|b].
  - destruct (ParsePrefix c) as [p|] eqn:Ep; cbn [of_lib is_ok].
    + assert (valid_cidr c) as Hv by (unfold valid_cidr; eauto).
      destruct (run_add_refines c s a Hs Hv) as (s' & Hrun & Hs'). unfold run_body in *.
      destruct (addCIDR_body c s); injection Hrun as -> <-; cbn [map_round fst snd];
        (split; [|done]); cbn [spec_edit]; rewrite (proj2 (valid_cidrb_spec c) Hv); cbn; by destruct (in_effect a c).
    + cbn. unfold valid_cidrb. by rewrite Ep.
  - destruct (run_remove_refines c s a Hs) as (r & s' & Hrun & -> & Hs'). unfold run_body in *.
    destruct (removeCIDR_body c s); injection Hrun as -> <-; cbn [map_round fst snd];
      (split; [|done]); cbn [spec_edit]; rewrite (in_effect_spec s a c Hs); by case_bool_decide.
  - pose proof (run_reload_refines b s a Hs) as Hrun. unfold run_body in *.
    by destruct (reloadListState_body b s).
Qed.

Lemma represents_new b s : newListState b [] [] = Ok s -> represents s (mkLayers b ∅).
Proof.
  intros Hn. pose proof (newListState_spec b [] []) as H'. rewrite Hn in H'.
  destruct H' as (Hb & Ha & Hr & He & Hm).
  split; cbn; rewrite ?Hb, ?Ha, ?Hr; try done; try apply NoDup_nil_2; intros c;
    rewrite lookup_empty; set_solver.
Qed.

Lemma newListState_ok b :
  (exists s, newListState b [] [] = Ok s) <-> Forall valid_cidr b.
Proof.
  assert (Forall valid_cidr (effectiveCIDRs b [] []) <-> Forall valid_cidr b) as <-.
  { rewrite !Forall_forall. setoid_rewrite elem_of_effectiveCIDRs. set_solver. }
  rewrite <- NewMatcher_ok. unfold newListState.
  split; [intros [s Hs]|intros [m Hm]; rewrite Hm; cbn; eauto].
  destruct (NewMatcher _); [eauto|done].
Qed.

End Refinement.
