(* ===== verification/IPFilterProofs.v ===== *)
(** * Properties of the IP filter

    The list edits against their layered specification, alone and interleaved;
    the decision of [Allowed] in terms of the CIDRs that cover an address; the
    outcome of [Reload] and the databases it opens and closes. *)
From stdpp Require Import relations.
From S2P Require Import Prelude GoStrings Netip Netmatch Config Atomics Http Middleware Geoip IPFilter.

Section Lists.
Context `{IPSetLib} `{!IPSetSpec} `{UnicodeTables}.

(** ** Interleaved edits *)

(** The layers after the edits of [order], run one at a time. *)
Definition spec_order (es : list list_edit) (order : list nat) (a : layers) : layers :=
  foldl (fun a i => match es !! i with Some e => (spec_edit e a).2 | None => a end) a order.

Definition edit_loops (es : list list_edit) : list (listState -> round listState edit_reply) :=
  edit_body <$> es.

Lemma run_order_represents es order s a :
  represents s a -> represents (run_order (edit_loops es) order s) (spec_order es order a).
Proof.
  revert s a. induction order as [|i order IH]; intros s a Hs; [done|]. cbn.
  apply IH. unfold edit_loops. rewrite list_lookup_fmap.
  destruct (es !! i) as [e|]; cbn; [|done]. by apply run_edit_refines.
Qed.

Lemma spec_order_app es o1 o2 a : spec_order es (o1 ++ o2) a = spec_order es o2 (spec_order es o1 a).
Proof. apply foldl_app. Qed.

Lemma spec_edit_base e a : (forall b, e <> EditReload b) -> l_base (spec_edit e a).2 = l_base a.
Proof. destruct e as [c|c|b]; intros He; cbn; repeat case_match; try done. by destruct (He b). Qed.

(** Without a reload, only removing [c] takes [c] out of effect. *)
Lemma spec_edit_keeps e a c :
  (forall b, e <> EditReload b) -> e <> EditRemove c -> in_effect a c = true ->
  in_effect (spec_edit e a).2 c = true.
Proof.
  intros Hr Hc Hin. destruct e as [d|d|b]; cbn; [| |by destruct (Hr b)].
  - destruct (negb (valid_cidrb d)); [done|]. destruct (in_effect a d) eqn:Ed; [done|].
    assert (d <> c) by congruence. unfold in_effect in *. cbn.
    destruct (bool_decide (d ∈ l_base a)); [by rewrite lookup_delete_ne|by rewrite lookup_insert_ne].
  - assert (d <> c) by congruence. destruct (negb (in_effect a d)); [done|].
    unfold in_effect in *. cbn.
    destruct (bool_decide (d ∈ l_base a)); [by rewrite lookup_insert_ne|by rewrite lookup_delete_ne].
Qed.

Lemma spec_edit_adds a c : valid_cidr c -> in_effect (spec_edit (EditAdd c) a).2 c = true.
Proof.
  intros Hc. cbn. rewrite (proj2 (valid_cidrb_spec c) Hc). cbn.
  destruct (in_effect a c) eqn:E; [done|]. unfold in_effect in *. cbn.
  case_bool_decide as Hb; [by rewrite lookup_delete_eq|by rewrite lookup_insert_eq].
Qed.

Lemma spec_order_keeps es order a c :
  Forall (fun e => (forall b, e <> EditReload b) /\ e <> EditRemove c) es ->
  in_effect a c = true -> in_effect (spec_order es order a) c = true.
Proof.
  intros Hes. revert a. induction order as [|i order IH]; intros a Ha; [done|]. cbn. apply IH.
  destruct (es !! i) as [e|] eqn:He; [|done].
  rewrite Forall_lookup in Hes. destruct (Hes _ _ He). by apply spec_edit_keeps.
Qed.

(** C10. Adding, removing and reloading a list implement its specification, a
    base list under a map of the administrator's decisions: each edit gives the
    specified reply and leaves a state that represents the specified layers,
    its effective list and matcher rebuilt. *)
Theorem list_edits_refine_layers e s a :
  represents s a ->
  (run_edit e s).1 = (spec_edit e a).1 /\ represents (run_edit e s).2 (spec_edit e a).2.
Proof. apply run_edit_refines. Qed.

(** C11. Any interleaving of concurrent edits of a list is equivalent to some
    order of whole edits: the current list represents the layers that order
    gives, and each edit that has returned gave the reply of its place in it. *)
Theorem concurrent_edits_linearize b s0 es c :
  newListState b [] [] = Ok s0 -> rtc step (init s0 (edit_loops es)) c ->
  exists order s, NoDup order /\ current c = Some s /\
    represents s (spec_order es order (mkLayers b ∅)) /\
    forall i r, threads c !! i = Some (Done r) ->
      exists pre post e, order = pre ++ i :: post /\ es !! i = Some e /\
        r = (spec_edit e (spec_order es pre (mkLayers b ∅))).1.
Proof.
  intros Hn Hs. apply represents_new in Hn.
  destruct (loops_linearize _ _ _ Hs) as (order & Hnd & Hcur & Hdone).
  exists order, (run_order (edit_loops es) order s0).
  split_and!; [done|done|by apply run_order_represents|].
  intros i r Hi. destruct (Hdone i r Hi) as (pre & post & f & -> & Hf & ->).
  unfold edit_loops in Hf. rewrite list_lookup_fmap in Hf.
  destruct (es !! i) as [e|] eqn:He; cbn in Hf; [|done]. injection Hf as <-.
  exists pre, post, e. split_and!; [done|done|].
  by apply run_edit_refines, run_order_represents.
Qed.

(** C33. Concurrent edits are totally correct.  Whatever the scheduler does,
    [n] of them take at most [n * (2 * n + 3)] steps; and an execution that
    cannot go on has made every edit exactly once, in some order: the list
    represents the layers that order gives, and each edit has returned the
    specified reply of its place in it.  None is lost, none waits for ever. *)
Theorem concurrent_edits_terminate b s0 es c :
  newListState b [] [] = Ok s0 ->
  (forall n, nsteps step n (init s0 (edit_loops es)) c -> (n <= round_bound (length es))%nat) /\
  (rtc step (init s0 (edit_loops es)) c -> (forall c', ~ step c c') ->
     exists order s, order ≡ₚ seq 0 (length es) /\ current c = Some s /\
       represents s (spec_order es order (mkLayers b ∅)) /\
       forall i e, es !! i = Some e -> exists pre post, order = pre ++ i :: post /\
         threads c !! i = Some (Done (spec_edit e (spec_order es pre (mkLayers b ∅))).1)).
Proof.
  intros Hn. apply represents_new in Hn. split.
  { intros n Hsteps. apply loops_terminate in Hsteps. unfold edit_loops in Hsteps. by rewrite length_fmap in Hsteps. }
  intros Hs Hstuck. destruct (loops_all_done _ _ _ Hs (loops_progress _ _ _ Hs Hstuck)) as (order & Hperm & Hcur & Hdone).
  exists order, (run_order (edit_loops es) order s0).
  split_and!; [by unfold edit_loops in Hperm; rewrite length_fmap in Hperm|done|by apply run_order_represents|].
  intros i e He. destruct (Hdone i (edit_body e)) as (pre & post & Heq & Ht); [unfold edit_loops; by rewrite list_lookup_fmap, He|].
  exists pre, post. split; [done|]. rewrite Ht. do 2 f_equal. by apply run_edit_refines, run_order_represents.
Qed.

(** No concurrent edit is lost: when adds and removes have all returned, a
    valid CIDR that one of them added and none removed is in effect. *)
Theorem concurrent_add_not_lost b s0 es c cidr :
  newListState b [] [] = Ok s0 -> rtc step (init s0 (edit_loops es)) c ->
  Forall (fun t => exists r, t = Done r) (threads c) ->
  EditAdd cidr ∈ es -> valid_cidr cidr ->
  Forall (fun e => (forall b, e <> EditReload b) /\ e <> EditRemove cidr) es ->
  exists s, current c = Some s /\ cidr ∈ effective s.
Proof.
  intros Hn Hs Hall Hadd Hv Hes. apply represents_new in Hn.
  destruct (loops_all_done _ _ _ Hs Hall) as (order & Hperm & Hcur & _).
  exists (run_order (edit_loops es) order s0). split; [done|].
  pose proof (run_order_represents es order s0 _ Hn) as Hrep.
  apply (bool_decide_eq_true_1 _). rewrite <- (in_effect_spec _ _ _ Hrep).
  apply list_elem_of_lookup in Hadd as [i Hi].
  assert (i ∈ order) as (pre & post & ->)%list_elem_of_split.
  { rewrite Hperm, elem_of_seq. unfold edit_loops. rewrite length_fmap.
    apply lookup_lt_Some in Hi. lia. }
  rewrite spec_order_app. cbn. rewrite Hi. apply spec_order_keeps; [done|].
  by apply spec_edit_adds.
Qed.

End Lists.

(** ** The filter *)

Section Filter.
Context `{IPSetLib} `{!IPSetSpec} `{MaxMindLib} `{UnicodeTables}.

(** The current database is open and every other one has been closed. *)
Definition geo_exclusive (g : geoState) (heap : list DB) : Prop :=
  (forall l, geo_db g = Some l -> exists db, heap !! l = Some db /\ db_closed db = false) /\
  (forall l db, heap !! l = Some db -> geo_db g <> Some l -> db_closed db = true).

Record filter_wf (f : Filter) : Prop := {
  fw_allow : listState_wf (f_allow f);
  fw_deny : listState_wf (f_deny f);
  fw_geo : geo_exclusive (f_geo f) (g_heap f)
}.

(** What the geo allow-list asks of an address. *)
Definition geo_accepts (f : Filter) (ip : Addr) : Prop :=
  forall l db, geo_db (f_geo f) = Some l -> g_heap f !! l = Some db ->
    exists country, maxmind_iso_code (db_reader db) ip = Some country /\ country <> "" /\
      country ∈ geo_allowCountries (f_geo f).

Definition lists_accept (f : Filter) (ip : Addr) : Prop :=
  (ListAllow f = [] \/ Exists (cidr_covers ip) (ListAllow f)) /\
  ~ Exists (cidr_covers ip) (ListDeny f).

Lemma listState_matcher s ip :
  listState_wf s -> addr_wf ip -> Contains (matcher s) ip = true <-> Exists (cidr_covers ip) (effective s).
Proof. intros [a Hs] Hip. by apply Contains_covers; [destruct Hs|]. Qed.

Lemma geo_Allowed_spec f ip :
  filter_wf f ->
  (geo_Allowed f ip = (true, "") /\ geo_accepts f ip) \/
  (geo_Allowed f ip = (false, BlockReasonGeoDeny) /\ ~ geo_accepts f ip).
Proof.
  intros [_ _ [Hcur _]]. unfold geo_Allowed, geo_accepts.
  destruct (geo_db (f_geo f)) as [l|] eqn:Eg; cbn; [|by left].
  destruct (Hcur l eq_refl) as (db & Hdb & Hopen). rewrite Hdb.
  destruct (Country db ip) as [c|e] eqn:Ec.
  - apply Country_ok in Ec as (_ & Hiso & Hne). case_bool_decide as Hin.
    + left. split; [done|]. intros l' db' [= <-] Hdb'. exists c.
      replace db' with db by congruence. done.
    + right. split; [done|]. intros Hacc. destruct (Hacc l db eq_refl Hdb) as (c' & Hc' & _ & Hin').
      congruence.
  - right. split; [done|]. intros Hacc. destruct (Hacc l db eq_refl Hdb) as (c' & Hc' & Hne & _).
    assert (Country db ip = Ok c') as Hok by (by apply Country_ok). congruence.
Qed.

Lemma Allowed_lists f ip :
  listState_wf (f_allow f) -> listState_wf (f_deny f) -> addr_wf ip ->
  (Allowed f ip = (false, BlockReasonIPDeny) /\ ~ lists_accept f ip) \/
  (Allowed f ip = geo_Allowed f ip /\ lists_accept f ip).
Proof.
  intros Ha Hd Hip. unfold Allowed, lists_accept, ListAllow, ListDeny.
  pose proof (listState_matcher _ ip Ha Hip) as HA. pose proof (listState_matcher _ ip Hd Hip) as HD.
  destruct (effective (f_allow f)) as [|c cs] eqn:Ee; cbn [length Nat.ltb Nat.leb andb].
  - destruct (Contains (matcher (f_deny f)) ip); [left|right]; (split; [done|]).
    + intros [_ Hn]. apply Hn. by apply HD.
    + split; [by left|]. intros Hex%HD. done.
  - destruct (Contains (matcher (f_allow f)) ip); cbn [negb].
    + destruct (Contains (matcher (f_deny f)) ip); [left|right]; (split; [done|]).
      * intros [_ Hn]. apply Hn. by apply HD.
      * split; [right; by apply HA|]. intros Hex%HD. done.
    + left. split; [done|]. intros [[Hn|Hex] _]; [done|]. by apply HA in Hex.
Qed.

Lemma Allowed_cases f ip :
  filter_wf f -> addr_wf ip ->
  (Allowed f ip = (false, BlockReasonIPDeny) /\ ~ lists_accept f ip) \/
  (Allowed f ip = geo_Allowed f ip /\ lists_accept f ip).
Proof. intros [Ha Hd _]. by apply Allowed_lists. Qed.

Lemma buildGeoState_spec cfg heap :
  match buildGeoState cfg heap with
  | Ok (g, heap') =>
      (g = mkGeoState None ∅ /\ heap' = heap) \/
      exists db, heap' = heap ++ [db] /\ geo_db g = Some (length heap) /\ db_closed db = false
  | Err _ => True
  end.
Proof.
  unfold buildGeoState. destruct (_ || _); [by left|].
  destruct (Open (gc_DBPath cfg)) as [db|e] eqn:E; cbn; [|done].
  right. exists db. split_and!; [done|done|]. by eapply Open_open.
Qed.

(** The geo state is the one [buildGeoState] makes of the configuration, and
    its database is as it was opened. *)
Definition geo_in_force (cfg : IPListConfig) (f : Filter) : Prop :=
  exists heap heap', buildGeoState (il_Geo cfg) heap = Ok (f_geo f, heap') /\
    forall l, geo_db (f_geo f) = Some l -> g_heap f !! l = heap' !! l.

(** Two filters under one configuration take the same geo decisions. *)
Lemma geo_in_force_same cfg f f' ip :
  geo_in_force cfg f -> geo_in_force cfg f' -> geo_Allowed f ip = geo_Allowed f' ip.
Proof.
  intros (h1 & h1' & B1 & Hl1) (h2 & h2' & B2 & Hl2). unfold geo_Allowed, buildGeoState in *.
  destruct (_ || _).
  { injection B1 as <- <-. injection B2 as <- <-. done. }
  destruct (Open (gc_DBPath (il_Geo cfg))) as [db|e]; cbn in B1, B2; [|done].
  injection B1 as Hg1 <-. injection B2 as Hg2 <-. rewrite <- Hg1 in *. rewrite <- Hg2 in *. cbn in *.
  rewrite (Hl1 _ eq_refl), (Hl2 _ eq_refl), !lookup_app_r, !Nat.sub_diag by done. done.
Qed.

Lemma geo_in_force_new cfg f : NewFilter cfg = Ok f -> geo_in_force cfg f.
Proof.
  unfold NewFilter. destruct (newListState (il_Allow cfg) _ _) as [a|e]; cbn; [|done].
  destruct (newListState (il_Deny cfg) _ _) as [d|e]; cbn; [|done].
  destruct (buildGeoState (il_Geo cfg) []) as [[g heap]|e] eqn:Eg; cbn; [|done].
  intros [= <-]. by exists [], heap.
Qed.

Lemma geo_in_force_frame cfg f f' :
  f_geo f' = f_geo f -> g_heap f' = g_heap f -> geo_in_force cfg f -> geo_in_force cfg f'.
Proof. unfold geo_in_force. by intros -> ->. Qed.

Lemma geo_in_force_reload cfg f f' :
  geo_exclusive (f_geo f) (g_heap f) -> Reload cfg f = (Ok tt, f') -> geo_in_force cfg f'.
Proof.
  intros [Hcur _] Hr. unfold Reload in Hr. destruct (buildGeoState (il_Geo cfg) (g_heap f)) as [[g heap]|e] eqn:Eg; [|done].
  cbn in Hr. destruct (reloadListState _ (f_allow f)) as [[u|e] a]; [|done].
  cbn in Hr. destruct (reloadListState _ (f_deny f)) as [[u'|e] d]; [|done]. injection Hr as <-.
  exists (g_heap f), heap. split; [done|]. cbn. intros l Hl. unfold close_geo.
  destruct (geo_db (f_geo f)) as [l0|] eqn:El0; [|done]. apply list_lookup_alter_ne. intros ->.
  destruct (Hcur l eq_refl) as (db & Hdb & _). apply lookup_lt_Some in Hdb.
  pose proof (buildGeoState_spec (il_Geo cfg) (g_heap f)) as Hs. rewrite Eg in Hs.
  destruct Hs as [[-> _]|(db' & _ & Hg & _)]; [done|]. rewrite Hl in Hg. injection Hg as ->. lia.
Qed.

(** C7. The filter's decision: an address passes exactly when the allow list is
    empty or covers it, no deny CIDR covers it, and the geo allow-list, if
    configured, has its country; a list refusal is reported as ip-deny, a geo
    refusal of an address the lists accept as geo-deny. *)
Theorem Allowed_spec f ip :
  filter_wf f -> addr_wf ip ->
  (Allowed f ip = (true, "") <-> lists_accept f ip /\ geo_accepts f ip) /\
  (Allowed f ip = (false, BlockReasonIPDeny) <-> ~ lists_accept f ip) /\
  (Allowed f ip = (false, BlockReasonGeoDeny) <-> lists_accept f ip /\ ~ geo_accepts f ip).
Proof.
  intros Hf Hip. destruct (Allowed_cases f ip Hf Hip) as [[-> Hl]|[-> Hl]].
  - split_and!; split; try done; by intros [].
  - destruct (geo_Allowed_spec f ip Hf) as [[-> Hg]|[-> Hg]]; split_and!; split; try done; by intros [].
Qed.

(** An address with a zone is in no CIDR: with no allow list and no geo
    list, a client whose address carries a zone passes whatever is denied. *)
Theorem zoned_client_not_denied f ip :
  filter_wf f -> addr_wf ip -> zone_of ip <> "" -> ListAllow f = [] -> geo_db (f_geo f) = None ->
  Allowed f ip = (true, "").
Proof.
  intros Hf Hip Hz Ha Hg.
  assert (lists_accept f ip) as Hl.
  { split; [by left|]. rewrite Exists_exists. intros (c & _ & p & _ & _ & Hz' & _). done. }
  destruct (Allowed_cases f ip Hf Hip) as [[_ Hn]|[-> _]]; [done|]. unfold geo_Allowed. by rewrite Hg.
Qed.

(** ** Reload *)

Lemma reloadListState_valid b s a :
  represents s a -> Forall valid_cidr b ->
  exists s', reloadListState b s = (Ok tt, s') /\ represents s' (mkLayers b (l_overlay a)).
Proof.
  intros Hs Hb. pose proof (run_reload_refines b s a Hs) as Hr. unfold reloadListState in *.
  unfold run_body, reloadListState_body in *. cbn [spec_edit] in Hr.
  rewrite (proj2 (forallb_forall _ b)) in Hr.
  - destruct (newListState _ _ _) as [s'|e]; [|by destruct Hr]. exists s'. by destruct Hr.
  - intros c Hc%list_elem_of_In. rewrite Forall_forall in Hb. specialize (Hb c Hc).
    by rewrite (proj2 (valid_cidrb_spec c) Hb), orb_true_r.
Qed.

Lemma close_geo_exclusive (old new : geoState) heap heap' :
  geo_exclusive old heap ->
  (new = mkGeoState None ∅ /\ heap' = heap) \/
    (exists db, heap' = heap ++ [db] /\ geo_db new = Some (length heap) /\ db_closed db = false) ->
  geo_exclusive new (close_geo old heap').
Proof.
  intros [Hcur Hoth] Hnew.
  assert (Hold : forall l, geo_db old = Some l -> (l < length heap)%nat).
  { intros l Hl. destruct (Hcur l Hl) as (db & Hdb & _). by eapply lookup_lt_Some. }
  assert (Hlook : forall l, close_geo old heap' !! l =
    if decide (geo_db old = Some l) then Geoip.Close <$> heap' !! l else heap' !! l).
  { intros l. unfold close_geo. destruct (geo_db old) as [l0|]; [|by rewrite decide_False].
    destruct (decide (l0 = l)) as [->|Hne].
    - by rewrite list_lookup_alter_eq, decide_True.
    - rewrite list_lookup_alter_ne by done. by rewrite decide_False by congruence. }
  destruct Hnew as [[-> ->]|(db & -> & Hn & Hop)]; split.
  - done.
  - intros l d. rewrite Hlook. case_decide as Ho.
    + destruct (heap !! l); cbn; [|done]. by intros [= <-].
    + intros Hl _. by eapply Hoth.
  - intros l. rewrite Hn. intros [= <-]. rewrite Hlook, decide_False.
    + exists db. by rewrite lookup_app_r, Nat.sub_diag.
    + intros Hl%Hold. lia.
  - intros l d. rewrite Hlook, Hn. case_decide as Ho.
    + destruct (_ !! l); cbn; [|done]. by intros [= <-].
    + intros Hl Hne. destruct (decide (l < length heap)%nat) as [Hlt|Hge].
      * rewrite lookup_app_l in Hl by done. by eapply Hoth.
      * rewrite lookup_app_r in Hl by lia.
        assert (l <> length heap) by congruence.
        apply lookup_lt_Some in Hl. cbn in Hl. lia.
Qed.

Lemma Reload_valid cfg f aA aD :
  Forall valid_cidr (il_Allow cfg) -> Forall valid_cidr (il_Deny cfg) ->
  represents (f_allow f) aA -> represents (f_deny f) aD -> geo_exclusive (f_geo f) (g_heap f) ->
  match Reload cfg f with
  | (Err _, f') => f' = f /\ is_ok (buildGeoState (il_Geo cfg) (g_heap f)) = false
  | (Ok _, f') =>
      represents (f_allow f') (mkLayers (il_Allow cfg) (l_overlay aA)) /\
      represents (f_deny f') (mkLayers (il_Deny cfg) (l_overlay aD)) /\
      geo_exclusive (f_geo f') (g_heap f') /\
      exists heap, buildGeoState (il_Geo cfg) (g_heap f) = Ok (f_geo f', heap)
  end.
Proof.
  intros HvA HvD HA HD Hg. unfold Reload.
  pose proof (buildGeoState_spec (il_Geo cfg) (g_heap f)) as Hbuild.
  destruct (buildGeoState (il_Geo cfg) (g_heap f)) as [[g heap]|e]; [|done]. cbn [f_allow f_deny].
  destruct (reloadListState_valid _ _ _ HA HvA) as (sA & -> & HA').
  destruct (reloadListState_valid _ _ _ HD HvD) as (sD & -> & HD').
  cbn. split_and!; [done|done| |by exists heap].
  by apply close_geo_exclusive with (heap := g_heap f).
Qed.

(** Reloading with lists that passed validation is all or nothing: if the
    geo database does not open, the filter is untouched; otherwise both lists
    have the new base under the overlay they had, the geo state is the new one,
    and the well-formedness (one open database, the current one) is kept. *)
Theorem Reload_all_or_nothing cfg f aA aD :
  Forall valid_cidr (il_Allow cfg) -> Forall valid_cidr (il_Deny cfg) ->
  represents (f_allow f) aA -> represents (f_deny f) aD -> geo_exclusive (f_geo f) (g_heap f) ->
  match Reload cfg f with
  | (Err _, f') => f' = f /\ is_ok (buildGeoState (il_Geo cfg) (g_heap f)) = false
  | (Ok _, f') =>
      represents (f_allow f') (mkLayers (il_Allow cfg) (l_overlay aA)) /\
      represents (f_deny f') (mkLayers (il_Deny cfg) (l_overlay aD)) /\
      geo_exclusive (f_geo f') (g_heap f') /\
      exists heap, buildGeoState (il_Geo cfg) (g_heap f) = Ok (f_geo f', heap)
  end.
Proof. apply Reload_valid. Qed.

Lemma New_wf_lemma cfg :
  match NewFilter cfg with
  | Ok f => filter_wf f /\
      represents (f_allow f) (mkLayers (il_Allow cfg) ∅) /\
      represents (f_deny f) (mkLayers (il_Deny cfg) ∅)
  | Err _ => ~ Forall valid_cidr (il_Allow cfg) \/ ~ Forall valid_cidr (il_Deny cfg) \/
      is_ok (buildGeoState (il_Geo cfg) []) = false
  end.
Proof.
  unfold NewFilter.
  destruct (newListState (il_Allow cfg) [] []) as [sA|e] eqn:EA; cbn [result_bind].
  2:{ left. rewrite <- newListState_ok. rewrite EA. by intros []. }
  destruct (newListState (il_Deny cfg) [] []) as [sD|e] eqn:ED; cbn [result_bind].
  2:{ right; left. rewrite <- newListState_ok. rewrite ED. by intros []. }
  apply represents_new in EA, ED.
  pose proof (buildGeoState_spec (il_Geo cfg) []) as Hb.
  destruct (buildGeoState (il_Geo cfg) []) as [[g heap]|e]; cbn [result_bind]; [|by right; right].
  split_and!; [|done|done]. split; [by eexists|by eexists|]. cbn.
  assert (geo_exclusive (mkGeoState None ∅) (@nil DB)) as He by (by split).
  exact (close_geo_exclusive _ g _ heap He Hb).
Qed.

(** A filter built by [New] is well formed, and [New] fails only on an
    invalid CIDR or a geo database that does not open. *)
Theorem New_wf cfg :
  match NewFilter cfg with
  | Ok f => filter_wf f /\
      represents (f_allow f) (mkLayers (il_Allow cfg) ∅) /\
      represents (f_deny f) (mkLayers (il_Deny cfg) ∅)
  | Err _ => ~ Forall valid_cidr (il_Allow cfg) \/ ~ Forall valid_cidr (il_Deny cfg) \/
      is_ok (buildGeoState (il_Geo cfg) []) = false
  end.
Proof. apply New_wf_lemma. Qed.

End Filter.

(** ** Witnesses *)

#[local] Existing Instance RangeSet.lib.
#[local] Existing Instance RangeSet.spec.

(** A geo database that puts 203.0.113.0/24 in New Zealand. *)
#[local] Instance demo_maxmind : MaxMindLib := {|
  Reader_t := unit;
  maxmind_open := fun path => if String.eqb path "geo.mmdb" then Some tt else None;
  maxmind_iso_code := fun _ ip =>
    Some (if Prefix_Contains (mkPrefix (Addr4 0xCB007100) 24) ip then "NZ" else "")
|}.

#[local] Instance demo_unicode : UnicodeTables := {| unicode_upper := fun s => s |}.

Definition demo_list : listState :=
  mkListState ["203.0.113.0/24"] [] [] ["203.0.113.0/24"]
    (linearMatcher [mkPrefix (Addr4 0xCB007100) 24]).

Lemma demo_list_new : newListState ["203.0.113.0/24"] [] [] = Ok demo_list.
Proof. vm_compute. reflexivity. Qed.

Lemma demo_list_represents : represents demo_list (mkLayers ["203.0.113.0/24"] ∅).
Proof. apply represents_new, demo_list_new. Qed.

Lemma list_edits_refine_layers_witness :
  (run_edit (EditRemove "203.0.113.0/24") demo_list).1 = Edited /\
  represents (run_edit (EditRemove "203.0.113.0/24") demo_list).2
    (mkLayers ["203.0.113.0/24"] (<["203.0.113.0/24" := false]> ∅)).
Proof.
  exact (list_edits_refine_layers (EditRemove "203.0.113.0/24") demo_list _ demo_list_represents).
Defined.

(** Two concurrent adds: both load, the first swaps, the second must retry. *)
Definition demo_edits : list list_edit := [EditAdd "198.51.100.0/24"; EditAdd "192.0.2.0/24"].

Definition demo_final : listState := (run_order (edit_loops demo_edits) [0%nat; 1%nat] demo_list).

Definition demo_race : config listState edit_reply :=
  mkConfig [demo_list; (run_order (edit_loops demo_edits) [0%nat] demo_list);
            (run_order (edit_loops demo_edits) [1%nat] demo_list); demo_final]
    3 [Done Edited; Done Edited].

Lemma demo_race_steps : nsteps step 6 (init demo_list (edit_loops demo_edits)) demo_race.
Proof.
  eapply nsteps_l; [eapply (step_load _ _ _ 0); reflexivity|].
  eapply nsteps_l; [eapply (step_load _ _ _ 1); reflexivity|].
  eapply nsteps_l; [eapply (step_cas_ok _ _ _ 0); [reflexivity|reflexivity|vm_compute; reflexivity|reflexivity]|].
  eapply nsteps_l; [eapply (step_cas_fail _ _ _ 1); [reflexivity|reflexivity|vm_compute; reflexivity|discriminate]|].
  eapply nsteps_l; [eapply (step_load _ _ _ 1); reflexivity|].
  eapply nsteps_l; [eapply (step_cas_ok _ _ _ 1); [reflexivity|reflexivity|vm_compute; reflexivity|reflexivity]|].
  vm_compute. apply nsteps_O.
Qed.

Lemma demo_race_reachable : rtc step (init demo_list (edit_loops demo_edits)) demo_race.
Proof. apply rtc_nsteps. eexists. exact demo_race_steps. Qed.

Lemma concurrent_edits_linearize_witness :
  exists order s, NoDup order /\ current demo_race = Some s /\
    represents s (spec_order demo_edits order (mkLayers ["203.0.113.0/24"] ∅)).
Proof.
  destruct (concurrent_edits_linearize ["203.0.113.0/24"] demo_list demo_edits demo_race
              demo_list_new demo_race_reachable) as (order & s & Hnd & Hc & Hr & _).
  exists order, s. split; [exact Hnd|]. split; [exact Hc|exact Hr].
Defined.

Lemma concurrent_edits_terminate_witness :
  (6 <= 14)%nat /\ exists order s, order ≡ₚ [0%nat; 1%nat] /\ current demo_race = Some s /\
    represents s (spec_order demo_edits order (mkLayers ["203.0.113.0/24"] ∅)).
Proof.
  destruct (concurrent_edits_terminate ["203.0.113.0/24"] demo_list demo_edits demo_race demo_list_new) as [Hb Hd].
  split; [exact (Hb 6%nat demo_race_steps)|].
  destruct (Hd demo_race_reachable) as (order & s & Hp & Hc & Hr & _).
  - intros c' Hs. inversion Hs as [m p ts i f Hi|m p ts i f old v r Hi|m p ts i f old v next r Hi|m p ts i f old v next r Hi]; subst;
      destruct i as [|[|i]]; discriminate Hi.
  - exists order, s. split; [exact Hp|]. split; [exact Hc|exact Hr].
Defined.

Lemma concurrent_add_not_lost_witness :
  exists s, current demo_race = Some s /\ "192.0.2.0/24" ∈ effective s.
Proof.
  apply (concurrent_add_not_lost ["203.0.113.0/24"] demo_list demo_edits demo_race "192.0.2.0/24"
           demo_list_new demo_race_reachable).
  - repeat constructor; eexists; reflexivity.
  - right. left.
  - unfold valid_cidr. vm_compute. eexists. reflexivity.
  - repeat constructor; intros; discriminate.
Defined.

Definition demo_cfg : IPListConfig :=
  mkIPListConfig [] ["203.0.113.0/25"] (mkGeoConfig true "geo.mmdb" ["nz"]).

Definition empty_filter : Filter :=
  mkFilter (mkListState [] [] [] [] (linearMatcher [])) (mkListState [] [] [] [] (linearMatcher []))
    (mkGeoState None ∅) [].

(** The filter [New] builds, by computation of its success only. *)
Definition filter_for (cfg : IPListConfig) : Filter :=
  match NewFilter cfg with Ok f => f | Err _ => empty_filter end.

Lemma filter_for_new cfg : is_ok (NewFilter cfg) = true -> NewFilter cfg = Ok (filter_for cfg).
Proof. unfold filter_for. by destruct (NewFilter cfg). Qed.

Lemma filter_for_wf cfg :
  is_ok (NewFilter cfg) = true ->
  filter_wf (filter_for cfg) /\
  represents (f_allow (filter_for cfg)) (mkLayers (il_Allow cfg) ∅) /\
  represents (f_deny (filter_for cfg)) (mkLayers (il_Deny cfg) ∅).
Proof. intros Hok. pose proof (New_wf_lemma cfg) as Hn. by rewrite (filter_for_new _ Hok) in Hn. Qed.

Definition demo_filter : Filter := filter_for demo_cfg.

Lemma demo_filter_wf : filter_wf demo_filter.
Proof. apply filter_for_wf. vm_compute. reflexivity. Qed.

Lemma Allowed_spec_witness :
  Allowed demo_filter (Addr4 0xCB0071C8) = (true, "") /\ lists_accept demo_filter (Addr4 0xCB0071C8).
Proof.
  destruct (Allowed_spec demo_filter (Addr4 0xCB0071C8) demo_filter_wf) as [[H1 _] _].
  { unfold addr_wf. cbn. lia. }
  assert (Allowed demo_filter (Addr4 0xCB0071C8) = (true, "")) as Ha by (vm_compute; reflexivity).
  split; [exact Ha|exact (proj1 (H1 Ha))].
Defined.

Definition demo_link_local : Filter :=
  filter_for (mkIPListConfig [] ["fe80::/10"] (mkGeoConfig false "" [])).

Lemma demo_link_local_wf : filter_wf demo_link_local.
Proof. apply filter_for_wf. vm_compute. reflexivity. Qed.

(** [fe80::1%eth0] passes a deny list of [fe80::/10]. *)
Lemma zoned_client_not_denied_witness :
  Allowed demo_link_local (Addr6 (338288524927261089654018896841347694592 + 1) "eth0") = (true, "").
Proof.
  apply (zoned_client_not_denied demo_link_local); [exact demo_link_local_wf| |discriminate|reflexivity|reflexivity].
  unfold addr_wf. cbn. lia.
Defined.

Definition demo_reload : IPListConfig := mkIPListConfig [] ["10.0.0.0/8"] (mkGeoConfig false "" []).

Lemma Reload_all_or_nothing_witness :
  represents (f_deny (Reload demo_reload demo_filter).2) (mkLayers ["10.0.0.0/8"] ∅) /\
  geo_exclusive (f_geo (Reload demo_reload demo_filter).2) (g_heap (Reload demo_reload demo_filter).2).
Proof.
  destruct (filter_for_wf demo_cfg) as (Hwf & Ha & Hd); [vm_compute; reflexivity|].
  assert (is_ok (Reload demo_reload demo_filter).1 = true) as Hok by (vm_compute; reflexivity).
  pose proof (Reload_all_or_nothing demo_reload demo_filter (mkLayers [] ∅) (mkLayers ["203.0.113.0/25"] ∅)) as Hr.
  destruct (Reload demo_reload demo_filter) as [[u|e] f']; [|discriminate Hok].
  destruct Hr as (_ & Hd' & Hg & _); [constructor| |exact Ha|exact Hd|exact (fw_geo _ Hwf)|].
  - repeat constructor. unfold valid_cidr. vm_compute. eexists. reflexivity.
  - split; [exact Hd'|exact Hg].
Defined.

Lemma New_wf_witness : filter_wf demo_filter /\ represents (f_deny demo_filter) (mkLayers ["203.0.113.0/25"] ∅).
Proof.
  assert (is_ok (NewFilter demo_cfg) = true) as Hok by (vm_compute; reflexivity).
  pose proof (New_wf demo_cfg) as Hn. rewrite (filter_for_new _ Hok) in Hn.
  destruct Hn as (Hwf & _ & Hd). split; [exact Hwf|exact Hd].
Defined.
