(* ===== verification/GeoLock.v ===== *)
(** * internal/middleware/ipfilter: the geo state under its RWMutex

    [Allowed] looks an address up in a memory-mapped database while [Reload]
    replaces and closes it.  The comment on [Reload] argues why this needs a
    mutex held across the lookup.  Here lookups, reloads and [Close] are
    threads whose steps interleave: taking and releasing the lock, reading the
    pointer, the lookup itself, the swap and the closing of the old database.
    [sync.RWMutex] lets readers in together, and none once a writer waits. *)
From stdpp Require Import relations.
From S2P Require Import Prelude GoStrings Netip Netmatch Config Atomics Http Middleware Geoip IPFilter IPFilterProofs.

Section GeoLock.
Context `{IPSetLib} `{MaxMindLib} `{UnicodeTables}.

(** ** The state *)

(** The threads that hold the lock for reading, and the one that holds it, or
    waits for it, for writing. *)
Record RWMutex := mkRWMutex { rw_readers : gset nat; rw_writer : option nat }.

Record shared := mkShared { sh_heap : list DB; sh_geo : geoState; sh_mu : RWMutex }.

Inductive geo_thread : Type :=
  (* the geo check of [Allowed] *)
  | LookupStart (ip : Addr)
  | LookupLocked (ip : Addr)
  | LookupReading (ip : Addr) (l : nat)            (* in db.Country *)
  | LookupUnlocking (ip : Addr) (a : bool * string)
  | LookupDone (ip : Addr) (a : bool * string)
  (* [Reload] *)
  | ReloadStart (cfg : GeoConfig)
  | ReloadFailed
  | ReloadBuilt (newGeo : geoState)                (* reloading the lists *)
  | ReloadAborted (newGeo : geoState)              (* a list was refused *)
  | ReloadWaiting (newGeo : geoState)
  | ReloadLocked (newGeo : geoState)
  | ReloadSwapped (oldGeo : geoState)
  | ReloadClosing (oldGeo : geoState)
  | ReloadDone
  (* [Close] *)
  | CloseStart
  | CloseLocked
  | CloseUnlocking
  | CloseDone.

(** What the lookup answers, in a database and in a state. *)
Definition country_answer (g : geoState) (db : DB) (ip : Addr) : bool * string :=
  match Country db ip with
  | Err _ => (false, BlockReasonGeoDeny)
  | Ok country => if bool_decide (country ∈ geo_allowCountries g) then (true, "") else (false, BlockReasonGeoDeny)
  end.

Definition geo_answer (g : geoState) (heap : list DB) (ip : Addr) : bool * string :=
  match geo_db g ≫= (heap !!.) with None => (true, "") | Some db => country_answer g db ip end.

Lemma geo_answer_Allowed f ip : geo_Allowed f ip = geo_answer (f_geo f) (g_heap f) ip.
Proof. done. Qed.

(** ** The steps *)

Definition rlock (i : nat) (mu : RWMutex) : RWMutex := mkRWMutex ({[i]} ∪ rw_readers mu) (rw_writer mu).
Definition runlock (i : nat) (mu : RWMutex) : RWMutex := mkRWMutex (rw_readers mu ∖ {[i]}) (rw_writer mu).
Definition set_writer (w : option nat) (mu : RWMutex) : RWMutex := mkRWMutex (rw_readers mu) w.

Inductive thread_step (i : nat) : shared -> geo_thread -> shared -> geo_thread -> Prop :=
  | lookup_rlock heap g mu ip :
      rw_writer mu = None ->
      thread_step i (mkShared heap g mu) (LookupStart ip) (mkShared heap g (rlock i mu)) (LookupLocked ip)
  | lookup_disabled heap g mu ip :
      geo_db g = None ->
      thread_step i (mkShared heap g mu) (LookupLocked ip) (mkShared heap g mu) (LookupUnlocking ip (true, ""))
  | lookup_load heap g mu ip l :
      geo_db g = Some l ->
      thread_step i (mkShared heap g mu) (LookupLocked ip) (mkShared heap g mu) (LookupReading ip l)
  | lookup_country heap g mu ip l db :
      heap !! l = Some db ->
      thread_step i (mkShared heap g mu) (LookupReading ip l) (mkShared heap g mu)
        (LookupUnlocking ip (country_answer g db ip))
  | lookup_runlock heap g mu ip a :
      thread_step i (mkShared heap g mu) (LookupUnlocking ip a) (mkShared heap g (runlock i mu)) (LookupDone ip a)
  | reload_build heap g mu cfg g' heap' :
      buildGeoState cfg heap = Ok (g', heap') ->
      thread_step i (mkShared heap g mu) (ReloadStart cfg) (mkShared heap' g mu) (ReloadBuilt g')
  | reload_build_fails heap g mu cfg err :
      buildGeoState cfg heap = Err err ->
      thread_step i (mkShared heap g mu) (ReloadStart cfg) (mkShared heap g mu) ReloadFailed
  | reload_abort heap g mu g' :
      thread_step i (mkShared heap g mu) (ReloadBuilt g') (mkShared heap g mu) (ReloadAborted g')
  | reload_announce heap g mu g' :
      rw_writer mu = None ->
      thread_step i (mkShared heap g mu) (ReloadBuilt g') (mkShared heap g (set_writer (Some i) mu)) (ReloadWaiting g')
  | reload_lock heap g mu g' :
      rw_readers mu = ∅ ->
      thread_step i (mkShared heap g mu) (ReloadWaiting g') (mkShared heap g mu) (ReloadLocked g')
  | reload_swap heap g mu g' :
      thread_step i (mkShared heap g mu) (ReloadLocked g') (mkShared heap g' mu) (ReloadSwapped g)
  | reload_unlock heap g mu old :
      thread_step i (mkShared heap g mu) (ReloadSwapped old) (mkShared heap g (set_writer None mu)) (ReloadClosing old)
  | reload_close heap g mu old :
      thread_step i (mkShared heap g mu) (ReloadClosing old) (mkShared (close_geo old heap) g mu) ReloadDone
  | close_rlock heap g mu :
      rw_writer mu = None ->
      thread_step i (mkShared heap g mu) CloseStart (mkShared heap g (rlock i mu)) CloseLocked
  | close_database heap g mu :
      thread_step i (mkShared heap g mu) CloseLocked (mkShared (close_geo g heap) g mu) CloseUnlocking
  | close_runlock heap g mu :
      thread_step i (mkShared heap g mu) CloseUnlocking (mkShared heap g (runlock i mu)) CloseDone.

Abbreviation geo_config := (shared * list geo_thread)%type.

Inductive geo_step : geo_config -> geo_config -> Prop :=
  | geo_step_at i sh sh' t t' (ts : list geo_thread) :
      ts !! i = Some t -> thread_step i sh t sh' t' -> geo_step (sh, ts) (sh', <[i := t']> ts).

(** Threads before they start, and when they are through. *)
Definition fresh_thread (t : geo_thread) : bool :=
  match t with LookupStart _ | ReloadStart _ => true | _ => false end.
Definition through (t : geo_thread) : bool :=
  match t with LookupDone _ _ | ReloadFailed | ReloadAborted _ | ReloadDone | CloseDone => true | _ => false end.

Definition geo_start (heap : list DB) (g : geoState) (ts : list geo_thread) : geo_config :=
  (mkShared heap g (mkRWMutex ∅ None), ts).

(** ** The invariant *)

Implicit Types (ts : list geo_thread) (t : geo_thread).

Definition reads t : bool :=
  match t with LookupLocked _ | LookupReading _ _ | LookupUnlocking _ _ | CloseLocked | CloseUnlocking => true | _ => false end.
Definition writes t : bool :=
  match t with ReloadWaiting _ | ReloadLocked _ | ReloadSwapped _ => true | _ => false end.
Definition excludes t : bool := match t with ReloadLocked _ | ReloadSwapped _ => true | _ => false end.

(** The databases a thread is to install or to close. *)
Definition owns t : list nat :=
  match t with
  | ReloadBuilt g | ReloadAborted g | ReloadWaiting g | ReloadLocked g | ReloadSwapped g | ReloadClosing g => option_list (geo_db g)
  | _ => []
  end.
Definition owned ts : list nat := concat (owns <$> ts).

(** The lock is held by the threads that say so, and a writer alone. *)
Record lock_ok (mu : RWMutex) ts : Prop := {
  lk_readers : forall i, i ∈ rw_readers mu <-> reads <$> ts !! i = Some true;
  lk_writer : forall i, rw_writer mu = Some i <-> writes <$> ts !! i = Some true;
  lk_alone : forall i, excludes <$> ts !! i = Some true -> rw_readers mu = ∅
}.

(** The open databases are the current one and those of the reloads under way,
    each in one place; a lookup is in the current one. *)
Record heap_ok (sh : shared) ts : Prop := {
  hp_nodup : NoDup (option_list (geo_db (sh_geo sh)) ++ owned ts);
  hp_open : forall l, db_closed <$> sh_heap sh !! l = Some false <-> l ∈ option_list (geo_db (sh_geo sh)) ++ owned ts;
  hp_reading : forall i ip l, ts !! i = Some (LookupReading ip l) -> geo_db (sh_geo sh) = Some l;
  hp_answer : forall i ip a, ts !! i = Some (LookupUnlocking ip a) -> a = geo_answer (sh_geo sh) (sh_heap sh) ip
}.

Definition is_close t : bool := match t with CloseStart | CloseLocked | CloseUnlocking | CloseDone => true | _ => false end.

Record geo_inv (c : geo_config) : Prop := {
  gi_lock : lock_ok (sh_mu c.1) c.2;
  gi_heap : heap_ok c.1 c.2;
  gi_close : Forall (fun t => is_close t = false) c.2
}.

(** *** One thread moves *)

(** Look at thread [j] after thread [i] moved: it is [i], or it has not moved. *)
#[local] Ltac thread_of j Hi :=
  let Hlt := fresh in
  pose proof (lookup_lt_Some _ _ _ Hi) as Hlt;
  match type of Hi with _ !! ?i = _ =>
    destruct (decide (j = i)) as [->|];
    [rewrite list_lookup_insert_eq by exact Hlt | rewrite list_lookup_insert_ne by done] end;
  clear Hlt.

#[local] Instance owned_Permutation : Proper ((≡ₚ) ==> (≡ₚ)) owned.
Proof.
  intros ts ts' Hp. unfold owned. induction Hp as [|t ts ts' _ IH|t t' ts|ts ts' ts'' _ IH1 _ IH2]; cbn; [done| | |by etrans].
  - by rewrite IH.
  - by rewrite !(assoc_L (++)), (Permutation_app_comm (owns t')).
Qed.

Lemma owned_at ts i t : ts !! i = Some t -> owned ts ≡ₚ owns t ++ owned (delete i ts).
Proof. intros Hi. transitivity (owned (t :: delete i ts)); [|done]. apply owned_Permutation. by apply delete_Permutation. Qed.

Lemma delete_insert_same {A} i (x : A) (l : list A) : delete i (<[i := x]> l) = delete i l.
Proof. revert i. induction l as [|y l IH]; intros [|i]; cbn; [done..|]. f_equal. apply IH. Qed.

Lemma owned_move ts i t t' : ts !! i = Some t -> owned (<[i := t']> ts) ≡ₚ owns t' ++ owned (delete i ts).
Proof.
  intros Hi. rewrite (owned_at (<[i := t']> ts) i t') by (apply list_lookup_insert_eq; by eapply lookup_lt_Some).
  by rewrite delete_insert_same.
Qed.

(** The lock when a thread moves without touching it. *)
Lemma lock_ok_keep mu ts i t t' :
  ts !! i = Some t -> reads t' = reads t -> writes t' = writes t -> (excludes t' = true -> excludes t = true) ->
  lock_ok mu ts -> lock_ok mu (<[i := t']> ts).
Proof.
  intros Hi Hr Hw He [Lr Lw La]. split; intros j; thread_of j Hi; try (by apply Lr || apply Lw || apply La).
  - by rewrite Lr, Hi; cbn; rewrite Hr.
  - by rewrite Lw, Hi; cbn; rewrite Hw.
  - intros [= Hx]. apply (La i). rewrite Hi. cbn. by rewrite He.
Qed.

Lemma lock_ok_rlock mu ts i t t' :
  ts !! i = Some t -> reads t' = true -> writes t = false -> writes t' = false -> excludes t' = false ->
  rw_writer mu = None -> lock_ok mu ts -> lock_ok (rlock i mu) (<[i := t']> ts).
Proof.
  intros Hi Hr Hw Hw' He' Hn [Lr Lw La]. split; cbn; intros j; thread_of j Hi; cbn; try (by apply Lr || apply Lw || apply La).
  - rewrite Hr. split; [done|]. set_solver.
  - rewrite <- Lr. set_solver.
  - rewrite Hn, Hw'. by split.
  - intros [= Hx]. congruence.
  - intros Hx. assert (rw_writer mu = Some j) as Hj; [|congruence]. apply Lw.
    destruct (ts !! j) as [tj|]; [|done]. by destruct tj.
Qed.

Lemma lock_ok_runlock mu ts i t t' :
  ts !! i = Some t -> reads t' = false -> writes t = false -> writes t' = false -> excludes t' = false ->
  lock_ok mu ts -> lock_ok (runlock i mu) (<[i := t']> ts).
Proof.
  intros Hi Hr Hw Hw' He' [Lr Lw La]. split; cbn; intros j; thread_of j Hi; cbn; try (by apply Lr || apply Lw || apply La).
  - rewrite Hr. set_solver.
  - rewrite <- Lr. set_solver.
  - by rewrite Lw, Hi; cbn; rewrite Hw, Hw'.
  - intros [= Hx]. congruence.
  - intros Hx. rewrite (La j Hx). set_solver.
Qed.

Lemma lock_ok_announce mu ts i t t' :
  ts !! i = Some t -> reads t = false -> reads t' = false -> writes t' = true -> excludes t' = false ->
  rw_writer mu = None -> lock_ok mu ts -> lock_ok (set_writer (Some i) mu) (<[i := t']> ts).
Proof.
  intros Hi Hr Hr' Hw' He' Hn [Lr Lw La]. split; cbn; intros j; thread_of j Hi; cbn; try (by apply Lr || apply Lw || apply La).
  - by rewrite Lr, Hi; cbn; rewrite Hr, Hr'.
  - by rewrite Hw'.
  - rewrite <- Lw, Hn. split; [congruence|done].
  - intros [= Hx]. congruence.
Qed.

Lemma lock_ok_acquire mu ts i t t' :
  ts !! i = Some t -> reads t' = reads t -> writes t' = writes t -> rw_readers mu = ∅ ->
  lock_ok mu ts -> lock_ok mu (<[i := t']> ts).
Proof.
  intros Hi Hr Hw Hn [Lr Lw La]. split; [..|done]; intros j; thread_of j Hi; try (by apply Lr || apply Lw || apply La).
  - by rewrite Lr, Hi; cbn; rewrite Hr.
  - by rewrite Lw, Hi; cbn; rewrite Hw.
Qed.

Lemma lock_ok_unlock mu ts i t t' :
  ts !! i = Some t -> reads t = false -> reads t' = false -> writes t = true -> writes t' = false -> excludes t' = false ->
  lock_ok mu ts -> lock_ok (set_writer None mu) (<[i := t']> ts).
Proof.
  intros Hi Hr Hr' Hw Hw' He' [Lr Lw La].
  assert (rw_writer mu = Some i) as Hwi by (apply Lw; rewrite Hi; cbn; by rewrite Hw).
  split; cbn; intros j; thread_of j Hi; cbn; try (by apply Lr || apply Lw || apply La).
  - by rewrite Lr, Hi; cbn; rewrite Hr, Hr'.
  - rewrite Hw'. by split.
  - rewrite <- Lw, Hwi. split; [done|congruence].
  - intros [= Hx]. congruence.
Qed.

(** *** The databases when a thread moves *)

Definition places (g : geoState) t (rest : list nat) : list nat := option_list (geo_db g) ++ owns t ++ rest.

(** The open databases are those at [ls], each once. *)
Definition open_at (heap : list DB) (ls : list nat) : Prop :=
  NoDup ls /\ forall l, db_closed <$> heap !! l = Some false <-> l ∈ ls.

#[local] Instance open_at_Permutation heap : Proper ((≡ₚ) ==> iff) (open_at heap).
Proof. intros ls ls' Hp. unfold open_at. setoid_rewrite Hp. done. Qed.

Lemma heap_ok_places sh ts i t :
  ts !! i = Some t -> heap_ok sh ts -> open_at (sh_heap sh) (places (sh_geo sh) t (owned (delete i ts))).
Proof. intros Hi [Hn Ho _ _]. unfold places. rewrite <- (owned_at _ _ _ Hi). by split. Qed.

Lemma heap_ok_move heap g mu heap' g' mu' ts i t t' :
  ts !! i = Some t -> heap_ok (mkShared heap g mu) ts ->
  (forall rest, open_at heap (places g t rest) -> open_at heap' (places g' t' rest)) ->
  (forall ip l, t' = LookupReading ip l -> geo_db g' = Some l) ->
  (forall ip a, t' = LookupUnlocking ip a -> a = geo_answer g' heap' ip) ->
  (forall j tj, j <> i -> ts !! j = Some tj -> reads tj = true -> geo_db g = geo_db g' /\
     forall ip, geo_answer g heap ip = geo_answer g' heap' ip) ->
  heap_ok (mkShared heap' g' mu') (<[i := t']> ts).
Proof.
  intros Hi Hok Hplaces Hr Ha Hothers. pose proof (Hplaces _ (heap_ok_places _ _ _ _ Hi Hok)) as Hat.
  destruct Hok as [_ _ Hreading Hanswer]. cbn in *.
  assert (open_at heap' (option_list (geo_db g') ++ owned (<[i := t']> ts))) as [Hn Ho]
    by (by rewrite (owned_move _ _ _ t' Hi)).
  split; cbn; [done|done|..]; intros j ip; thread_of j Hi.
  - intros l [= ->]. by apply (Hr ip).
  - intros l Hj. destruct (Hothers j _ ltac:(done) Hj eq_refl) as [<- _]. by apply (Hreading j ip).
  - intros a [= ->]. by apply Ha.
  - intros a Hj. destruct (Hothers j _ ltac:(done) Hj eq_refl) as [_ <-]. by apply (Hanswer j ip).
Qed.

(** When the thread changes neither the databases nor what it owns. *)
Lemma heap_ok_keep heap g mu mu' ts i t t' :
  ts !! i = Some t -> heap_ok (mkShared heap g mu) ts -> owns t' = owns t ->
  (forall ip l, t' = LookupReading ip l -> geo_db g = Some l) ->
  (forall ip a, t' = LookupUnlocking ip a -> a = geo_answer g heap ip) ->
  heap_ok (mkShared heap g mu') (<[i := t']> ts).
Proof.
  intros Hi Hok Ho Hr Ha. eapply (heap_ok_move heap g mu); [exact Hi|exact Hok| |done|done|done].
  intros rest. unfold places. by rewrite Ho.
Qed.

(** Closing a database that is in one place takes it out of there. *)
Lemma close_open_at heap old ls rest :
  open_at heap (ls ++ option_list (geo_db old) ++ rest) -> open_at (close_geo old heap) (ls ++ rest).
Proof.
  unfold close_geo. destruct (geo_db old) as [l|]; [|done]. cbn. rewrite <- Permutation_middle. intros [[Hl Hn]%NoDup_cons Ho].
  split; [done|]. intros l'. destruct (decide (l' = l)) as [->|Hne].
  - rewrite list_lookup_alter_eq. split; [|done]. destruct (heap !! l); cbn; [discriminate|done].
  - rewrite list_lookup_alter_ne by done. rewrite Ho, elem_of_cons. naive_solver.
Qed.

Lemma geo_answer_close g old heap ip :
  (forall l, geo_db g = Some l -> geo_db old <> Some l) -> geo_answer g (close_geo old heap) ip = geo_answer g heap ip.
Proof.
  unfold geo_answer, close_geo. intros Hne. destruct (geo_db g) as [l|]; [|done]. cbn.
  destruct (geo_db old) as [l'|]; [|done]. rewrite list_lookup_alter_ne; [done|]. intros ->. by apply (Hne l).
Qed.

(** Opening one puts it in a new place. *)
Lemma build_open_at cfg heap g' heap' ls rest :
  buildGeoState cfg heap = Ok (g', heap') -> open_at heap (ls ++ rest) ->
  open_at heap' (ls ++ option_list (geo_db g') ++ rest) /\ forall l, (l < length heap)%nat -> heap' !! l = heap !! l.
Proof.
  unfold buildGeoState. destruct (negb (gc_Enabled cfg) || _); [by intros [= <- <-]|].
  destruct (Open (gc_DBPath cfg)) as [db|] eqn:Ed; cbn; [|done]. intros [= <- <-] [Hn Ho]. cbn. apply Open_open in Ed.
  split; [|intros l Hl; by rewrite lookup_app_l]. rewrite <- (Permutation_middle ls rest (length heap)).
  assert (forall l, l ∈ ls ++ rest -> (l < length heap)%nat) as Hlt.
  { intros l Hl. apply Ho in Hl. destruct (heap !! l) as [d|] eqn:E; [|done]. by apply lookup_lt_Some in E. }
  split; [apply NoDup_cons; split; [intros Hl; apply Hlt in Hl; lia|done]|]. intros l. rewrite elem_of_cons.
  destruct (decide (l < length heap)%nat) as [Hl|Hl].
  - rewrite lookup_app_l, Ho by done. split; [by right|intros [->|?]; [lia|done]].
  - rewrite lookup_app_r by lia. split.
    + intros Hx. left. destruct (l - length heap)%nat eqn:E; [lia|done].
    + intros [->|Hin]; [by rewrite Nat.sub_diag; cbn; rewrite Ed|apply Hlt in Hin; lia].
Qed.

(** *** Every step keeps it *)

Lemma lock_step i sh t sh' t' ts :
  thread_step i sh t sh' t' -> ts !! i = Some t -> lock_ok (sh_mu sh) ts -> lock_ok (sh_mu sh') (<[i := t']> ts).
Proof.
  intros Hs Hi Hl. destruct Hs; cbn in *;
    first [ by eapply (lock_ok_keep _ _ _ _ _ Hi) | by eapply (lock_ok_rlock _ _ _ _ _ Hi)
          | by eapply (lock_ok_runlock _ _ _ _ _ Hi) | by eapply (lock_ok_announce _ _ _ _ _ Hi)
          | by eapply (lock_ok_acquire _ _ _ _ _ Hi) | by eapply (lock_ok_unlock _ _ _ _ _ Hi) ].
Qed.

(** While a writer is in, no other thread reads. *)
Lemma alone mu ts i t j tj :
  lock_ok mu ts -> ts !! i = Some t -> excludes t = true -> ts !! j = Some tj -> reads tj = true -> False.
Proof.
  intros [Lr _ La] Hi He Hj Hr. assert (j ∈ rw_readers mu) as Hin by (apply Lr; rewrite Hj; cbn; by rewrite Hr).
  rewrite (La i) in Hin by (rewrite Hi; cbn; by rewrite He). set_solver.
Qed.

Lemma heap_step i sh t sh' t' ts :
  thread_step i sh t sh' t' -> is_close t = false -> ts !! i = Some t -> lock_ok (sh_mu sh) ts ->
  heap_ok sh ts -> heap_ok sh' (<[i := t']> ts).
Proof.
  intros Hs Hc Hi Hl Hok. pose proof Hok as [_ _ Hreading _]. destruct Hs; try done; cbn in *;
    try (by eapply (heap_ok_keep _ _ _ _ _ _ _ _ Hi Hok)).
  - (* lookup_disabled *) eapply (heap_ok_keep _ _ _ _ _ _ _ _ Hi Hok); [done..|]. intros ip' a [= -> <-].
    unfold geo_answer. by rewrite H2.
  - (* lookup_load *) eapply (heap_ok_keep _ _ _ _ _ _ _ _ Hi Hok); [done| |done]. by intros ip' l' [= _ <-].
  - (* lookup_country *) eapply (heap_ok_keep _ _ _ _ _ _ _ _ Hi Hok); [done..|]. intros ip' a [= -> <-].
    unfold geo_answer. rewrite (Hreading i ip' l Hi). cbn. by rewrite H2.
  - (* reload_build *) pose proof (heap_ok_places _ _ _ _ Hi Hok) as Hat. cbn in Hat. unfold places in Hat. cbn in Hat.
    destruct (build_open_at _ _ _ _ _ _ H2 Hat) as [_ Hold]. eapply (heap_ok_move _ _ _ _ _ _ _ _ _ _ Hi Hok); [|done..|].
    + intros rest Hr. unfold places in *. cbn in *. by apply (build_open_at _ _ _ _ _ _ H2).
    + intros j tj _ _ _. split; [done|]. intros ip. unfold geo_answer. destruct (geo_db g) as [l|]; [|done]. cbn.
      rewrite Hold; [done|]. destruct Hat as [_ Ho]. assert (l ∈ [l] ++ owned (delete i ts)) as Hin by (by left).
      apply Ho in Hin. destruct (heap !! l) eqn:E; [|done]. by apply lookup_lt_Some in E.
  - (* reload_swap *) eapply (heap_ok_move _ _ _ _ _ _ _ _ _ _ Hi Hok); [|done..|].
    + intros rest. unfold places. cbn. apply open_at_Permutation. rewrite !(assoc_L (++)).
      by rewrite (Permutation_app_comm (option_list (geo_db g))).
    + intros j tj _ Hj Hr. exfalso. by apply (alone _ _ _ _ _ _ Hl Hi eq_refl Hj Hr).
  - (* reload_close *) pose proof (heap_ok_places _ _ _ _ Hi Hok) as [Hn _]. cbn in Hn. unfold places in Hn. cbn in Hn.
    eapply (heap_ok_move _ _ _ _ _ _ _ _ _ _ Hi Hok); [|done..|].
    + intros rest Hr. unfold places in *. cbn in *. by apply close_open_at.
    + intros j tj _ _ _. split; [done|]. intros ip. symmetry. apply geo_answer_close. intros l Hg Ho.
      rewrite Hg, Ho in Hn. cbn in Hn. apply NoDup_cons in Hn as [Hn _]. apply Hn. by left.
Qed.

Lemma step_not_close i sh t sh' t' : thread_step i sh t sh' t' -> is_close t = false -> is_close t' = false.
Proof. by destruct 1. Qed.

Lemma geo_inv_step c c' : geo_step c c' -> geo_inv c -> geo_inv c'.
Proof.
  intros Hs [Hl Hh Hc]. destruct Hs as [i sh sh' t t' ts Hi Hs]. cbn in *.
  pose proof (Forall_lookup_1 _ _ _ _ Hc Hi) as Hci. cbn in Hci. split; cbn.
  - by eapply lock_step.
  - by eapply heap_step.
  - apply Forall_insert; [done|]. by eapply step_not_close.
Qed.

Lemma fresh_owns ts : Forall (fun t => fresh_thread t = true) ts -> owned ts = [].
Proof. unfold owned. induction 1 as [|t ts Ht _ IH]; cbn; [done|]. rewrite IH. by destruct t. Qed.

Lemma geo_inv_start heap g ts :
  geo_exclusive g heap -> Forall (fun t => fresh_thread t = true) ts -> geo_inv (geo_start heap g ts).
Proof.
  intros [Hin Hout] Hf.
  assert (forall (P : geo_thread -> bool) j, (forall t, fresh_thread t = true -> P t = false) -> P <$> ts !! j = Some true -> False) as Hno.
  { intros P j HP Hj. destruct (ts !! j) as [t|] eqn:E; [|done]. cbn in Hj.
    rewrite (HP t) in Hj by (by apply (Forall_lookup_1 _ _ _ _ Hf E)). done. }
  split; cbn.
  - split; cbn; intros j.
    + split; [set_solver|]. intros Hj. exfalso. apply (Hno reads j); [by intros []|done].
    + split; [done|]. intros Hj. exfalso. apply (Hno writes j); [by intros []|done].
    + done.
  - split; cbn; rewrite ?(fresh_owns ts Hf), ?app_nil_r.
    + destruct (geo_db g); cbn; [apply NoDup_singleton|constructor].
    + intros l. destruct (geo_db g) as [l0|] eqn:Eg; cbn.
      * rewrite list_elem_of_singleton. split.
        -- intros Ho. destruct (decide (l = l0)) as [|Hne]; [done|]. destruct (heap !! l) as [db|] eqn:E; [|done].
           cbn in Ho. rewrite (Hout l db E) in Ho; [done|]. congruence.
        -- intros ->. destruct (Hin l0 eq_refl) as (db & -> & Hdb). cbn. by rewrite Hdb.
      * split; [|set_solver]. intros Ho. destruct (heap !! l) as [db|] eqn:E; [|done].
        cbn in Ho. by rewrite (Hout l db E) in Ho.
    + intros j ip l Hj. pose proof (Forall_lookup_1 _ _ _ _ Hf Hj). done.
    + intros j ip a Hj. pose proof (Forall_lookup_1 _ _ _ _ Hf Hj). done.
  - eapply Forall_impl; [exact Hf|]. by intros [].
Qed.

Lemma geo_inv_reachable heap g ts c :
  geo_exclusive g heap -> Forall (fun t => fresh_thread t = true) ts -> rtc geo_step (geo_start heap g ts) c -> geo_inv c.
Proof.
  intros He Hf Hr. pose proof (geo_inv_start heap g ts He Hf) as Hinv. revert Hinv.
  induction Hr as [c|c1 c2 c3 Hs _ IH]; [done|]. intros Hinv. apply IH. by eapply geo_inv_step.
Qed.

(** *** No deadlock, and an end *)

Lemma reader_steps sh ts i t :
  heap_ok sh ts -> ts !! i = Some t -> reads t = true -> is_close t = false -> exists c, geo_step (sh, ts) c.
Proof.
  intros [_ Ho Hreading _] Hi Hr Hc. destruct sh as [heap g mu]. cbn in *. destruct t; try done.
  - destruct (geo_db g) as [l|] eqn:Eg; eexists; (eapply geo_step_at; [exact Hi|]); [by eapply lookup_load|by eapply lookup_disabled].
  - pose proof (Hreading _ _ _ Hi) as Hl. assert (l ∈ option_list (geo_db g) ++ owned ts) as Hin by (rewrite Hl; by left).
    apply Ho in Hin. destruct (heap !! l) as [db|] eqn:E; [|done].
    eexists. eapply geo_step_at; [exact Hi|]. by eapply lookup_country.
  - eexists. eapply geo_step_at; [exact Hi|]. apply lookup_runlock.
Qed.

Lemma geo_progress c : geo_inv c -> Forall (fun t => through t = true) c.2 \/ exists c', geo_step c c'.
Proof.
  intros [Hl Hh Hc]. destruct c as [[heap g mu] ts]. cbn in *.
  destruct (decide (Forall (fun t => through t = true) ts)) as [|Hn]; [by left|right].
  destruct (rw_writer mu) as [w|] eqn:Ew.
  - pose proof (proj1 (lk_writer _ _ Hl w) Ew) as Hw. destruct (ts !! w) as [t|] eqn:Et; [|done]. cbn in Hw.
    destruct t; try done.
    + destruct (set_choose_or_empty (rw_readers mu)) as [[j Hj]|Hnone].
      * apply (lk_readers _ _ Hl) in Hj. destruct (ts !! j) as [tj|] eqn:Ej; [|done]. injection Hj as Hj.
        apply (reader_steps _ _ j tj Hh Ej Hj). exact (Forall_lookup_1 _ _ _ _ Hc Ej).
      * eexists. eapply geo_step_at; [exact Et|]. apply reload_lock. by apply leibniz_equiv.
    + eexists. eapply geo_step_at; [exact Et|]. apply reload_swap.
    + eexists. eapply geo_step_at; [exact Et|]. apply reload_unlock.
  - apply not_Forall_Exists in Hn; [|intros t; cbn; solve_decision]. apply Exists_exists in Hn as (t & Ht & Hn).
    apply not_true_is_false in Hn. apply list_elem_of_lookup in Ht as [i Hi]. pose proof (Forall_lookup_1 _ _ _ _ Hc Hi) as Hci.
    assert (writes t = false) as Hwr.
    { destruct (writes t) eqn:E; [|done]. assert (rw_writer mu = Some i) by (apply (lk_writer _ _ Hl); rewrite Hi; cbn; by rewrite E).
      congruence. }
    destruct (reads t) eqn:Hr; [by apply (reader_steps _ _ i t Hh Hi Hr)|].
    destruct t; try done.
    + eexists. eapply geo_step_at; [exact Hi|]. by apply lookup_rlock.
    + destruct (buildGeoState cfg heap) as [[g' heap']|err] eqn:E; eexists; (eapply geo_step_at; [exact Hi|]);
        [by eapply reload_build|by eapply reload_build_fails].
    + eexists. eapply geo_step_at; [exact Hi|]. by apply reload_announce.
    + eexists. eapply geo_step_at; [exact Hi|]. apply reload_close.
Qed.

(** The steps a thread has left, at most. *)
Definition steps_left t : nat :=
  match t with
  | LookupStart _ => 4 | LookupLocked _ => 3 | LookupReading _ _ => 2 | LookupUnlocking _ _ => 1
  | ReloadStart _ => 6 | ReloadBuilt _ => 5 | ReloadWaiting _ => 4 | ReloadLocked _ => 3 | ReloadSwapped _ => 2 | ReloadClosing _ => 1
  | CloseStart => 3 | CloseLocked => 2 | CloseUnlocking => 1
  | _ => 0
  end.
Definition all_steps_left ts : nat := sum_list_with steps_left ts.

Lemma move_steps_left ts i t t' :
  ts !! i = Some t -> (steps_left t' < steps_left t)%nat -> (all_steps_left (<[i := t']> ts) < all_steps_left ts)%nat.
Proof.
  unfold all_steps_left. revert i. induction ts as [|t0 ts IH]; intros [|i] Hi Hlt; try done.
  - injection Hi as ->. cbn. lia.
  - specialize (IH i Hi Hlt). change (<[S i := t']> (t0 :: ts)) with (t0 :: <[i := t']> ts). cbn [sum_list_with]. lia.
Qed.

Lemma geo_steps_bound n c c' : nsteps geo_step n c c' -> (n + all_steps_left c'.2 <= all_steps_left c.2)%nat.
Proof.
  induction 1 as [c|n c1 c2 c3 Hs _ IH]; [done|]. destruct Hs as [i sh sh' t t' ts Hi Hs]. cbn in *.
  assert (steps_left t' < steps_left t)%nat as Hlt by (destruct Hs; cbn; lia).
  pose proof (move_steps_left ts i t t' Hi Hlt). unfold all_steps_left in *. lia.
Qed.

(** C12. The geo state under its lock.  However lookups and reloads interleave:
    a lookup is only ever in the database that is current, and open, so no
    reload closes it under the lookup; what it answers is what [Allowed] answers
    in the state it unlocks in; some thread can always go on until all are
    through, within six steps each; and then exactly the current database is
    open, if no reload was cut short by a list. *)
Theorem lookups_exclude_close heap g ts n sh ts' :
  geo_exclusive g heap -> Forall (fun t => fresh_thread t = true) ts ->
  nsteps geo_step n (geo_start heap g ts) (sh, ts') ->
  (forall i ip l, ts' !! i = Some (LookupReading ip l) ->
     geo_db (sh_geo sh) = Some l /\ exists db, sh_heap sh !! l = Some db /\ db_closed db = false) /\
  (forall i ip a allow deny, ts' !! i = Some (LookupUnlocking ip a) ->
     a = geo_Allowed (mkFilter allow deny (sh_geo sh) (sh_heap sh)) ip) /\
  (Forall (fun t => through t = true) ts' \/ exists c, geo_step (sh, ts') c) /\
  (n <= 6 * length ts)%nat /\
  (Forall (fun t => through t = true) ts' -> (forall i g', ts' !! i <> Some (ReloadAborted g')) ->
     geo_exclusive (sh_geo sh) (sh_heap sh)).
Proof.
  intros He Hf Hn. assert (geo_inv (sh, ts')) as Hinv
    by (eapply geo_inv_reachable; [exact He|exact Hf|apply rtc_nsteps; by exists n]).
  pose proof (geo_progress _ Hinv) as Hprog. destruct Hinv as [_ [_ Ho Hreading Hanswer] _]. cbn [fst snd] in *.
  split_and!; [| |exact Hprog| |].
  - intros i ip l Hi. specialize (Hreading i ip l Hi). split; [done|].
    assert (l ∈ option_list (geo_db (sh_geo sh)) ++ owned ts') as Hin by (rewrite Hreading; by left).
    apply Ho in Hin. destruct (sh_heap sh !! l) as [db|]; [|done]. exists db. split; [done|]. by injection Hin.
  - intros i ip a allow deny Hi. by apply (Hanswer i).
  - apply geo_steps_bound in Hn. cbn in Hn. enough (sum_list_with steps_left ts <= 6 * length ts)%nat by lia.
    clear. induction ts as [|t ts IH]; cbn; [done|]. destruct t; cbn; lia.
  - intros Hall Habort. assert (owned ts' = []) as Hown.
    { unfold owned. clear -Hall Habort. induction ts' as [|t ts' IH]; cbn; [done|]. apply Forall_cons in Hall as [Ht Hall].
      rewrite IH; [|done|intros i g'; apply (Habort (S i))]. destruct t; try done. by destruct (Habort 0%nat newGeo). }
    rewrite Hown, app_nil_r in Ho. split.
    + intros l Hl. assert (l ∈ option_list (geo_db (sh_geo sh))) as Hin by (rewrite Hl; by left).
      apply Ho in Hin. destruct (sh_heap sh !! l) as [db|]; [|done]. exists db. split; [done|]. by injection Hin.
    + intros l db Hl Hne. destruct (db_closed db) eqn:E; [done|]. exfalso. apply Hne.
      assert (l ∈ option_list (geo_db (sh_geo sh))) as Hin by (apply Ho; rewrite Hl; cbn; by rewrite E).
      destruct (geo_db (sh_geo sh)); [|by apply not_elem_of_nil in Hin]. apply list_elem_of_singleton in Hin. by subst.
Qed.

(** A reload alone does what [Reload] does to the geo state. *)
Lemma reload_alone cfg f g' heap' f' :
  buildGeoState (il_Geo cfg) (g_heap f) = Ok (g', heap') -> IPFilter.Reload cfg f = (Ok tt, f') ->
  rtc geo_step (geo_start (g_heap f) (f_geo f) [ReloadStart (il_Geo cfg)])
    (mkShared (g_heap f') (f_geo f') (mkRWMutex ∅ None), [ReloadDone]).
Proof.
  unfold IPFilter.Reload. intros Hb. rewrite Hb. destruct (reloadListState _ _) as [[[]|] a]; [|done].
  destruct (reloadListState _ _) as [[[]|] d]; [|done]. intros [= <-]. cbn.
  eapply rtc_l; [eapply (geo_step_at 0); [done|by eapply reload_build]|].
  eapply rtc_l; [eapply (geo_step_at 0); [done|by apply reload_announce]|].
  eapply rtc_l; [eapply (geo_step_at 0); [done|by apply reload_lock]|].
  eapply rtc_l; [eapply (geo_step_at 0); [done|apply reload_swap]|].
  eapply rtc_l; [eapply (geo_step_at 0); [done|apply reload_unlock]|].
  eapply rtc_l; [eapply (geo_step_at 0); [done|apply reload_close]|]. done.
Qed.

(** [Close] takes the lock for reading only, so it does close the database under
    a lookup, which then fails and refuses the client. *)
Lemma close_under_lookup heap g l db ip :
  geo_db g = Some l -> heap !! l = Some db ->
  exists sh ts, rtc geo_step (geo_start heap g [LookupStart ip; CloseStart]) (sh, ts) /\
    ts !! 0%nat = Some (LookupReading ip l) /\ db_closed <$> sh_heap sh !! l = Some true /\
    geo_answer (sh_geo sh) (sh_heap sh) ip = (false, BlockReasonGeoDeny).
Proof.
  intros Hg Hl. exists (mkShared (close_geo g heap) g (rlock 1 (rlock 0 (mkRWMutex ∅ None)))), [LookupReading ip l; CloseUnlocking].
  split.
  - eapply rtc_l; [eapply (geo_step_at 0); [done|by apply lookup_rlock]|].
    eapply rtc_l; [eapply (geo_step_at 0); [done|by eapply lookup_load]|].
    eapply rtc_l; [eapply (geo_step_at 1); [done|by apply close_rlock]|].
    eapply rtc_l; [eapply (geo_step_at 1); [done|apply close_database]|]. done.
  - cbn. unfold geo_answer, close_geo. rewrite Hg. cbn. rewrite list_lookup_alter_eq, Hl. cbn.
    split_and!; [done..|]. unfold country_answer. by destruct (Country (Geoip.Close db) ip) eqn:E.
Qed.

End GeoLock.

(** ** A lookup and a reload that waits for it *)

Section Witness.
#[local] Existing Instance RangeSet.lib.
#[local] Existing Instance IPFilterProofs.demo_maxmind.
#[local] Existing Instance IPFilterProofs.demo_unicode.

Definition geo_cfg : GeoConfig := mkGeoConfig true "geo.mmdb" ["NZ"].
Definition geo_now : geoState := mkGeoState (Some 0%nat) {["NZ"]}.
Definition geo_next : geoState := mkGeoState (Some 1%nat) (list_to_set ["NZ"]).
Definition open_db : DB := mkDB tt false.
Definition visitor : Addr := Addr4 0xCB007109.

Definition waiting : shared * list geo_thread :=
  (mkShared [open_db; open_db] geo_now (mkRWMutex {[0%nat]} (Some 1%nat)), [LookupReading visitor 0; ReloadWaiting geo_next]).

Lemma waiting_reachable :
  nsteps geo_step 4 (geo_start [open_db] geo_now [LookupStart visitor; ReloadStart geo_cfg]) waiting.
Proof.
  eapply nsteps_l; [eapply (geo_step_at 0); [reflexivity|by apply lookup_rlock]|].
  eapply nsteps_l; [eapply (geo_step_at 0); [reflexivity|by eapply lookup_load]|].
  eapply nsteps_l; [eapply (geo_step_at 1); [reflexivity|eapply reload_build; reflexivity]|].
  eapply nsteps_l; [eapply (geo_step_at 1); [reflexivity|by apply reload_announce]|].
  cbn. unfold rlock, set_writer. cbn. rewrite (right_id_L ∅ (∪)). apply nsteps_O.
Qed.

Lemma geo_now_exclusive : geo_exclusive geo_now [open_db].
Proof.
  split.
  - intros l [= <-]. by exists open_db.
  - intros [|l] db; cbn; [|done]. intros _ Hne. by destruct Hne.
Qed.

(** The reload cannot close the database the lookup is in: it waits. *)
Lemma lookups_exclude_close_witness :
  exists db, sh_heap waiting.1 !! 0%nat = Some db /\ db_closed db = false.
Proof.
  destruct (lookups_exclude_close [open_db] geo_now [LookupStart visitor; ReloadStart geo_cfg] 4 waiting.1 waiting.2
    geo_now_exclusive) as (Hr & _).
  - repeat constructor.
  - exact waiting_reachable.
  - exact (proj2 (Hr 0%nat visitor 0%nat eq_refl)).
Defined.

End Witness.
