(* ===== verification/RateLimit.v ===== *)
(** * internal/middleware/ratelimit: per-client token buckets

    limiter.go (the sharded map of buckets, their creation, use and eviction)
    and middleware.go (the per-route limiters, reload and the pipeline stage).
    golang.org/x/time/rate is a parameter ([RateLib]); its documented token
    bucket is [RateSpec].  Bucket entries live in a heap, because [allowAt] uses
    an entry after it has released the shard's lock. *)
From Corelib Require Import SpecFloat.
From S2P Require Import Prelude GoStrings Netip Config Http Middleware.

(** ** golang.org/x/time/rate *)

Class RateLib := {
  RLimiter : Type;
  NewLimiter : spec_float -> Z -> RLimiter;
  AllowN : RLimiter -> Z -> Z -> bool * RLimiter
}.

(** Tokens are counted in a unit in which one token, and what a rate adds in a
    nanosecond, are whole numbers: the smallest positive double is 2^-1074. *)
Definition token : Z := 10 ^ 9 * 2 ^ 1074.
Definition refill (r : spec_float) : Z :=
  match r with S754_finite false m e => Zpos m * 2 ^ (e + 1074) | _ => 0 end.

(** A finite positive rate, and a positive burst. *)
Definition usable (r : spec_float) (b : Z) : Prop :=
  (exists m e, r = S754_finite false m e) /\ 0 < b.

(** The package's documentation: a bucket of size [b], initially full, refilled
    at rate [r]; an event takes a token if there is one.  [steady r b l t]: [l]
    is such a limiter and has seen no event later than [t]; [level l t] is what
    it holds at time [t]. *)
Class RateSpec `{RateLib} := {
  steady : spec_float -> Z -> RLimiter -> Z -> Prop;
  level : RLimiter -> Z -> Z;
  steady_new r b t : usable r b -> steady r b (NewLimiter r b) t;
  steady_mono r b l s t : steady r b l s -> s <= t -> steady r b l t;
  steady_AllowN r b l t : steady r b l t -> steady r b (AllowN l t 1).2 t;
  level_new r b t : usable r b -> level (NewLimiter r b) t = b * token;
  level_range r b l t : steady r b l t -> 0 <= level l t <= b * token;
  level_refill r b l s t : steady r b l s -> s <= t ->
    level l t = Z.min (b * token) (level l s + refill r * (t - s));
  AllowN_accepts r b l t : steady r b l t -> (AllowN l t 1).1 = (token <=? level l t);
  AllowN_takes r b l t : steady r b l t ->
    level (AllowN l t 1).2 t = level l t - (if (AllowN l t 1).1 then token else 0)
}.

(** ** limiter.go *)

Definition numShards : Z := 32.

(** FNV-1a over the bytes of the address, modulo the number of shards. *)
Definition shardIndex (ip : Addr) : Z :=
  foldl (fun h b => uint32 (Z.lxor h b * 16777619)) 2166136261 (AsSlice ip) mod numShards.

Section Limiter.
Context `{RateLib}.

Record bucketEntry := mkBucketEntry { be_limiter : RLimiter; lastSeen : Z }.

Record shardedLimiter := mkShardedLimiter {
  sl_entries : list bucketEntry;         (* the heap of the entries *)
  sl_shards : list (gmap Addr nat);      (* shards[i].buckets *)
  sl_rps : spec_float;
  sl_burst : Z;
  sl_idleTTL : Z;
  sl_stopped : bool                      (* stopCh is closed *)
}.

Definition upd_buckets (es : list bucketEntry) (ss : list (gmap Addr nat)) (sl : shardedLimiter) :=
  mkShardedLimiter es ss (sl_rps sl) (sl_burst sl) (sl_idleTTL sl) (sl_stopped sl).

Definition newShardedLimiter (rps : spec_float) (burst idleTTL : Z) : shardedLimiter :=
  mkShardedLimiter [] (replicate (Z.to_nat numShards) ∅) rps burst idleTTL false.

(** The part of [allowAt] under the shard's lock: the client's entry, made with
    [lastSeen] zero when there is none.  [None] is an index out of range. *)
Definition bucket_for (sl : shardedLimiter) (ip : Addr) : option (nat * shardedLimiter) :=
  let i := Z.to_nat (shardIndex ip) in
  sh ← sl_shards sl !! i;
  match sh !! ip with
  | Some id => Some (id, sl)
  | None =>
      let id := length (sl_entries sl) in
      let entry := mkBucketEntry (NewLimiter (sl_rps sl) (sl_burst sl)) 0 in
      Some (id, upd_buckets (sl_entries sl ++ [entry]) (<[i := <[ip := id]> sh]> (sl_shards sl)) sl)
  end.

(** The rest of [allowAt], on the entry it holds. *)
Definition consume (sl : shardedLimiter) (id : nat) (now : Z) : option (bool * shardedLimiter) :=
  entry ← sl_entries sl !! id;
  let '(ok, lim) := AllowN (be_limiter entry) now 1 in
  Some (ok, upd_buckets (<[id := mkBucketEntry lim (int64 now)]> (sl_entries sl)) (sl_shards sl) sl).

Definition allowAt (sl : shardedLimiter) (ip : Addr) (now : Z) : option (bool * shardedLimiter) :=
  '(id, sl) ← bucket_for sl ip; consume sl id now.

(** [entry.lastSeen.Load() < cutoff] *)
Definition idle (sl : shardedLimiter) (cutoff : Z) (id : nat) : bool :=
  match sl_entries sl !! id with Some e => lastSeen e <? cutoff | None => false end.

Definition evictIdle (sl : shardedLimiter) (now : Z) : shardedLimiter :=
  let cutoff := int64 (now - sl_idleTTL sl) in
  upd_buckets (sl_entries sl)
    ((fun sh => filter (fun kv => idle sl cutoff kv.2 = false) sh) <$> sl_shards sl) sl.

Definition activeCount (sl : shardedLimiter) : Z :=
  foldl (fun n (sh : gmap Addr nat) => n + Z.of_nat (size sh)) 0 (sl_shards sl).

Definition Stop (sl : shardedLimiter) : shardedLimiter :=
  mkShardedLimiter (sl_entries sl) (sl_shards sl) (sl_rps sl) (sl_burst sl) (sl_idleTTL sl) true.

(** The period of [evictLoop]'s ticker. *)
Definition evict_interval (sl : shardedLimiter) : Z :=
  let interval := Z.quot (sl_idleTTL sl) 2 in
  if interval <=? 0 then Minute else interval.

(** One turn of [evictLoop]'s select, on a tick at time [now]. *)
Definition evictLoop_turn (sl : shardedLimiter) (now : Z) : shardedLimiter :=
  if sl_stopped sl then sl else evictIdle sl now.

(** ** Sequences of calls *)
Inductive sl_op : Type :=
  | OpAllow (ip : Addr) (now : Z)
  | OpTick (now : Z)
  | OpCount.

Inductive sl_out : Type :=
  | OutAllow (ok : bool)
  | OutTick
  | OutCount (n : Z).

Definition sl_run_op (sl : shardedLimiter) (op : sl_op) : option (sl_out * shardedLimiter) :=
  match op with
  | OpAllow ip now => '(ok, sl) ← allowAt sl ip now; Some (OutAllow ok, sl)
  | OpTick now => Some (OutTick, evictLoop_turn sl now)
  | OpCount => Some (OutCount (activeCount sl), sl)
  end.

Fixpoint sl_run (sl : shardedLimiter) (ops : list sl_op) : option (list sl_out * shardedLimiter) :=
  match ops with
  | [] => Some ([], sl)
  | op :: ops' =>
      '(out, sl) ← sl_run_op sl op; '(outs, sl) ← sl_run sl ops'; Some (out :: outs, sl)
  end.

(** ** Specification: one map of buckets, no shards, no heap *)

Record ref := mkRef { ref_rps : spec_float; ref_burst : Z; ref_ttl : Z; ref_map : gmap Addr bucketEntry }.

Definition ref_limiter (m : ref) (ip : Addr) : RLimiter :=
  match ref_map m !! ip with
  | Some e => be_limiter e
  | None => NewLimiter (ref_rps m) (ref_burst m)
  end.

Definition upd_ref (f : gmap Addr bucketEntry -> gmap Addr bucketEntry) (m : ref) : ref :=
  mkRef (ref_rps m) (ref_burst m) (ref_ttl m) (f (ref_map m)).

Definition ref_run_op (m : ref) (op : sl_op) : sl_out * ref :=
  match op with
  | OpAllow ip now =>
      let '(ok, lim) := AllowN (ref_limiter m ip) now 1 in
      (OutAllow ok, upd_ref <[ip := mkBucketEntry lim (int64 now)]> m)
  | OpTick now =>
      (OutTick, upd_ref (filter (fun kv => int64 (now - ref_ttl m) <= lastSeen kv.2)) m)
  | OpCount => (OutCount (Z.of_nat (size (ref_map m))), m)
  end.

Fixpoint ref_run (m : ref) (ops : list sl_op) : list sl_out * ref :=
  match ops with
  | [] => ([], m)
  | op :: ops' =>
      let '(out, m) := ref_run_op m op in
      let '(outs, m) := ref_run m ops' in (out :: outs, m)
  end.

End Limiter.

(** ** The sharded limiter implements the map *)

Lemma shardIndex_bound ip : 0 <= shardIndex ip < numShards.
Proof. apply Z.mod_pos_bound. done. Qed.

#[export] Hint Resolve shardIndex_bound : firewall.

Section Refinement.
Context `{RateLib}.

Definition shard_no (ip : Addr) : nat := Z.to_nat (shardIndex ip).

Lemma shard_no_bound ip : (shard_no ip < Z.to_nat numShards)%nat.
Proof. unfold shard_no. pose proof (shardIndex_bound ip). lia. Qed.

(** The entry a client's address leads to. *)
Definition id_of (sl : shardedLimiter) (ip : Addr) : option nat :=
  sh ← sl_shards sl !! shard_no ip; sh !! ip.

(** Every key is in its own shard, and entries are not shared. *)
Record sl_wf (sl : shardedLimiter) : Prop := {
  wf_shards : length (sl_shards sl) = Z.to_nat numShards;
  wf_home i sh ip : sl_shards sl !! i = Some sh -> is_Some (sh !! ip) -> i = shard_no ip;
  wf_entry ip id : id_of sl ip = Some id -> is_Some (sl_entries sl !! id);
  wf_inj ip ip' id : id_of sl ip = Some id -> id_of sl ip' = Some id -> ip = ip'
}.

Definition implements (sl : shardedLimiter) (m : ref) : Prop :=
  sl_wf sl /\
  (ref_rps m = sl_rps sl /\ ref_burst m = sl_burst sl /\ ref_ttl m = sl_idleTTL sl) /\
  forall ip, ref_map m !! ip = (id ← id_of sl ip; sl_entries sl !! id).

Definition ref_new (rps : spec_float) (burst idleTTL : Z) : ref := mkRef rps burst idleTTL ∅.

Lemma new_implements rps burst ttl :
  implements (newShardedLimiter rps burst ttl) (ref_new rps burst ttl).
Proof.
  assert (forall ip, id_of (newShardedLimiter rps burst ttl) ip = None) as Hid.
  { intros ip. unfold id_of, newShardedLimiter. cbn [sl_shards].
    rewrite lookup_replicate_2 by apply shard_no_bound. done. }
  split_and!; try done.
  - split; try (intros *; rewrite Hid; done); [done|].
    intros i sh ip Hi. apply lookup_replicate in Hi as [-> _]. rewrite lookup_empty. by intros [].
  - intros ip. by rewrite Hid.
Qed.

Lemma shard_lookup sl ip : sl_wf sl -> exists sh, sl_shards sl !! shard_no ip = Some sh.
Proof. intros [Hl _ _ _]. apply lookup_lt_is_Some. rewrite Hl. apply shard_no_bound. Qed.

(** The locked part of [allowAt]: the client has an entry afterwards, others
    keep theirs. *)
Lemma bucket_for_spec sl m ip :
  implements sl m ->
  exists id sl', bucket_for sl ip = Some (id, sl') /\ id_of sl' ip = Some id /\
    implements sl' (upd_ref (<[ip := default (mkBucketEntry (NewLimiter (ref_rps m) (ref_burst m)) 0) (ref_map m !! ip)]>) m).
Proof.
  intros (Hwf & Hp & Hm). unfold bucket_for. destruct (shard_lookup sl ip Hwf) as [sh Hsh].
  fold (shard_no ip). rewrite Hsh. cbn [option_bind mbind].
  specialize (Hm ip) as Hmip. destruct (sh !! ip) as [id|] eqn:Hid.
  - assert (id_of sl ip = Some id) as Hof by (unfold id_of; rewrite Hsh; exact Hid).
    destruct (wf_entry _ Hwf _ _ Hof) as [e He].
    rewrite Hof in Hmip. cbn in Hmip. rewrite He in Hmip.
    exists id, sl. split_and!; [done..|]. rewrite Hmip. cbn [default].
    split; [done|]. split; [done|]. intros ip'. cbn. destruct (decide (ip' = ip)) as [->|Hne].
    + by rewrite lookup_insert_eq, Hof; cbn.
    + rewrite lookup_insert_ne by done. apply Hm.
  - set (sl' := upd_buckets _ _ _). assert (id_of sl ip = None) as Hof by (unfold id_of; rewrite Hsh; exact Hid).
    rewrite Hof in Hmip. cbn in Hmip. rewrite Hmip. cbn [default].
    assert (forall ip', id_of sl' ip' = if decide (ip' = ip) then Some (length (sl_entries sl)) else id_of sl ip') as Hof'.
    { intros ip'. unfold id_of, sl'. cbn. destruct (decide (shard_no ip' = shard_no ip)) as [Heq|Hne].
      - rewrite Heq, list_lookup_insert_eq, Hsh by (eapply lookup_lt_Some; eauto). cbn.
        destruct (decide (ip' = ip)) as [->|Hne]; [by rewrite lookup_insert_eq|by rewrite lookup_insert_ne].
      - rewrite list_lookup_insert_ne by done. rewrite decide_False by congruence. done. }
    assert (forall ip' id', id_of sl ip' = Some id' -> (id' < length (sl_entries sl))%nat) as Hlt.
    { intros ip' id' ?. eapply lookup_lt_is_Some, wf_entry; eauto. }
    exists (length (sl_entries sl)), sl'. split_and!; [done|by rewrite Hof', decide_True|].
    split; [|split; [done|]].
    + split.
      * unfold sl'. cbn. rewrite length_insert. apply Hwf.
      * intros i sh' ip' Hi Hk. unfold sl' in Hi. cbn in Hi.
        destruct (decide (i = shard_no ip)) as [->|Hne].
        -- rewrite list_lookup_insert_eq in Hi by (eapply lookup_lt_Some; eauto). injection Hi as <-.
           destruct (decide (ip' = ip)) as [->|Hne]; [done|]. rewrite lookup_insert_ne in Hk by done.
           eapply wf_home; eauto.
        -- rewrite list_lookup_insert_ne in Hi by done. eapply wf_home; eauto.
      * intros ip' id'. rewrite Hof'. unfold sl'. cbn. case_decide as Hd.
        -- intros [= <-]. apply lookup_lt_is_Some. rewrite length_app. cbn. lia.
        -- intros Hi. apply lookup_lt_is_Some. rewrite length_app. specialize (Hlt _ _ Hi). lia.
      * intros ip1 ip2 id'. rewrite !Hof'. do 2 case_decide; try congruence.
        -- intros [= <-] Hi. specialize (Hlt _ _ Hi). lia.
        -- intros Hi [= <-]. specialize (Hlt _ _ Hi). lia.
        -- apply Hwf.
    + intros ip'. rewrite Hof'. cbn. case_decide as Hd; [subst ip'|].
      * rewrite lookup_insert_eq. unfold sl'. cbn. destruct Hp as (-> & -> & _). rewrite lookup_app_r, Nat.sub_diag by lia. done.
      * rewrite lookup_insert_ne by done. rewrite Hm. destruct (id_of sl ip') as [id'|] eqn:Hi; [|done].
        unfold sl'. cbn. symmetry. apply lookup_app_l. eauto.
Qed.

(** The rest of [allowAt] changes the entry it holds and no other client's. *)
Lemma consume_spec sl m ip id now e :
  implements sl m -> id_of sl ip = Some id -> ref_map m !! ip = Some e ->
  let '(ok, lim) := AllowN (be_limiter e) now 1 in
  exists sl', consume sl id now = Some (ok, sl') /\
    implements sl' (upd_ref (<[ip := mkBucketEntry lim (int64 now)]>) m).
Proof.
  intros (Hwf & Hp & Hm) Hid He. pose proof (Hm ip) as He'. rewrite Hid, He in He'. cbn in He'.
  symmetry in He'. unfold consume. rewrite He'. cbn. destruct (AllowN _ now 1) as [ok lim].
  eexists. split; [done|]. split; [|split; [done|]].
  - split; try apply Hwf. intros ip' id' Hi. cbn. apply list_lookup_insert_is_Some, (wf_entry _ Hwf _ _ Hi).
  - intros ip'. cbn. change (id_of (upd_buckets _ _ sl) ip') with (id_of sl ip').
    destruct (decide (ip' = ip)) as [->|Hne].
    + rewrite lookup_insert_eq, Hid. cbn. by rewrite list_lookup_insert_eq by (eapply lookup_lt_Some; eauto).
    + rewrite lookup_insert_ne, Hm by done. destruct (id_of sl ip') as [id'|] eqn:Hi; [|done]. cbn.
      rewrite list_lookup_insert_ne; [done|]. intros <-. apply Hne. eapply wf_inj; eauto.
Qed.

Lemma allowAt_spec sl m ip now :
  implements sl m ->
  let '(ok, lim) := AllowN (ref_limiter m ip) now 1 in
  exists sl', allowAt sl ip now = Some (ok, sl') /\
    implements sl' (upd_ref (<[ip := mkBucketEntry lim (int64 now)]>) m).
Proof.
  intros Hi. destruct (bucket_for_spec sl m ip Hi) as (id & sl1 & Hb & Hid & Hi1).
  eapply (consume_spec _ _ _ _ now) in Hi1; [|exact Hid|cbn; apply lookup_insert_eq].
  unfold allowAt. rewrite Hb. cbn [option_bind mbind].
  assert (be_limiter (default (mkBucketEntry (NewLimiter (ref_rps m) (ref_burst m)) 0) (ref_map m !! ip)) = ref_limiter m ip) as Hl
    by (unfold ref_limiter; by destruct (ref_map m !! ip)).
  rewrite Hl in Hi1. destruct (AllowN _ now 1) as [ok lim]. destruct Hi1 as (sl' & Hc & Hi').
  exists sl'. split; [exact Hc|]. unfold upd_ref in *. cbn in *. by rewrite insert_insert_eq in Hi'.
Qed.

Lemma int64_cutoff_filter sl cutoff ip id :
  sl_wf sl -> id_of sl ip = Some id ->
  idle sl cutoff id = false <-> exists e, sl_entries sl !! id = Some e /\ cutoff <= lastSeen e.
Proof.
  intros Hwf Hid. destruct (wf_entry _ Hwf _ _ Hid) as [e He]. unfold idle. rewrite He, Z.ltb_ge.
  naive_solver.
Qed.

Lemma evictIdle_spec sl m now :
  implements sl m ->
  implements (evictIdle sl now) (upd_ref (filter (fun kv => int64 (now - ref_ttl m) <= lastSeen kv.2)) m).
Proof.
  intros (Hwf & Hp & Hm). set (cutoff := int64 (now - sl_idleTTL sl)).
  assert (forall ip, id_of (evictIdle sl now) ip =
            id ← id_of sl ip; if idle sl cutoff id then None else Some id) as Hof.
  { intros ip. unfold id_of, evictIdle. cbn. rewrite list_lookup_fmap.
    destruct (sl_shards sl !! shard_no ip) as [sh|]; [|done]. cbn. rewrite map_lookup_filter.
    destruct (sh !! ip) as [id|]; [|done]. cbn. fold cutoff. by destruct (idle sl cutoff id). }
  assert (forall ip id, id_of (evictIdle sl now) ip = Some id -> id_of sl ip = Some id) as Hsub.
  { intros ip id. rewrite Hof. destruct (id_of sl ip) as [id'|]; [|done]. cbn.
    by destruct (idle sl cutoff id'). }
  split; [|split; [done|]].
  - split.
    + cbn. rewrite length_fmap. apply Hwf.
    + intros i sh ip Hi [id Hk]. cbn in Hi. rewrite list_lookup_fmap in Hi.
      destruct (sl_shards sl !! i) as [sh0|] eqn:Hi0; [|done]. injection Hi as <-.
      apply map_lookup_filter_Some_1_1 in Hk. eapply wf_home; eauto.
    + intros ip id Hi. apply (wf_entry _ Hwf ip), Hsub, Hi.
    + intros ip ip' id Hi Hi'. eapply (wf_inj _ Hwf); eapply Hsub; eauto.
  - intros ip. cbn. rewrite map_lookup_filter, Hof, Hm. destruct Hp as (_ & _ & ->). fold cutoff.
    destruct (id_of sl ip) as [id|] eqn:Hid; [|done]. cbn.
    pose proof (int64_cutoff_filter sl cutoff ip id Hwf Hid) as Hc.
    destruct (wf_entry _ Hwf _ _ Hid) as [e He]. rewrite He in *. cbn.
    destruct (idle sl cutoff id); cbn; [|rewrite He].
    + rewrite option_guard_False; [done|]. intros Hle. enough (true = false) by done. apply Hc. eauto.
    + rewrite option_guard_True; [done|]. destruct (proj1 Hc eq_refl) as (? & [= <-] & ?). done.
Qed.

(** The sum of the sizes of maps whose keys know their map. *)
Lemma sum_sizes (home : Addr -> nat) (l : list (gmap Addr nat)) k n :
  (forall i sh ip, l !! i = Some sh -> is_Some (sh !! ip) -> home ip = (k + i)%nat) ->
  foldl (fun n sh => n + Z.of_nat (size sh)) n l = n + Z.of_nat (size (⋃ ((dom : gmap Addr nat -> gset Addr) <$> l))).
Proof.
  revert k n. induction l as [|sh l IH]; intros k n Hh; cbn; [rewrite size_empty; lia|].
  rewrite (IH (S k)), size_union.
  - rewrite size_dom. lia.
  - intros ip H1 H2. apply elem_of_dom in H1. apply elem_of_union_list in H2 as (d & Hd & Hip).
    apply list_elem_of_fmap in Hd as (sh' & -> & (i & Hi)%list_elem_of_lookup). apply elem_of_dom in Hip.
    pose proof (Hh 0%nat sh ip eq_refl H1). pose proof (Hh (S i) sh' ip Hi Hip). lia.
  - intros i sh' ip Hi Hk. rewrite (Hh (S i) sh' ip Hi Hk). lia.
Qed.

Lemma activeCount_spec sl m : implements sl m -> activeCount sl = Z.of_nat (size (ref_map m)).
Proof.
  intros (Hwf & _ & Hm). unfold activeCount.
  rewrite (sum_sizes shard_no _ 0%nat) by (intros; symmetry; eapply wf_home; eauto).
  rewrite <- (size_dom (ref_map m) (D := gset Addr)), Z.add_0_l. f_equal. f_equal. apply set_eq. intros ip.
  rewrite elem_of_dom, Hm, elem_of_union_list. split.
  - intros (d & Hd & Hip). apply list_elem_of_fmap in Hd as (sh & -> & (i & Hi)%list_elem_of_lookup).
    apply elem_of_dom in Hip as [id Hid].
    assert (i = shard_no ip) as -> by (eapply wf_home; eauto).
    assert (id_of sl ip = Some id) as Hof by (unfold id_of; rewrite Hi; exact Hid).
    rewrite Hof. exact (wf_entry _ Hwf _ _ Hof).
  - intros [e He]. destruct (id_of sl ip) as [id|] eqn:Hid; [|done]. unfold id_of in Hid.
    destruct (sl_shards sl !! shard_no ip) as [sh|] eqn:Hsh; [|done]. cbn in Hid.
    exists (dom sh). split; [|apply elem_of_dom; eauto].
    apply list_elem_of_fmap. exists sh. split; [done|]. eapply list_elem_of_lookup_2; eauto.
Qed.

Lemma bucket_for_stopped sl ip id sl' : bucket_for sl ip = Some (id, sl') -> sl_stopped sl' = sl_stopped sl.
Proof. unfold bucket_for. intros (sh & _ & H')%bind_Some. destruct (sh !! ip); by injection H' as <- <-. Qed.

Lemma allowAt_stopped sl ip now ok sl' : allowAt sl ip now = Some (ok, sl') -> sl_stopped sl' = sl_stopped sl.
Proof.
  unfold allowAt. intros ([id sl1] & Hb & Hc)%bind_Some. apply bucket_for_stopped in Hb as <-.
  unfold consume in Hc. apply bind_Some in Hc as (e & _ & Hc). destruct (AllowN _ now 1). by injection Hc as <- <-.
Qed.

Lemma sl_run_op_spec sl m op :
  implements sl m -> sl_stopped sl = false ->
  exists sl', sl_run_op sl op = Some ((ref_run_op m op).1, sl') /\
    implements sl' (ref_run_op m op).2 /\ sl_stopped sl' = false.
Proof.
  intros Hi Hs. destruct op as [ip now|now|]; cbn.
  - pose proof (allowAt_spec sl m ip now Hi) as Ha. destruct (AllowN _ now 1) as [ok lim].
    destruct Ha as (sl' & Ha & Hi'). rewrite Ha. apply allowAt_stopped in Ha. cbn. rewrite Hs in Ha. eauto.
  - unfold evictLoop_turn. rewrite Hs. eauto using evictIdle_spec.
  - rewrite (activeCount_spec _ _ Hi). eauto.
Qed.

Lemma sl_run_spec ops sl m :
  implements sl m -> sl_stopped sl = false ->
  exists sl', sl_run sl ops = Some ((ref_run m ops).1, sl') /\ implements sl' (ref_run m ops).2.
Proof.
  revert sl m. induction ops as [|op ops IH]; intros sl m Hi Hs; cbn; [eauto|].
  destruct (sl_run_op_spec sl m op Hi Hs) as (sl1 & -> & Hi1 & Hs1).
  destruct (ref_run_op m op) as [out m1]. cbn in *. destruct (IH _ _ Hi1 Hs1) as (sl2 & -> & Hi2).
  destruct (ref_run m1 ops) as [outs m2]. cbn in *. eauto.
Qed.

(** C24. The sharded limiter, with its 32 maps and its heap of entries, behaves
    as one map from client addresses to buckets: no call panics, and any
    sequence of requests, eviction ticks and counts gets the answers the map
    gives.  In particular clients that share a shard do not share a bucket. *)
Theorem sharded_refines_map rps burst ttl ops :
  exists sl, sl_run (newShardedLimiter rps burst ttl) ops =
             Some ((ref_run (ref_new rps burst ttl) ops).1, sl) /\
             implements sl (ref_run (ref_new rps burst ttl) ops).2.
Proof. apply sl_run_spec; [apply new_implements|done]. Qed.

End Refinement.

(** ** The rate is enforced across evictions *)

Section Rate.
Context `{RateSpec}.

Definition op_time (op : sl_op) : option Z :=
  match op with OpAllow _ now => Some now | OpTick now => Some now | OpCount => None end.

(** The clock does not go back, and stays within [UnixNano]'s range. *)
Fixpoint times_from (t : Z) (ops : list sl_op) : Prop :=
  match ops with
  | [] => True
  | op :: ops' =>
      match op_time op with
      | Some now => t <= now < 2 ^ 63 /\ times_from now ops'
      | None => times_from t ops'
      end
  end.

(** How many requests of [ip] were accepted between [s] and [t]. *)
Fixpoint accepted (ip : Addr) (s t : Z) (ops : list sl_op) (outs : list sl_out) : Z :=
  match ops, outs with
  | OpAllow ip' now :: ops', OutAllow ok :: outs' =>
      (if bool_decide (ip' = ip) && (s <=? now) && (now <=? t) && ok then 1 else 0)
      + accepted ip s t ops' outs'
  | _ :: ops', _ :: outs' => accepted ip s t ops' outs'
  | _, _ => 0
  end.

Context (rps : spec_float) (burst ttl : Z).
Hypothesis Husable : usable rps burst.
Hypothesis Httl : 0 <= ttl < 2 ^ 63.
(** An idle bucket is full again before it can be evicted. *)
Hypothesis Hfull : burst * token <= refill rps * ttl.

Definition bucket_wf (t : Z) (e : bucketEntry) : Prop :=
  steady rps burst (be_limiter e) (lastSeen e) /\ 0 <= lastSeen e <= t.

Definition ref_wf (t : Z) (m : ref) : Prop :=
  (ref_rps m = rps /\ ref_burst m = burst /\ ref_ttl m = ttl) /\
  forall ip e, ref_map m !! ip = Some e -> bucket_wf t e.

(** What a client may still take at time [t]. *)
Definition avail (m : ref) (ip : Addr) (t : Z) : Z := level (ref_limiter m ip) t.

Lemma refill_pos : 0 <= refill rps.
Proof. clear Httl Hfull. destruct Husable as [(m & e & ->) _]. cbn. apply Z.mul_nonneg_nonneg; [lia|]. apply Z.pow_nonneg. lia. Qed.

Lemma token_pos : 0 < token.
Proof. done. Qed.

Opaque token.

Lemma ref_limiter_steady t m ip : 0 <= t -> ref_wf t m -> steady rps burst (ref_limiter m ip) t.
Proof.
  intros Ht [(Hr & Hb & _) Hm]. unfold ref_limiter. destruct (ref_map m !! ip) as [e|] eqn:E.
  - destruct (Hm _ _ E) as [Hs [_ Hle]]. by eapply steady_mono.
  - rewrite Hr, Hb. by apply steady_new.
Qed.



Lemma ref_wf_later s t m : s <= t -> ref_wf s m -> ref_wf t m.
Proof. intros Hst [Hp Hm]. split; [done|]. intros ip e He. destruct (Hm _ _ He) as [? ?]. split; [done|lia]. Qed.

Lemma ref_allow_step t m ip :
  0 <= t < 2 ^ 63 -> ref_wf t m ->
  let '(out, m') := ref_run_op m (OpAllow ip t) in
  ref_wf t m' /\
  (forall ip', avail m' ip' t =
     avail m ip' t - (if bool_decide (ip = ip') && (match out with OutAllow ok => ok | _ => false end) then token else 0)).
Proof.
  intros Ht Hwf. cbn. pose proof (ref_limiter_steady t m ip (proj1 Ht) Hwf) as Hs.
  pose proof (steady_AllowN _ _ _ _ Hs) as Hs'. pose proof (AllowN_takes _ _ _ _ Hs) as Hl.
  destruct (AllowN (ref_limiter m ip) t 1) as [ok lim]. cbn in *. destruct Hwf as [Hp Hm]. split.
  - split; [done|]. intros ip' e. cbn. rewrite lookup_insert_Some. intros [[_ <-]|[_ He]]; [|by apply (Hm ip')].
    unfold int64. split; cbn; rewrite wrapS_id by lia; [done|lia].
  - intros ip'. unfold avail, ref_limiter. cbn. case_bool_decide as Hd; cbn.
    + subst ip'. rewrite lookup_insert_eq. exact Hl.
    + rewrite lookup_insert_ne by done. lia.
Qed.

(** An evicted bucket was full. *)
Lemma ref_tick_step t m :
  0 <= t < 2 ^ 63 -> ref_wf t m ->
  let '(_, m') := ref_run_op m (OpTick t) in
  ref_wf t m' /\ forall ip, avail m' ip t = avail m ip t.
Proof.
  intros Ht Hwf. cbn. destruct Hwf as [Hp Hm] eqn:E. clear E. split.
  - split; [done|]. intros ip e He. cbn in He. apply map_lookup_filter_Some_1_1 in He. by apply (Hm ip).
  - intros ip. unfold avail, ref_limiter. cbn. rewrite map_lookup_filter.
    destruct (ref_map m !! ip) as [e|] eqn:He; [|done]. cbn. destruct Hp as (-> & -> & ->).
    unfold int64. rewrite wrapS_id by lia. case_guard as Hc; [done|]. cbn.
    destruct (Hm _ _ He) as [Hs Hls]. cbn in Hc. rewrite level_new by done.
    rewrite (level_refill _ _ _ _ t Hs) by lia. pose proof (level_range _ _ _ _ Hs) as Hr.
    pose proof refill_pos. assert (refill rps * ttl <= refill rps * (t - lastSeen e)) by (apply Z.mul_le_mono_nonneg_l; lia).
    lia.
Qed.




End Rate.

Section RateProperties.
Context `{RateSpec}.
Context (rps : spec_float) (burst ttl : Z).


Lemma sl_run_ref ops outs sl :
  sl_run (newShardedLimiter rps burst ttl) ops = Some (outs, sl) ->
  outs = (ref_run (ref_new rps burst ttl) ops).1 /\
  implements sl (ref_run (ref_new rps burst ttl) ops).2.
Proof. destruct (sl_run_spec ops _ _ (new_implements rps burst ttl) eq_refl) as (sl' & -> & Hi). by intros [= <- <-]. Qed.


(** The requests of [ip] among [ops] are at time [l] or before. *)
Definition quiet_since (ip : Addr) (l : Z) (ops : list sl_op) : Prop :=
  forall now, OpAllow ip now ∈ ops -> now <= l.

Definition last_use_le (ip : Addr) (l : Z) (m : ref) : Prop :=
  forall e, ref_map m !! ip = Some e -> lastSeen e <= l.

Lemma ref_run_op_last_use ip l m op u :
  times_from u [op] -> 0 <= u -> quiet_since ip l [op] -> last_use_le ip l m ->
  last_use_le ip l (ref_run_op m op).2.
Proof.
  intros Ht Hu Hq Hl. destruct op as [ip' now|now|]; cbn in *; [| |done].
  - destruct (AllowN _ now 1) as [ok lim]. intros e. cbn. rewrite lookup_insert_Some.
    intros [[-> <-]|[_ He]]; [|by apply Hl]. cbn. unfold int64. rewrite wrapS_id by lia.
    apply Hq. constructor.
  - intros e He. cbn in He. apply map_lookup_filter_Some_1_1 in He. by apply Hl.
Qed.

Lemma times_from_cons u op ops :
  times_from u (op :: ops) -> times_from u [op] /\ times_from (default u (op_time op)) ops /\ u <= default u (op_time op).
Proof. cbn. destruct (op_time op); cbn; [|done]. intros [? ?]. split_and!; done || lia. Qed.

(** A client that has let a token's worth of time pass is accepted. *)
Lemma ref_run_patient ip now l ops : forall u m,
  usable rps burst -> 0 <= ttl < 2 ^ 63 -> burst * token <= refill rps * ttl ->
  0 <= u -> times_from u (ops ++ [OpAllow ip now]) -> ref_wf rps burst ttl u m ->
  quiet_since ip l ops -> last_use_le ip l m -> l <= now -> token <= refill rps * (now - l) ->
  last (ref_run m (ops ++ [OpAllow ip now])).1 = Some (OutAllow true).
Proof.
  induction ops as [|op ops IH]; intros u m Hus Httl Hf Hu Ht Hwf Hq Hl Hln Htok.
  - cbn in Ht. cbn. assert (Hs : steady rps burst (ref_limiter m ip) now).
    { eapply ref_limiter_steady, ref_wf_later, Hwf; [done|lia|lia]. }
    pose proof (AllowN_accepts _ _ _ _ Hs) as Ha. destruct (AllowN _ now 1) as [ok lim]. cbn in *.
    rewrite Ha. do 2 f_equal. apply Z.leb_le. pose proof token_pos. destruct Hus as [Hr Hb].
    assert (token <= burst * token) by nia. unfold ref_limiter. destruct Hwf as [(-> & -> & _) Hm].
    destruct (ref_map m !! ip) as [e|] eqn:He; [|by rewrite level_new].
    destruct (Hm _ _ He) as [Hse Hlse]. rewrite (level_refill _ _ _ _ now Hse) by lia.
    pose proof (level_range _ _ _ _ Hse). specialize (Hl _ He).
    assert (0 <= refill rps) by (eapply refill_pos; split; eauto).
    assert (refill rps * (now - l) <= refill rps * (now - lastSeen e)) by (apply Z.mul_le_mono_nonneg_l; lia).
    lia.
  - cbn [app] in *. apply times_from_cons in Ht as (Ht1 & Ht2 & Hle). cbn [ref_run].
    assert (last_use_le ip l (ref_run_op m op).2) as Hl'.
    { apply (ref_run_op_last_use ip l m op u); try done.
      intros now' Hn%list_elem_of_singleton. subst op. apply Hq. constructor. }
    assert (ref_wf rps burst ttl (default u (op_time op)) (ref_run_op m op).2) as Hwf'.
    { apply (ref_wf_later _ _ _ u (default u (op_time op))) in Hwf; [|done].
      destruct op as [ip' t|t|]; cbn [op_time default] in *; [| |done].
      - pose proof (ref_allow_step rps burst ttl Hus t m ip' ltac:(cbn in Ht1; lia) Hwf) as Hstep.
        destruct (ref_run_op m (OpAllow ip' t)) as [? ?]. apply Hstep.
      - pose proof (ref_tick_step rps burst ttl Hus Httl Hf t m ltac:(cbn in Ht1; lia) Hwf) as Hstep.
        destruct (ref_run_op m (OpTick t)) as [? ?]. apply Hstep. }
    destruct (ref_run_op m op) as [out m1]. cbn in Hl', Hwf'.
    specialize (IH (default u (op_time op)) m1 Hus Httl Hf ltac:(lia) Ht2 Hwf' ltac:(intros n Hn; apply Hq; by constructor) Hl' Hln Htok).
    destruct (ref_run m1 (ops ++ _)) as [outs m2]. cbn in *. by destruct outs.
Qed.

(** C36. A client that waits for a token is served: if no request of an address
    came after time [l] and the rate adds a token between [l] and [now], the
    request at [now] is accepted, whatever the other clients did. *)
Theorem patient_client_accepted ip now l ops outs sl :
  usable rps burst -> 0 <= ttl < 2 ^ 63 -> burst * token <= refill rps * ttl ->
  times_from 0 (ops ++ [OpAllow ip now]) -> quiet_since ip l ops ->
  l <= now -> token <= refill rps * (now - l) ->
  sl_run (newShardedLimiter rps burst ttl) (ops ++ [OpAllow ip now]) = Some (outs, sl) ->
  last outs = Some (OutAllow true).
Proof.
  intros Hu Ht Hf Hops Hq Hln Htok Hrun. destruct (sl_run_ref _ _ _ Hrun) as [-> _].
  by eapply (ref_run_patient ip now l ops 0).
Qed.

(** Eviction can race with a request: between taking its entry and stamping
    it, a new client's entry has [lastSeen] zero, and a tick removes it.  With
    a burst of one, two requests at the same instant are then accepted. *)
Theorem evict_race_doubles_burst ip now sl id sl1 :
  usable rps 1 -> 0 <= ttl < now -> now < 2 ^ 63 -> sl = newShardedLimiter rps 1 ttl ->
  bucket_for sl ip = Some (id, sl1) ->
  exists sl2 sl3,
    consume (evictLoop_turn sl1 now) id now = Some (true, sl2) /\ allowAt sl2 ip now = Some (true, sl3).
Proof.
  intros Hu Ht Hn -> Hb. pose proof (new_implements rps 1 ttl) as Hi. unfold bucket_for in Hb.
  destruct (shard_lookup _ ip (proj1 Hi)) as [sh Hsh]. cbn in Hsh.
  apply lookup_replicate in Hsh as [-> Hlt].
  cbn [newShardedLimiter sl_shards] in Hb. rewrite lookup_replicate_2 in Hb by exact Hlt.
  cbn [option_bind mbind] in Hb. rewrite lookup_empty in Hb. cbn in Hb. injection Hb as <- <-.
  assert ((AllowN (NewLimiter rps 1) now 1).1 = true) as Hfresh.
  { rewrite (AllowN_accepts _ _ _ _ (steady_new _ _ now Hu)), level_new by done. apply Z.leb_le. lia. }
  destruct (AllowN (NewLimiter rps 1) now 1) as [ok lim] eqn:Ea. cbn in Hfresh. subst ok.
  unfold evictLoop_turn, consume, upd_buckets. cbn -[replicate]. rewrite Ea.
  do 2 eexists. split; [reflexivity|]. unfold allowAt, bucket_for. cbn -[replicate fmap].
  fold (shard_no ip). rewrite list_lookup_fmap, list_lookup_insert_eq by (cbn; exact Hlt).
  cbn -[replicate]. rewrite map_lookup_filter, lookup_insert_eq. cbn -[replicate].
  unfold idle. cbn -[replicate]. unfold int64. rewrite wrapS_id by lia.
  replace (0 <? now - ttl) with true by lia. cbn -[replicate].
  rewrite option_guard_False by done. unfold consume. cbn -[replicate fmap]. rewrite Ea. reflexivity.
Qed.

End RateProperties.

(** ** A concrete token bucket *)

Module TokenBucket.

Record bucket := mkBucket { tb_rate : spec_float; tb_burst : Z; tb_tokens : Z; tb_last : option Z }.

Definition tb_level (b : bucket) (t : Z) : Z :=
  match tb_last b with
  | None => tb_burst b * token
  | Some s => Z.min (tb_burst b * token) (tb_tokens b + refill (tb_rate b) * (t - s))
  end.

Definition tb_AllowN (b : bucket) (t n : Z) : bool * bucket :=
  let have := tb_level b t in
  let ok := n * token <=? have in
  (ok, mkBucket (tb_rate b) (tb_burst b) (if ok then have - n * token else have) (Some t)).

#[export] Instance lib : RateLib := {|
  RLimiter := bucket;
  NewLimiter := fun r b => mkBucket r b 0 None;
  AllowN := tb_AllowN |}.

Definition tb_steady (r : spec_float) (n : Z) (b : bucket) (t : Z) : Prop :=
  usable r n /\ tb_rate b = r /\ tb_burst b = n /\
  match tb_last b with None => True | Some s => 0 <= tb_tokens b <= n * token /\ s <= t end.

Lemma refill_nonneg r n : usable r n -> 0 <= refill r.
Proof. intros [(m & e & ->) _]. cbn. apply Z.mul_nonneg_nonneg; [lia|]. apply Z.pow_nonneg. lia. Qed.

Lemma usable_nonneg r n : usable r n -> 0 <= n * token.
Proof. intros [_ H]. pose proof token_pos. apply Z.mul_nonneg_nonneg; lia. Qed.

#[local] Opaque token.

Lemma tb_level_range r n b t : tb_steady r n b t -> 0 <= tb_level b t <= n * token.
Proof.
  intros (Hu & <- & <- & Hl). unfold tb_level. pose proof (usable_nonneg _ _ Hu). pose proof (refill_nonneg _ _ Hu).
  destruct (tb_last b) as [s|]; [|lia]. assert (0 <= refill (tb_rate b) * (t - s)) by (apply Z.mul_nonneg_nonneg; lia). lia.
Qed.

#[export] Instance spec : RateSpec.
Proof.
  refine {| steady := tb_steady; level := tb_level |}; cbn -[Z.mul tb_AllowN].
  - intros r b t Hu. by split_and!.
  - intros r b l s t (Hu & Hr & Hb & Hl) Hst. split_and!; try done. destruct (tb_last l); [|done]. lia.
  - intros r b l t Hs. pose proof (tb_level_range _ _ _ _ Hs) as Hl. destruct Hs as (Hu & Hr & Hb & _).
    unfold tb_AllowN. cbn [snd]. split_and!; try done. cbn. split; [|lia]. pose proof token_pos.
    destruct (Z.leb_spec (1 * token) (tb_level l t)); lia.
  - done.
  - apply tb_level_range.
  - intros r b l s t (Hu & <- & <- & Hl) Hst. unfold tb_level. pose proof (refill_nonneg _ _ Hu).
    assert (0 <= refill (tb_rate l) * (t - s)) by (apply Z.mul_nonneg_nonneg; lia).
    destruct (tb_last l) as [u|]; [|lia].
    assert (refill (tb_rate l) * (t - u) = refill (tb_rate l) * (s - u) + refill (tb_rate l) * (t - s)) by ring. lia.
  - intros r b l t _. unfold tb_AllowN. cbn [fst]. by rewrite Z.mul_1_l.
  - intros r b l t Hs. pose proof (tb_level_range _ _ _ _ Hs) as Hl. destruct Hs as (Hu & Hr & <- & _).
    unfold tb_AllowN. cbn [fst snd]. unfold tb_level at 1. cbn [tb_last tb_burst tb_tokens tb_rate].
    rewrite Z.sub_diag, Z.mul_0_r. pose proof token_pos. destruct (Z.leb_spec (1 * token) (tb_level l t)); lia.
Qed.

End TokenBucket.

Section Witnesses.
#[local] Existing Instance TokenBucket.lib.
#[local] Existing Instance TokenBucket.spec.

(** Two requests a second, bursts of three, idle after ten seconds. *)
Definition demo_rate : spec_float := S754_finite false 2 0.

Lemma demo_usable b : 0 < b -> usable demo_rate b.
Proof. split; [by do 2 eexists|done]. Qed.

Definition demo_ops : list sl_op :=
  [OpAllow (Addr4 1) 0; OpAllow (Addr4 1) 1; OpAllow (Addr4 2) 1; OpAllow (Addr4 1) 2; OpAllow (Addr4 1) 3;
   OpTick (60 * Second); OpCount].

Definition demo_outs : list sl_out :=
  [OutAllow true; OutAllow true; OutAllow true; OutAllow true; OutAllow false; OutTick; OutCount 0].

Definition end_of (ops : list sl_op) : shardedLimiter :=
  match sl_run (newShardedLimiter demo_rate 3 (10 * Second)) ops with
  | Some (_, sl) => sl
  | None => newShardedLimiter demo_rate 3 (10 * Second)
  end.


(** With an idle time too short to refill a bucket, which no validation rules
    out, eviction gives a client its burst back early: at two a second with
    bursts of three and one second of idle time, six requests in 1.2 seconds. *)
Definition pause : Z := 1200000000.
Definition hasty_ops : list sl_op :=
  (OpAllow (Addr4 1) <$> [0; 0; 0]) ++ [OpTick (pause - 1)] ++ (OpAllow (Addr4 1) <$> [pause; pause; pause]).

Lemma short_idle_ttl_overruns :
  match sl_run (newShardedLimiter demo_rate 3 Second) hasty_ops with
  | Some (outs, _) => 3 * token + refill demo_rate * pause < accepted (Addr4 1) 0 pause hasty_ops outs * token
  | None => False
  end.
Proof. vm_compute. reflexivity. Qed.

Lemma demo_quiet : quiet_since (Addr4 1) 3 demo_ops.
Proof. intros now Hin. unfold demo_ops in Hin. rewrite !elem_of_cons, elem_of_nil in Hin. naive_solver lia. Qed.

Lemma patient_client_accepted_witness :
  last (demo_outs ++ [OutAllow true]) = Some (OutAllow true).
Proof.
  apply (patient_client_accepted demo_rate 3 (10 * Second) (Addr4 1) (61 * Second) 3 demo_ops
           (demo_outs ++ [OutAllow true]) (end_of (demo_ops ++ [OpAllow (Addr4 1) (61 * Second)]))).
  - by apply demo_usable.
  - done.
  - by vm_compute.
  - cbn. unfold Second. lia.
  - exact demo_quiet.
  - done.
  - by vm_compute.
  - vm_compute. reflexivity.
Defined.

Lemma evict_race_doubles_burst_witness :
  exists id sl1 sl2 sl3, bucket_for (newShardedLimiter demo_rate 1 Second) (Addr4 1) = Some (id, sl1) /\
    consume (evictLoop_turn sl1 (2 * Second)) id (2 * Second) = Some (true, sl2) /\
    allowAt sl2 (Addr4 1) (2 * Second) = Some (true, sl3).
Proof.
  destruct (bucket_for (newShardedLimiter demo_rate 1 Second) (Addr4 1)) as [[id sl1]|] eqn:E.
  - destruct (evict_race_doubles_burst demo_rate Second (Addr4 1) (2 * Second) _ id sl1
      (demo_usable 1 ltac:(lia)) ltac:(done) ltac:(done) eq_refl E) as (sl2 & sl3 & H2 & H3).
    by exists id, sl1, sl2, sl3.
  - vm_compute in E. discriminate E.
Defined.

End Witnesses.
