(* ===== verification/RateStage.v ===== *)
(** * internal/middleware/ratelimit/middleware.go: the pipeline stage

    The default and per-route limiters behind one swappable state, its reload,
    and the handler.  Limiters live in a heap: a request that loaded the old
    state may still use its limiters after a reload. *)
From Corelib Require Import SpecFloat.
From S2P Require Import Prelude GoStrings Netip Config Http Middleware RateLimit.

Section Stage.
Context `{RateLib}.

Record limiterState := mkLimiterState {
  ls_enabled : bool;
  ls_def : option nat;                   (* nil when disabled *)
  ls_routes : list (string * nat)
}.

Record Limiter := mkLimiter { lm_heap : list shardedLimiter; lm_state : limiterState }.

(** [newShardedLimiter], in the heap. *)
Definition alloc (rule : RateLimitRule) (ttl : Z) (heap : list shardedLimiter) : nat * list shardedLimiter :=
  (length heap, heap ++ [newShardedLimiter (rl_RequestsPerSecond rule) (rl_Burst rule) ttl]).

Fixpoint build_routes (ttl : Z) (rs : list RouteRateLimit) (heap : list shardedLimiter)
    : list (string * nat) * list shardedLimiter :=
  match rs with
  | [] => ([], heap)
  | r :: rs' =>
      let '(id, heap) := alloc (rr_Rule r) ttl heap in
      let '(routes, heap) := build_routes ttl rs' heap in
      ((rr_PathPrefix r, id) :: routes, heap)
  end.

Definition buildState (cfg : RateLimitConfig) (heap : list shardedLimiter) : limiterState * list shardedLimiter :=
  if negb (rc_Enabled cfg) then (mkLimiterState false None [], heap)
  else
    let '(def, heap) := alloc (rc_Default cfg) (rc_IdleTTL cfg) heap in
    let '(routes, heap) := build_routes (rc_IdleTTL cfg) (rc_PerRoute cfg) heap in
    (mkLimiterState true (Some def) routes, heap).

Definition stop (s : limiterState) (heap : list shardedLimiter) : list shardedLimiter :=
  if negb (ls_enabled s) then heap
  else
    let heap := match ls_def s with Some d => alter RateLimit.Stop d heap | None => heap end in
    foldl (fun heap (r : string * nat) => alter RateLimit.Stop r.2 heap) heap (ls_routes s).

Definition count_of (heap : list shardedLimiter) (id : nat) : Z :=
  match heap !! id with Some sl => activeCount sl | None => 0 end.

Definition state_activeCount (s : limiterState) (heap : list shardedLimiter) : Z :=
  if negb (ls_enabled s) then 0
  else
    let n := match ls_def s with Some d => count_of heap d | None => 0 end in
    foldl (fun n (r : string * nat) => n + count_of heap r.2) n (ls_routes s).

Fixpoint first_route (path : string) (rs : list (string * nat)) (def : option nat) : option nat :=
  match rs with
  | [] => def
  | (prefix, id) :: rs' => if HasPrefix path prefix then Some id else first_route path rs' def
  end.

Definition limiterFor (s : limiterState) (path : string) : option nat :=
  first_route path (ls_routes s) (ls_def s).

Definition New (cfg : RateLimitConfig) : Limiter :=
  let '(s, heap) := buildState cfg [] in mkLimiter heap s.

(** The swap, then the old state's loops are told to stop. *)
Definition Reload (l : Limiter) (cfg : RateLimitConfig) : Limiter :=
  let '(next, heap) := buildState cfg (lm_heap l) in
  let old := lm_state l in
  mkLimiter (stop old heap) next.

Definition Stop (l : Limiter) : Limiter := mkLimiter (stop (lm_state l) (lm_heap l)) (lm_state l).

Definition ActiveBuckets (l : Limiter) : Z := state_activeCount (lm_state l) (lm_heap l).

(** [state.limiterFor(path).Allow(ip)]; [None] is a nil dereference. *)
Definition limiter_allow (l : Limiter) (path : string) (ip : Addr) (now : Z) : option (bool * Limiter) :=
  id ← limiterFor (lm_state l) path;
  sl ← lm_heap l !! id;
  '(ok, sl) ← allowAt sl ip now;
  Some (ok, mkLimiter (<[id := sl]> (lm_heap l)) (lm_state l)).

Section Handler.
Context {C : Type} `{!Part Limiter C}.

(** A refusal of a client the recorder knows. *)
Definition refuse (loc : nat) (rw : ResponseWriter) (w : World C) : World C :=
  WriteHeader rw StatusTooManyRequests (at_recorder loc (SetBlocked BlockReasonRateLimit) w).

Definition LimiterMiddleware : Middleware C := fun next rw r w =>
  let l : Limiter := part (comp w) in
  if negb (ls_enabled (lm_state l)) then next rw r w
  else
    match RecorderFrom r w with
    | None => WriteHeader rw StatusTooManyRequests w
    | Some (loc, rec) =>
        if negb (IsValid (clientIP rec)) then refuse loc rw w
        else
          match limiter_allow l (r_path r) (clientIP rec) (clock w) with
          | None => w                    (* never: [limiter_never_panics] *)
          | Some (ok, l) =>
              let w := upd_comp (set_part l) w in
              if negb ok then refuse loc rw w else next rw r w
          end
    end.

End Handler.
End Stage.

(** ** Invariant *)

Section Invariant.
Context `{RateLib}.

(** Every limiter of the heap implements some map. *)
Definition heap_wf (heap : list shardedLimiter) : Prop := Forall (fun sl => exists m, implements sl m) heap.

Definition state_ids (s : limiterState) : list nat := option_list (ls_def s) ++ (ls_routes s).*2.

(** The state's limiters exist, and the loops that run are exactly theirs. *)
Record limiter_wf (l : Limiter) : Prop := {
  lw_heap : heap_wf (lm_heap l);
  lw_ids : Forall (fun id => (id < length (lm_heap l))%nat) (state_ids (lm_state l));
  lw_enabled : ls_enabled (lm_state l) = bool_decide (is_Some (ls_def (lm_state l)));
  lw_routes : ls_def (lm_state l) = None -> ls_routes (lm_state l) = []
}.

(** The eviction loops that have not been told to stop. *)
Definition running (l : Limiter) (id : nat) : Prop :=
  exists sl, lm_heap l !! id = Some sl /\ sl_stopped sl = false.

Lemma heap_wf_app heap rule ttl : heap_wf heap -> heap_wf (alloc rule ttl heap).2.
Proof. intros Hh. apply Forall_app_2; [done|]. constructor; [|constructor]. eexists. apply new_implements. Qed.

Lemma heap_wf_stop_at heap id : heap_wf heap -> heap_wf (alter RateLimit.Stop id heap).
Proof.
  intros Hh. apply Forall_alter; [done|]. intros sl _ [m Hm]. exists m.
  destruct Hm as ([] & Hp & Hm). split; [by split|]. done.
Qed.

(** What [build_routes] allocates: a run of fresh limiters. *)
Lemma build_routes_spec ttl rs heap :
  let '(routes, heap') := build_routes ttl rs heap in
  routes.*1 = rr_PathPrefix <$> rs /\ routes.*2 = seq (length heap) (length rs) /\
  heap' = heap ++ ((fun r => newShardedLimiter (rl_RequestsPerSecond (rr_Rule r)) (rl_Burst (rr_Rule r)) ttl) <$> rs).
Proof.
  revert heap. induction rs as [|r rs IH]; intros heap; cbn; [by rewrite app_nil_r|].
  specialize (IH (alloc (rr_Rule r) ttl heap).2). destruct (build_routes ttl rs _) as [routes heap'].
  destruct IH as (H1 & H2 & H3). cbn. unfold alloc in *. cbn in *. rewrite length_app in H2. cbn in H2.
  rewrite Nat.add_1_r in H2. split_and!; [by f_equal|by f_equal|]. by rewrite H3, <- app_assoc.
Qed.

Definition rules_of (cfg : RateLimitConfig) : list RateLimitRule :=
  if rc_Enabled cfg then rc_Default cfg :: (rr_Rule <$> rc_PerRoute cfg) else [].

Definition limiter_of (ttl : Z) (rule : RateLimitRule) : shardedLimiter :=
  newShardedLimiter (rl_RequestsPerSecond rule) (rl_Burst rule) ttl.

Lemma buildState_spec cfg heap :
  let '(s, heap') := buildState cfg heap in
  heap' = heap ++ (limiter_of (rc_IdleTTL cfg) <$> rules_of cfg) /\
  state_ids s = seq (length heap) (length (rules_of cfg)) /\
  ls_enabled s = rc_Enabled cfg /\ ls_enabled s = bool_decide (is_Some (ls_def s)) /\
  (ls_def s = None -> ls_routes s = []) /\
  (rc_Enabled cfg = true -> (ls_routes s).*1 = rr_PathPrefix <$> rc_PerRoute cfg).
Proof.
  unfold buildState, rules_of. destruct (rc_Enabled cfg); cbn [negb].
  - cbn. pose proof (build_routes_spec (rc_IdleTTL cfg) (rc_PerRoute cfg) (alloc (rc_Default cfg) (rc_IdleTTL cfg) heap).2) as Hr.
    unfold alloc in *. cbn in Hr. destruct (build_routes _ _ _) as [routes heap']. destruct Hr as (H1 & H2 & H3).
    cbn. rewrite length_app in H2. cbn in H2. rewrite Nat.add_1_r in H2. split_and!; try done.
    + rewrite H3, <- app_assoc. cbn. by rewrite <- list_fmap_compose.
    + unfold state_ids. cbn. by rewrite H2, length_fmap.
  - cbn. by rewrite app_nil_r.
Qed.

Lemma stop_spec s heap :
  ls_enabled s = bool_decide (is_Some (ls_def s)) -> (ls_def s = None -> ls_routes s = []) ->
  stop s heap = foldl (fun heap id => alter RateLimit.Stop id heap) heap (state_ids s).
Proof.
  intros He Hr. unfold stop, state_ids. rewrite He. destruct (ls_def s) as [d|]; cbn.
  - generalize (alter RateLimit.Stop d heap). generalize (ls_routes s). clear.
    intros rs. induction rs as [|r rs IH]; intros heap; cbn; [done|]. apply IH.
  - by rewrite (Hr eq_refl).
Qed.

Lemma stops_lookup (ids : list nat) (heap : list shardedLimiter) (id : nat) :
  foldl (fun heap id => alter RateLimit.Stop id heap) heap ids !! id =
  if decide (id ∈ ids) then RateLimit.Stop <$> heap !! id else heap !! id.
Proof.
  revert heap. induction ids as [|i ids IH]; intros heap; cbn; [done|]. rewrite IH.
  destruct (decide (id = i)) as [->|Hne].
  - rewrite list_lookup_alter_eq, (decide_True (P := i ∈ i :: ids)) by constructor.
    case_decide; [|done]. by destruct (heap !! i).
  - rewrite list_lookup_alter_ne by done. apply decide_ext. set_solver.
Qed.

Lemma stops_length ids (heap : list shardedLimiter) :
  length (foldl (fun heap id => alter RateLimit.Stop id heap) heap ids) = length heap.
Proof. revert heap. induction ids as [|i ids IH]; intros heap; cbn; [done|]. by rewrite IH, length_alter. Qed.

Lemma stops_wf ids heap : heap_wf heap -> heap_wf (foldl (fun heap id => alter RateLimit.Stop id heap) heap ids).
Proof. revert heap. induction ids as [|i ids IH]; intros heap Hh; cbn; [done|]. by apply IH, heap_wf_stop_at. Qed.

Lemma limiters_wf ttl rules : heap_wf (limiter_of ttl <$> rules).
Proof. apply Forall_fmap, Forall_forall. intros r _. cbn. eexists. apply new_implements. Qed.

Lemma New_limiter_wf cfg : limiter_wf (New cfg) /\ forall id, running (New cfg) id <-> id ∈ state_ids (lm_state (New cfg)).
Proof.
  unfold New. pose proof (buildState_spec cfg []) as Hs. destruct (buildState cfg []) as [s heap].
  destruct Hs as (-> & Hids & _ & He & Hr & _). cbn [app length] in *. split.
  - split; cbn; [apply limiters_wf| |done|done]. rewrite Hids, length_fmap.
    apply Forall_forall. intros id ?%elem_of_seq. cbn in *. lia.
  - intros id. unfold running. cbn. rewrite Hids. setoid_rewrite list_lookup_fmap. split.
    + intros (sl & Hsl & _). apply elem_of_seq. cbn. split; [lia|].
      apply fmap_Some in Hsl as (r & Hr' & _). by apply lookup_lt_Some in Hr'.
    + intros [_ Hid]%elem_of_seq. destruct (lookup_lt_is_Some_2 (rules_of cfg) id Hid) as [r Hr'].
      rewrite Hr'. by eexists.
Qed.

Lemma Reload_wf l cfg : limiter_wf l -> limiter_wf (Reload l cfg).
Proof.
  intros [Hh Hi He Hr]. unfold Reload.
  pose proof (buildState_spec cfg (lm_heap l)) as Hs. destruct (buildState cfg (lm_heap l)) as [s heap].
  destruct Hs as (-> & Hids & _ & He' & Hr' & _). rewrite (stop_spec _ _ He Hr).
  split; cbn; [apply stops_wf, Forall_app_2; [done|apply limiters_wf]| |done|done].
  rewrite stops_length, Hids, length_app, length_fmap. apply Forall_forall. intros id ?%elem_of_seq. lia.
Qed.

Lemma Reload_limiter_wf l cfg :
  limiter_wf l -> (forall id, running l id -> id ∈ state_ids (lm_state l)) ->
  limiter_wf (Reload l cfg) /\ forall id, running (Reload l cfg) id <-> id ∈ state_ids (lm_state (Reload l cfg)).
Proof.
  intros Hwf Hrun. split; [by apply Reload_wf|]. destruct Hwf as [Hh Hi He Hr]. unfold Reload.
  pose proof (buildState_spec cfg (lm_heap l)) as Hs. destruct (buildState cfg (lm_heap l)) as [s heap].
  destruct Hs as (-> & Hids & _ & He' & Hr' & _).
  rewrite (stop_spec _ _ He Hr). intros id. unfold running. cbn. rewrite stops_lookup, Hids.
  rewrite Forall_forall in Hi. destruct (decide (id < length (lm_heap l))%nat) as [Hold|Hnew].
  - rewrite lookup_app_l by done. split; [|intros ?%elem_of_seq; lia]. intros (sl & Hsl & Hns). exfalso.
    case_decide as Hd; [destruct (lm_heap l !! id); by simplify_eq/=|]. apply Hd, Hrun. by exists sl.
  - rewrite decide_False by (intros Hin; specialize (Hi _ Hin); lia).
    rewrite lookup_app_r, list_lookup_fmap by lia. split.
    + intros (sl & Hsl & _). apply fmap_Some in Hsl as (r & Hl & _). apply lookup_lt_Some in Hl.
      apply elem_of_seq. lia.
    + intros Hid%elem_of_seq. destruct (lookup_lt_is_Some_2 (rules_of cfg) (id - length (lm_heap l)) ltac:(lia)) as [r Hl].
      rewrite Hl. by eexists.
Qed.

End Invariant.

(** ** Properties *)

Section Properties.
Context `{RateLib}.

Definition reloads (cfg : RateLimitConfig) (cfgs : list RateLimitConfig) : Limiter :=
  foldl Reload (New cfg) cfgs.

Lemma reloads_wf cfg cfgs :
  limiter_wf (reloads cfg cfgs) /\
  forall id, running (reloads cfg cfgs) id <-> id ∈ state_ids (lm_state (reloads cfg cfgs)).
Proof.
  unfold reloads. induction cfgs as [|c cfgs IH] using rev_ind; [apply New_limiter_wf|].
  rewrite foldl_app. cbn. destruct IH as [Hwf Hrun]. apply Reload_limiter_wf; [done|]. intros id. apply Hrun.
Qed.

Lemma Stop_stops l : limiter_wf l -> (forall id, running l id -> id ∈ state_ids (lm_state l)) ->
  forall id, ~ running (Stop l) id.
Proof.
  intros [Hh Hi He Hr] Hrun id (sl & Hsl & Hs). unfold Stop in Hsl. cbn in Hsl.
  rewrite (stop_spec _ _ He Hr), stops_lookup in Hsl. case_decide as Hd.
  - destruct (lm_heap l !! id); by simplify_eq/=.
  - apply Hd, Hrun. by exists sl.
Qed.

(** However often the configuration is reloaded, the eviction loops that
    run are exactly those of the limiters in use: none of an earlier state is
    left behind, none of the current ones is stopped, and [Stop] ends them all. *)
Theorem reload_leaks_no_loop cfg cfgs id :
  (running (reloads cfg cfgs) id <-> id ∈ state_ids (lm_state (reloads cfg cfgs))) /\
  ~ running (Stop (reloads cfg cfgs)) id.
Proof.
  destruct (reloads_wf cfg cfgs) as [Hwf Hrun]. split; [apply Hrun|].
  apply Stop_stops; [done|]. intros i. apply Hrun.
Qed.

(** The loops that run are exactly those of the limiters in use. *)
Definition loops_ok (l : Limiter) : Prop :=
  limiter_wf l /\ forall id, running l id <-> id ∈ state_ids (lm_state l).

Lemma New_loops_ok cfg : loops_ok (New cfg).
Proof. apply New_limiter_wf. Qed.

Lemma Reload_loops_ok l cfg : loops_ok l -> loops_ok (Reload l cfg).
Proof. intros [Hwf Hrun]. apply Reload_limiter_wf; [done|]. intros id. apply Hrun. Qed.

Lemma Stop_ends_loops l : loops_ok l -> forall id, ~ running (Stop l) id.
Proof. intros [Hwf Hrun]. apply Stop_stops; [done|]. intros id. apply Hrun. Qed.

(** Taking a token starts and stops no loop. *)
Lemma limiter_allow_loops_ok l path ip now ok l' :
  limiter_allow l path ip now = Some (ok, l') -> limiter_wf l' -> loops_ok l -> loops_ok l'.
Proof.
  unfold limiter_allow. intros Ha Hwf [_ Hrun]. split; [done|].
  destruct (limiterFor _ path) as [i|]; [|done]. cbn in Ha.
  destruct (lm_heap l !! i) as [sl|] eqn:Hsl; [|done]. cbn in Ha.
  destruct (allowAt sl ip now) as [[ok' sl']|] eqn:Hal; [|done]. injection Ha as _ <-.
  apply allowAt_stopped in Hal. intros id. rewrite <- Hrun. unfold running. cbn.
  destruct (decide (i = id)) as [<-|Hne].
  - rewrite list_lookup_insert_eq by (by eapply lookup_lt_Some). rewrite Hsl.
    split; [intros (? & [= <-] & ?); exists sl; split; [done|congruence]|intros (? & [= <-] & ?); exists sl'; split; [done|congruence]].
  - by rewrite list_lookup_insert_ne.
Qed.

(** The rule in force for a path: the first route whose prefix it has. *)
Definition rule_for (cfg : RateLimitConfig) (path : string) : RateLimitRule :=
  match find (fun r => HasPrefix path (rr_PathPrefix r)) (rc_PerRoute cfg) with
  | Some r => rr_Rule r
  | None => rc_Default cfg
  end.

Lemma first_route_spec (heap : list shardedLimiter) ttl path dflt rs : forall (routes : list (string * nat)) def,
  routes.*1 = rr_PathPrefix <$> rs ->
  Forall2 (fun id rule => heap !! id = Some (limiter_of ttl rule)) routes.*2 (rr_Rule <$> rs) ->
  heap !! def = Some (limiter_of ttl dflt) ->
  exists id, first_route path routes (Some def) = Some id /\
    heap !! id = Some (limiter_of ttl
      match find (fun r => HasPrefix path (rr_PathPrefix r)) rs with Some r => rr_Rule r | None => dflt end).
Proof.
  induction rs as [|r rs IH]; intros routes def H1 H2 Hd.
  { destruct routes; [|done]. by exists def. }
  destruct routes as [|[p id] routes]; [done|]. cbn in H1, H2. injection H1 as -> H1.
  apply Forall2_cons in H2 as [Hid H2]. cbn.
  destruct (HasPrefix path (rr_PathPrefix r)); [by exists id|]. by apply IH.
Qed.

Lemma buildState_rules cfg heap path :
  rc_Enabled cfg = true ->
  let '(s, heap') := buildState cfg heap in
  exists id, limiterFor s path = Some id /\
    heap' !! id = Some (limiter_of (rc_IdleTTL cfg) (rule_for cfg path)).
Proof.
  intros Hen. pose proof (buildState_spec cfg heap) as Hs.
  destruct (buildState cfg heap) as [s heap']. destruct Hs as (Hheap & Hids & He & He' & _ & Hp).
  rewrite Hen in *. specialize (Hp eq_refl). rewrite He in He'. symmetry in He'. apply bool_decide_eq_true in He' as [d Hd].
  unfold rules_of in *. rewrite Hen in *. unfold state_ids in Hids. rewrite Hd in Hids. cbn in Hids.
  injection Hids as Hd0 Hids.
  assert (forall i rule, (rc_Default cfg :: (rr_Rule <$> rc_PerRoute cfg)) !! i = Some rule ->
            heap' !! (length heap + i)%nat = Some (limiter_of (rc_IdleTTL cfg) rule)) as Hl.
  { intros i rule Hi. rewrite Hheap, lookup_app_r, Nat.add_comm, Nat.add_sub, list_lookup_fmap, Hi by lia. done. }
  unfold limiterFor. rewrite Hd. apply (first_route_spec _ _ _ (rc_Default cfg) (rc_PerRoute cfg)); [done| |].
  - rewrite Hids. apply Forall2_lookup. intros i. destruct ((rr_Rule <$> rc_PerRoute cfg) !! i) as [rule|] eqn:Hi.
    + rewrite lookup_seq_lt by (apply lookup_lt_Some in Hi; done). constructor.
      specialize (Hl (S i) rule Hi). by replace (S (length heap) + i)%nat with (length heap + S i)%nat by lia.
    + rewrite lookup_seq_ge by (by apply lookup_ge_None). constructor.
  - rewrite Hd0. specialize (Hl 0%nat _ eq_refl). by rewrite Nat.add_0_r in Hl.
Qed.

(** C35. Once a limiter is built from a configuration, or reloaded with it, a
    path is limited by the first route whose prefix it has, with that route's
    rate and burst, and by the default rule when there is none; the buckets
    start empty. *)
Theorem first_matching_route_limits cfg l path :
  rc_Enabled cfg = true -> l = New cfg \/ (exists l0, limiter_wf l0 /\ l = Reload l0 cfg) ->
  exists id, limiterFor (lm_state l) path = Some id /\
    lm_heap l !! id = Some (limiter_of (rc_IdleTTL cfg) (rule_for cfg path)).
Proof.
  intros Hen [->|(l0 & [Hh Hi He Hr] & ->)].
  - unfold New. pose proof (buildState_rules cfg [] path Hen) as Hb. by destruct (buildState cfg []).
  - unfold Reload. pose proof (buildState_rules cfg (lm_heap l0) path Hen) as Hb.
    pose proof (buildState_spec cfg (lm_heap l0)) as Hs.
    destruct (buildState cfg (lm_heap l0)) as [s heap]. destruct Hb as (id & Hf & Hid). exists id. split; [done|].
    cbn. rewrite (stop_spec _ _ He Hr), stops_lookup, decide_False; [done|]. intros Hin.
    rewrite Forall_forall in Hi. specialize (Hi _ Hin). destruct Hs as (_ & Hids & _ & _ & Hr' & _).
    assert (id ∈ state_ids s) as Hnew.
    { unfold limiterFor in Hf. unfold state_ids. clear -Hf. induction (ls_routes s) as [|[p i] rs IH]; cbn in Hf |- *.
      - rewrite Hf. cbn. set_solver.
      - destruct (HasPrefix path p); [injection Hf as ->; set_solver|]. specialize (IH Hf). set_solver. }
    rewrite Hids in Hnew. apply elem_of_seq in Hnew. lia.
Qed.

(** A request's turn at the limiter of its path. *)
Definition turn (l : Limiter) (path : string) (ip : Addr) (now : Z) (ok : bool) (l' : Limiter) : Prop :=
  exists id sl m sl',
    limiterFor (lm_state l) path = Some id /\ lm_heap l !! id = Some sl /\ implements sl m /\
    let '(ok', lim) := AllowN (ref_limiter m ip) now 1 in
    ok = ok' /\ implements sl' (upd_ref <[ip := mkBucketEntry lim (int64 now)]> m) /\
    l' = mkLimiter (<[id := sl']> (lm_heap l)) (lm_state l).

Lemma limiter_allow_spec l path ip now :
  limiter_wf l -> ls_enabled (lm_state l) = true ->
  exists ok l', limiter_allow l path ip now = Some (ok, l') /\ turn l path ip now ok l' /\ limiter_wf l'.
Proof.
  intros [Hh Hi He Hr] Hen. rewrite Hen in He. symmetry in He. apply bool_decide_eq_true in He as [d Hd].
  assert (exists id, limiterFor (lm_state l) path = Some id /\ id ∈ state_ids (lm_state l)) as (id & Hf & Hin).
  { unfold limiterFor, state_ids. rewrite Hd. clear. induction (ls_routes (lm_state l)) as [|[p i] rs IH]; cbn.
    - exists d. split; [done|set_solver].
    - destruct (HasPrefix path p); [exists i; split; [done|set_solver]|].
      destruct IH as (id & ? & ?). exists id. split; [done|set_solver]. }
  rewrite Forall_forall in Hi. destruct (lookup_lt_is_Some_2 _ _ (Hi _ Hin)) as [sl Hsl].
  destruct (Forall_lookup_1 _ _ _ _ Hh Hsl) as [m Hm]. unfold limiter_allow. rewrite Hf. cbn. rewrite Hsl. cbn.
  pose proof (allowAt_spec sl m ip now Hm) as Ha. destruct (AllowN (ref_limiter m ip) now 1) as [ok lim] eqn:Ea.
  destruct Ha as (sl' & -> & Hm'). cbn. exists ok. eexists. split; [done|]. split.
  - exists id, sl, m, sl'. by rewrite Ea.
  - split; cbn; [by apply Forall_insert; eauto| |by rewrite Hen, Hd|done].
    rewrite length_insert. by apply Forall_forall.
Qed.

(** The rate-limit stage: a disabled limiter passes every request on; an
    enabled one takes a token from the bucket of the resolved client address at
    the limiter of the path, passes the request on exactly when there was one,
    and otherwise, as for a client whose address is unknown, records
    rate-limit and answers 429 without running the rest of the chain. *)
Theorem rate_stage_spec {C} `{!Part Limiter C} (next : Handler C) rw r (w : World C) :
  limiter_wf (part (comp w)) ->
  let l : Limiter := part (comp w) in
  (ls_enabled (lm_state l) = false /\ LimiterMiddleware next rw r w = next rw r w) \/
  (ls_enabled (lm_state l) = true /\
   match RecorderFrom r w with
   | None => LimiterMiddleware next rw r w = WriteHeader rw StatusTooManyRequests w
   | Some (loc, rec) =>
       (IsValid (clientIP rec) = false /\ LimiterMiddleware next rw r w = refuse loc rw w) \/
       exists ok l', IsValid (clientIP rec) = true /\
         turn l (r_path r) (clientIP rec) (clock w) ok l' /\ limiter_wf l' /\
         LimiterMiddleware next rw r w =
           (if ok then next rw r (upd_comp (set_part l') w)
            else refuse loc rw (upd_comp (set_part l') w))
   end).
Proof.
  intros Hwf l. unfold LimiterMiddleware. fold l. destruct (ls_enabled (lm_state l)) eqn:Hen; cbn [negb].
  2: { by left. }
  right. split; [done|]. destruct (RecorderFrom r w) as [[loc rec]|]; [|done].
  destruct (IsValid (clientIP rec)); cbn [negb]; [right|by left].
  destruct (limiter_allow_spec l (r_path r) (clientIP rec) (clock w) Hwf Hen) as (ok & l' & -> & Ht & Hwf').
  exists ok, l'. split_and!; try done. by destruct ok.
Qed.

End Properties.

(** ** Concrete inputs *)

Section Witnesses.
#[local] Existing Instance TokenBucket.lib.

Definition demo_cfg : RateLimitConfig :=
  mkRateLimitConfig true (mkRateLimitRule (S754_finite false 2 0) 1)
    [mkRouteRateLimit "/login" (mkRateLimitRule (S754_finite false 1 0) 5)] (10 * Minute).

Lemma first_matching_route_limits_witness :
  exists id, limiterFor (lm_state (New demo_cfg)) "/login/x" = Some id /\
    lm_heap (New demo_cfg) !! id = Some (limiter_of (10 * Minute) (mkRateLimitRule (S754_finite false 1 0) 5)).
Proof. apply (first_matching_route_limits demo_cfg (New demo_cfg) "/login/x"); [reflexivity|by left]. Defined.

Definition demo_request : Request :=
  mkRequest "GET" "/" "" "" "192.0.2.1:5000" ∅ NilBody 0 None (Some 0%nat).
Definition demo_world (l : Limiter) : World Limiter :=
  mkWorld [SetClientIP (Addr4 3221225985) (NewRecorder "id")] [] (fresh_conn true) 5 (fun _ => 0) l.
Definition demo_next : Handler Limiter := fun rw _ w => WriteHeader rw StatusOK w.

(** The first request of a client is served, a second at the same instant is
    refused. *)
Lemma rate_stage_spec_witness :
  let w1 := LimiterMiddleware demo_next ConnWriter demo_request (demo_world (New demo_cfg)) in
  let w2 := LimiterMiddleware demo_next ConnWriter demo_request (demo_world (comp w1)) in
  c_status (conn w1) = 200 /\ c_status (conn w2) = 429 /\
  (blockReason <$> head (recorders w2)) = Some BlockReasonRateLimit /\
  (ls_enabled (lm_state (New demo_cfg)) = true).
Proof.
  split; [vm_compute; reflexivity|]. split; [vm_compute; reflexivity|]. split; [vm_compute; reflexivity|].
  destruct (rate_stage_spec demo_next ConnWriter demo_request (demo_world (New demo_cfg)))
    as [[Hd _]|[Hd _]]; [apply New_limiter_wf|cbn in Hd; discriminate Hd|exact Hd].
Defined.

End Witnesses.
