(* ===== verification/Waf.v ===== *)
(** * internal/middleware/waf: the rule engine

    rule.go, ruleset.go and engine.go: loading and grouping the rules, the
    per-rule overrides, the inspection of a request and the pipeline stage.
    The regular expressions, the YAML decoder and the order in which Go ranges
    over a map are parameters. *)
From stdpp Require Import pretty.
From S2P Require Import Prelude GoStrings Netip Atomics Config Http Middleware.

(** ** Parameters *)

Class RegexpLib := {
  Regexp : Type;
  regexp_Compile : string -> option Regexp;
  MatchString : Regexp -> string -> bool
}.

(** [range] over a map visits each entry once, in some order. *)
Class MapOrder := {
  map_order {A : Type} (m : gmap string A) : list (string * A);
  map_order_perm {A : Type} (m : gmap string A) : map_order m ≡ₚ map_to_list m
}.

(** ** rule.go *)

Section Waf.
Context `{RegexpLib}.

Record Rule := mkRule {
  ru_ID : Z;
  ru_Category : string;
  ru_Severity : string;
  ru_Action : string;
  ru_Description : string;
  ru_Targets : list string;
  ru_Pattern : string;
  ru_compiled : option Regexp            (* nil until the rule is loaded *)
}.

Definition with_compiled (r : Rule) (re : Regexp) : Rule :=
  mkRule (ru_ID r) (ru_Category r) (ru_Severity r) (ru_Action r) (ru_Description r)
    (ru_Targets r) (ru_Pattern r) (Some re).

(** ** ruleset.go *)

Record RuleSet := mkRuleSet {
  rs_all : list Rule;
  rs_lineRules : list Rule;
  rs_pathRules : list Rule;
  rs_queryRules : list Rule;
  rs_bodyRules : list Rule;
  rs_headerRules : gmap string (list Rule)   (* canonical name, "" = all headers *)
}.

Definition ActionBlock : string := "block".
Definition ActionLog : string := "log".

Definition append_header (name : string) (r : Rule) (m : gmap string (list Rule)) : gmap string (list Rule) :=
  <[name := default [] (m !! name) ++ [r]]> m.

(** The body of the loop over [r.Targets]. *)
Definition add_target (r : Rule) (t : string) (rs : RuleSet) : result RuleSet :=
  let '(mkRuleSet all line path query body headers) := rs in
  if String.eqb t "line" then Ok (mkRuleSet all (line ++ [r]) path query body headers)
  else if String.eqb t "path" then Ok (mkRuleSet all line (path ++ [r]) query body headers)
  else if String.eqb t "query" then Ok (mkRuleSet all line path (query ++ [r]) body headers)
  else if String.eqb t "body" then Ok (mkRuleSet all line path query (body ++ [r]) headers)
  else if String.eqb t "headers" then Ok (mkRuleSet all line path query body (append_header "" r headers))
  else if HasPrefix t "headers:" then
    Ok (mkRuleSet all line path query body
          (append_header (CanonicalHeaderKey (TrimPrefix t "headers:")) r headers))
  else Err (Errorf "waf: rule %d: unknown target %q" [pretty (ru_ID r); t]).

Fixpoint add_targets (r : Rule) (ts : list string) (rs : RuleSet) : result RuleSet :=
  match ts with
  | [] => Ok rs
  | t :: ts' => let! rs := add_target r t rs in add_targets r ts' rs
  end.

Definition append_rule (r : Rule) (rs : RuleSet) : RuleSet :=
  mkRuleSet (rs_all rs ++ [r]) (rs_lineRules rs) (rs_pathRules rs) (rs_queryRules rs)
    (rs_bodyRules rs) (rs_headerRules rs).

(** The body of the loop over [rf.Rules]. *)
Definition load_rule (r : Rule) (seen : gset Z) (rs : RuleSet) : result RuleSet :=
  let! _ := fail_if (ru_ID r =? 0) "waf: rule missing id" [] in
  let! _ := fail_if (bool_decide (ru_ID r ∈ seen)) "waf: duplicate rule id %d" [pretty (ru_ID r)] in
  let! _ := fail_if (negb (String.eqb (ru_Action r) ActionBlock) && negb (String.eqb (ru_Action r) ActionLog))
              "waf: rule %d: action must be %q or %q, got %q"
              [pretty (ru_ID r); ActionBlock; ActionLog; ru_Action r] in
  let! _ := fail_if (match ru_Targets r with [] => true | _ => false end)
              "waf: rule %d: at least one target is required" [pretty (ru_ID r)] in
  let! re := wrap_err "waf: rule %d: invalid pattern: %w" [pretty (ru_ID r)]
               (of_lib "regexp.Compile" (regexp_Compile (ru_Pattern r))) in
  let r := with_compiled r re in
  add_targets r (ru_Targets r) (append_rule r rs).

Fixpoint load_rules (rules : list Rule) (seen : gset Z) (rs : RuleSet) : result RuleSet :=
  match rules with
  | [] => Ok rs
  | r :: rules' =>
      let! rs := load_rule r seen rs in
      load_rules rules' ({[ru_ID r]} ∪ seen) rs
  end.

Definition empty_RuleSet : RuleSet := mkRuleSet [] [] [] [] [] ∅.

(** The rules a YAML document decodes to, not compiled yet. *)
Class RulesYaml := { yaml_DecodeRules : string -> option (list Rule) }.

Definition LoadRuleSet `{Files} `{!RulesYaml} (path : string) : result RuleSet :=
  let! f := wrap_err "waf: open rules file: %w" [] (of_lib "os.Open" (os_Open path)) in
  let! rules := wrap_err "waf: parse rules file: %w" [] (of_lib "yaml.Decoder.Decode" (yaml_DecodeRules f)) in
  load_rules rules ∅ empty_RuleSet.

Definition RuleSet_RuleCount (rs : RuleSet) : Z := Z.of_nat (length (rs_all rs)).

(** ** engine.go: state and rules *)

Record override := mkOverride { ov_enabled : bool; ov_action : string }.

Record Engine := mkEngine {
  en_ruleSet : RuleSet;
  en_overrides : gmap Z override;
  en_maxBodyBytes : Z;
  en_defaultAction : string
}.

Definition with_overrides (e : Engine) (m : gmap Z override) : Engine :=
  mkEngine (en_ruleSet e) m (en_maxBodyBytes e) (en_defaultAction e).

Definition NewEngine `{Files} `{!RulesYaml} (cfg : WAFConfig) : result Engine :=
  let! rs := LoadRuleSet (wc_RulesFile cfg) in
  Ok (mkEngine rs ∅ (bi_MaxBytes (wc_BodyInspection cfg)) (wc_DefaultAction cfg)).

Definition EngineReload `{Files} `{!RulesYaml} (e : Engine) (path : string) : result unit * Engine :=
  match LoadRuleSet path with
  | Err err => (Err err, e)
  | Ok rs => (Ok tt, mkEngine rs (en_overrides e) (en_maxBodyBytes e) (en_defaultAction e))
  end.

Definition RuleCount (e : Engine) : Z := RuleSet_RuleCount (en_ruleSet e).

Record RuleInfo := mkRuleInfo {
  ri_ID : Z; ri_Category : string; ri_Severity : string; ri_Description : string;
  ri_Targets : list string; ri_Action : string; ri_Enabled : bool; ri_Overridden : bool }.

Definition rule_info (overrides : gmap Z override) (r : Rule) : RuleInfo :=
  match overrides !! ru_ID r with
  | Some o =>
      mkRuleInfo (ru_ID r) (ru_Category r) (ru_Severity r) (ru_Description r) (ru_Targets r)
        (if negb (String.eqb (ov_action o) "") then ov_action o else ru_Action r) (ov_enabled o) true
  | None =>
      mkRuleInfo (ru_ID r) (ru_Category r) (ru_Severity r) (ru_Description r) (ru_Targets r)
        (ru_Action r) true false
  end.

Definition ListRules (e : Engine) : list RuleInfo := rule_info (en_overrides e) <$> rs_all (en_ruleSet e).

(** ** Overrides: compare-and-swap loops on the map's pointer *)

Definition set_override_body (id : Z) (enabled : bool) (action : string) (old : gmap Z override)
    : round (gmap Z override) unit :=
  Swap (<[id := mkOverride enabled action]> old) tt.

Definition clear_override_body (id : Z) (old : gmap Z override) : round (gmap Z override) unit :=
  match old !! id with
  | None => Return tt
  | Some _ => Swap (filter (fun kv => kv.1 <> id) old) tt
  end.

Definition known_rule (e : Engine) (id : Z) : bool :=
  existsb (fun r => ru_ID r =? id) (rs_all (en_ruleSet e)).

Definition SetOverride (e : Engine) (id : Z) (enabled : bool) (action : string) : result unit * Engine :=
  if negb (String.eqb action "") && negb (String.eqb action ActionBlock) && negb (String.eqb action ActionLog) then
    (Err (Errorf "waf: invalid action %q" [action]), e)
  else if negb (known_rule e id) then
    (Err (Errorf "waf: unknown rule id %d" [pretty id]), e)
  else
    let '(_, m) := run_body (set_override_body id enabled action) (en_overrides e) in
    (Ok tt, with_overrides e m).

Definition ClearOverride (e : Engine) (id : Z) : Engine :=
  with_overrides e (run_body (clear_override_body id) (en_overrides e)).2.

(** [Override] and [override] have the same two fields. *)
Definition Overrides (e : Engine) : gmap Z override := en_overrides e.

(** ** engine.go: inspection *)

(** The action a rule has once its override and the default action apply; none
    when it is disabled. *)
Definition effective_action (e : Engine) (r : Rule) : option string :=
  let action :=
    match en_overrides e !! ru_ID r with
    | Some o =>
        if negb (ov_enabled o) then None
        else Some (if negb (String.eqb (ov_action o) "") then ov_action o else ru_Action r)
    | None => Some (ru_Action r)
    end in
  if String.eqb (en_defaultAction e) "log-only" then (fun _ => ActionLog) <$> action else action.

(** [r.compiled.MatchString(target)]; a loaded rule is compiled. *)
Definition rule_matches (r : Rule) (target : string) : bool :=
  match ru_compiled r with Some re => MatchString re target | None => false end.

Fixpoint check (e : Engine) (rules : list Rule) (target : string) : option Rule :=
  match rules with
  | [] => None
  | r :: rules' =>
      match effective_action e r with
      | None => check e rules' target
      | Some action =>
          if negb (rule_matches r target) then check e rules' target
          else if String.eqb action ActionBlock then Some r
          else check e rules' target
      end
  end.

(** The loops over header values and over headers. *)
Fixpoint check_values (e : Engine) (rules : list Rule) (values : list string) : option Rule :=
  match values with
  | [] => None
  | v :: values' =>
      match check e rules v with Some m => Some m | None => check_values e rules values' end
  end.

Fixpoint check_all_headers (e : Engine) (rules : list Rule) (headers : list (string * list string)) : option Rule :=
  match headers with
  | [] => None
  | (_, values) :: headers' =>
      match check_values e rules values with
      | Some m => Some m
      | None => check_all_headers e rules headers'
      end
  end.

Section Inspect.
Context `{MapOrder}.

Fixpoint check_headers (e : Engine) (groups : list (string * list Rule)) (r : Request) : option Rule :=
  match groups with
  | [] => None
  | (name, rules) :: groups' =>
      match (if String.eqb name "" then check_all_headers e rules (map_order (r_header r))
             else check_values e rules (Header_Values (r_header r) name)) with
      | Some m => Some m
      | None => check_headers e groups' r
      end
  end.

(** Reads the prefix to inspect and puts it back in front of what is left. *)
Definition captureBodyPrefix (e : Engine) (r : Request) (rd : Reader) : result bytes * Request :=
  match read_limit rd (en_maxBodyBytes e) with
  | (Err err, rest) => (Err (Errorw "waf: read request body: %w" [] err), with_body r (BodyReader rest))
  | (Ok prefix, rest) => (Ok prefix, with_body r (BodyReader (multi_reader prefix rest)))
  end.

Definition decoded_path (r : Request) : string := default (r_path r) (PathUnescape (r_path r)).
Definition decoded_query (r : Request) : string := default (r_rawquery r) (QueryUnescape (r_rawquery r)).

Definition request_line (r : Request) : string :=
  let line := r_method r +:+ " " +:+ decoded_path r in
  if negb (String.eqb (decoded_query r) "") then line +:+ "?" +:+ decoded_query r else line.

(** The blocking rule found in the line, path, query and headers, if any. *)
Definition check_head (e : Engine) (r : Request) : option Rule :=
  let rs := en_ruleSet e in
  match check e (rs_lineRules rs) (request_line r) with
  | Some m => Some m
  | None =>
  match check e (rs_pathRules rs) (decoded_path r) with
  | Some m => Some m
  | None =>
  match (if negb (String.eqb (decoded_query r) "") then check e (rs_queryRules rs) (decoded_query r) else None) with
  | Some m => Some m
  | None => check_headers e (map_order (rs_headerRules rs)) r
  end end end.

Definition Inspect (e : Engine) (r : Request) : result (option Rule) * Request :=
  match check_head e r with
  | Some m => (Ok (Some m), r)
  | None =>
      match rs_bodyRules (en_ruleSet e), r_body r with
      | _ :: _, BodyReader rd =>
          match captureBodyPrefix e r rd with
          | (Err err, r) => (Err err, r)
          | (Ok prefix, r) => (Ok (check e (rs_bodyRules (en_ruleSet e)) (of_bytes prefix)), r)
          end
      | _, _ => (Ok None, r)
      end
  end.

(** ** The pipeline stage *)

Definition WafMiddleware {C : Type} `{!Part Engine C} : Middleware C := fun next rw r w =>
  match Inspect (part (comp w)) r with
  | (Err _, r) => next rw r w
  | (Ok (Some rule), r) =>
      let w := match RecorderFrom r w with
               | Some (loc, _) =>
                   at_recorder loc (SetWAFMatch (ru_ID rule) (ru_Category rule))
                     (at_recorder loc (SetBlocked BlockReasonWAF) w)
               | None => w
               end in
      WriteHeader rw StatusForbidden w
  | (Ok None, r) => next rw r w
  end.

End Inspect.
End Waf.
