(* ===== verification/WafProofs.v ===== *)
(** * The rule engine: what loading, inspecting and overriding promise

    A declarative reading of the rules ([violates]) against which [Inspect] is
    exact, whatever order Go ranges over its maps in; the loader as a validator;
    the body handed on intact; overrides under concurrent edits. *)
From stdpp Require Import relations.
From S2P Require Import Prelude GoStrings Netip Atomics Config Http Middleware Waf.

(** ** Specification *)

Section Spec.
Context `{RegexpLib}.

(** The group of header rules a target puts its rule in. *)
Definition header_key (t : string) : option string :=
  if String.eqb t "headers" then Some ""
  else if HasPrefix t "headers:" then Some (CanonicalHeaderKey (TrimPrefix t "headers:"))
  else None.

Definition plain_targets : list string := ["line"; "path"; "query"; "body"].
Definition known_target (t : string) : Prop := t ∈ plain_targets \/ is_Some (header_key t).

Definition rule_ok (r : Rule) : Prop :=
  ru_ID r <> 0 /\ (ru_Action r = ActionBlock \/ ru_Action r = ActionLog) /\ ru_Targets r <> [] /\
  is_Some (regexp_Compile (ru_Pattern r)) /\ Forall known_target (ru_Targets r).

Definition rules_ok (rules : list Rule) : Prop := Forall rule_ok rules /\ NoDup (ru_ID <$> rules).

Definition compile_rule (r : Rule) : Rule :=
  match regexp_Compile (ru_Pattern r) with Some re => with_compiled r re | None => r end.

(** One copy of the rule for each of the targets that satisfy [p]. *)
Definition hits (p : string -> bool) (r : Rule) (ts : list string) : list Rule :=
  (fun _ => r) <$> filter (fun t => p t = true) ts.

(** What adding a rule's targets adds to the groups. *)
Record adds (r : Rule) (ts : list string) (rs rs' : RuleSet) : Prop := {
  adds_all : rs_all rs' = rs_all rs;
  adds_line : rs_lineRules rs' = rs_lineRules rs ++ hits (String.eqb "line") r ts;
  adds_path : rs_pathRules rs' = rs_pathRules rs ++ hits (String.eqb "path") r ts;
  adds_query : rs_queryRules rs' = rs_queryRules rs ++ hits (String.eqb "query") r ts;
  adds_body : rs_bodyRules rs' = rs_bodyRules rs ++ hits (String.eqb "body") r ts;
  adds_headers name : default [] (rs_headerRules rs' !! name) =
    default [] (rs_headerRules rs !! name) ++ hits (fun t => bool_decide (header_key t = Some name)) r ts
}.

(** The groups of a ruleset are the rules of [rs_all] by target. *)
Record grouped (rs : RuleSet) : Prop := {
  gr_line r : r ∈ rs_lineRules rs <-> r ∈ rs_all rs /\ "line" ∈ ru_Targets r;
  gr_path r : r ∈ rs_pathRules rs <-> r ∈ rs_all rs /\ "path" ∈ ru_Targets r;
  gr_query r : r ∈ rs_queryRules rs <-> r ∈ rs_all rs /\ "query" ∈ ru_Targets r;
  gr_body r : r ∈ rs_bodyRules rs <-> r ∈ rs_all rs /\ "body" ∈ ru_Targets r;
  gr_headers name r : r ∈ default [] (rs_headerRules rs !! name) <->
    r ∈ rs_all rs /\ exists t, t ∈ ru_Targets r /\ header_key t = Some name
}.

(** The texts of a request a target names; [body] is the inspected prefix. *)
Definition texts (q : Request) (body : option string) (t : string) : list string :=
  let path := default (r_path q) (PathUnescape (r_path q)) in
  let query := default (r_rawquery q) (QueryUnescape (r_rawquery q)) in
  if String.eqb t "line" then
    [if String.eqb query "" then r_method q +:+ " " +:+ path
     else r_method q +:+ " " +:+ path +:+ "?" +:+ query]
  else if String.eqb t "path" then [path]
  else if String.eqb t "query" then (if String.eqb query "" then [] else [query])
  else if String.eqb t "body" then option_list body
  else match header_key t with
       | Some name => if String.eqb name "" then concat (map_to_list (r_header q)).*2
                      else Header_Values (r_header q) name
       | None => []
       end.

(** What the administrator has decided about a rule: nothing, and its own action
    stands; or an override, which can disable it, and whose action, when it has
    one, replaces the rule's. *)
Definition set_to_block (r : Rule) (o : option override) : Prop :=
  match o with
  | None => ru_Action r = "block"
  | Some o => ov_enabled o = true /\ (ov_action o = "block" \/ ov_action o = "" /\ ru_Action r = "block")
  end.

(** A rule blocks a text: its pattern matches, it is set to block, and the engine
    is not in the log-only mode. *)
Definition blocks (e : Engine) (r : Rule) (text : string) : Prop :=
  en_defaultAction e <> "log-only" /\ set_to_block r (en_overrides e !! ru_ID r) /\
  exists re, ru_compiled r = Some re /\ MatchString re text = true.

(** A loaded rule blocks a text that one of its targets names. *)
Definition violates (e : Engine) (q : Request) (body : option string) : Prop :=
  exists r t text, r ∈ rs_all (en_ruleSet e) /\ t ∈ ru_Targets r /\ text ∈ texts q body t /\ blocks e r text.

Definition inspected_body (e : Engine) (q : Request) : option string :=
  match r_body q with
  | BodyReader rd => Some (of_bytes (take (Z.to_nat (en_maxBodyBytes e)) (rd_data rd)))
  | _ => None
  end.

(** There are body rules, and the body fails before the limit is reached. *)
Definition body_unreadable (e : Engine) (q : Request) : Prop :=
  rs_bodyRules (en_ruleSet e) <> [] /\ exists rd, r_body q = BodyReader rd /\ rd_fails rd = true /\
    Z.of_nat (length (rd_data rd)) < en_maxBodyBytes e.

End Spec.

(** ** Loading *)

Section Loading.
Context `{RegexpLib}.

Lemma hits_app p r ts us : hits p r (ts ++ us) = hits p r ts ++ hits p r us.
Proof. unfold hits. by rewrite filter_app, fmap_app. Qed.

Lemma elem_of_hits p r ts r' : r' ∈ hits p r ts <-> r' = r /\ exists t, t ∈ ts /\ p t = true.
Proof. unfold hits. rewrite list_elem_of_fmap. setoid_rewrite list_elem_of_filter. naive_solver. Qed.

Lemma hits_cons p r t ts : hits p r (t :: ts) = hits p r [t] ++ hits p r ts.
Proof. apply (hits_app p r [t]). Qed.

Lemma hits_one p r t : hits p r [t] = if p t then [r] else [].
Proof. unfold hits. cbn. case_decide as Hp; [by rewrite Hp|]. apply not_true_is_false in Hp. by rewrite Hp. Qed.

Lemma append_header_lookup name r m name' :
  default [] (append_header name r m !! name') =
  default [] (m !! name') ++ (if bool_decide (name = name') then [r] else []).
Proof.
  unfold append_header. case_bool_decide as Hn; [subst; by rewrite lookup_insert_eq|].
  by rewrite lookup_insert_ne, app_nil_r.
Qed.

(** A target adds its rule to the group of its own kind. *)
Lemma add_one r t rs rs' :
  rs_all rs' = rs_all rs ->
  rs_lineRules rs' = rs_lineRules rs ++ (if String.eqb "line" t then [r] else []) ->
  rs_pathRules rs' = rs_pathRules rs ++ (if String.eqb "path" t then [r] else []) ->
  rs_queryRules rs' = rs_queryRules rs ++ (if String.eqb "query" t then [r] else []) ->
  rs_bodyRules rs' = rs_bodyRules rs ++ (if String.eqb "body" t then [r] else []) ->
  rs_headerRules rs' = match header_key t with
                       | Some name => append_header name r (rs_headerRules rs)
                       | None => rs_headerRules rs
                       end ->
  adds r [t] rs rs'.
Proof.
  intros Ha Hl Hp Hq Hb Hh. split; rewrite ?hits_one; try done. intros name. rewrite Hh, hits_one.
  destruct (header_key t) as [key|]; [|by rewrite app_nil_r]. rewrite append_header_lookup.
  f_equal. repeat case_bool_decide; naive_solver.
Qed.

Lemma add_target_spec r t rs rs' : add_target r t rs = Ok rs' -> known_target t /\ adds r [t] rs rs'.
Proof.
  destruct rs as [all line path query body headers]. unfold add_target, known_target, plain_targets.
  destruct (String.eqb_spec t "line") as [->|H1]; [|destruct (String.eqb_spec t "path") as [->|H2];
    [|destruct (String.eqb_spec t "query") as [->|H3]; [|destruct (String.eqb_spec t "body") as [->|H4];
    [|destruct (String.eqb_spec t "headers") as [->|H5]; [|destruct (HasPrefix t "headers:") eqn:H6; [|done]]]]]].
  6: {
    assert (header_key t = Some (CanonicalHeaderKey (TrimPrefix t "headers:"))) as Hk
      by (unfold header_key; by rewrite (proj2 (String.eqb_neq t "headers") H5), H6).
    intros [= <-]. split; [right; by rewrite Hk|]. apply add_one; rewrite ?Hk; try done;
      rewrite (proj2 (String.eqb_neq _ t)) by congruence; cbn [rs_lineRules rs_pathRules rs_queryRules rs_bodyRules];
      by rewrite app_nil_r. }
  5: { intros [= <-]. split; [right; by eexists|]. apply add_one; cbn; by rewrite ?app_nil_r. }
  all: intros [= <-]; (split; [left; set_solver|]); apply add_one; cbn; by rewrite ?app_nil_r.
Qed.

Lemma adds_trans r ts us rs1 rs2 rs3 :
  adds r ts rs1 rs2 -> adds r us rs2 rs3 -> adds r (ts ++ us) rs1 rs3.
Proof.
  intros [A1 L1 P1 Q1 B1 H1] [A2 L2 P2 Q2 B2 H2].
  split; rewrite ?hits_app; [congruence| | | | |intros name; rewrite hits_app, app_assoc, <- H1; apply H2];
    rewrite app_assoc; congruence.
Qed.

Lemma adds_nil r rs : adds r [] rs rs.
Proof. split; intros; unfold hits; cbn; by rewrite ?app_nil_r. Qed.

Lemma add_targets_spec r ts rs rs' :
  add_targets r ts rs = Ok rs' -> Forall known_target ts /\ adds r ts rs rs'.
Proof.
  revert rs. induction ts as [|t ts IH]; intros rs; cbn.
  { intros [= ->]. split; [constructor|apply adds_nil]. }
  intros Hok. bind_ok Hok. apply add_target_spec in E as [Ht Ha]. apply IH in Hok as [Hts Ha'].
  split; [by constructor|]. change (t :: ts) with ([t] ++ ts). by eapply adds_trans.
Qed.

Lemma add_targets_total r ts rs : Forall known_target ts -> exists rs', add_targets r ts rs = Ok rs'.
Proof.
  intros Hts. revert rs. induction Hts as [|t ts Ht Hts IH]; intros rs; cbn; [by eexists|].
  assert (exists rs1, add_target r t rs = Ok rs1) as [rs1 ->]; [|apply IH].
  destruct rs as [all line path query body headers]. unfold add_target. destruct Ht as [Ht|Ht].
  - unfold plain_targets in Ht. rewrite !elem_of_cons, elem_of_nil in Ht.
    destruct Ht as [->|[->|[->|[->|[]]]]]; by eexists.
  - unfold header_key in Ht. destruct (String.eqb t "line"), (String.eqb t "path"), (String.eqb t "query"),
      (String.eqb t "body"), (String.eqb t "headers"); try (eexists; reflexivity).
    destruct (HasPrefix t "headers:"); [eexists; reflexivity|]. by destruct Ht.
Qed.

(** The groups after the rules [added] were loaded. *)
Record loaded (added : list Rule) (rs : RuleSet) : Prop := {
  ld_all : rs_all rs = added;
  ld_line : rs_lineRules rs = added ≫= fun r => hits (String.eqb "line") r (ru_Targets r);
  ld_path : rs_pathRules rs = added ≫= fun r => hits (String.eqb "path") r (ru_Targets r);
  ld_query : rs_queryRules rs = added ≫= fun r => hits (String.eqb "query") r (ru_Targets r);
  ld_body : rs_bodyRules rs = added ≫= fun r => hits (String.eqb "body") r (ru_Targets r);
  ld_headers name : default [] (rs_headerRules rs !! name) =
    added ≫= fun r => hits (fun t => bool_decide (header_key t = Some name)) r (ru_Targets r)
}.

Lemma loaded_empty : loaded [] empty_RuleSet.
Proof. by split. Qed.

Lemma loaded_snoc added r rs rs' :
  loaded added rs -> adds r (ru_Targets r) (append_rule r rs) rs' -> loaded (added ++ [r]) rs'.
Proof.
  intros [LA LL LP LQ LB LH] [AA AL AP AQ AB AH]. cbn in *.
  split; intros; rewrite ?bind_app, ?AH, ?LH; cbn; rewrite ?app_nil_r; congruence.
Qed.

Lemma bind_hits p added r :
  r ∈ (added ≫= fun r => hits p r (ru_Targets r)) <-> r ∈ added /\ exists t, t ∈ ru_Targets r /\ p t = true.
Proof. rewrite list_elem_of_bind. setoid_rewrite elem_of_hits. naive_solver. Qed.

Lemma loaded_grouped added rs : loaded added rs -> grouped rs.
Proof.
  intros [LA LL LP LQ LB LH].
  split; intros; rewrite LA, ?LL, ?LP, ?LQ, ?LB, ?LH, bind_hits; try setoid_rewrite String.eqb_eq;
    try setoid_rewrite bool_decide_eq_true; naive_solver.
Qed.

Lemma load_rule_ok r seen rs rs' :
  load_rule r seen rs = Ok rs' ->
  rule_ok r /\ (ru_ID r ∉ seen) /\ adds (compile_rule r) (ru_Targets r) (append_rule (compile_rule r) rs) rs'.
Proof.
  unfold load_rule, rule_ok, compile_rule. intros Hl.
  destruct (Z.eqb_spec (ru_ID r) 0); [done|]. cbn in Hl.
  destruct (bool_decide_reflect (ru_ID r ∈ seen)); [done|]. cbn in Hl.
  destruct (negb _ && negb _) eqn:Ha; [done|]. cbn [fail_if result_bind] in Hl.
  assert (ru_Targets r <> []) as Ht by (intros E; by rewrite E in Hl).
  destruct (ru_Targets r) as [|t ts] eqn:E; [done|]. cbn [fail_if result_bind] in Hl.
  destruct (regexp_Compile (ru_Pattern r)) as [re|]; [|done]. cbn [of_lib wrap_err result_bind] in Hl.
  cbn [with_compiled ru_Targets] in Hl. rewrite ?E in Hl. apply add_targets_spec in Hl as [Hk Hadd].
  apply andb_false_iff in Ha. rewrite !negb_false_iff, !String.eqb_eq in Ha. split_and!; try done; by eexists.
Qed.

Lemma load_rule_total r seen rs :
  rule_ok r -> ru_ID r ∉ seen -> exists rs', load_rule r seen rs = Ok rs'.
Proof.
  intros (Hid & Ha & Ht & [re Hre] & Hk) Hs. unfold load_rule.
  rewrite (proj2 (Z.eqb_neq _ _) Hid), bool_decide_false by done. cbn [fail_if result_bind].
  replace (negb (String.eqb (ru_Action r) ActionBlock) && negb (String.eqb (ru_Action r) ActionLog)) with false
    by (destruct Ha as [->| ->]; done).
  cbn [fail_if result_bind]. rewrite Hre. destruct (ru_Targets r) as [|t ts] eqn:E; [done|].
  cbn [fail_if result_bind of_lib wrap_err with_compiled ru_Targets]. apply add_targets_total. by rewrite E.
Qed.

Lemma load_rules_ok rules : forall seen added rs rs',
  loaded added rs -> load_rules rules seen rs = Ok rs' ->
  loaded (added ++ (compile_rule <$> rules)) rs' /\ Forall rule_ok rules /\ NoDup (ru_ID <$> rules) /\
  Forall (fun r => ru_ID r ∉ seen) rules.
Proof.
  induction rules as [|r rules IH]; intros seen added rs rs' Hl Hok; cbn in Hok.
  { injection Hok as <-. cbn. rewrite app_nil_r. split_and!; [done|constructor..]. }
  bind_ok Hok. apply load_rule_ok in E as (Hr & Hs & Hadd).
  eapply (loaded_snoc _ (compile_rule r)) in Hl.
  2: { revert Hadd. unfold compile_rule. by destruct (regexp_Compile (ru_Pattern r)). }
  destruct (IH _ _ _ _ Hl Hok) as (Hl' & Hrs & Hnd & Hseen). rewrite <- app_assoc in Hl'.
  rewrite Forall_forall in Hseen. split_and!; [exact Hl'|by constructor| |].
  - cbn. constructor; [|done]. intros (r' & Heq & Hin)%list_elem_of_fmap. specialize (Hseen _ Hin). set_solver.
  - constructor; [done|]. apply Forall_forall. intros r' Hin. specialize (Hseen _ Hin). set_solver.
Qed.

Lemma load_rules_total rules : forall seen rs,
  Forall rule_ok rules -> NoDup (ru_ID <$> rules) -> Forall (fun r => ru_ID r ∉ seen) rules ->
  exists rs', load_rules rules seen rs = Ok rs'.
Proof.
  induction rules as [|r rules IH]; intros seen rs Hok Hnd Hs; cbn; [by eexists|].
  apply Forall_cons in Hok as [Hr Hok]. apply Forall_cons in Hs as [Hs1 Hs]. cbn in Hnd. apply NoDup_cons in Hnd as [Hn Hnd].
  destruct (load_rule_total r seen rs Hr Hs1) as [rs1 ->]. cbn. apply IH; [done|done|].
  rewrite Forall_forall in *. intros r' Hin. specialize (Hs _ Hin). apply not_elem_of_union. split; [|done].
  rewrite elem_of_singleton. intros Heq. apply Hn. rewrite <- Heq. by apply list_elem_of_fmap_2.
Qed.

Context `{Files} `{!RulesYaml}.

Lemma LoadRuleSet_grouped path rs : LoadRuleSet path = Ok rs -> grouped rs.
Proof.
  unfold LoadRuleSet. intros Hok. bind_ok Hok. bind_ok Hok.
  apply (load_rules_ok _ _ _ _ _ loaded_empty) in Hok as (Hl & _). eapply loaded_grouped, Hl.
Qed.

(** C29. [LoadRuleSet] accepts exactly the files that decode to valid rules:
    non-zero distinct ids, a block or log action, at least one target, all
    known, and a pattern that compiles.  The ruleset then holds those rules, in
    order and compiled, each in the groups its targets name and in no other. *)
Theorem LoadRuleSet_spec path f rules :
  os_Open path = Some f -> yaml_DecodeRules f = Some rules ->
  (rules_ok rules <-> is_ok (LoadRuleSet path) = true) /\
  forall rs, LoadRuleSet path = Ok rs -> rs_all rs = compile_rule <$> rules /\ grouped rs.
Proof.
  unfold LoadRuleSet. intros -> Hr. cbn. rewrite Hr. cbn. split; [split|].
  - intros [Hok Hnd]. destruct (load_rules_total rules ∅ empty_RuleSet Hok Hnd) as [rs ->]; [|done].
    apply Forall_forall. set_solver.
  - intros [rs Hl]%is_ok_true. apply (load_rules_ok _ _ _ _ _ loaded_empty) in Hl as (_ & Hok & Hnd & _). by split.
  - intros rs Hl. apply (load_rules_ok _ _ _ _ _ loaded_empty) in Hl as (Hl & _).
    split; [apply Hl|eapply loaded_grouped, Hl].
Qed.

End Loading.

(** ** Inspection *)

Section Inspection.
Context `{RegexpLib} `{MapOrder}.

Lemma effective_blocks e r :
  effective_action e r = Some ActionBlock <->
  en_defaultAction e <> "log-only" /\ set_to_block r (en_overrides e !! ru_ID r).
Proof.
  unfold effective_action, set_to_block, ActionBlock, ActionLog.
  set (action := match en_overrides e !! ru_ID r with Some _ => _ | None => _ end).
  assert (action = Some "block" <-> match en_overrides e !! ru_ID r with
    | Some o => ov_enabled o = true /\ (ov_action o = "block" \/ ov_action o = "" /\ ru_Action r = "block")
    | None => ru_Action r = "block" end) as Ha.
  { unfold action. destruct (en_overrides e !! ru_ID r) as [o|]; [|split; congruence].
    destruct (ov_enabled o); cbn [negb]; [|by split; [|intros []]].
    destruct (String.eqb_spec (ov_action o) "") as [E|E]; cbn [negb].
    - split; [intros [= Hr]; auto|]. intros [_ [Hb|[_ Hb]]]; congruence.
    - split; [intros [= Hr]; auto|]. intros [_ [Hb|[Hb _]]]; congruence. }
  rewrite <- Ha. destruct (String.eqb_spec (en_defaultAction e) "log-only") as [Hd|Hd]; [|tauto].
  split; [|tauto]. by intros (? & _ & ?)%fmap_Some.
Qed.

Lemma blocks_effective e r text :
  blocks e r text <-> effective_action e r = Some ActionBlock /\ rule_matches r text = true.
Proof.
  rewrite effective_blocks. unfold blocks, rule_matches. destruct (ru_compiled r) as [re|]; [|naive_solver].
  split; [intros (? & ? & re' & [= <-] & ?); auto|intros ((? & ?) & ?); eauto].
Qed.

Lemma check_some e rules text m : check e rules text = Some m -> m ∈ rules /\ blocks e m text.
Proof.
  induction rules as [|r rules IH]; cbn; [done|].
  assert (check e rules text = Some m -> m ∈ r :: rules /\ blocks e m text) as Hrec.
  { intros Hc. apply IH in Hc as [? ?]. split; [by constructor|done]. }
  destruct (effective_action e r) as [action|] eqn:Ha; [|done].
  destruct (rule_matches r text) eqn:Hm; cbn [negb]; [|done].
  destruct (String.eqb_spec action ActionBlock) as [->|]; [|done].
  intros [= <-]. split; [constructor|by apply blocks_effective].
Qed.

Lemma check_none e rules text r : check e rules text = None -> r ∈ rules -> ~ blocks e r text.
Proof.
  induction rules as [|r' rules IH]; [set_solver|]. cbn. intros Hc Hin Hb.
  apply elem_of_cons in Hin as [<-|Hin].
  - apply blocks_effective in Hb as [Ha Hm]. by rewrite Ha, Hm in Hc.
  - destruct (effective_action e r') as [action|]; [|by apply IH].
    destruct (rule_matches r' text); [|by apply IH]. cbn in Hc.
    destruct (String.eqb action ActionBlock); [done|by apply IH].
Qed.

Lemma check_values_some e rules vs m : check_values e rules vs = Some m -> exists v, v ∈ vs /\ m ∈ rules /\ blocks e m v.
Proof.
  induction vs as [|v vs IH]; cbn; [done|]. destruct (check e rules v) eqn:Hc.
  - intros [= ->]. apply check_some in Hc. exists v. split; [constructor|done].
  - intros (v' & ? & ?)%IH. exists v'. split; [by constructor|done].
Qed.

Lemma check_values_none e rules vs r v : check_values e rules vs = None -> r ∈ rules -> v ∈ vs -> ~ blocks e r v.
Proof.
  induction vs as [|v' vs IH]; [set_solver|]. cbn. destruct (check e rules v') eqn:Hc; [done|].
  intros Hv Hr [->|Hin]%elem_of_cons; [by eapply check_none|by apply IH].
Qed.

Lemma check_all_headers_values e rules hs : check_all_headers e rules hs = check_values e rules (concat hs.*2).
Proof.
  assert (forall vs ws, check_values e rules (vs ++ ws) =
    match check_values e rules vs with Some m => Some m | None => check_values e rules ws end) as Happ.
  { intros vs ws. induction vs as [|v vs IH]; cbn; [done|]. by destruct (check e rules v). }
  induction hs as [|[k vs] hs IH]; cbn; [done|]. rewrite Happ, IH. by destruct (check_values e rules vs).
Qed.

(** The values a group of header rules is run on. *)
Definition header_values (r : Request) (name : string) : list string :=
  if String.eqb name "" then concat (map_order (r_header r)).*2 else Header_Values (r_header r) name.

Lemma check_headers_cons e name rules groups r :
  check_headers e ((name, rules) :: groups) r =
  match check_values e rules (header_values r name) with Some m => Some m | None => check_headers e groups r end.
Proof. cbn. unfold header_values. destruct (String.eqb name ""); [by rewrite check_all_headers_values|done]. Qed.

Lemma check_headers_some e groups r m :
  check_headers e groups r = Some m ->
  exists name rules v, (name, rules) ∈ groups /\ m ∈ rules /\ v ∈ header_values r name /\ blocks e m v.
Proof.
  induction groups as [|[name rules] groups IH]; [done|]. rewrite check_headers_cons.
  destruct (check_values e rules (header_values r name)) eqn:Hc.
  - intros [= ->]. apply check_values_some in Hc as (v & Hv & Hm & Hb). exists name, rules, v. split; [constructor|done].
  - intros (n & rs & v & Hin & ?)%IH. exists n, rs, v. split; [by constructor|done].
Qed.

Lemma check_headers_none e groups r name rules m v :
  check_headers e groups r = None -> (name, rules) ∈ groups -> m ∈ rules -> v ∈ header_values r name ->
  ~ blocks e m v.
Proof.
  induction groups as [|[n rs] groups IH]; [set_solver|]. rewrite check_headers_cons.
  destruct (check_values e rs (header_values r n)) eqn:Hc; [done|].
  intros Hn [[= -> ->]|Hin]%elem_of_cons Hm Hv; [by eapply check_values_none|by eapply IH].
Qed.

Lemma elem_of_header_values r name v :
  v ∈ header_values r name <->
  v ∈ (if String.eqb name "" then concat (map_to_list (r_header r)).*2 else Header_Values (r_header r) name).
Proof. unfold header_values. destruct (String.eqb name ""); [|done]. by rewrite (map_order_perm (r_header r)). Qed.

Lemma texts_header t name q body : header_key t = Some name ->
  texts q body t = if String.eqb name "" then concat (map_to_list (r_header q)).*2 else Header_Values (r_header q) name.
Proof.
  intros Hk. unfold texts. rewrite Hk. unfold header_key in Hk.
  destruct (String.eqb_spec t "line") as [->|]; [done|]. destruct (String.eqb_spec t "path") as [->|]; [done|].
  destruct (String.eqb_spec t "query") as [->|]; [done|]. by destruct (String.eqb_spec t "body") as [->|].
Qed.

Lemma header_group name rules (m : gmap string (list Rule)) : (name, rules) ∈ map_order m <-> m !! name = Some rules.
Proof. by rewrite (map_order_perm m), elem_of_map_to_list. Qed.

(** The rule a check reports is one the request violates. *)
Definition violated_by (e : Engine) (q : Request) (body : option string) (r : Rule) : Prop :=
  exists t text, r ∈ rs_all (en_ruleSet e) /\ t ∈ ru_Targets r /\ text ∈ texts q body t /\ blocks e r text.

(** The texts of the three plain targets are what the engine checks. *)
Lemma texts_line q b : texts q b "line" = [request_line q].
Proof.
  unfold texts, request_line, decoded_path, decoded_query. cbn [String.eqb Ascii.eqb Bool.eqb].
  destruct (String.eqb _ ""); cbn [negb]; [done|]. by rewrite !append_assoc.
Qed.

Lemma texts_path q b : texts q b "path" = [decoded_path q].
Proof. done. Qed.

Lemma texts_query q b : texts q b "query" = if String.eqb (decoded_query q) "" then [] else [decoded_query q].
Proof. done. Qed.

Lemma check_head_some e q m : grouped (en_ruleSet e) -> check_head e q = Some m -> violated_by e q None m.
Proof.
  intros [Gl Gp Gq _ Gh]. unfold check_head.
  destruct (check e (rs_lineRules _) _) eqn:Hl.
  { intros [= ->]. apply check_some in Hl as [Hin Hb]. apply Gl in Hin as [? ?].
    exists "line", (request_line q). split_and!; [done|done|rewrite texts_line; set_solver|done]. }
  destruct (check e (rs_pathRules _) _) eqn:Hp.
  { intros [= ->]. apply check_some in Hp as [Hin Hb]. apply Gp in Hin as [? ?].
    exists "path", (decoded_path q). split_and!; [done|done|rewrite texts_path; set_solver|done]. }
  destruct (if negb _ then _ else _) eqn:Hq.
  { intros [= ->]. destruct (String.eqb (decoded_query q) "") eqn:E; [done|]. cbn in Hq.
    apply check_some in Hq as [Hin Hb]. apply Gq in Hin as [? ?].
    exists "query", (decoded_query q). split_and!; [done|done|rewrite texts_query, E; set_solver|done]. }
  intros (name & rules & v & Hg & Hm & Hv & Hb)%check_headers_some. apply header_group in Hg.
  destruct (proj1 (Gh name m)) as (Hall & t & Ht & Hk); [by rewrite Hg|].
  exists t, v. split_and!; [done|done| |done]. rewrite (texts_header _ _ _ _ Hk). by apply elem_of_header_values.
Qed.

Lemma check_head_none e q r : grouped (en_ruleSet e) -> check_head e q = None -> ~ violated_by e q None r.
Proof.
  intros [Gl Gp Gq _ Gh]. unfold check_head.
  destruct (check e (rs_lineRules _) _) eqn:Hl; [done|]. destruct (check e (rs_pathRules _) _) eqn:Hp; [done|].
  destruct (if negb _ then _ else _) eqn:Hq; [done|]. intros Hh (t & text & Hall & Ht & Hx & Hb).
  destruct (header_key t) as [name|] eqn:Hk.
  { rewrite (texts_header _ _ _ _ Hk) in Hx. apply elem_of_header_values in Hx.
    assert (r ∈ default [] (rs_headerRules (en_ruleSet e) !! name)) as Hr by (apply Gh; eauto).
    destruct (rs_headerRules (en_ruleSet e) !! name) as [rules|] eqn:Hg; [|set_solver].
    apply header_group in Hg. by eapply check_headers_none. }
  destruct (String.eqb_spec t "line") as [->|]; [rewrite texts_line in Hx; apply list_elem_of_singleton in Hx as ->; eapply (check_none _ _ _ _ Hl); [by apply Gl|exact Hb]|].
  destruct (String.eqb_spec t "path") as [->|]; [rewrite texts_path in Hx; apply list_elem_of_singleton in Hx as ->; eapply (check_none _ _ _ _ Hp); [by apply Gp|exact Hb]|].
  destruct (String.eqb_spec t "query") as [->|].
  2: { unfold texts in Hx. rewrite Hk, !(proj2 (String.eqb_neq t _)) in Hx by done. destruct (String.eqb t "body"); set_solver. }
  rewrite texts_query in Hx.
  destruct (String.eqb (decoded_query q) "") eqn:E; [set_solver|]. apply list_elem_of_singleton in Hx as ->.
  eapply (check_none _ _ _ _ Hq); [by apply Gq|exact Hb].
Qed.

(** With a body, only body targets see more. *)
Lemma violated_with_body e q b r :
  violated_by e q (Some b) r <->
  violated_by e q None r \/ (r ∈ rs_all (en_ruleSet e) /\ "body" ∈ ru_Targets r /\ blocks e r b).
Proof.
  split.
  - intros (t & text & Hall & Ht & Hx & Hb). destruct (String.eqb_spec t "body") as [->|Hne].
    + right. cbn in Hx. apply list_elem_of_singleton in Hx as ->. done.
    + left. exists t, text. split_and!; try done. revert Hx. unfold texts.
      by rewrite (proj2 (String.eqb_neq t "body") Hne).
  - intros [(t & text & Hall & Ht & Hx & Hb)|(Hall & Ht & Hb)].
    + exists t, text. split_and!; try done. revert Hx. unfold texts. destruct (String.eqb t "body"); [|done].
      repeat (destruct (String.eqb t _); [done|]). set_solver.
    + exists "body", b. split_and!; [done|done|cbn; set_solver|done].
Qed.

Lemma captureBodyPrefix_spec e q rd :
  r_body q = BodyReader rd ->
  match captureBodyPrefix e q rd with
  | (Ok p, q') => q' = q /\ p = take (Z.to_nat (en_maxBodyBytes e)) (rd_data rd)
  | (Err _, _) => rd_fails rd = true /\ Z.of_nat (length (rd_data rd)) < en_maxBodyBytes e
  end.
Proof.
  intros Hb. unfold captureBodyPrefix. destruct (read_limit rd (en_maxBodyBytes e)) as [[p|err] rest] eqn:Hr.
  - assert (multi_reader p rest = rd /\ p = take (Z.to_nat (en_maxBodyBytes e)) (rd_data rd)) as [-> ->].
    { destruct (decide (0 <= en_maxBodyBytes e)) as [Hn|Hn]; [by apply (read_limit_rest _ _ _ _ Hn)|].
      rewrite read_limit_neg in Hr by lia. injection Hr as <- <-.
      replace (Z.to_nat (en_maxBodyBytes e)) with 0%nat by lia. destruct rd. by rewrite take_0. }
    split; [|done]. destruct q. cbn in *. by subst.
  - unfold read_limit in Hr. destruct (Z.ltb_spec (Z.of_nat (length (rd_data rd))) (en_maxBodyBytes e)); [|done].
    by destruct (rd_fails rd).
Qed.

(** With a limit that is not positive, nothing of a body is inspected. *)
Lemma no_limit_inspects_nothing e q rd :
  en_maxBodyBytes e <= 0 -> r_body q = BodyReader rd -> captureBodyPrefix e q rd = (Ok [], q).
Proof.
  intros Hn Hb. unfold captureBodyPrefix. rewrite read_limit_neg by done.
  assert (multi_reader [] rd = rd) as -> by (by destruct rd). destruct q. cbn in *. by subst.
Qed.

Lemma violates_by e q b : violates e q b <-> exists r, violated_by e q b r.
Proof. done. Qed.

Lemma violated_no_body_rules e q b r :
  grouped (en_ruleSet e) -> rs_bodyRules (en_ruleSet e) = [] -> violated_by e q b r -> violated_by e q None r.
Proof.
  intros [_ _ _ Gb _] Hn. destruct b as [b|]; [|done]. rewrite violated_with_body. intros [?|(Hall & Ht & _)]; [done|].
  assert (r ∈ rs_bodyRules (en_ruleSet e)) as Hin by (by apply Gb). rewrite Hn in Hin. set_solver.
Qed.

Lemma Inspect_exact e q :
  grouped (en_ruleSet e) ->
  match Inspect e q with
  | (Ok (Some m), q') => q' = q /\ violated_by e q (inspected_body e q) m
  | (Ok None, q') => q' = q /\ ~ violates e q (inspected_body e q)
  | (Err _, q') => body_unreadable e q /\ ~ violates e q None /\ exists rd, q' = with_body q (BodyReader rd)
  end.
Proof.
  intros Hg. unfold Inspect, inspected_body. destruct (check_head e q) as [m|] eqn:Hh.
  { apply check_head_some in Hh; [|done]. split; [done|]. destruct (r_body q); try done.
    apply violated_with_body. by left. }
  assert (forall r, ~ violated_by e q None r) as Hno by (intros r; by eapply check_head_none).
  destruct (rs_bodyRules (en_ruleSet e)) as [|r0 rs0] eqn:Hbr.
  { split; [done|]. intros [r Hr]%violates_by. by eapply Hno, (violated_no_body_rules e q _ r Hg Hbr). }
  destruct (r_body q) as [| |rd] eqn:Hb; [by split; [done|]; intros [r ?]; eapply Hno..|].
  pose proof (captureBodyPrefix_spec e q rd Hb) as Hc. unfold captureBodyPrefix in *.
  destruct (read_limit rd (en_maxBodyBytes e)) as [[p|err] rest].
  - destruct Hc as [Hq ->]. rewrite <- Hbr. set (body := of_bytes _).
    destruct (check e (rs_bodyRules (en_ruleSet e)) body) as [m|] eqn:Hck.
    + split; [done|]. apply check_some in Hck as [Hin Hbl]. apply Hg in Hin as [Hall Ht].
      apply violated_with_body. by right.
    + split; [done|]. intros [r [Hr|(Hall & Ht & Hbl)]%violated_with_body]; [by eapply Hno|].
      eapply (check_none _ _ _ _ Hck); [by apply Hg|exact Hbl].
  - split_and!; [|intros [r Hr]; by eapply Hno|by eexists]. split; [by rewrite Hbr|]. exists rd. done.
Qed.

(** C8. [Inspect] is exact.  It reports a rule exactly when, the engine not
    being in the log-only mode, the pattern of some loaded rule matches a text
    that one of its targets names (the inspected body prefix included), and the
    rule is set to block: by an override that does not disable it and whose
    action is block, or is empty when the rule's is block; or, without an
    override, by the rule's own action.  The rule it reports is such a rule;
    whether a request is blocked therefore does not depend on the order maps are
    ranged over.  It fails only on a body that cannot be read as far as the
    limit, when nothing before the body blocks.  The rules and the overrides are
    those of one engine value throughout the inspection. *)
Theorem inspect_exact e q :
  grouped (en_ruleSet e) ->
  match (Inspect e q).1 with
  | Ok (Some m) => violated_by e q (inspected_body e q) m
  | Ok None => ~ violates e q (inspected_body e q)
  | Err _ => body_unreadable e q /\ ~ violates e q None
  end.
Proof.
  intros Hg. pose proof (Inspect_exact e q Hg) as Hi.
  destruct (Inspect e q) as [[[m|]|err] q']; cbn; tauto.
Qed.

(** The request [Inspect] leaves: the one it was given or, when it fails, that
    with what is left of the body, which is nothing but its failure. *)
Definition drained (q : Request) : Request := with_body q (BodyReader (mkReader [] true)).

Lemma Inspect_request e q res q' :
  Inspect e q = (res, q') -> q' = q \/ is_ok res = false /\ body_unreadable e q /\ q' = drained q.
Proof.
  unfold Inspect. destruct (check_head e q); [intros [= _ <-]; by left|].
  destruct (rs_bodyRules (en_ruleSet e)) as [|r0 rs0] eqn:Hbr; [intros [= _ <-]; by left|].
  destruct (r_body q) as [| |rd] eqn:Hb; [intros [= _ <-]; by left..|].
  pose proof (captureBodyPrefix_spec e q rd Hb) as Hc. unfold captureBodyPrefix in *.
  destruct (read_limit rd (en_maxBodyBytes e)) as [[p|err] rest] eqn:Hr.
  - intros [= _ <-]. left. apply Hc.
  - intros [= <- <-]. right. split; [done|]. split; [split; [by rewrite Hbr|by exists rd]|].
    destruct Hc as [Hf Hlen]. unfold read_limit in Hr. rewrite (proj2 (Z.ltb_lt _ _) Hlen), Hf in Hr. by injection Hr as _ <-.
Qed.

(** C30. Inspection does not consume the request: when it succeeds, the request
    that is passed on has its whole body, the inspected prefix and all that
    follows it, and is otherwise unchanged. *)
Theorem inspect_keeps_body e q v q' : Inspect e q = (Ok v, q') -> q' = q.
Proof.
  unfold Inspect. destruct (check_head e q); [by intros [= <- <-]|].
  destruct (rs_bodyRules (en_ruleSet e)); [by intros [= <- <-]|].
  destruct (r_body q) as [| |rd] eqn:Hb; [by intros [= <- <-]..|].
  pose proof (captureBodyPrefix_spec e q rd Hb) as Hc.
  destruct (captureBodyPrefix e q rd) as [[p|err] q1]; [|done]. intros [= <- <-]. apply Hc.
Qed.

(** With the default action log-only no request is ever blocked, whatever
    the rules and the overrides. *)
Theorem log_only_never_blocks e q m :
  grouped (en_ruleSet e) -> en_defaultAction e = "log-only" -> (Inspect e q).1 <> Ok (Some m).
Proof.
  intros Hg Hd Hi. pose proof (Inspect_exact e q Hg) as He. destruct (Inspect e q) as [v q']. cbn in Hi. subst v.
  destruct He as [_ (t & text & _ & _ & _ & Hb & _)]. by apply Hb.
Qed.

(** The stage's answer to a request it blocks. *)
Definition forbid {C} (r : Rule) (q : Request) (rw : ResponseWriter) (w : World C) : World C :=
  WriteHeader rw StatusForbidden
    (match RecorderFrom q w with
     | Some (loc, _) => at_recorder loc (fun rec => SetWAFMatch (ru_ID r) (ru_Category r) (SetBlocked BlockReasonWAF rec)) w
     | None => w
     end).

Lemma at_recorder_twice {C} loc f g (w : World C) :
  at_recorder loc f (at_recorder loc g w) = at_recorder loc (fun r => f (g r)) w.
Proof.
  unfold at_recorder, upd_recorders. destruct w as [rs ss c cl en co]. cbn. f_equal.
  apply (list_alter_alter_eq f g).
Qed.

(** The WAF stage runs the rest of the chain exactly when no blocking rule
    is violated or the body cannot be read (it fails open); in the first case
    the request is passed on unchanged.  Otherwise it answers 403 and records
    the reason and the violated rule, and nothing further runs. *)
Theorem waf_stage_spec {C} `{!Part Engine C} (next : Handler C) rw q (w : World C) :
  let e : Engine := part (comp w) in
  grouped (en_ruleSet e) ->
  (~ violates e q (inspected_body e q) /\ WafMiddleware next rw q w = next rw q w) \/
  (body_unreadable e q /\ exists rd, WafMiddleware next rw q w = next rw (with_body q (BodyReader rd)) w) \/
  (exists r, violated_by e q (inspected_body e q) r /\ WafMiddleware next rw q w = forbid r q rw w).
Proof.
  intros e Hg. pose proof (Inspect_exact e q Hg) as He. unfold WafMiddleware. fold e.
  destruct (Inspect e q) as [[[m|]|err] q'].
  - right. right. destruct He as [-> Hv]. exists m. split; [done|]. unfold forbid.
    destruct (RecorderFrom q w) as [[loc rec]|]; [|done]. by rewrite at_recorder_twice.
  - left. by destruct He as [-> Hv].
  - right. left. destruct He as (Hu & _ & rd & ->). split; [done|]. by exists rd.
Qed.

End Inspection.

(** ** Overrides *)

Section Overrides.
Context `{RegexpLib}.

Inductive override_edit : Type :=
  | EditSet (id : Z) (enabled : bool) (action : string)
  | EditClear (id : Z).

Definition edit_id (ed : override_edit) : Z := match ed with EditSet id _ _ => id | EditClear id => id end.

Definition override_loop (ed : override_edit) : gmap Z override -> round (gmap Z override) unit :=
  match ed with
  | EditSet id enabled action => set_override_body id enabled action
  | EditClear id => clear_override_body id
  end.

(** What an edit leaves at its own id. *)
Definition edit_value (ed : override_edit) : option override :=
  match ed with EditSet _ enabled action => Some (mkOverride enabled action) | EditClear _ => None end.

Lemma run_override_lookup ed m id :
  (run_body (override_loop ed) m).2 !! id = if decide (id = edit_id ed) then edit_value ed else m !! id.
Proof.
  destruct ed as [i en ac|i]; cbn; unfold run_body, set_override_body, clear_override_body.
  - cbn. case_decide as Hd; [subst; by rewrite lookup_insert_eq|by rewrite lookup_insert_ne].
  - destruct (m !! i) as [o|] eqn:Hi; cbn; case_decide as Hd; subst; try done.
    + apply map_lookup_filter_None. right. intros o' _ Hne. by apply Hne.
    + rewrite map_lookup_filter. destruct (m !! id) as [o'|]; [|done]. cbn. by rewrite option_guard_True.
Qed.

Lemma run_overrides_lookup eds order m id :
  (run_order (override_loop <$> eds) order m) !! id =
  foldl (fun acc i => match eds !! i with
                      | Some ed => if decide (id = edit_id ed) then edit_value ed else acc
                      | None => acc
                      end) (m !! id) order.
Proof.
  unfold run_order. revert m. induction order as [|i order IH]; intros m; [done|]. cbn. rewrite IH, list_lookup_fmap.
  f_equal. destruct (eds !! i) as [ed|]; [|done]. cbn. apply run_override_lookup.
Qed.

Lemma fold_untouched (eds : list override_edit) order id acc :
  Forall (fun i => forall ed, eds !! i = Some ed -> edit_id ed <> id) order ->
  foldl (fun acc i => match eds !! i with
                      | Some ed => if decide (id = edit_id ed) then edit_value ed else acc
                      | None => acc
                      end) acc order = acc.
Proof.
  revert acc. induction order as [|i order IH]; intros acc Ho; [done|]. apply Forall_cons in Ho as [Hi Ho]. cbn.
  rewrite IH by done. destruct (eds !! i) as [ed|] eqn:E; [|done]. rewrite decide_False; [done|].
  specialize (Hi _ eq_refl). congruence.
Qed.

(** Concurrent override edits do not disturb each other: once all loops
    have returned, a rule that a single edit is about holds what that edit set
    (or nothing, if it cleared), and a rule no edit is about keeps what it had,
    however the loops were interleaved. *)
Theorem concurrent_overrides_kept m eds c i ed id :
  rtc step (init m (override_loop <$> eds)) c ->
  Forall (fun t => exists r, t = Done r) (threads c) ->
  eds !! i = Some ed ->
  exists m', current c = Some m' /\
    ((forall j ed', eds !! j = Some ed' -> j <> i -> edit_id ed' <> edit_id ed) -> m' !! edit_id ed = edit_value ed) /\
    ((forall j ed', eds !! j = Some ed' -> edit_id ed' <> id) -> m' !! id = m !! id).
Proof.
  intros Hs Hall Hi. destruct (loops_all_done _ _ _ Hs Hall) as (order & Hperm & Hcur & _).
  eexists. split; [exact Hcur|]. split.
  - intros Hother. rewrite run_overrides_lookup.
    assert (i ∈ order) as (pre & post & ->)%list_elem_of_split.
    { rewrite Hperm, elem_of_seq, length_fmap. apply lookup_lt_Some in Hi. lia. }
    rewrite foldl_app. cbn. rewrite Hi, decide_True by done. apply fold_untouched, Forall_forall.
    intros j Hj ed' Hed'. apply (Hother j); [done|]. intros ->.
    assert (NoDup (pre ++ i :: post)) as Hnd by (rewrite Hperm; apply NoDup_seq).
    apply NoDup_app in Hnd as (_ & _ & Hnd). by apply NoDup_cons in Hnd as [? _].
  - intros Hno. rewrite run_overrides_lookup. apply fold_untouched, Forall_forall. intros j _ ed'. apply Hno.
Qed.

(** The dashboard shows what the engine enforces: outside log-only mode a
    rule blocks exactly when its line in [ListRules] is enabled with the action
    block; and an override can be set exactly for the rules listed, with an
    empty, block or log action. *)
Theorem dashboard_agrees_with_engine e r :
  r ∈ rs_all (en_ruleSet e) -> en_defaultAction e <> "log-only" ->
  let info := rule_info (en_overrides e) r in
  info ∈ ListRules e /\
  (effective_action e r = Some ActionBlock <-> ri_Enabled info = true /\ ri_Action info = ActionBlock) /\
  (forall id en ac, (SetOverride e id en ac).1 = Ok tt <->
     id ∈ (ri_ID <$> ListRules e) /\ ac ∈ ["" : string; ActionBlock; ActionLog]).
Proof.
  intros Hr Hd info. apply String.eqb_neq in Hd. split_and!.
  - by apply list_elem_of_fmap_2.
  - unfold effective_action, info, rule_info. rewrite Hd. destruct (en_overrides e !! ru_ID r) as [o|]; cbn;
      [destruct (ov_enabled o); cbn|]; (split; [intros [= E]|intros [E1 E2]]; try split; congruence).
  - intros id en ac. unfold SetOverride, known_rule.
    assert (existsb (fun r => ru_ID r =? id) (rs_all (en_ruleSet e)) = true <-> id ∈ (ri_ID <$> ListRules e)) as Hex.
    { unfold ListRules. rewrite <- list_fmap_compose, list_elem_of_fmap, existsb_exists. setoid_rewrite Z.eqb_eq.
      setoid_rewrite <- list_elem_of_In. assert (forall x, (ri_ID ∘ rule_info (en_overrides e)) x = ru_ID x) as Hid.
      { intros x. cbn. unfold rule_info. by destruct (en_overrides e !! ru_ID x). }
      split; intros (x & H1 & H2); exists x; rewrite Hid in *; done. }
    rewrite <- Hex. rewrite !elem_of_cons, elem_of_nil.
    destruct (String.eqb_spec ac ""), (String.eqb_spec ac ActionBlock), (String.eqb_spec ac ActionLog); cbn;
      destruct (existsb _ _); cbn; clear Hex Hd Hr info; intuition congruence.
Qed.

Context `{Files} `{!RulesYaml}.

(** A reload that fails changes nothing; one that succeeds swaps the rules
    and keeps every override, the body limit and the default action. *)
Theorem engine_reload e path :
  (forall err, (EngineReload e path).1 = Err err -> (EngineReload e path).2 = e) /\
  ((EngineReload e path).1 = Ok tt -> exists rs, LoadRuleSet path = Ok rs /\
     (EngineReload e path).2 = mkEngine rs (en_overrides e) (en_maxBodyBytes e) (en_defaultAction e)).
Proof. unfold EngineReload. destruct (LoadRuleSet path) as [rs|err]; cbn; split; try done. intros _. by exists rs. Qed.

End Overrides.

(** ** What the query rules see *)

Section Query.
Context `{RegexpLib}.

Lemma unescape_malformed plus s : unescape plus (s ++ to_bytes "%zz") = None.
Proof.
  induction s as [s IH] using (induction_ltof1 _ length). unfold ltof in IH.
  destruct s as [|c s]; [done|]. cbn [app unescape].
  destruct (byte_eqb c "%"); [|destruct (byte_eqb c "+" && plus); rewrite IH by (cbn; lia); done].
  destruct s as [|a [|b s]]; cbn [app]; [done| |].
  - cbn. destruct (hexval a); done.
  - destruct (hexval a), (hexval b); try done. rewrite IH by (cbn; lia). done.
Qed.

(** One malformed escape anywhere switches the decoding off for the whole
    query: with [&%zz] appended, the query rules are matched against the raw,
    still percent-encoded string, whatever else it holds. *)
Theorem malformed_escape_hides_query r q :
  r_rawquery r = q +:+ "&%zz" -> decoded_query r = r_rawquery r.
Proof.
  intros Hq. unfold decoded_query, QueryUnescape. rewrite Hq.
  replace (q +:+ "&%zz") with ((q +:+ "&") +:+ "%zz").
  - by rewrite to_bytes_app, unescape_malformed.
  - apply append_assoc.
Qed.

End Query.

(** ** Concrete inputs: patterns are substrings *)

Module Demo.

Fixpoint contains (p s : bytes) : bool :=
  starts_with p s || match s with [] => false | _ :: s' => contains p s' end.

#[export] Instance regexp : RegexpLib := {|
  Regexp := string;
  regexp_Compile := fun p => if String.eqb p "(" then None else Some p;
  MatchString := fun p s => contains (to_bytes p) (to_bytes s) |}.

#[export] Instance order : MapOrder :=
  {| map_order A m := map_to_list m; map_order_perm A m := reflexivity _ |}.

Definition rules : list Rule :=
  [mkRule 1001 "xss" "high" "block" "script tag" ["query"; "body"] "<script>" None;
   mkRule 1002 "scanner" "low" "log" "sqlmap" ["headers:user-agent"] "sqlmap" None].

#[export] Instance files : Files := {| os_Open := fun p => if String.eqb p "/rules.yaml" then Some "rules" else None |}.
#[export] Instance yaml : RulesYaml := {| yaml_DecodeRules := fun _ => Some rules |}.

Definition cfg : WAFConfig := mkWAFConfig true "/rules.yaml" (mkBodyInspectionConfig 131072) "block".

Definition ruleset : RuleSet :=
  match LoadRuleSet "/rules.yaml" with Ok rs => rs | Err _ => empty_RuleSet end.

Lemma ruleset_loaded : LoadRuleSet "/rules.yaml" = Ok ruleset.
Proof. vm_compute. reflexivity. Qed.

Lemma ruleset_grouped : grouped ruleset.
Proof. exact (LoadRuleSet_grouped "/rules.yaml" ruleset ruleset_loaded). Qed.

Definition engine (default_action : string) : Engine := mkEngine ruleset ∅ 131072 default_action.

Definition request (query : string) : Request :=
  mkRequest "GET" "/search" query "shop.example" "192.0.2.1:5000" ∅ (BodyReader (mkReader (to_bytes "hello") false))
    5 None None.

Definition attack : string := "q=%3Cscript%3E".

End Demo.

Section Witnesses.
Import Demo.

Lemma LoadRuleSet_spec_witness : rules_ok Demo.rules /\ rs_all ruleset = compile_rule <$> Demo.rules.
Proof.
  destruct (LoadRuleSet_spec "/rules.yaml" "rules" Demo.rules) as [Hok Hrs]; [reflexivity|reflexivity|split].
  - apply Hok. vm_compute. reflexivity.
  - apply (Hrs ruleset). exact ruleset_loaded.
Defined.

(** A query is decoded before it is matched; the request is blocked. *)
Lemma inspect_exact_witness :
  exists m, (Inspect (engine "block") (request attack)).1 = Ok (Some m) /\
    violated_by (engine "block") (request attack) (Some "hello") m.
Proof.
  pose proof (inspect_exact (engine "block") (request attack) ruleset_grouped) as Hv.
  destruct ((Inspect (engine "block") (request attack)).1) as [[m|]|err] eqn:E.
  - exists m. split; [reflexivity|exact Hv].
  - vm_compute in E. discriminate E.
  - vm_compute in E. discriminate E.
Defined.

Lemma inspect_keeps_body_witness : (Inspect (engine "block") (request "q=shoes")).2 = request "q=shoes".
Proof.
  apply (inspect_keeps_body (engine "block") (request "q=shoes") None). vm_compute. reflexivity.
Defined.

Lemma log_only_never_blocks_witness :
  ~ exists m, (Inspect (engine "log-only") (request attack)).1 = Ok (Some m).
Proof.
  intros [m Hm]. exact (log_only_never_blocks (engine "log-only") (request attack) m ruleset_grouped eq_refl Hm).
Defined.

Definition demo_world : World Engine := mkWorld [] [] (fresh_conn true) 0 (fun _ => 0) (engine "block").
Definition demo_next : Handler Engine := fun rw _ w => WriteHeader rw StatusOK w.

Lemma waf_stage_spec_witness :
  c_status (conn (WafMiddleware demo_next ConnWriter (request attack) demo_world)) = 403 /\
  c_status (conn (WafMiddleware demo_next ConnWriter (request "q=shoes") demo_world)) = 200 /\
  (exists r, violated_by (engine "block") (request attack) (Some "hello") r).
Proof.
  split; [vm_compute; reflexivity|]. split; [vm_compute; reflexivity|].
  destruct (waf_stage_spec demo_next ConnWriter (request attack) demo_world) as [[_ Hn]|[[[_ (rd & Hrd & Hf & _)] _]|(r & Hr & _)]].
  - exact ruleset_grouped.
  - exfalso. apply (f_equal (fun w => c_status (conn w))) in Hn. vm_compute in Hn. discriminate Hn.
  - exfalso. injection Hrd as <-. discriminate Hf.
  - exists r. exact Hr.
Defined.

Definition demo_edits : list override_edit := [EditSet 1001 false ""; EditClear 1002].

Definition demo_done : config (gmap Z override) unit :=
  Atomics.mkConfig [∅; {[ 1001 := mkOverride false "" ]}] 1 [Done tt; Done tt].

Lemma demo_done_reachable : rtc step (init ∅ (override_loop <$> demo_edits)) demo_done.
Proof.
  eapply rtc_l; [eapply (step_load _ _ _ 0); reflexivity|].
  eapply rtc_l; [eapply (step_load _ _ _ 1); reflexivity|].
  eapply rtc_l; [eapply (step_return _ _ _ 1); reflexivity|].
  eapply rtc_l; [eapply (step_cas_ok _ _ _ 0); reflexivity|]. apply rtc_refl.
Qed.

Lemma concurrent_overrides_kept_witness :
  exists m', current demo_done = Some m' /\ m' !! 1001 = Some (mkOverride false "").
Proof.
  destruct (concurrent_overrides_kept ∅ demo_edits demo_done 0 (EditSet 1001 false "") 7) as (m' & Hc & Hk & _).
  - exact demo_done_reachable.
  - repeat constructor; eexists; reflexivity.
  - reflexivity.
  - exists m'. split; [exact Hc|]. apply Hk. intros [|[|j]] ed' Hj Hne; try done. by injection Hj as <-.
Defined.

Lemma dashboard_agrees_with_engine_witness :
  exists r, r ∈ rs_all ruleset /\ (SetOverride (engine "block") (ru_ID r) false "").1 = Ok tt.
Proof.
  destruct (rs_all ruleset) as [|r rs] eqn:E; [vm_compute in E; discriminate E|].
  exists r. split; [constructor|].
  destruct (dashboard_agrees_with_engine (engine "block") r) as (Hin & _ & Hset).
  - cbn. rewrite E. constructor.
  - discriminate.
  - apply Hset. split; [|left]. rewrite <- (eq_refl : ri_ID (rule_info (en_overrides (engine "block")) r) = ru_ID r).
    apply list_elem_of_fmap_2. exact Hin.
Defined.

(** The same attack, with a malformed escape after it, is let through. *)
Lemma malformed_escape_hides_query_witness :
  decoded_query (request (attack +:+ "&%zz")) = attack +:+ "&%zz" /\
  (Inspect (engine "block") (request (attack +:+ "&%zz"))).1 = Ok None.
Proof.
  split; [|vm_compute; reflexivity].
  exact (malformed_escape_hides_query (request (attack +:+ "&%zz")) attack eq_refl).
Defined.

End Witnesses.
