(* ===== verification/AccessLog.v ===== *)
(** * internal/log: the ring buffer, the access log and its middleware

    entry.go, ring.go and access.go.  The JSON lines written through slog are
    the entries in order ([al_lines]); opening the file is a parameter. *)
From Corelib Require Import SpecFloat.
From S2P Require Import Prelude GoStrings Floats Netip Config Http Middleware.

(** ** ring.go *)

Section Ring.
Context {E : Type}.

Record RingBuffer := mkRing {
  rb_entries : list (option E);        (* None: the zero Entry, never added *)
  rb_next : Z;
  rb_size : Z
}.

Definition NewRingBuffer (capacity : Z) : RingBuffer :=
  let capacity := if capacity <=? 0 then 1000 else capacity in
  mkRing (replicate (Z.to_nat capacity) None) 0 0.

Definition ring_cap (rb : RingBuffer) : Z := Z.of_nat (length (rb_entries rb)).

(** [None] is an index out of range. *)
Definition ring_Add (e : E) (rb : RingBuffer) : option RingBuffer :=
  let cap := ring_cap rb in
  if (0 <=? rb_next rb) && (rb_next rb <? cap) then
    Some (mkRing (<[Z.to_nat (rb_next rb) := Some e]> (rb_entries rb))
            (Z.rem (rb_next rb + 1) cap)
            (if rb_size rb <? cap then rb_size rb + 1 else rb_size rb))
  else None.

(** The loop of [Recent], with [n] turns left. *)
Fixpoint recent_loop (rb : RingBuffer) (limit : Z) (keep : E -> bool) (n : nat) (i : Z) (out : list E)
    : option (list E) :=
  match n with
  | O => Some out
  | S n' =>
      let idx := Z.rem (rb_next rb - 1 - i + ring_cap rb) (ring_cap rb) in
      match rb_entries rb !! Z.to_nat idx with
      | Some (Some e) =>
          if keep e then
            let out := out ++ [e] in
            if (0 <? limit) && (limit <=? Z.of_nat (length out)) then Some out
            else recent_loop rb limit keep n' (i + 1) out
          else recent_loop rb limit keep n' (i + 1) out
      | _ => None
      end
  end.

Definition ring_Recent (limit : Z) (keep : E -> bool) (rb : RingBuffer) : option (list E) :=
  recent_loop rb limit keep (Z.to_nat (rb_size rb)) 0 [].

(** ** Specification: the last entries of the history, newest first *)

Definition limited {A} (limit : Z) (l : list A) : list A := if 0 <? limit then take (Z.to_nat limit) l else l.

Definition recent_spec (cap : nat) (limit : Z) (keep : E -> bool) (history : list E) : list E :=
  limited limit (filter (fun e => keep e = true) (take cap (reverse history))).

Definition ring_wf (rb : RingBuffer) (history : list E) : Prop :=
  0 < ring_cap rb /\
  rb_next rb = Z.of_nat (length history) mod ring_cap rb /\
  rb_size rb = Z.min (Z.of_nat (length history)) (ring_cap rb) /\
  forall j e, history !! j = Some e -> Z.of_nat (length history) - ring_cap rb <= Z.of_nat j ->
    rb_entries rb !! Z.to_nat (Z.of_nat j mod ring_cap rb) = Some (Some e).

Lemma new_ring_wf capacity : ring_wf (NewRingBuffer capacity) [].
Proof.
  unfold NewRingBuffer, ring_wf, ring_cap. cbn. rewrite length_replicate.
  destruct (Z.leb_spec capacity 0); split_and!; try done; lia.
Qed.

Lemma ring_Add_wf e rb history :
  ring_wf rb history ->
  exists rb', ring_Add e rb = Some rb' /\ ring_wf rb' (history ++ [e]) /\ ring_cap rb' = ring_cap rb.
Proof.
  intros (Hc & Hn & Hs & Hl). unfold ring_Add.
  pose proof (Z.mod_pos_bound (Z.of_nat (length history)) (ring_cap rb) Hc) as Hb. rewrite <- Hn in Hb.
  replace ((0 <=? rb_next rb) && (rb_next rb <? ring_cap rb)) with true by lia.
  eexists. split; [done|].
  assert (ring_cap (mkRing (<[Z.to_nat (rb_next rb):=Some e]> (rb_entries rb))
     (Z.rem (rb_next rb + 1) (ring_cap rb)) (if rb_size rb <? ring_cap rb then rb_size rb + 1 else rb_size rb)) = ring_cap rb) as Hcap
    by (unfold ring_cap; cbn; by rewrite length_insert).
  split; [|done]. unfold ring_wf. rewrite !Hcap, length_app. cbn [rb_next rb_size rb_entries length]. split_and!.
  - done.
  - rewrite Z.rem_mod_nonneg by lia. rewrite Hn, Z.add_mod_idemp_l by lia. f_equal. lia.
  - rewrite Hs. destruct (Z.ltb_spec (Z.min (Z.of_nat (length history)) (ring_cap rb)) (ring_cap rb)); lia.
  - intros j e' Hj Hge. pose proof (lookup_lt_Some _ _ _ Hj) as Hlt. rewrite length_app in Hlt. cbn in Hlt.
    destruct (decide (j = length history)) as [->|Hne].
    + rewrite list_lookup_middle in Hj by done. injection Hj as <-. rewrite <- Hn.
      apply list_lookup_insert_eq. unfold ring_cap in *. lia.
    + rewrite lookup_app_l in Hj by lia. rewrite list_lookup_insert_ne; [apply Hl; [done|lia]|].
      intros Heq. apply Z2Nat.inj in Heq; [|lia|apply Z.mod_pos_bound; lia].
      rewrite Hn in Heq. pose proof (Z.div_mod (Z.of_nat j) (ring_cap rb) ltac:(lia)) as D1.
      pose proof (Z.div_mod (Z.of_nat (length history)) (ring_cap rb) ltac:(lia)) as D2.
      rewrite Heq in D2. set (q1 := Z.of_nat j / _) in *. set (q2 := Z.of_nat (length history) / _) in *.
      assert (ring_cap rb * (q2 - q1) = Z.of_nat (length history) - Z.of_nat j) by lia.
      assert (0 < q2 - q1 < 1) by nia. lia.
Qed.

(** The slot read at turn [i] holds the entry [i] places before the newest. *)
Lemma recent_slot rb history i e :
  ring_wf rb history -> 0 <= i < rb_size rb -> reverse history !! Z.to_nat i = Some e ->
  rb_entries rb !! Z.to_nat (Z.rem (rb_next rb - 1 - i + ring_cap rb) (ring_cap rb)) = Some (Some e).
Proof.
  intros (Hc & Hn & Hs & Hl) Hi He.
  rewrite reverse_lookup in He by lia.
  specialize (Hl _ _ He ltac:(lia)). rewrite <- Hl. do 2 f_equal.
  pose proof (Z.mod_pos_bound (Z.of_nat (length history)) (ring_cap rb) Hc).
  rewrite Z.rem_mod_nonneg by lia. rewrite Hn.
  replace (Z.of_nat (length history) mod ring_cap rb - 1 - i + ring_cap rb)
    with (Z.of_nat (length history) mod ring_cap rb + (ring_cap rb - 1 - i)) by lia.
  rewrite Z.add_mod_idemp_l by lia.
  replace (Z.of_nat (length history) + (ring_cap rb - 1 - i))
    with (Z.of_nat (length history - S (Z.to_nat i)) + 1 * ring_cap rb) by lia.
  apply Z.mod_add. lia.
Qed.

Lemma limited_app_short {A} limit (out l : list A) :
  (0 < limit -> Z.of_nat (length out) < limit) -> limited limit (out ++ l) = out ++ (if 0 <? limit then take (Z.to_nat limit - length out) l else l).
Proof.
  unfold limited. intros Hlt. destruct (Z.ltb_spec 0 limit); [|done].
  specialize (Hlt ltac:(done)). by rewrite take_app, (take_ge out) by lia.
Qed.

Lemma recent_loop_spec rb history limit keep n : forall i out,
  ring_wf rb history -> 0 <= i -> i + Z.of_nat n = rb_size rb ->
  (0 < limit -> Z.of_nat (length out) < limit) ->
  recent_loop rb limit keep n i out =
    Some (limited limit (out ++ filter (fun e => keep e = true) (take n (drop (Z.to_nat i) (reverse history))))).
Proof.
  induction n as [|n IH]; intros i out Hwf Hi Hn Hout.
  { cbn. rewrite ?filter_nil, app_nil_r. f_equal. unfold limited. destruct (Z.ltb_spec 0 limit); [|done].
    rewrite take_ge; [done|]. specialize (Hout ltac:(done)). lia. }
  destruct (reverse history !! Z.to_nat i) as [e|] eqn:He.
  2: { apply lookup_ge_None in He. rewrite length_reverse in He. destruct Hwf as (_ & _ & Hs & _). lia. }
  assert (0 <= i < rb_size rb) as Hir by lia.
  cbn [recent_loop]. rewrite (recent_slot rb history i e Hwf Hir He).
  rewrite (drop_S _ _ _ He). cbn [take]. rewrite filter_cons.
  replace (S (Z.to_nat i)) with (Z.to_nat (i + 1)) by lia.
  destruct (keep e) eqn:Hk.
  - rewrite decide_True by done.
    destruct ((0 <? limit) && (limit <=? Z.of_nat (length (out ++ [e])))) eqn:Hlim.
    + f_equal. rewrite length_app in Hlim. cbn [length] in Hlim. apply andb_prop in Hlim as [H1 H2].
      specialize (Hout ltac:(lia)). unfold limited. rewrite H1.
      assert (length (out ++ [e]) = Z.to_nat limit) as <-. { rewrite length_app. cbn [length]. clear -Hout H1 H2. apply Z.leb_le in H2. apply Z.ltb_lt in H1. lia. }
      match goal with |- context [e :: filter ?P ?l] => change (e :: filter P l) with ([e] ++ filter P l) end.
      by rewrite app_assoc, take_app_length.
    + rewrite IH; [by rewrite <- app_assoc|done|lia|lia|]. intros Hpos. apply andb_false_iff in Hlim as [?|?]; lia.
  - rewrite decide_False by congruence. apply IH; [done|lia|lia|done].
Qed.

Lemma ring_Recent_spec rb history limit keep :
  ring_wf rb history ->
  ring_Recent limit keep rb = Some (recent_spec (Z.to_nat (ring_cap rb)) limit keep history).
Proof.
  intros Hwf. unfold ring_Recent. pose proof Hwf as (Hc & _ & Hs & _).
  rewrite (recent_loop_spec rb history) by (done || lia). unfold recent_spec. cbn [app]. rewrite drop_0. do 3 f_equal.
  rewrite Hs. destruct (decide (Z.of_nat (length history) <= ring_cap rb)).
  - rewrite !take_ge by (rewrite length_reverse; lia). done.
  - f_equal. lia.
Qed.

Fixpoint add_all (es : list E) (rb : RingBuffer) : option RingBuffer :=
  match es with [] => Some rb | e :: es' => rb ← ring_Add e rb; add_all es' rb end.

Lemma add_all_wf es : forall rb history,
  ring_wf rb history ->
  exists rb', add_all es rb = Some rb' /\ ring_wf rb' (history ++ es) /\ ring_cap rb' = ring_cap rb.
Proof.
  induction es as [|e es IH]; intros rb history Hwf; cbn.
  { exists rb. by rewrite app_nil_r. }
  destruct (ring_Add_wf e rb history Hwf) as (rb1 & -> & Hwf1 & Hc1). cbn.
  destruct (IH _ _ Hwf1) as (rb2 & -> & Hwf2 & Hc2). exists rb2.
  rewrite <- app_assoc in Hwf2. split_and!; [done|done|congruence].
Qed.

(** C32. The ring buffer is the tail of the history: whatever was added, no
    operation panics, and [Recent] returns the newest [limit] (all, if the
    limit is not positive) of the last [capacity] entries that pass the filter,
    newest first; a capacity of zero or less means 1000. *)
Theorem ring_keeps_the_last_entries capacity es limit keep :
  exists rb, add_all es (NewRingBuffer capacity) = Some rb /\
    ring_Recent limit keep rb =
      Some (recent_spec (if capacity <=? 0 then 1000 else Z.to_nat capacity) limit keep es).
Proof.
  destruct (add_all_wf es _ _ (new_ring_wf capacity)) as (rb & Hadd & Hwf & Hc). exists rb. split; [done|].
  rewrite (ring_Recent_spec _ _ _ _ Hwf), Hc. do 2 f_equal. unfold ring_cap, NewRingBuffer. cbn.
  rewrite length_replicate. by destruct (capacity <=? 0); rewrite Nat2Z.id.
Qed.

End Ring.
Arguments RingBuffer : clear implicits.

(** ** entry.go *)

Record Entry := mkEntry {
  e_Timestamp : Z;
  e_ClientIP : string;
  e_Method : string;
  e_Path : string;
  e_Query : string;
  e_Host : string;
  e_Outcome : string;
  e_BlockReason : string;
  e_WAFRuleID : Z;
  e_WAFCategory : string;
  e_Upstream : string;
  e_UpstreamStatus : Z;
  e_StatusCode : Z;
  e_LatencyMS : spec_float;
  e_RequestBytes : Z;
  e_ResponseBytes : Z;
  e_UserAgent : string;
  e_TLSVersion : string;
  e_RequestID : string
}.

(** ** access.go *)

Record AccessLog := mkAccessLog {
  al_level : Z;                        (* slog levels: debug -4, info 0, warn 4, error 8 *)
  al_ring : RingBuffer Entry;
  al_file : option string;             (* closer: the file opened *)
  al_lines : list Entry                (* the lines written, oldest first *)
}.

Definition parseLevel (level : string) : Z :=
  if String.eqb level "debug" then -4
  else if String.eqb level "warn" then 4
  else if String.eqb level "error" then 8
  else 0.

(** Whether the access-log file opens for appending. *)
Class AppendFiles := { os_OpenFile : string -> bool }.

Definition New `{AppendFiles} (cfg : LogConfig) : result AccessLog :=
  if negb (String.eqb (lg_AccessLogPath cfg) "") && negb (String.eqb (lg_AccessLogPath cfg) "-") then
    if os_OpenFile (lg_AccessLogPath cfg) then
      Ok (mkAccessLog (parseLevel (lg_Level cfg)) (NewRingBuffer (lg_RingBufferSize cfg))
            (Some (lg_AccessLogPath cfg)) [])
    else Err (Errorw "log: open access log file: %w" [] (LibError "os.OpenFile"))
  else Ok (mkAccessLog (parseLevel (lg_Level cfg)) (NewRingBuffer (lg_RingBufferSize cfg)) None []).

(** [AccessLog.Close] closes the file it opened, if any: the file closed. *)
Definition Close (a : AccessLog) : option string := al_file a.

(** The filter of [Recent]: outcome and reason, [""] for no restriction. *)
Definition recent_filter (outcome reason : string) (e : Entry) : bool :=
  if negb (String.eqb outcome "") && negb (String.eqb (e_Outcome e) outcome) then false
  else if negb (String.eqb reason "") && negb (String.eqb (e_BlockReason e) reason) then false
  else true.

Definition Recent (limit : Z) (outcome reason : string) (a : AccessLog) : option (list Entry) :=
  ring_Recent limit (recent_filter outcome reason) (al_ring a).

(** A line at level info; the handler drops it when its level is higher. *)
Definition logEntry (e : Entry) (a : AccessLog) : AccessLog :=
  if al_level a <=? 0 then mkAccessLog (al_level a) (al_ring a) (al_file a) (al_lines a ++ [e]) else a.

Definition add_entry (e : Entry) (a : AccessLog) : option AccessLog :=
  ring ← ring_Add e (al_ring a);
  Some (logEntry e (mkAccessLog (al_level a) ring (al_file a) (al_lines a))).

(** [float64(latency.Microseconds()) / 1000.0] *)
Definition latency_ms (latency : Z) : spec_float := fdiv (float64 (Z.quot latency 1000)) (float64 1000).

(** [tls.VersionName] *)
Definition VersionName (v : Z) : string :=
  if v =? 0x0300 then "SSLv3" else if v =? 0x0301 then "TLS 1.0" else if v =? 0x0302 then "TLS 1.1"
  else if v =? 0x0303 then "TLS 1.2" else if v =? 0x0304 then "TLS 1.3"
  else "0x" +:+ of_bytes (upper_byte <$> to_bytes (EncodeToString [v / 256; v mod 256])).

Definition make_entry (start latency : Z) (r : Request) (snap : Snapshot) (sr : StatusRecorder)
    (requestID : string) : Entry :=
  mkEntry start
    (if IsValid (s_ClientIP snap) then Addr_String (s_ClientIP snap) else "")
    (r_method r) (r_path r) (r_rawquery r) (r_host r)
    (s_Outcome snap) (s_BlockReason snap) (s_WAFRuleID snap) (s_WAFCategory snap)
    (s_Upstream snap) (s_UpstreamStatus snap)
    (Status sr) (latency_ms latency) (r_contentlength r) (Bytes sr)
    (Header_Get (r_header r) "User-Agent")
    (match r_tls r with Some v => VersionName v | None => "" end)
    requestID.

Definition snapshot_of (r : Request) {C} (w : World C) : Snapshot :=
  match RecorderFrom r w with Some (_, rec) => Snapshot_of rec | None => zero_Snapshot end.

Definition AccessMiddleware {C} `{!Part AccessLog C} : Middleware C := fun next rw r w =>
  let start := clock w in
  let '(id, w) := match RecorderFrom r w with
                  | Some (_, rec) => (requestID rec, SetHeader rw "X-Request-ID" (requestID rec) w)
                  | None => ("", w)
                  end in
  let l := length (statuses w) in
  let '(sw, w) := WrapStatusRecorder rw w in
  let w := next sw r w in
  if panicking w then w
  else
    let latency := clock w - start in
    let sr := default (mkStatusRecorder StatusOK 0 false) (statuses w !! l) in
    let entry := make_entry start latency r (snapshot_of r w) sr id in
    match add_entry entry (part (comp w)) with
    | Some a => upd_comp (set_part a) w
    | None => w                          (* never: the ring is well formed *)
    end.

(** ** The middleware logs each request once, unless its handler panics *)

Definition access_wf (a : AccessLog) : Prop := exists history, ring_wf (al_ring a) history.

Lemma New_access_wf `{AppendFiles} cfg a : New cfg = Ok a -> access_wf a.
Proof.
  unfold New. intros Hn. exists []. destruct (_ && _); [destruct (os_OpenFile _); [|done]|];
    injection Hn as <-; apply new_ring_wf.
Qed.

Lemma add_entry_wf e a : access_wf a -> exists a', add_entry e a = Some a' /\ access_wf a'.
Proof.
  intros [h Hh]. destruct (ring_Add_wf e _ _ Hh) as (rb & Hadd & Hwf & _). unfold add_entry. rewrite Hadd. cbn.
  eexists. split; [done|]. exists (h ++ [e]). unfold logEntry. cbn. by destruct (al_level a <=? 0).
Qed.

Lemma add_entry_keeps e a a' : access_wf a -> add_entry e a = Some a' -> access_wf a'.
Proof. intros Ha Hadd. destruct (add_entry_wf e a Ha) as (a1 & Hadd' & Hwf). congruence. Qed.

(** What the dashboard reads after a request: the request's entry first. *)
Lemma add_entry_recent e a a' history :
  ring_wf (al_ring a) history -> add_entry e a = Some a' ->
  Recent 1 "" "" a' = Some [e].
Proof.
  intros Hwf Hadd. destruct (ring_Add_wf e _ _ Hwf) as (rb & Hr & Hwf' & Hc).
  unfold add_entry in Hadd. rewrite Hr in Hadd. cbn in Hadd. injection Hadd as <-.
  unfold Recent, logEntry. assert (al_ring (if al_level a <=? 0 then mkAccessLog (al_level a) rb (al_file a) (al_lines a ++ [e])
    else mkAccessLog (al_level a) rb (al_file a) (al_lines a)) = rb) as Hrb by (by destruct (al_level a <=? 0)).
  cbn in Hrb |- *. rewrite Hrb, (ring_Recent_spec _ _ _ _ Hwf'). f_equal. unfold recent_spec.
  rewrite reverse_app. cbn. destruct Hwf as (Hpos & _). rewrite Hc. destruct (Z.to_nat (ring_cap (al_ring a))) eqn:E; [lia|].
  done.
Qed.
