(* ===== verification/Proxy.v ===== *)
(** * internal/proxy: upstream selection, the circuit breaker and the retry

    proxy.go.  [net/http]'s transport is a parameter ([Transport]): what a round
    trip to an upstream returns, how long it takes and what it leaves of the
    request body.  [rp_ServeHTTP] is [httputil.ReverseProxy]'s handler with the
    proxy's three functions in it: [rewrite] (Httputil), the [ModifyResponse]
    hook and the error handler. *)
From S2P Require Import Prelude GoStrings Netip Config Http Httputil Middleware.

(** ** Upstreams and the passive health check *)

Definition failureThreshold : Z := 3.
Definition downCooldown : Z := 30 * Second.

Record upstream := mkUpstream {
  up_url : URL;
  failureCount : Z;          (* atomic.Int32 *)
  downUntil : Z              (* atomic.Int64: unix nano; 0 or in the past means healthy *)
}.

Definition healthy (u : upstream) (now : Z) : bool :=
  let until := downUntil u in (until =? 0) || (until <=? int64 now).

Definition recordSuccess (u : upstream) : upstream := mkUpstream (up_url u) 0 0.

Definition recordFailure (now : Z) (u : upstream) : upstream :=
  let n := int32 (failureCount u + 1) in
  mkUpstream (up_url u) n (if failureThreshold <=? n then int64 (now + downCooldown) else downUntil u).

(** ** The proxy *)

Record Proxy := mkProxy { px_upstreams : list upstream; px_next : Z (* atomic.Uint64 *) }.

Class UrlParse := { url_Parse : string -> option URL }.

Fixpoint parse_upstreams `{UrlParse} (addrs : list string) : result (list upstream) :=
  match addrs with
  | [] => Ok []
  | addr :: addrs' =>
      let! u := wrap_err "proxy: invalid upstream address %q: %w" [addr] (of_lib "url.Parse" (url_Parse addr)) in
      let! us := parse_upstreams addrs' in
      Ok (mkUpstream u 0 0 :: us)
  end.

Definition New `{UrlParse} (cfg : UpstreamConfig) : result Proxy :=
  match uc_Addresses cfg with
  | [] => Err (Errorf "proxy: at least one upstream address is required" [])
  | addrs => let! us := parse_upstreams addrs in Ok (mkProxy us 0)
  end.

Definition upd_upstream (i : nat) (f : upstream -> upstream) (p : Proxy) : Proxy :=
  mkProxy (alter f i (px_upstreams p)) (px_next p).

(** The loop of [pick] from its [i]-th turn, with [k] turns left. *)
Fixpoint pick_scan (us : list upstream) (now start i : Z) (k : nat) : option nat :=
  match k with
  | O => None
  | S k' =>
      let j := Z.to_nat (uint64 (start + i) mod Z.of_nat (length us)) in
      match us !! j with
      | Some u => if healthy u now then Some j else pick_scan us now start (i + 1) k'
      | None => None                     (* never: j is in range *)
      end
  end.

Definition pick (p : Proxy) (now : Z) : option nat * Proxy :=
  match px_upstreams p with
  | [] => (None, p)
  | us =>
      let start := uint64 (px_next p + 1) in
      let p := mkProxy us start in
      match pick_scan us now start 0 (length us) with
      | Some j => (Some j, p)
      | None => (Some (Z.to_nat (start mod Z.of_nat (length us))), p)
      end
  end.

Fixpoint other_scan (us : list upstream) (now : Z) (exclude j : nat) : option nat :=
  match us with
  | [] => None
  | u :: us' => if negb (Nat.eqb j exclude) && healthy u now then Some j else other_scan us' now exclude (S j)
  end.

Definition pickOtherThan (p : Proxy) (exclude : nat) (now : Z) : option nat :=
  other_scan (px_upstreams p) now exclude 0.

Definition isRetryable (r : Request) : bool :=
  ((r_contentlength r =? 0) && match r_body r with NoBody => true | _ => false end)
  || existsb (String.eqb (r_method r)) ["GET"; "HEAD"; "OPTIONS"].

(** ** Round trips *)

(** What [errors.As] and [errors.Is] find in a round-trip error. *)
Record NetError := mkNetError { ne_timeout : bool; ne_refused : bool; ne_dial : bool }.

Definition classifyUpstreamError (err : NetError) : string :=
  if ne_timeout err then "timeout"
  else if ne_refused err then "connection-refused"
  else if ne_dial err then "dial-error"
  else "other".

Record Response := mkResponse {
  rs_status : Z;
  rs_header : Header;
  rs_body : list bytes;          (* as it is read *)
  rs_complete : bool             (* the body was read to its end *)
}.

Inductive round_trip_result : Type :=
  | Responded (res : Response)
  | Failed (err : NetError).

(** What happens on a round trip: the 1xx responses on the way, the result, the
    time it took, and what is left of the body that was sent. *)
Record Exchange := mkExchange {
  ex_early : list (Z * Header);
  ex_result : round_trip_result;
  ex_time : Z;
  ex_rest : Body
}.

(** [RoundTrip host req now] *)
Class Transport := { RoundTrip : string -> Request -> Z -> Exchange }.

Section Serve.
Context `{Transport} {C : Type} `{!Part Proxy C}.

Definition upd_clock (dt : Z) (w : World C) : World C :=
  mkWorld (recorders w) (statuses w) (conn w) (clock w + dt) (entropy w) (comp w).

Definition upstream_of (u : nat) (w : World C) : option upstream := px_upstreams (part (comp w)) !! u.

Definition upstreamAddr (u : nat) (w : World C) : string :=
  match upstream_of u w with Some up => u_Host (up_url up) | None => "" end.

Definition with_recorder (r : Request) (f : Recorder -> Recorder) (w : World C) : World C :=
  match RecorderFrom r w with Some (loc, _) => at_recorder loc f w | None => w end.

Definition at_upstream (u : nat) (f : upstream -> upstream) (w : World C) : World C :=
  upd_comp (fun c => set_part (upd_upstream u f (part c)) c) w.

(** [Proxy.recordSuccess], the [ModifyResponse] hook. *)
Definition hook_success (u : nat) (r : Request) (status : Z) (w : World C) : World C :=
  let w := at_upstream u recordSuccess w in
  with_recorder r (SetUpstream (upstreamAddr u w) status) w.

(** [Got1xxResponse]: an early response is passed on with its headers, which are
    then cleared. *)
Definition pass_early (rw : ResponseWriter) (early : list (Z * Header)) (w : World C) : World C :=
  foldl (fun w e => UpdHeader rw (fun _ => ∅) (WriteHeader rw e.1 (UpdHeader rw (copyHeader e.2) w))) w early.

(** The copy of the body: whether every byte read was taken. *)
Fixpoint write_all (rw : ResponseWriter) (body : list bytes) (w : World C) : bool * World C :=
  match body with
  | [] => (true, w)
  | b :: body' =>
      let '(n, w) := Write rw b w in
      if n =? Z.of_nat (length b) then write_all rw body' w else (false, w)
  end.

(** The response copied to the client; a copy that fails panics. *)
Definition respond (rw : ResponseWriter) (res : Response) (w : World C) : World C :=
  let w := UpdHeader rw (copyHeader (removeHopByHopHeaders (rs_header res))) w in
  let '(ok, w) := write_all rw (rs_body res) (WriteHeader rw (rs_status res) w) in
  if ok && rs_complete res then w else panic_abort w.

(** [handleUpgradeResponse]: whether the connection is handed over. *)
Definition upgrades (rw : ResponseWriter) (out : Request) (res : Response) (w : World C) : bool :=
  IsPrint (upgradeType (rs_header res)) &&
  EqualFold (upgradeType (r_header out)) (upgradeType (rs_header res)) && can_hijack rw w.

(** The end of [handleProxyError]: no retry. *)
Definition end_failed (u : nat) (err : NetError) (rw : ResponseWriter) (r : Request) (w : World C) : World C :=
  let w := with_recorder r (fun rec => SetUpstreamErrorReason (classifyUpstreamError err)
             (SetUpstream (upstreamAddr u w) StatusBadGateway (SetBlocked BlockReasonUpstreamError rec))) w in
  WriteHeader rw StatusBadGateway w.

(** The errors of an upgrade: a protocol that is not printable, protocols that
    differ, a writer that cannot be hijacked. *)
Definition upgrade_error : NetError := mkNetError false false false.

(** [rp.ServeHTTP] and its error hook [handleProxyError], which calls it again
    on the outgoing request; [None] is out of fuel. *)
Fixpoint rp_ServeHTTP (fuel : nat) (u : nat) (retry : bool) (rw : ResponseWriter) (r : Request) (w : World C)
    : option (World C) :=
  match fuel, upstream_of u w with
  | S fuel', Some up =>
      let handleProxyError (err : NetError) (out : Request) (w : World C) : option (World C) :=
        let w := at_upstream u (recordFailure (clock w)) w in
        let p : Proxy := part (comp w) in
        if retry && (1 <? length (px_upstreams p))%nat then
          match pickOtherThan p u (clock w) with
          | Some next => rp_ServeHTTP fuel' next false rw out w
          | None => Some (end_failed u err rw out w)
          end
        else Some (end_failed u err rw out w) in
      if negb (IsPrint (upgradeType (r_header r))) then handleProxyError upgrade_error r w
      else
        let out := rewrite (up_url up) r in
        let ex := RoundTrip (u_Host (up_url up)) out (clock w) in
        let w := pass_early rw (ex_early ex) (upd_clock (ex_time ex) w) in
        let out := with_body out (ex_rest ex) in
        match ex_result ex with
        | Failed err => handleProxyError err out w
        | Responded res =>
            let w := hook_success u out (rs_status res) w in
            if rs_status res =? 101 then
              if upgrades rw out res w then Some (WriteHeader rw 101 w)
              else handleProxyError upgrade_error out w
            else Some (respond rw res w)
        end
  | _, _ => None
  end.

Definition writeUnavailable (rw : ResponseWriter) (r : Request) (w : World C) : World C :=
  let w := with_recorder r (fun rec => SetUpstreamErrorReason "no-upstream-available"
             (SetBlocked BlockReasonUpstreamError rec)) w in
  WriteHeader rw StatusServiceUnavailable w.

(** The proxy's handler: at most two round trips. *)
Definition serveHTTP : Handler C := fun rw r w =>
  let '(u, p) := pick (part (comp w)) (clock w) in
  let w := upd_comp (set_part p) w in
  match u with
  | None => writeUnavailable rw r w
  | Some u => default w (rp_ServeHTTP 2 u (isRetryable r) rw r w)
  end.

End Serve.

(** ** The circuit breaker *)

Inductive up_event : Type :=
  | EvSuccess
  | EvFailure (now : Z).

Definition run_event (u : upstream) (ev : up_event) : upstream :=
  match ev with EvSuccess => recordSuccess u | EvFailure now => recordFailure now u end.
Definition run_events (u : upstream) (evs : list up_event) : upstream := foldl run_event u evs.

(** The failures since the last success, oldest first. *)
Definition streak (evs : list up_event) : list Z :=
  foldl (fun ts ev => match ev with EvSuccess => [] | EvFailure now => ts ++ [now] end) [] evs.

Definition event_in_range (ev : up_event) : Prop :=
  match ev with EvSuccess => True | EvFailure now => 0 <= now < 2 ^ 62 end.

Definition breaker_state (u : upstream) (ts : list Z) : Prop :=
  failureCount u = Z.of_nat (length ts) /\
  downUntil u = (if 3 <=? Z.of_nat (length ts) then default 0 (last ts) + downCooldown else 0).

Lemma streak_snoc evs ev :
  streak (evs ++ [ev]) = match ev with EvSuccess => [] | EvFailure now => streak evs ++ [now] end.
Proof. unfold streak. by rewrite foldl_app. Qed.

Lemma streak_length evs : (length (streak evs) <= length evs)%nat.
Proof.
  induction evs as [|ev evs IH] using rev_ind; [done|]. rewrite streak_snoc.
  destruct ev; rewrite ?length_app; cbn; lia.
Qed.

Lemma run_events_state url evs :
  Forall event_in_range evs -> Z.of_nat (length evs) < 2 ^ 31 ->
  breaker_state (run_events (mkUpstream url 0 0) evs) (streak evs).
Proof.
  induction evs as [|ev evs IH] using rev_ind; intros Hev Hlen; [done|].
  apply Forall_app in Hev as [Hevs Hev]. rewrite length_app in Hlen. cbn [length] in Hlen.
  specialize (IH Hevs ltac:(lia)). unfold run_events in *. rewrite foldl_app, streak_snoc. cbn [foldl].
  pose proof (streak_length evs). set (u := foldl run_event _ evs) in *. destruct IH as [Hc Hd].
  destruct ev as [|now]; cbn [run_event]; [done|].
  assert (int32 (failureCount u + 1) = Z.of_nat (length (streak evs ++ [now]))) as Hn.
  { rewrite length_app, Hc. cbn [length]. unfold int32. rewrite wrapS_id; lia. }
  unfold recordFailure, breaker_state. cbn [failureCount downUntil]. rewrite Hn. split; [done|].
  change failureThreshold with 3. rewrite last_snoc. cbn [default].
  apply Forall_cons in Hev as [Hnow _]. cbn in Hnow.
  destruct (Z.leb_spec 3 (Z.of_nat (length (streak evs ++ [now])))) as [Hge|Hlt].
  - unfold int64. rewrite wrapS_id; [done|lia|]. unfold downCooldown, Second. lia.
  - rewrite Hd. rewrite length_app in Hlt. cbn [length] in Hlt.
    destruct (Z.leb_spec 3 (Z.of_nat (length (streak evs)))); [lia|done].
Qed.

(** C18. The breaker: an upstream is down exactly when it has failed at least
    three times since its last success and less than 30 seconds have passed
    since the last failure, whatever the history of successes and failures. *)
Theorem breaker_spec url evs now :
  Forall event_in_range evs -> Z.of_nat (length evs) < 2 ^ 31 -> 0 <= now < 2 ^ 62 ->
  healthy (run_events (mkUpstream url 0 0) evs) now = false <->
  (3 <= length (streak evs))%nat /\ exists t, last (streak evs) = Some t /\ now < t + downCooldown.
Proof.
  intros Hev Hlen Hnow. destruct (run_events_state url evs Hev Hlen) as [_ Hd].
  assert (forall t, t ∈ streak evs -> 0 <= t) as Hpos.
  { clear Hlen Hd. induction evs as [|ev evs IH] using rev_ind; [set_solver|].
    apply Forall_app in Hev as [Hevs Hev]. apply Forall_cons in Hev as [Hev _]. rewrite streak_snoc.
    destruct ev as [|n]; [set_solver|]. intros t [Ht|Ht%list_elem_of_singleton]%elem_of_app; [by apply IH|subst; apply Hev]. }
  unfold healthy. rewrite Hd. unfold int64. rewrite (wrapS_id 64 now) by lia.
  destruct (Z.leb_spec 3 (Z.of_nat (length (streak evs)))) as [Hge|Hlt]; [|cbn; split; [done|lia]].
  destruct (last (streak evs)) as [t|] eqn:Hl; [|apply last_None in Hl; rewrite Hl in Hge; cbn in Hge; lia].
  assert (0 <= t) by (apply Hpos; apply last_Some in Hl as [l' ->]; set_solver). cbn [default].
  unfold downCooldown, Second. rewrite orb_false_iff, Z.eqb_neq, Z.leb_gt. split.
  - intros [_ Hd']. unfold id in Hd'. split; [lia|]. exists t. split; [done|lia].
  - intros (_ & t' & [= <-] & Ht). unfold id. lia.
Qed.

(** ** Round robin *)

Lemma pick_scan_some us now start i k j :
  pick_scan us now start i k = Some j -> exists u, us !! j = Some u /\ healthy u now = true.
Proof.
  revert i. induction k as [|k IH]; intros i; cbn; [done|].
  destruct (us !! Z.to_nat (uint64 (start + i) mod Z.of_nat (length us))) as [u|] eqn:Hu; [|done]. destruct (healthy u now) eqn:Hh; [|apply IH].
  intros [= <-]. by exists u.
Qed.

Lemma pick_scan_none us now start k : forall i,
  us <> [] -> pick_scan us now start i k = None ->
  forall d, 0 <= d < Z.of_nat k ->
  exists u, us !! Z.to_nat (uint64 (start + (i + d)) mod Z.of_nat (length us)) = Some u /\ healthy u now = false.
Proof.
  induction k as [|k IH]; intros i Hus; cbn; [lia|].
  assert (0 < Z.of_nat (length us)) as Hpos by (destruct us; [done|cbn; lia]).
  destruct (lookup_lt_is_Some_2 us (Z.to_nat (uint64 (start + i) mod Z.of_nat (length us)))) as [u Hu].
  { pose proof (Z.mod_pos_bound (uint64 (start + i)) _ Hpos). lia. }
  rewrite Hu. destruct (healthy u now) eqn:Hh; [done|]. intros Hp d Hd.
  destruct (decide (d = 0)) as [->|Hne]; [rewrite Z.add_0_r; by exists u|].
  specialize (IH (i + 1) Hus Hp (d - 1) ltac:(lia)). by replace (i + 1 + (d - 1)) with (i + d) in IH by lia.
Qed.

Lemma pick_next p now : px_upstreams p <> [] ->
  px_next (pick p now).2 = uint64 (px_next p + 1) /\ px_upstreams (pick p now).2 = px_upstreams p.
Proof.
  unfold pick. destruct (px_upstreams p) as [|u us]; [done|]. intros _.
  by destruct (pick_scan _ now _ 0 _).
Qed.

Lemma pick_finds_healthy_aux p now :
  px_upstreams p <> [] -> exists j u, (pick p now).1 = Some j /\ px_upstreams p !! j = Some u.
Proof.
  unfold pick. destruct (px_upstreams p) as [|u0 us0] eqn:Eus; [done|]. intros _. rewrite <- Eus in *.
  destruct (pick_scan _ now _ 0 _) as [j|] eqn:Hp; cbn.
  - destruct (pick_scan_some _ _ _ _ _ _ Hp) as (u & Hu & _). by exists j, u.
  - assert (0 < Z.of_nat (length (px_upstreams p))) as Hpos by (rewrite Eus; cbn; lia).
    pose proof (Z.mod_pos_bound (uint64 (px_next p + 1)) _ Hpos).
    destruct (lookup_lt_is_Some_2 (px_upstreams p)
      (Z.to_nat (uint64 (px_next p + 1) mod Z.of_nat (length (px_upstreams p))))) as [u Hu]; [lia|]. by eexists _, u.
Qed.

(** With at least one upstream a pick always names one; and, short of the
    counter's wrap-around, it names a healthy one as soon as there is any.  When
    all are down it still names one (the proxy fails open). *)
Lemma pick_finds_healthy p now :
  px_upstreams p <> [] ->
  exists j u, (pick p now).1 = Some j /\ px_upstreams p !! j = Some u /\
    (uint64 (px_next p + 1) + Z.of_nat (length (px_upstreams p)) <= 2 ^ 64 ->
     (exists i v, px_upstreams p !! i = Some v /\ healthy v now = true) -> healthy u now = true).
Proof.
  unfold pick. destruct (px_upstreams p) as [|u0 us0] eqn:Eus; [done|]. intros Hus. rewrite <- Eus in *. clear Eus u0 us0.
  set (us := px_upstreams p) in *. set (start := uint64 (px_next p + 1)).
  assert (0 < Z.of_nat (length us)) as Hpos by (destruct us; [done|cbn; lia]).
  assert (0 <= start < 2 ^ 64) as Hst by (apply wrapU_bound; lia).
  destruct (pick_scan us now start 0 (length us)) as [j|] eqn:Hp; cbn.
  - destruct (pick_scan_some _ _ _ _ _ _ Hp) as (u & Hu & Hh). by exists j, u.
  - pose proof (Z.mod_pos_bound start _ Hpos) as Hm.
    destruct (lookup_lt_is_Some_2 us (Z.to_nat (start mod Z.of_nat (length us)))) as [u Hu]; [lia|].
    exists (Z.to_nat (start mod Z.of_nat (length us))), u. split_and!; [done|done|].
    intros Hwrap (i & v & Hi & Hv). exfalso. pose proof (lookup_lt_Some _ _ _ Hi) as Hlt.
    set (d := (Z.of_nat i - start) mod Z.of_nat (length us)).
    pose proof (Z.mod_pos_bound (Z.of_nat i - start) _ Hpos) as Hd. fold d in Hd.
    destruct (pick_scan_none _ _ _ _ 0 Hus Hp d Hd) as (u' & Hu' & Hh').
    unfold uint64 in Hu'. rewrite wrapU_id in Hu' by lia. rewrite Z.add_0_l in Hu'.
    unfold d in Hu'. rewrite Z.add_mod_idemp_r in Hu' by lia.
    replace (start + (Z.of_nat i - start)) with (Z.of_nat i) in Hu' by lia.
    rewrite Z.mod_small, Nat2Z.id in Hu' by lia. congruence.
Qed.

(** Residues of a window of [n] consecutive numbers differ. *)
Lemma mod_window a n (x y : nat) :
  0 < n -> Z.of_nat x < n -> Z.of_nat y < n -> (a + Z.of_nat x) mod n = (a + Z.of_nat y) mod n -> x = y.
Proof.
  intros Hn Hx Hy Heq. pose proof (Z.div_mod (a + Z.of_nat x) n ltac:(lia)) as D1.
  pose proof (Z.div_mod (a + Z.of_nat y) n ltac:(lia)) as D2. rewrite Heq in D1.
  set (q1 := (a + Z.of_nat x) / n) in *. set (q2 := (a + Z.of_nat y) / n) in *.
  assert (n * (q1 - q2) = Z.of_nat x - Z.of_nat y) by lia. assert (-1 < q1 - q2 < 1) by nia.
  assert (q1 = q2) by lia. subst q1. nia.
Qed.

Fixpoint picks (n : nat) (now : Z) (p : Proxy) : list (option nat) :=
  match n with O => [] | S n' => (pick p now).1 :: picks n' now (pick p now).2 end.

Definition all_healthy (p : Proxy) (now : Z) : Prop := Forall (fun u => healthy u now = true) (px_upstreams p).

Lemma pick_all_healthy p now :
  px_upstreams p <> [] -> all_healthy p now ->
  (pick p now).1 = Some (Z.to_nat (uint64 (px_next p + 1) mod Z.of_nat (length (px_upstreams p)))).
Proof.
  unfold pick, all_healthy. destruct (px_upstreams p) as [|u0 us0] eqn:Eus; [done|]. intros _ Hall.
  rewrite <- Eus in *. set (us := px_upstreams p) in *. set (start := uint64 (px_next p + 1)).
  assert (0 < Z.of_nat (length us)) as Hpos by (rewrite Eus; cbn; lia).
  pose proof (Z.mod_pos_bound start _ Hpos) as Hm.
  destruct (lookup_lt_is_Some_2 us (Z.to_nat (start mod Z.of_nat (length us)))) as [u Hu]; [lia|].
  assert (pick_scan us now start 0 (length us) = Some (Z.to_nat (start mod Z.of_nat (length us)))) as ->; [|done].
  destruct (length us) as [|n] eqn:El; [lia|]. cbn [pick_scan]. rewrite El, Z.add_0_r.
  assert (uint64 start = start) as -> by (apply wrapU_id, wrapU_bound; lia).
  rewrite Hu. by rewrite (Forall_lookup_1 _ _ _ _ Hall Hu).
Qed.

Lemma picks_all_healthy n now : forall p,
  px_upstreams p <> [] -> all_healthy p now -> 0 <= px_next p -> px_next p + Z.of_nat n < 2 ^ 64 ->
  picks n now p = (fun k => Some (Z.to_nat ((px_next p + 1 + Z.of_nat k) mod Z.of_nat (length (px_upstreams p))))) <$> seq 0 n.
Proof.
  induction n as [|n IH]; intros p Hus Hall H0 Hw; [done|]. cbn [picks seq].
  destruct (pick_next p now Hus) as [Hn Hu]. rewrite fmap_cons. f_equal.
  - rewrite pick_all_healthy by done. unfold uint64. rewrite wrapU_id by lia. do 3 f_equal. lia.
  - unfold uint64 in Hn. rewrite wrapU_id in Hn by lia. unfold all_healthy in *.
    rewrite IH by (rewrite ?Hu, ?Hn; try done; lia). rewrite Hu, Hn, <- fmap_S_seq, <- list_fmap_compose.
    apply list_fmap_ext. intros _ k _. cbn. do 3 f_equal. lia.
Qed.

(** Round robin: while all upstreams are healthy, [n] consecutive picks over [n]
    upstreams name each of them exactly once. *)
Lemma picks_permutation p now :
  px_upstreams p <> [] -> all_healthy p now ->
  0 <= px_next p -> px_next p + Z.of_nat (length (px_upstreams p)) < 2 ^ 64 ->
  picks (length (px_upstreams p)) now p ≡ₚ Some <$> seq 0 (length (px_upstreams p)).
Proof.
  intros Hus Hall H0 Hw. rewrite picks_all_healthy by done. set (n := length (px_upstreams p)).
  assert (0 < Z.of_nat n) as Hn by (unfold n; destruct (px_upstreams p); [done|cbn; lia]).
  set (f := fun k : nat => Z.to_nat ((px_next p + 1 + Z.of_nat k) mod Z.of_nat n)).
  change (((fun k => Some (f k)) <$> seq 0 n) ≡ₚ Some <$> seq 0 n).
  rewrite (list_fmap_compose f Some). apply fmap_Permutation.
  assert (forall k, (k < n)%nat -> (f k < n)%nat) as Hlt.
  { intros k _. unfold f. pose proof (Z.mod_pos_bound (px_next p + 1 + Z.of_nat k) _ Hn). lia. }
  assert (f <$> seq 0 n ⊆+ seq 0 n) as Hsub.
  { apply NoDup_submseteq.
    - apply NoDup_fmap_2_strong; [|apply NoDup_seq]. intros x y [_ Hx]%elem_of_seq [_ Hy]%elem_of_seq Heq.
      unfold f in Heq. apply Z2Nat.inj in Heq; try (apply Z.mod_pos_bound; lia).
      exact (mod_window (px_next p + 1) (Z.of_nat n) x y Hn ltac:(lia) ltac:(lia) Heq).
    - intros x (k & -> & [_ Hk]%elem_of_seq)%list_elem_of_fmap. apply elem_of_seq. specialize (Hlt k Hk). lia. }
  apply submseteq_length_Permutation; [done|]. by rewrite length_fmap.
Qed.

(** C37. Which upstream a pick names.  With at least one there is always one;
    short of the counter's wrap-around it is a healthy one as soon as there is
    any (when all are down the proxy fails open); and while all are healthy, any
    [n] consecutive picks over [n] upstreams name each of them exactly once. *)
Theorem round_robin p now :
  px_upstreams p <> [] ->
  let n := length (px_upstreams p) in
  (exists j u, (pick p now).1 = Some j /\ px_upstreams p !! j = Some u /\
    (uint64 (px_next p + 1) + Z.of_nat n <= 2 ^ 64 ->
     (exists i v, px_upstreams p !! i = Some v /\ healthy v now = true) -> healthy u now = true)) /\
  (all_healthy p now -> 0 <= px_next p -> px_next p + Z.of_nat n < 2 ^ 64 ->
     picks n now p ≡ₚ Some <$> seq 0 n).
Proof. intros Hus. split; [by apply pick_finds_healthy|by apply picks_permutation]. Qed.

(** ** Serving: at most one retry, against another upstream *)

Section ServeSpec.
Context `{Transport} {C : Type} `{!Part Proxy C} `{!PartLaws Proxy C}.
Implicit Types w : World C.

Lemma upstream_of_at u f w v :
  upstream_of v (at_upstream u f w) = if decide (v = u) then f <$> upstream_of u w else upstream_of v w.
Proof.
  unfold upstream_of, at_upstream. cbn. rewrite part_set. unfold upd_upstream. cbn.
  case_decide; [subst; apply list_lookup_alter_eq|by apply list_lookup_alter_ne].
Qed.

Lemma other_scan_some us now exclude j0 j :
  other_scan us now exclude j0 = Some j ->
  exists i u, j = (j0 + i)%nat /\ us !! i = Some u /\ j <> exclude /\ healthy u now = true.
Proof.
  revert j0. induction us as [|u us IH]; intros j0; cbn; [done|].
  destruct (Nat.eqb_spec j0 exclude) as [He|He]; cbn [negb andb].
  2: destruct (healthy u now) eqn:Hh.
  2: { intros [= <-]. exists 0%nat, u. split_and!; [lia|done|done|done]. }
  all: intros (i & v & -> & Hv & Hne & Hh')%IH; exists (S i), v; split_and!; [lia|done|done|done].
Qed.

Lemma pickOtherThan_some p u now j :
  pickOtherThan p u now = Some j ->
  j <> u /\ exists v, px_upstreams p !! j = Some v /\ healthy v now = true.
Proof. intros (i & v & -> & Hv & Hne & Hh)%other_scan_some. split; [done|]. by exists v. Qed.

(** One round trip to upstream [u]: its result, the outgoing request with what
    is left of its body, and the world when it is over. *)
Definition trip (u : nat) (rw : ResponseWriter) (r : Request) w : option (round_trip_result * Request * World C) :=
  up ← upstream_of u w;
  if negb (IsPrint (upgradeType (r_header r))) then Some (Failed upgrade_error, r, w)
  else
    let out := rewrite (up_url up) r in
    let ex := RoundTrip (u_Host (up_url up)) out (clock w) in
    Some (ex_result ex, with_body out (ex_rest ex), pass_early rw (ex_early ex) (upd_clock (ex_time ex) w)).

Definition deliver (u : nat) (res : Response) (rw : ResponseWriter) (out : Request) w : World C :=
  respond rw res (hook_success u out (rs_status res) w).

Definition failed (u : nat) w : World C := at_upstream u (recordFailure (clock w)) w.

Definition retry_target (retry : bool) (u : nat) w : option nat :=
  if retry && (1 <? length (px_upstreams (part (comp w))))%nat
  then pickOtherThan (part (comp w)) u (clock w) else None.

Lemma rp_ServeHTTP_trip fuel u retry rw r w :
  rp_ServeHTTP (S fuel) u retry rw r w =
  match trip u rw r w with
  | None => None
  | Some (res, out, w) =>
      let on_error err w :=
        let w := failed u w in
        match retry_target retry u w with
        | Some next => rp_ServeHTTP fuel next false rw out w
        | None => Some (end_failed u err rw out w)
        end in
      match res with
      | Failed err => on_error err w
      | Responded res =>
          let w' := hook_success u out (rs_status res) w in
          if rs_status res =? 101 then
            if upgrades rw out res w' then Some (WriteHeader rw 101 w') else on_error upgrade_error w'
          else Some (deliver u res rw out w)
      end
  end.
Proof.
  cbn [rp_ServeHTTP]. unfold trip. destruct (upstream_of u w) as [up|]; [|done]. cbn [option_bind mbind].
  unfold retry_target, failed. destruct (negb _); [by destruct (retry && _)|].
  destruct (ex_result _) as [res|err].
  - destruct (_ =? 101); [|done]. destruct (upgrades _ _ _ _); [done|]. by destruct (retry && _).
  - by destruct (retry && _).
Qed.

(** One try, to upstream [u]: either it is the answer (a response delivered,
    or a connection handed over to an upgrade), or it fails with an error, the
    request as it is then and the world in which the failure is counted.  A 101
    response that cannot be handed over is a failure too. *)
Definition attempt (u : nat) (rw : ResponseWriter) (r : Request) w : option (World C + NetError * Request * World C) :=
  '(res, out, w1) ← trip u rw r w;
  Some match res with
       | Failed err => inr (err, out, w1)
       | Responded res =>
           let w2 := hook_success u out (rs_status res) w1 in
           if rs_status res =? 101 then
             if upgrades rw out res w2 then inl (WriteHeader rw 101 w2) else inr (upgrade_error, out, w2)
           else inl (respond rw res w2)
       end.

Lemma rp_attempt fuel u retry rw r w :
  rp_ServeHTTP (S fuel) u retry rw r w =
  match attempt u rw r w with
  | None => None
  | Some (inl w') => Some w'
  | Some (inr (err, out, w1)) =>
      match retry_target retry u (failed u w1) with
      | Some next => rp_ServeHTTP fuel next false rw out (failed u w1)
      | None => Some (end_failed u err rw out (failed u w1))
      end
  end.
Proof.
  rewrite rp_ServeHTTP_trip. unfold attempt. destruct (trip u rw r w) as [[[res out] w1]|]; [|done].
  cbn [mbind option_bind]. destruct res as [res|err]; [|done]. destruct (_ =? 101); [|done]. by destruct (upgrades _ _ _ _).
Qed.

(** What a failed try leaves for the next one: nothing was answered, and the
    request's recorder has the same client, WAF match and identifier. *)
Definition same_request (rec rec' : Recorder) : Prop :=
  clientIP rec' = clientIP rec /\ wafRuleID rec' = wafRuleID rec /\ wafCategory rec' = wafCategory rec /\
  requestID rec' = requestID rec.

Definition intact (r : Request) w (out : Request) w' : Prop :=
  (c_wroteHeader (conn w) = false -> c_wroteHeader (conn w') = false) /\ c_body (conn w') = c_body (conn w) /\
  (up_url <$> px_upstreams (part (comp w'))) = (up_url <$> px_upstreams (part (comp w))) /\
  forall loc rec, RecorderFrom r w = Some (loc, rec) ->
    exists rec', RecorderFrom out w' = Some (loc, rec') /\ same_request rec rec'.

Lemma intact_refl r w : intact r w r w.
Proof. split_and!; [done..|]. intros loc rec Hr. exists rec. by split_and!. Qed.

Lemma intact_trans r1 w1 r2 w2 r3 w3 : intact r1 w1 r2 w2 -> intact r2 w2 r3 w3 -> intact r1 w1 r3 w3.
Proof.
  intros (H1 & B1 & U1 & R1) (H2 & B2 & U2 & R2). split_and!; [auto|congruence|congruence|].
  intros loc rec (rec' & Hr' & (? & ? & ? & ?))%R1. apply R2 in Hr' as (rec'' & Hr'' & (? & ? & ? & ?)).
  exists rec''. split; [done|]. split_and!; congruence.
Qed.

Lemma up_url_at u f (us : list upstream) :
  (forall up, up_url (f up) = up_url up) -> up_url <$> alter f u us = up_url <$> us.
Proof.
  intros Hf. apply list_eq. intros i. rewrite !list_lookup_fmap. destruct (decide (i = u)) as [->|Hne].
  - rewrite list_lookup_alter_eq. destruct (us !! u); cbn; by rewrite ?Hf.
  - by rewrite list_lookup_alter_ne.
Qed.

Lemma intact_at_upstream r u f w : (forall up, up_url (f up) = up_url up) -> intact r w r (at_upstream u f w).
Proof.
  intros Hf. split_and!; [done..| |].
  - cbn. rewrite part_set. by apply up_url_at.
  - intros loc rec Hr. exists rec. by split_and!.
Qed.

(** The 1xx responses the transport passes on are informational. *)
Definition early_hints : Prop :=
  forall host q now, Forall (fun e => informational e.1 = true) (ex_early (RoundTrip host q now)).

Lemma pass_early_frame rw early w :
  Forall (fun e => informational e.1 = true) early ->
  let w' := pass_early rw early w in
  c_wroteHeader (conn w') = c_wroteHeader (conn w) /\ c_body (conn w') = c_body (conn w) /\
  comp w' = comp w /\ recorders w' = recorders w /\ panicking w' = panicking w /\
  (c_wroteHeader (conn w) = false -> c_header (conn w') = match early with [] => c_header (conn w) | _ => ∅ end).
Proof.
  cbn zeta. unfold pass_early. intros He. revert w.
  induction He as [|e early Hi He IH]; intros w; [done|]. cbn [foldl].
  destruct (IH (UpdHeader rw (fun _ => ∅) (WriteHeader rw e.1 (UpdHeader rw (copyHeader e.2) w)))) as (-> & -> & -> & -> & Hp & Hh).
  destruct (WriteHeader_frame rw e.1 (UpdHeader rw (copyHeader e.2) w)) as (Hc & Hr & _).
  unfold panicking in *. rewrite Hp. cbn in *. rewrite conn_WriteHeader in *. cbn. rewrite Hc, Hr.
  unfold Conn_WriteHeader in *. cbn in *. rewrite Hi in *. destruct (c_wroteHeader (conn w)) eqn:E; cbn in *; rewrite ?E in *; cbn in *; split_and!; try done.
  intros _. rewrite Hh by done. by destruct early.
Qed.

Lemma attempt_failed_intact u rw r w err out w1 :
  early_hints -> attempt u rw r w = Some (inr (err, out, w1)) -> intact r w out w1.
Proof.
  intros Hearly. unfold attempt, trip. destruct (upstream_of u w) as [up|] eqn:Hu; [|done]. cbn [mbind option_bind].
  destruct (negb _); [intros [= <- <- <-]; apply intact_refl|]. cbn [mbind option_bind].
  set (ex := RoundTrip _ _ _). set (w2 := pass_early _ _ _).
  assert (intact r w (with_body (rewrite (up_url up) r) (ex_rest ex)) w2) as Hw2.
  { destruct (pass_early_frame rw (ex_early ex) (upd_clock (ex_time ex) w) (Hearly _ _ _)) as (Hh & Hb & Hc & Hr & _).
    fold w2 in Hh, Hb, Hc, Hr. split_and!; [by rewrite Hh|done|by rewrite Hc|]. intros loc rec Hrec. exists rec. split; [|by split_and!].
    revert Hrec. unfold RecorderFrom. rewrite Hr. by destruct r. }
  destruct (ex_result ex) as [res|err']; [|by intros [= <- <- <-]].
  destruct (_ =? 101); [|done]. destruct (upgrades _ _ _ _); [done|]. intros [= <- <- <-].
  eapply intact_trans; [exact Hw2|]. set (q := with_body _ _). unfold hook_success.
  eapply intact_trans; [by apply (intact_at_upstream q u recordSuccess)|]. set (w3 := at_upstream u recordSuccess w2).
  unfold with_recorder. destruct (RecorderFrom q w3) as [[l rec0]|] eqn:Hr; [|apply intact_refl].
  split_and!; [done..|]. intros loc rec Hrec. rewrite Hr in Hrec. injection Hrec as <- <-.
  exists (SetUpstream (upstreamAddr u w3) (rs_status res) rec0). split; [|by split_and!].
  revert Hr. unfold RecorderFrom. destruct (r_recorder q) as [l'|]; [|done]. cbn.
  destruct (recorders w2 !! l') eqn:Hl; [|done]. intros [= -> ->]. by rewrite list_lookup_alter_eq, Hl.
Qed.

Lemma attempt_some u up rw r w : upstream_of u w = Some up -> is_Some (attempt u rw r w).
Proof. intros Hu. unfold attempt, trip. rewrite Hu. cbn [mbind option_bind]. by destruct (negb _). Qed.

(** A request that may be sent twice: without a body, or of a method that
    changes nothing. *)
Definition replayable (r : Request) : Prop :=
  (r_contentlength r = 0 /\ r_body r = NoBody) \/ r_method r = "GET" \/ r_method r = "HEAD" \/ r_method r = "OPTIONS".

Lemma isRetryable_iff r : isRetryable r = true <-> replayable r.
Proof.
  unfold isRetryable, replayable. rewrite orb_true_iff, andb_true_iff, Z.eqb_eq. cbn [existsb].
  rewrite !orb_true_iff, !String.eqb_eq. destruct (r_body r); intuition congruence.
Qed.

(** An upstream after one more failure. *)
Definition counted (now : Z) (up : upstream) : upstream :=
  let n := int32 (failureCount up + 1) in
  mkUpstream (up_url up) n (if 3 <=? n then int64 (now + 30 * Second) else downUntil up).

Definition error_reason (err : NetError) : string :=
  match err with
  | mkNetError true _ _ => "timeout"
  | mkNetError false true _ => "connection-refused"
  | mkNetError false false true => "dial-error"
  | mkNetError false false false => "other"
  end.

(** The request [r] that came in [w] is answered, in [w'], with a 502 that
    blames the upstream [up]. *)
Definition bad_gateway (up : upstream) (err : NetError) (r : Request) w w' : Prop :=
  c_wroteHeader (conn w') = true /\ c_status (conn w') = 502 /\ c_body (conn w') = c_body (conn w) /\
  forall loc rec, RecorderFrom r w = Some (loc, rec) ->
    recorders w' !! loc = Some (mkRecorder (clientIP rec) "blocked" "upstream-error" (wafRuleID rec) (wafCategory rec)
      (u_Host (up_url up)) 502 (error_reason err) (requestID rec)).

Lemma end_failed_bad_gateway u up err rw r w out wf :
  c_wroteHeader (conn w) = false -> (up_url <$> px_upstreams (part (comp w))) !! u = Some (up_url up) ->
  intact r w out wf ->
  bad_gateway up err r w (end_failed u err rw out wf) /\ comp (end_failed u err rw out wf) = comp wf.
Proof.
  intros Hw Hu (Hh & Hb & Hus & Hrec). specialize (Hh Hw). rewrite <- Hus, list_lookup_fmap in Hu.
  assert (upstreamAddr u wf = u_Host (up_url up)) as Ha
    by (unfold upstreamAddr, upstream_of; destruct (px_upstreams _ !! u); [by injection Hu as ->|done]).
  unfold end_failed. set (w1 := with_recorder _ _ _).
  assert (conn w1 = conn wf /\ comp w1 = comp wf) as [Hc1 Hcomp]
    by (unfold w1, with_recorder; by destruct (RecorderFrom out wf) as [[]|]).
  assert (c_wroteHeader (conn w1) = false) as Hw1 by (by rewrite Hc1).
  rewrite comp_WriteHeader. split; [|done]. unfold bad_gateway. rewrite conn_WriteHeader, recorders_WriteHeader.
  destruct (Conn_WriteHeader_final (conn w1) StatusBadGateway Hw1 eq_refl) as [-> ->]. split_and!; [done|done| |].
  - unfold Conn_WriteHeader. rewrite Hw1. cbn. by rewrite Hc1.
  - intros loc rec (rec' & Hr' & (<- & <- & <- & <-))%Hrec. unfold w1, with_recorder. rewrite Hr', Ha. cbn.
    unfold RecorderFrom in Hr'. destruct (r_recorder out) as [l|]; [|done]. cbn in Hr'.
    destruct (recorders wf !! l) as [rec0|] eqn:Hl; [|done]. cbn in Hr'. injection Hr' as -> ->.
    rewrite list_lookup_alter_eq, Hl. cbn. by destruct err as [[] [] []].
Qed.

Lemma other_scan_first us now exclude j0 j :
  other_scan us now exclude j0 = Some j ->
  forall i u, us !! i = Some u -> (j0 + i < j)%nat -> (j0 + i)%nat <> exclude -> healthy u now = false.
Proof.
  revert j0. induction us as [|u us IH]; intros j0; cbn; [done|].
  destruct (negb (Nat.eqb j0 exclude) && healthy u now) eqn:E.
  - intros [= <-] i v _ Hlt. lia.
  - intros Hs [|i] v Hv Hlt Hne.
    + injection Hv as <-. destruct (Nat.eqb_spec j0 exclude); [lia|done].
    + apply (IH (S j0) Hs i v Hv); lia.
Qed.

Lemma other_scan_none us now exclude j0 :
  other_scan us now exclude j0 = None ->
  forall i u, us !! i = Some u -> (j0 + i)%nat <> exclude -> healthy u now = false.
Proof.
  revert j0. induction us as [|u us IH]; intros j0; cbn; [done|].
  destruct (Nat.eqb_spec j0 exclude) as [He|He]; cbn [negb andb].
  2: destruct (healthy u now) eqn:Hh; [done|].
  all: intros Hs [|i] v Hv Hne; [injection Hv as <-; (lia || done)|apply (IH (S j0) Hs i v Hv); lia].
Qed.

(** The other upstream a retry goes to: the first healthy one. *)
Definition retries_on (u v : nat) (now : Z) w : Prop :=
  v <> u /\ (exists up, upstream_of v w = Some up /\ healthy up now = true) /\
  forall v' up', (v' < v)%nat -> v' <> u -> upstream_of v' w = Some up' -> healthy up' now = false.

Lemma retry_target_cases r u w :
  is_Some (upstream_of u w) ->
  match retry_target (isRetryable r) u w with
  | Some v => replayable r /\ retries_on u v (clock w) w
  | None => ~ (replayable r /\ exists v, retries_on u v (clock w) w)
  end.
Proof.
  intros [upu Hu]. unfold retry_target, retries_on, upstream_of in *. pose proof (isRetryable_iff r) as Hr.
  destruct (isRetryable r); cbn [andb]; [|intros [Hr' _]; apply Hr in Hr'; done].
  destruct (Nat.ltb_spec 1 (length (px_upstreams (part (comp w))))) as [Hl|Hl].
  - destruct (pickOtherThan _ u _) as [v|] eqn:Hp.
    + split; [by apply Hr|]. destruct (pickOtherThan_some _ _ _ _ Hp) as [Hne Hv]. split_and!; [done|done|].
      intros v' up' Hlt Hne' Hv'. exact (other_scan_first _ _ _ _ _ Hp v' up' Hv' Hlt Hne').
    + intros [_ (v & Hne & (up & Hv & Hh) & _)]. pose proof (other_scan_none _ _ _ _ Hp v up Hv Hne). congruence.
  - intros [_ (v & Hne & (up & Hv & _) & _)]. apply lookup_lt_Some in Hu, Hv. lia.
Qed.

(** C17. What the proxy answers.  It tries the upstream it picked: a response,
    or an upgrade that can be handed over, is the answer.  When the try fails,
    the failure is counted against that upstream.  If the request may be sent
    twice (no body, or GET, HEAD or OPTIONS) and another upstream is healthy, it
    gets one more try, on the first such upstream; when it may not, when there
    is none, or when the second try fails too, which is counted as well, the
    answer is 502, and the request's recorder has it blocked for
    [upstream-error], with that upstream's address, 502 and the kind of error.
    There is no third try.  The 1xx responses before the final one are assumed
    to be informational, and nothing to be answered before the proxy runs. *)
Theorem at_most_one_retry rw r w :
  px_upstreams (part (comp w)) <> [] -> early_hints -> c_wroteHeader (conn w) = false ->
  let w0 := upd_comp (set_part (pick (part (comp w)) (clock w)).2) w in
  let w' := serveHTTP rw r w in
  exists u up first, (pick (part (comp w)) (clock w)).1 = Some u /\ upstream_of u w0 = Some up /\
    attempt u rw r w0 = Some first /\
    match first with
    | inl w1 => w' = w1
    | inr (err, out, w1) =>
        let wf := failed u w1 in
        upstream_of u wf = counted (clock w1) <$> upstream_of u w1 /\
        ((~ (replayable r /\ exists v, retries_on u v (clock w1) wf)) /\ bad_gateway up err r w w' /\ comp w' = comp wf \/
         replayable r /\ exists v upv second, retries_on u v (clock w1) wf /\ upstream_of v wf = Some upv /\
           attempt v rw out wf = Some second /\
           match second with
           | inl w2 => w' = w2
           | inr (err', _, w2) =>
               upstream_of v (failed v w2) = counted (clock w2) <$> upstream_of v w2 /\
               bad_gateway upv err' r w w' /\ comp w' = comp (failed v w2)
           end)
    end.
Proof.
  intros Hne Hearly Hw w0 w'. destruct (pick_finds_healthy_aux (part (comp w)) (clock w) Hne) as (u & up & Hpick & Hu).
  pose proof (pick_next (part (comp w)) (clock w) Hne) as [_ Hus].
  assert (upstream_of u w0 = Some up) as Hup by (unfold upstream_of, w0; cbn; by rewrite part_set, Hus).
  assert (w' = default w0 (rp_ServeHTTP 2 u (isRetryable r) rw r w0)) as ->
    by (unfold w', serveHTTP, w0; destruct (pick _ _) as [o p]; cbn in Hpick |- *; by subst o).
  assert (intact r w r w0) as Hw0.
  { split_and!; [done..|unfold w0; cbn; by rewrite part_set, Hus|]. intros loc rec Hr. exists rec. by split_and!. }
  destruct (attempt_some u up rw r w0 Hup) as [first Hfirst]. exists u, up, first. split_and!; [done..|].
  rewrite rp_attempt, Hfirst. destruct first as [w1|[[err out] w1]]; [done|]. cbn zeta.
  pose proof (intact_trans _ _ _ _ _ _ Hw0 (attempt_failed_intact _ _ _ _ _ _ _ Hearly Hfirst)) as Hi.
  assert (intact r w out (failed u w1)) as Hf by (eapply intact_trans; [exact Hi|]; by apply intact_at_upstream).
  split; [unfold failed; by rewrite upstream_of_at, decide_True|].
  assert (forall v q (upv : upstream), intact r w q (failed u w1) -> upstream_of v (failed u w1) = Some upv ->
    (up_url <$> px_upstreams (part (comp w))) !! v = Some (up_url upv)) as Hurl.
  { intros v q upv (_ & _ & <- & _) Hv. rewrite list_lookup_fmap. unfold upstream_of in Hv. by rewrite Hv. }
  assert ((up_url <$> px_upstreams (part (comp w))) !! u = Some (up_url up)) as Hurlu by (by rewrite list_lookup_fmap, Hu).
  assert (is_Some (upstream_of u (failed u w1))) as Hsu.
  { destruct Hf as (_ & _ & Hx & _). rewrite <- Hx, list_lookup_fmap in Hurlu. apply fmap_Some in Hurlu as (up' & Hup' & _).
    by exists up'. }
  pose proof (retry_target_cases r u (failed u w1) Hsu) as Hcase. change (clock (failed u w1)) with (clock w1) in Hcase.
  destruct (retry_target _ _ _) as [v|] eqn:Hr; [|left; split; [done|by apply end_failed_bad_gateway]].
  right. destruct Hcase as [Hrep Hon]. split; [done|]. pose proof Hon as (_ & (upv & Hv & _) & _).
  destruct (attempt_some v upv rw out (failed u w1) Hv) as [second Hsec]. exists v, upv, second. split_and!; [done..|].
  rewrite rp_attempt, Hsec. destruct second as [w2|[[err' out'] w2]]; [done|].
  split; [unfold failed; by rewrite upstream_of_at, decide_True|]. apply end_failed_bad_gateway; [done|by eapply Hurl|].
  eapply intact_trans; [exact Hf|]. eapply intact_trans; [exact (attempt_failed_intact _ _ _ _ _ _ _ Hearly Hsec)|].
  by apply intact_at_upstream.
Qed.

(** ** The response *)

Lemma write_all_conn rw body w :
  c_wroteHeader (conn w) = true ->
  Forall (fun b => b = [] \/ body_allowed (c_status (conn w)) = true) body ->
  let w' := (write_all rw body w).2 in
  (write_all rw body w).1 = true /\
  c_status (conn w') = c_status (conn w) /\ c_body (conn w') = c_body (conn w) ++ concat body /\
  panicking w' = panicking w.
Proof.
  revert w. induction body as [|b body IH]; intros w Hw Hb; cbn; [by rewrite app_nil_r|].
  apply Forall_cons in Hb as [Hb Hbody]. destruct (Write_conn rw b w) as [Hn Hc]. pose proof (panicking_Write rw b w) as Hp.
  destruct (Write rw b w) as [n w1]. cbn [fst snd] in *. unfold Conn_Write in Hn, Hc. rewrite Hw in Hn, Hc.
  assert (n = Z.of_nat (length b) /\ c_wroteHeader (conn w1) = true /\ c_status (conn w1) = c_status (conn w) /\
    c_body (conn w1) = c_body (conn w) ++ b) as (-> & Hw1 & Hs1 & Hb1).
  { destruct Hb as [->|Hb]; [|rewrite Hb in Hn, Hc]; [destruct (body_allowed _)|]; cbn in Hn, Hc; rewrite Hc; cbn;
      rewrite ?app_nil_r; done. }
  rewrite Z.eqb_refl. destruct (IH w1 Hw1) as (-> & Hs & Hb' & Hp'); [by rewrite Hs1|].
  split; [done|]. by rewrite Hs, Hb', Hp', Hs1, Hb1, <- app_assoc, Hp.
Qed.

Lemma write_all_frame rw body w :
  comp (write_all rw body w).2 = comp w /\ recorders (write_all rw body w).2 = recorders w /\
  length (statuses (write_all rw body w).2) = length (statuses w).
Proof.
  revert w. induction body as [|b body IH]; intros w; cbn; [done|].
  destruct (Write_frame rw b w) as (Hc & Hr & Hs). destruct (Write rw b w) as [n w1]. cbn in *.
  destruct (n =? _); [|done]. destruct (IH w1) as (-> & -> & ->). done.
Qed.

(** Copying a response touches the writers and the connection only. *)
Lemma respond_frame rw res w :
  comp (respond rw res w) = comp w /\ recorders (respond rw res w) = recorders w /\
  length (statuses (respond rw res w)) = length (statuses w).
Proof.
  unfold respond. set (w1 := UpdHeader rw _ w). destruct (write_all_frame rw (rs_body res) (WriteHeader rw (rs_status res) w1))
    as (Hc & Hr & Hs). destruct (WriteHeader_frame rw (rs_status res) w1) as (Hc1 & Hr1 & Hs1).
  destruct (write_all _ _ _) as [ok w2]. cbn [snd] in *.
  assert (comp w2 = comp w /\ recorders w2 = recorders w /\ length (statuses w2) = length (statuses w))
    by (rewrite Hc, Hr, Hs, Hc1, Hr1, Hs1; done).
  by destruct (ok && rs_complete res).
Qed.

Lemma hook_success_spec u up out status w loc rec :
  RecorderFrom out w = Some (loc, rec) -> upstream_of u w = Some up ->
  let w1 := hook_success u out status w in
  conn w1 = conn w /\ recorders w1 !! loc = Some (SetUpstream (u_Host (up_url up)) status rec) /\
  forall v, upstream_of v w1 = if decide (v = u) then Some (mkUpstream (up_url up) 0 0) else upstream_of v w.
Proof.
  intros Hr Hu. cbn zeta. unfold hook_success, with_recorder.
  change (RecorderFrom out (at_upstream u recordSuccess w)) with (RecorderFrom out w). rewrite Hr.
  split; [done|]. split.
  - unfold upstreamAddr. rewrite upstream_of_at, decide_True, Hu by done. cbn.
    unfold RecorderFrom in Hr. destruct (r_recorder out) as [l|]; [|done]. cbn in Hr.
    destruct (recorders w !! l) as [rec'|] eqn:Hl; [|done]. cbn in Hr. injection Hr as -> ->.
    by rewrite list_lookup_alter_eq, Hl.
  - intros v. change (upstream_of v (at_recorder loc _ _)) with (upstream_of v (at_upstream u recordSuccess w)).
    rewrite upstream_of_at, Hu. by case_decide; subst.
Qed.

Lemma respond_conn rw res w :
  c_wroteHeader (conn w) = false -> informational (rs_status res) = false ->
  Forall (fun b => b = [] \/ body_allowed (rs_status res) = true) (rs_body res) ->
  c_status (conn (respond rw res w)) = rs_status res /\
  c_body (conn (respond rw res w)) = c_body (conn w) ++ concat (rs_body res) /\
  panicking (respond rw res w) = negb (rs_complete res) || panicking w.
Proof.
  intros Hw Hinf Hbody. unfold respond. set (w2 := UpdHeader rw _ w). set (w3 := WriteHeader rw _ w2).
  assert (conn w3 = Conn_WriteHeader (conn w2) (rs_status res)) as Hc3 by apply conn_WriteHeader.
  assert (c_wroteHeader (conn w2) = false) as Hw2 by done.
  destruct (Conn_WriteHeader_final _ _ Hw2 Hinf) as [Hst3 Hw3]. rewrite <- Hc3 in Hst3, Hw3.
  destruct (write_all_conn rw (rs_body res) w3 Hw3) as (Hok & Hs4 & Hb4 & Hp4); [by rewrite Hst3|].
  destruct (write_all rw (rs_body res) w3) as [ok w4]. cbn [fst snd] in *. subst ok. cbn [andb].
  assert (c_body (conn w3) = c_body (conn w)) as Hb3 by (rewrite Hc3; unfold Conn_WriteHeader; by rewrite Hw2, Hinf).
  split; [|split]; destruct (rs_complete res); cbn; rewrite ?Hs4, ?Hb4, ?Hst3, ?Hb3; try done.
  unfold w3 in Hp4. by rewrite Hp4, panicking_WriteHeader.
Qed.

(** The response [res] of the upstream [u] in the client's hands: [w] is the
    world before the try, [w'] the one after it. *)
Definition delivered (u : nat) (up : upstream) (res : Response) (loc : nat) (rec : Recorder) w w' : Prop :=
  c_status (conn w') = rs_status res /\ c_body (conn w') = c_body (conn w) ++ concat (rs_body res) /\
  panicking w' = negb (rs_complete res) || panicking w /\
  recorders w' !! loc = Some (SetUpstream (u_Host (up_url up)) (rs_status res) rec) /\
  (upstream_of u w' = Some (mkUpstream (up_url up) 0 0) /\ forall now, healthy (mkUpstream (up_url up) 0 0) now = true) /\
  forall v, v <> u -> upstream_of v w' = upstream_of v w.

Lemma rp_delivers fuel u up retry res rw r w loc rec :
  let ex := RoundTrip (u_Host (up_url up)) (rewrite (up_url up) r) (clock w) in
  early_hints -> upstream_of u w = Some up -> IsPrint (upgradeType (r_header r)) = true ->
  ex_result ex = Responded res -> rs_status res <> 101 -> informational (rs_status res) = false ->
  Forall (fun b => b = [] \/ body_allowed (rs_status res) = true) (rs_body res) ->
  c_wroteHeader (conn w) = false -> RecorderFrom r w = Some (loc, rec) ->
  exists w', rp_ServeHTTP (S fuel) u retry rw r w = Some w' /\ delivered u up res loc rec w w'.
Proof.
  intros ex Hearly Hu Hprint Hres H101 Hinf Hbody Hw Hr. rewrite rp_attempt. unfold attempt, trip.
  rewrite Hu. cbn [mbind option_bind]. rewrite Hprint. cbn [negb mbind option_bind]. fold ex. rewrite Hres.
  destruct (Z.eqb_spec (rs_status res) 101) as [|_]; [done|]. eexists. split; [done|].
  set (w1 := pass_early _ _ _). set (out := with_body _ _).
  destruct (pass_early_frame rw (ex_early ex) (upd_clock (ex_time ex) w) (Hearly _ _ _)) as (Hw1 & Hb1 & Hc1 & Hr1 & Hp1 & _).
  fold w1 in Hw1, Hb1, Hc1, Hr1, Hp1.
  assert (RecorderFrom out w1 = Some (loc, rec)) as Hrec by (unfold RecorderFrom in *; rewrite Hr1; exact Hr).
  assert (forall v, upstream_of v w1 = upstream_of v w) as Hups by (intros v; unfold upstream_of; by rewrite Hc1).
  destruct (hook_success_spec u up out (rs_status res) w1 loc rec Hrec) as (Hc2 & Hr2 & Hu2); [by rewrite Hups|].
  set (w2 := hook_success _ _ _ _) in *.
  destruct (respond_conn rw res w2) as (Hs & Hb & Hp); [by rewrite Hc2, Hw1|done..|].
  destruct (respond_frame rw res w2) as (Hc3 & Hr3 & _).
  assert (forall v, upstream_of v (respond rw res w2) = upstream_of v w2) as Hu3 by (intros v; unfold upstream_of; by rewrite Hc3).
  unfold delivered, panicking in *. split_and!.
  - done.
  - by rewrite Hb, Hc2, Hb1.
  - by rewrite Hp, Hc2, Hp1.
  - by rewrite Hr3.
  - by rewrite Hu3, Hu2, decide_True.
  - done.
  - intros v Hne. by rewrite Hu3, Hu2, decide_False, Hups.
Qed.

(** C19. What the client gets of a response.  When the upstream the proxy tries
    first answers with a final status other than 101, the client has that status
    and every byte of the body that arrived, in order, whatever 1xx responses
    came before; when the upstream broke off before the end of the body, the
    handler then panics, so that the connection is cut.  Either way the failures
    of that upstream are forgotten, so that it is healthy at any time from then
    on, the other upstreams stay as they were, and the recorder has the
    upstream's address and the status.  A retry on another upstream delivers its
    response in the same way. *)
Theorem response_delivered u up res rw r w loc rec :
  let ex := RoundTrip (u_Host (up_url up)) (rewrite (up_url up) r) (clock w) in
  early_hints -> upstream_of u w = Some up -> IsPrint (upgradeType (r_header r)) = true ->
  ex_result ex = Responded res -> rs_status res <> 101 -> informational (rs_status res) = false ->
  Forall (fun b => b = [] \/ body_allowed (rs_status res) = true) (rs_body res) ->
  c_wroteHeader (conn w) = false -> RecorderFrom r w = Some (loc, rec) ->
  ((pick (part (comp w)) (clock w)).1 = Some u -> delivered u up res loc rec w (serveHTTP rw r w)) /\
  exists w', rp_ServeHTTP 1 u false rw r w = Some w' /\ delivered u up res loc rec w w'.
Proof.
  intros ex Hearly Hu Hprint Hres H101 Hinf Hbody Hw Hr. split; [|by apply rp_delivers].
  intros Hpick. assert (px_upstreams (part (comp w)) <> []) as Hne by (intros E; unfold upstream_of in Hu; by rewrite E in Hu).
  pose proof (pick_next (part (comp w)) (clock w) Hne) as [_ Hus].
  unfold serveHTTP. destruct (pick _ _) as [o p]. cbn [fst snd] in *. subst o.
  assert (forall v, upstream_of v (upd_comp (set_part p) w) = upstream_of v w) as Hups
    by (intros v; unfold upstream_of; cbn; by rewrite part_set, Hus).
  destruct (rp_delivers 1 u up (isRetryable r) res rw r (upd_comp (set_part p) w) loc rec) as (w' & Hrp & Hd); try done.
  { by rewrite Hups. }
  rewrite Hrp. cbn [default]. destruct Hd as (H1 & H2 & H3 & H4 & [H5 H6] & Hv). unfold delivered.
  split_and!; [exact H1|exact H2|exact H3|exact H4|exact H5|exact H6|]. intros v Hv'. by rewrite Hv, Hups.
Qed.

(** An upgrade cannot pass the status recorder.  Behind it, a 101 response
    of the upstream is never forwarded: the request ends like an upstream
    error, with a failure counted against that upstream, and when it is not
    retried the answer is 502. *)
Theorem upgrade_behind_recorder_fails l inner r w u up :
  upstream_of u w = Some up -> IsPrint (upgradeType (r_header r)) = true ->
  (forall host q now, exists h, ex_result (RoundTrip host q now) = Responded (mkResponse 101 h [] true)) ->
  exists out w1, rp_ServeHTTP 1 u false (RecorderWriter l inner) r w =
    Some (end_failed u upgrade_error (RecorderWriter l inner) out (failed u w1)).
Proof.
  intros Hu Hp Hrt. rewrite rp_ServeHTTP_trip. unfold trip. rewrite Hu. cbn [option_bind mbind]. rewrite Hp. cbn [negb].
  destruct (Hrt (u_Host (up_url up)) (rewrite (up_url up) r) (clock w)) as [h ->]. cbn [rs_status Z.eqb Pos.eqb].
  unfold upgrades. rewrite andb_false_r. by do 2 eexists.
Qed.

(** A request that asks to upgrade to a protocol with a byte that is not
    printable ASCII never reaches the upstream, and is counted as its failure. *)
Theorem bad_upgrade_counts_failure rw r w u up :
  upstream_of u w = Some up -> IsPrint (upgradeType (r_header r)) = false ->
  rp_ServeHTTP 1 u false rw r w = Some (end_failed u upgrade_error rw r (failed u w)) /\
  upstream_of u (failed u w) = Some (recordFailure (clock w) up).
Proof.
  intros Hu Hp. rewrite rp_ServeHTTP_trip. unfold trip. rewrite Hu. cbn [option_bind mbind]. rewrite Hp. cbn [negb].
  split; [done|]. unfold failed. by rewrite upstream_of_at, decide_True, Hu.
Qed.

End ServeSpec.

(** ** Concrete inputs: of two upstreams, [a] refuses connections *)

Section Witnesses.

#[local] Instance demo_transport : Transport := {|
  RoundTrip := fun host q now =>
    if String.eqb host "a:80" then mkExchange [] (Failed (mkNetError false true true)) 5 (r_body q)
    else mkExchange [(103, ∅)] (Responded (mkResponse 200 ∅ [to_bytes (r_path q)] (negb (String.eqb host "cut:80")))) 7 NoBody |}.

Definition demo_proxy : Proxy :=
  mkProxy [mkUpstream (mkURL "http" "b:80" "/api" "") 0 0; mkUpstream (mkURL "http" "a:80" "/api" "") 0 0] 0.

Definition demo_world (p : Proxy) : World Proxy :=
  mkWorld [NewRecorder "id"] [] (fresh_conn true) (100 * Second) (fun _ => 0) p.

Definition demo_request (method : string) (h : Header) : Request :=
  mkRequest method "/x" "" "shop.example" "192.0.2.1:5000" h NoBody 0 None (Some 0%nat).

Lemma demo_early : early_hints.
Proof. intros host q now. cbn. destruct (String.eqb host "a:80"); repeat constructor. Qed.

Lemma breaker_spec_witness :
  let u := run_events (mkUpstream (mkURL "http" "a:80" "" "") 0 0) [EvFailure 1; EvSuccess; EvFailure 2; EvFailure 3; EvFailure 4] in
  healthy u 5 = false /\ healthy u (4 + 30 * Second) = true.
Proof.
  split; [|vm_compute; reflexivity].
  apply (breaker_spec (mkURL "http" "a:80" "" "")
    [EvFailure 1; EvSuccess; EvFailure 2; EvFailure 3; EvFailure 4] 5).
  - repeat constructor; cbn; lia.
  - cbn. lia.
  - lia.
  - split; [vm_compute; lia|]. exists 4. split; [reflexivity|]. unfold downCooldown, Second. lia.
Defined.

Lemma round_robin_witness :
  (exists j u, (pick demo_proxy 0).1 = Some j /\ px_upstreams demo_proxy !! j = Some u /\ healthy u 0 = true) /\
  picks 2 0 demo_proxy ≡ₚ [Some 0%nat; Some 1%nat].
Proof.
  destruct (round_robin demo_proxy 0) as [(j & u & Hj & Hu & Hh) Hp]; [discriminate|]. split.
  - exists j, u. split; [exact Hj|]. split; [exact Hu|]. apply Hh; [vm_compute; discriminate|].
    exists 0%nat. eexists. split; reflexivity.
  - apply Hp; [repeat constructor|vm_compute; discriminate|vm_compute; reflexivity].
Defined.

(** The first try, of [a], fails; a GET is retried on [b], a request with a
    body is answered 502. *)
Lemma at_most_one_retry_witness :
  let w := demo_world demo_proxy in
  c_status (conn (serveHTTP ConnWriter (demo_request "GET" ∅) w)) = 200 /\
  c_status (conn (serveHTTP ConnWriter (with_body (demo_request "PUT" ∅) (BodyReader (mkReader [] false))) w)) = 502 /\
  exists u up first, (pick demo_proxy (100 * Second)).1 = Some u /\
    upstream_of u (demo_world (pick demo_proxy (100 * Second)).2) = Some up /\
    attempt u ConnWriter (demo_request "GET" ∅) (demo_world (pick demo_proxy (100 * Second)).2) = Some first.
Proof.
  intros w. split; [vm_compute; reflexivity|]. split; [vm_compute; reflexivity|].
  destruct (at_most_one_retry ConnWriter (demo_request "GET" ∅) w) as (u & up & first & Hp & Hu & Ht & _).
  - discriminate.
  - exact demo_early.
  - reflexivity.
  - exists u, up, first. split; [exact Hp|]. split; [exact Hu|exact Ht].
Defined.

(** A response cut short: the bytes there are reach the client, the handler
    panics, and an upstream that was down is healthy again. *)
Lemma response_delivered_witness :
  let up := mkUpstream (mkURL "http" "cut:80" "" "") 3 (200 * Second) in
  let w := demo_world (mkProxy [up] 0) in
  let w' := serveHTTP ConnWriter (demo_request "GET" ∅) w in
  healthy up (100 * Second) = false /\
  c_status (conn w') = 200 /\ c_body (conn w') = to_bytes "/x" /\ panicking w' = true /\
  upstream_of 0 w' = Some (mkUpstream (mkURL "http" "cut:80" "" "") 0 0).
Proof.
  intros up w w'. split; [reflexivity|].
  destruct (response_delivered 0 up (mkResponse 200 ∅ [to_bytes "/x"] false) ConnWriter
    (demo_request "GET" ∅) w 0 (NewRecorder "id")) as [Hd _].
  - exact demo_early.
  - reflexivity.
  - reflexivity.
  - vm_compute. reflexivity.
  - discriminate.
  - reflexivity.
  - constructor; [right; reflexivity|constructor].
  - reflexivity.
  - reflexivity.
  - destruct (Hd eq_refl) as (Hs & Hb & Hp & _ & [Hu _] & _).
    split; [exact Hs|]. split; [exact Hb|]. split; [exact Hp|exact Hu].
Defined.

(** A retry starts from the outgoing request: the upstream's path prefix is
    joined twice, and the forwarded host is lost. *)
Example retry_doubles_prefix :
  c_body (conn (serveHTTP ConnWriter (demo_request "GET" ∅) (demo_world demo_proxy))) = to_bytes "/api/api/x" /\
  Header_Values (r_header (rewrite (mkURL "http" "b:80" "/api" "")
    (rewrite (mkURL "http" "a:80" "/api" "") (demo_request "GET" ∅)))) "X-Forwarded-Host" = ["" : string].
Proof. vm_compute. done. Qed.

(** Three requests that ask for an unprintable protocol: the only upstream,
    which answers everything, is held to be down. *)
Example bad_upgrades_trip_breaker :
  let h : Header := <["Connection" := ["upgrade" : string]]> (<["Upgrade" := [String "233" ""]]> ∅) in
  let serve p := comp (serveHTTP ConnWriter (demo_request "POST" h) (demo_world p)) in
  let p := serve (serve (serve (mkProxy [mkUpstream (mkURL "http" "b:80" "" "") 0 0] 0))) in
  (fun u => healthy u (101 * Second)) <$> px_upstreams p = [false].
Proof. vm_compute. reflexivity. Qed.

End Witnesses.
