(* ===== verification/Admin.v ===== *)
(** * internal/admin: the dashboard's API and its persisted state

    state.go (the persisted overlay, its atomic save and its load) and admin.go
    (authentication, handlers, persistence and replay).  [encoding/json] and
    the environment are parameters; the disk is a map from paths to contents
    with faults, so that every point a crash can leave behind is visible. *)
From stdpp Require Import pretty.
From S2P Require Import Prelude GoStrings Netip Netmatch Atomics Config Http Middleware AccessLog Geoip IPFilter.
From S2P Require Import Waf.

(** ** state.go *)

Record IPListState := mkIPListState {
  AllowAdded : list string; AllowRemoved : list string;
  DenyAdded : list string; DenyRemoved : list string }.

(** [WAFOverride] has the fields of [override]. *)
Record State := mkState { st_IPLists : IPListState; st_WAFOverrides : gmap Z override }.

Definition zero_State : State := mkState (mkIPListState [] [] [] []) ∅.

Class StateJson := {
  json_MarshalState : State -> string;
  json_UnmarshalState : string -> option State
}.

(** The states the dashboard saves: CIDRs and actions, all ASCII. *)
Definition valid_action (action : string) : Prop := action ∈ ["" : string; ActionBlock; ActionLog].
#[export] Instance valid_action_dec action : Decision (valid_action action).
Proof. unfold valid_action. apply _. Defined.

Definition valid_State (s : State) : Prop :=
  let l := st_IPLists s in
  Forall (fun c => valid_cidrb c = true) (AllowAdded l ++ AllowRemoved l ++ DenyAdded l ++ DenyRemoved l) /\
  map_Forall (fun _ o => valid_action (ov_action o)) (st_WAFOverrides s).

(** Decoding such a state once encoded gives it back. *)
Class StateJsonSpec `{StateJson} := {
  json_state_roundtrip s : valid_State s -> json_UnmarshalState (json_MarshalState s) = Some s
}.

Abbreviation Tree := (gmap string string).

(** The disk: the files, the name [CreateTemp] will choose, which of the
    operations of the next save fail, and where a failing write stops. *)
Record Disk := mkDisk {
  dk_files : Tree;
  dk_temp : string;
  dk_read_fails : bool;
  dk_create_fails : bool;
  dk_write_fails : option nat;
  dk_close_fails : bool;
  dk_rename_fails : bool
}.

Definition with_files (t : Tree) (d : Disk) : Disk :=
  mkDisk t (dk_temp d) (dk_read_fails d) (dk_create_fails d) (dk_write_fails d) (dk_close_fails d) (dk_rename_fails d).

Section State.
Context `{StateJson}.

Definition StateLoad (path : string) (d : Disk) : result State :=
  match dk_files d !! path with
  | None => Ok zero_State
  | Some data =>
      if dk_read_fails d then Err (Errorw "admin: read state file: %w" [] (LibError "os.ReadFile"))
      else wrap_err "admin: parse state file: %w" [] (of_lib "json.Unmarshal" (json_UnmarshalState data))
  end.

(** The trees a write of [data] to [tmp] goes through, to [n] bytes. *)
Definition write_trace (tmp data : string) (n : nat) (t : Tree) : list Tree :=
  (fun k => <[tmp := substring 0 k data]> t) <$> seq 0 (S n).

(** [Save]: its result and the trees it goes through, the last one being the
    one it leaves.  The deferred [os.Remove] runs on every return after the
    temporary file exists. *)
Definition Save (path : string) (state : State) (d : Disk) : result unit * list Tree :=
  let data := json_MarshalState state in
  let t := dk_files d in
  let tmp := dk_temp d in
  if dk_create_fails d then (Err (Errorw "admin: create temp state file: %w" [] (LibError "os.CreateTemp")), [t])
  else
    match dk_write_fails d with
    | Some n =>
        (Err (Errorw "admin: write temp state file: %w" [] (LibError "os.File.Write")),
         t :: write_trace tmp data n t ++ [delete tmp t])
    | None =>
        let written := write_trace tmp data (String.length data) t in
        if dk_close_fails d then
          (Err (Errorw "admin: close temp state file: %w" [] (LibError "os.File.Close")), t :: written ++ [delete tmp t])
        else if dk_rename_fails d then
          (Err (Errorw "admin: rename temp state file into place: %w" [] (LibError "os.Rename")), t :: written ++ [delete tmp t])
        else (Ok tt, t :: written ++ [<[path := data]> (delete tmp t)])
    end.

Definition save_to (path : string) (state : State) (d : Disk) : result unit * Disk :=
  let '(r, ts) := Save path state d in (r, with_files (default (dk_files d) (last ts)) d).

End State.

(** ** admin.go: the overlay, replayed and captured *)

Section Overlay.
Context `{IPSetLib} `{MaxMindLib} `{UnicodeTables} `{RegexpLib}.

(** One loop of [replayState]: an edit that fails is logged and skipped. *)
Definition replay_edits {R} (edit : string -> Filter -> result R * Filter) (cidrs : list string) (f : Filter) : Filter :=
  foldl (fun f c => (edit c f).2) f cidrs.

Definition replay_overrides (os : list (Z * override)) (e : Engine) : Engine :=
  foldl (fun e kv => (SetOverride e kv.1 (ov_enabled kv.2) (ov_action kv.2)).2) e os.

Definition replayState (state : State) (f : Filter) (e : option Engine) : Filter * option Engine :=
  let l := st_IPLists state in
  let f := replay_edits RemoveAllow (AllowRemoved l) f in
  let f := replay_edits AddAllow (AllowAdded l) f in
  let f := replay_edits RemoveDeny (DenyRemoved l) f in
  let f := replay_edits AddDeny (DenyAdded l) f in
  (f, replay_overrides (map_to_list (st_WAFOverrides state)) <$> e).

Definition currentState (f : Filter) (e : option Engine) : State :=
  let '(allowAdded, allowRemoved) := AllowOverlay f in
  let '(denyAdded, denyRemoved) := DenyOverlay f in
  mkState (mkIPListState allowAdded allowRemoved denyAdded denyRemoved)
    (match e with Some e => Overrides e | None => ∅ end).

(** ** admin.go: the server *)

Record Info := mkInfo { in_Version : string; in_Listeners : list string; in_Upstreams : list string }.

Record Server := mkServer {
  sv_token : string;
  sv_startedAt : Z;
  sv_info : Info;
  sv_store : option string         (* the state file, nil when unset *)
}.

Class AdminEnv := {
  os_Getenv : string -> string;
  error_Error : error -> string
}.

Record statusResponse := mkStatus {
  sr_Version : string; sr_Uptime : Z; sr_Listeners : list string; sr_Upstreams : list string;
  sr_WAFEnabled : bool; sr_WAFRuleCount : Z }.
Record patchRuleRequest := mkPatch { pr_Enabled : option bool; pr_Action : option string }.

(** [encoding/json] on the API's bodies; decoding gets what the limited reader
    yields. *)
Class ApiJson := {
  dec_cidr : Reader -> result string;
  dec_patch : Reader -> result patchRuleRequest;
  enc_status : statusResponse -> bytes;
  enc_logs : list Entry -> bytes;
  enc_lists : list string -> list string -> bytes;
  enc_rules : list RuleInfo -> bytes
}.

Context `{StateJson} `{!AdminEnv} `{!ApiJson}.

(** [New]: the token, then the persisted edits replayed. *)
Definition New (cfg : AdminConfig) (info : Info) (now : Z) (d : Disk) (f : Filter) (e : option Engine)
    : result (Server * Filter * option Engine) :=
  let token := os_Getenv (ac_AuthTokenEnv cfg) in
  if String.eqb token "" then
    Err (Errorf "admin: environment variable %s is empty or unset" [ac_AuthTokenEnv cfg])
  else if negb (String.eqb (ac_StateFile cfg) "") then
    let! state := wrap_err "admin: load state file: %w" [] (StateLoad (ac_StateFile cfg) d) in
    let '(f, e) := replayState state f e in
    Ok (mkServer token now info (Some (ac_StateFile cfg)), f, e)
  else Ok (mkServer token now info None, f, e).

Section Handlers.
Context {C : Type} `{!Part Filter C} `{!Part (option Engine) C} `{!Part AccessLog C} `{!Part Disk C}.
Context (s : Server).

Definition the_filter (w : World C) : Filter := part (comp w).
Definition the_engine (w : World C) : option Engine := part (comp w).

(** [persist]: a failed save is reported in a header only. *)
Definition persist (rw : ResponseWriter) (w : World C) : World C :=
  match sv_store s with
  | None => w
  | Some path =>
      let '(r, d) := save_to path (currentState (the_filter w) (the_engine w)) (part (comp w)) in
      let w := upd_comp (set_part d) w in
      match r with
      | Ok _ => w
      | Err err => SetHeader rw "X-Persistence-Warning" ("change applied but not persisted to disk: " +:+ error_Error err) w
      end
  end.

(** [http.Error] *)
Definition http_Error (rw : ResponseWriter) (msg : string) (code : Z) (w : World C) : World C :=
  let w := SetHeader rw "Content-Type" "text/plain; charset=utf-8" w in
  let w := SetHeader rw "X-Content-Type-Options" "nosniff" w in
  (Write rw (to_bytes msg ++ ["010"%char]) (WriteHeader rw code w)).2.

Definition writeJSON (rw : ResponseWriter) (status : Z) (body : bytes) (w : World C) : World C :=
  (Write rw body (WriteHeader rw status (SetHeader rw "Content-Type" "application/json" w))).2.

(** The reader [decodeJSON] decodes from. *)
Definition limited_body (r : Request) : Reader :=
  match r_body r with
  | BodyReader rd => mkReader (take (Z.to_nat 65536) (rd_data rd)) (rd_fails rd && (Z.of_nat (length (rd_data rd)) <? 65536))
  | _ => mkReader [] false
  end.

Definition decodeJSON {A} (dec : Reader -> result A) (rw : ResponseWriter) (r : Request) (w : World C) : A + World C :=
  match dec (limited_body r) with
  | Ok a => inl a
  | Err err => inr (http_Error rw ("invalid JSON body: " +:+ error_Error err) StatusBadRequest w)
  end.

Definition handleStatus : Handler C := fun rw r w =>
  let e := the_engine w in
  writeJSON rw StatusOK
    (enc_status (mkStatus (in_Version (sv_info s)) (clock w - sv_startedAt s) (in_Listeners (sv_info s))
       (in_Upstreams (sv_info s)) (match e with Some _ => true | None => false end)
       (match e with Some e => RuleCount e | None => 0 end))) w.

(** [URL.Query().Get] *)
Definition query_Get (rawquery key : string) : string := Values_Get (ParseQuery rawquery) key.

Definition log_limit (v : string) : Z :=
  if String.eqb v "" then 200
  else match Atoi v with Some n => if 0 <? n then n else 200 | None => 200 end.

Definition handleLogs : Handler C := fun rw r w =>
  let q := query_Get (r_rawquery r) in
  match Recent (log_limit (q "limit")) (q "outcome") (q "reason") (part (comp w)) with
  | Some entries => writeJSON rw StatusOK (enc_logs entries) w
  | None => w                          (* never: the ring is well formed *)
  end.

Definition handleListIPLists : Handler C := fun rw r w =>
  writeJSON rw StatusOK (enc_lists (ListAllow (the_filter w)) (ListDeny (the_filter w))) w.

Definition quoted (v : string) : string := String "034" v +:+ String "034" "".
Definition bad_list : string := "list must be " +:+ quoted "allow" +:+ " or " +:+ quoted "deny".

Definition handleAddIP (list : string) : Handler C := fun rw r w =>
  match decodeJSON dec_cidr rw r w with
  | inr w => w
  | inl cidr =>
      let finish (res : result unit * Filter) :=
        let w := upd_comp (set_part res.2) w in
        match res.1 with
        | Err err => http_Error rw (error_Error err) StatusBadRequest w
        | Ok _ => WriteHeader rw StatusNoContent (persist rw w)
        end in
      if String.eqb list "allow" then finish (AddAllow cidr (the_filter w))
      else if String.eqb list "deny" then finish (AddDeny cidr (the_filter w))
      else http_Error rw bad_list StatusNotFound w
  end.

Definition handleRemoveIP (list : string) : Handler C := fun rw r w =>
  match decodeJSON dec_cidr rw r w with
  | inr w => w
  | inl cidr =>
      let finish (res : result bool * Filter) :=
        let w := upd_comp (set_part res.2) w in
        match res.1 with
        | Err err => http_Error rw (error_Error err) StatusBadRequest w
        | Ok false => WriteHeader rw StatusNotFound w
        | Ok true => WriteHeader rw StatusNoContent (persist rw w)
        end in
      if String.eqb list "allow" then finish (RemoveAllow cidr (the_filter w))
      else if String.eqb list "deny" then finish (RemoveDeny cidr (the_filter w))
      else http_Error rw bad_list StatusNotFound w
  end.

Definition handleListRules : Handler C := fun rw r w =>
  writeJSON rw StatusOK (enc_rules (match the_engine w with Some e => ListRules e | None => [] end)) w.

(** The override a PATCH sets: the fields it gives, over the rule's current
    state. *)
Definition patched (infos : list RuleInfo) (id : Z) (req : patchRuleRequest) : bool * string :=
  let '(enabled, action) :=
    match find (fun info => ri_ID info =? id) infos with
    | Some info => (ri_Enabled info, if ri_Overridden info then ri_Action info else "")
    | None => (true, "")
    end in
  (default enabled (pr_Enabled req), default action (pr_Action req)).

Definition handlePatchRule (id : string) : Handler C := fun rw r w =>
  match the_engine w with
  | None => http_Error rw "waf is disabled" StatusNotFound w
  | Some e =>
      match Atoi id with
      | None => http_Error rw "invalid rule id" StatusBadRequest w
      | Some id =>
          match decodeJSON dec_patch rw r w with
          | inr w => w
          | inl req =>
              let '(enabled, action) := patched (ListRules e) id req in
              let '(res, e') := SetOverride e id enabled action in
              let w := upd_comp (set_part (Some e')) w in
              match res with
              | Err err => http_Error rw (error_Error err) StatusBadRequest w
              | Ok _ => WriteHeader rw StatusNoContent (persist rw w)
              end
          end
      end
  end.

(** ** Routing *)

(** The patterns of the API mux; a wildcard matches one non-empty segment. *)
Inductive route : Type :=
  | RouteStatus | RouteLogs | RouteIPLists | RouteIPList (list : string)
  | RouteRules | RouteRule (id : string) | NoRoute.

Definition api_route (path : string) : route :=
  match Split path "/" with
  | [""; "admin"; "api"; "status"] => RouteStatus
  | [""; "admin"; "api"; "logs"] => RouteLogs
  | [""; "admin"; "api"; "ip-lists"] => RouteIPLists
  | [""; "admin"; "api"; "ip-lists"; list] => if String.eqb list "" then NoRoute else RouteIPList list
  | [""; "admin"; "api"; "waf-rules"] => RouteRules
  | [""; "admin"; "api"; "waf-rules"; id] => if String.eqb id "" then NoRoute else RouteRule id
  | _ => NoRoute
  end.

(** The API mux: method and path to a handler, 404 or 405 otherwise. *)
Definition not_allowed (allow : string) : Handler C := fun rw r w =>
  http_Error rw "Method Not Allowed" StatusMethodNotAllowed (SetHeader rw "Allow" allow w).

Definition api_mux : Handler C := fun rw r w =>
  let method := String.eqb (r_method r) in
  let get (h : Handler C) := if method "GET" || method "HEAD" then h rw r w else not_allowed "GET, HEAD" rw r w in
  match api_route (r_path r) with
  | RouteStatus => get handleStatus
  | RouteLogs => get handleLogs
  | RouteIPLists => get handleListIPLists
  | RouteIPList list =>
      if method "POST" then handleAddIP list rw r w
      else if method "DELETE" then handleRemoveIP list rw r w
      else not_allowed "DELETE, POST" rw r w
  | RouteRules => get handleListRules
  | RouteRule id => if method "PATCH" then handlePatchRule id rw r w else not_allowed "PATCH" rw r w
  | NoRoute => http_Error rw "404 page not found" StatusNotFound w
  end.

Definition requireAuth (next : Handler C) : Handler C := fun rw r w =>
  let prefix := "Bearer " in
  let auth := Header_Get (r_header r) "Authorization" in
  if negb (HasPrefix auth prefix) || negb (String.eqb (TrimPrefix auth prefix) (sv_token s))
  then WriteHeader rw StatusUnauthorized w
  else next rw r w.

(** The outer mux.  It redirects a path that is not clean to the clean one, and
    /admin/api to /admin/api/.  [static] serves the embedded page; [redirect]
    answers 301 to a path.  Segments are those of the decoded path, which are
    the mux's when no slash or dot in the URL is percent-encoded. *)
Definition AdminHandler (static : Handler C) (redirect : string -> Handler C) : Handler C := fun rw r w =>
  let path := if String.eqb (r_method r) "CONNECT" then r_path r else cleanPath (r_path r) in
  if String.eqb path "/admin/api" then redirect "/admin/api/" rw r w
  else if negb (String.eqb path (r_path r)) then redirect path rw r w
  else if HasPrefix path "/admin/api/" then requireAuth api_mux rw r w
  else if HasPrefix path "/admin/" then static rw r w
  else if String.eqb path "/admin" then redirect "/admin/" rw r w
  else http_Error rw "404 page not found" StatusNotFound w.

End Handlers.
End Overlay.
