(* ===== verification/AdminProofs.v ===== *)
(** * The dashboard: what authentication, persistence and restart promise

    The API behind its token; the atomic save, at every point a crash can
    leave; the edits a restart brings back; what an edit does and what is on
    disk afterwards. *)
From S2P Require Import Prelude GoStrings Netip Netmatch Atomics Config Http Middleware AccessLog Geoip IPFilter.
From S2P Require Import Waf Admin.

(** ** Writing a response touches no component *)

Section Frame.
Context {C : Type}.
Implicit Types w : World C.

Lemma comp_SetHeader rw k v w : comp (SetHeader rw k v w) = comp w.
Proof. done. Qed.

Lemma comp_http_Error rw msg code w : comp (http_Error rw msg code w) = comp w.
Proof. unfold http_Error. by rewrite comp_Write, comp_WriteHeader. Qed.

End Frame.

#[export] Hint Rewrite @comp_SetHeader @comp_http_Error : parts.

(** ** The token *)

Section Auth.
Context `{IPSetLib} `{MaxMindLib} `{UnicodeTables} `{RegexpLib} `{StateJson} `{!AdminEnv} `{!ApiJson}.
Context {C : Type} `{!Part Filter C} `{!Part (option Engine) C} `{!Part AccessLog C} `{!Part Disk C}.

Lemma requireAuth_spec s (next : Handler C) rw r w :
  requireAuth s next rw r w =
    if decide (Header_Get (r_header r) "Authorization" = "Bearer " +:+ sv_token s) then next rw r w
    else WriteHeader rw StatusUnauthorized w.
Proof.
  unfold requireAuth. set (auth := Header_Get (r_header r) "Authorization").
  pose proof (HasPrefix_TrimPrefix auth "Bearer " (sv_token s)) as Heq.
  destruct (HasPrefix auth "Bearer "); cbn [negb orb].
  - destruct (String.eqb_spec (TrimPrefix auth "Bearer ") (sv_token s)); cbn [negb]; by case_decide; intuition.
  - by case_decide; intuition.
Qed.

(** C31. No request changes a component without the token: whatever its method
    and path, unless its Authorization header is exactly Bearer and the token,
    the filter, the engine, the log and the disk are left as they are.  Under
    /admin/api/, such a request is answered 401 before any handler runs, and one
    with the token reaches the API's mux. *)
Theorem api_needs_token s static redirect rw r (w : World C) :
  (forall rw r w, comp (static rw r w) = comp w) ->
  (forall path rw r w, comp (redirect path rw r w) = comp w) ->
  let w' := AdminHandler s static redirect rw r w in
  let has_token := Header_Get (r_header r) "Authorization" = "Bearer " +:+ sv_token s in
  (~ has_token -> comp w' = comp w) /\
  (HasPrefix (r_path r) "/admin/api/" = true -> cleanPath (r_path r) = r_path r ->
     w' = if decide has_token then api_mux s rw r w else WriteHeader rw StatusUnauthorized w).
Proof.
  intros Hs Hr. cbn zeta. pose proof (requireAuth_spec s (api_mux s) rw r w) as Hauth.
  set (has_token := Header_Get _ _ = _) in *. unfold AdminHandler. rewrite Hauth. split; intros Hp.
  - repeat case_match; first [done | apply Hs | apply Hr | apply comp_WriteHeader | apply comp_http_Error].
  - intros ->. rewrite Tauto.if_same, String.eqb_refl, Hp. cbn [negb].
    destruct (String.eqb_spec (r_path r) "/admin/api") as [Heq|]; [by rewrite Heq in Hp|done].
Qed.

End Auth.

(** ** The save *)

Section Save.
Context `{StateJson}.

Lemma write_trace_other tmp data n t path u : path <> tmp -> u ∈ write_trace tmp data n t -> u !! path = t !! path.
Proof. intros Hne (k & -> & _)%list_elem_of_fmap. by rewrite lookup_insert_ne. Qed.

Lemma last_snoc_app {A} (x y : A) (l : list A) : last (x :: l ++ [y]) = Some y.
Proof. change (last ((x :: l) ++ [y]) = Some y). apply last_snoc. Qed.

(** C16. A save is atomic.  At every point of it, so wherever a crash stops it,
    the state file holds either what it held or the whole new state, and other
    files are untouched; when it returns, an error means the disk is as before,
    and success that the state file holds the new state.  The temporary file is
    gone in both cases. *)
Theorem save_atomic path state d :
  dk_temp d <> path -> dk_files d !! dk_temp d = None ->
  let '(r, trace) := Save path state d in
  Forall (fun t => (t !! path = dk_files d !! path \/ t !! path = Some (json_MarshalState state)) /\
                   forall other, other <> path -> other <> dk_temp d -> t !! other = dk_files d !! other) trace /\
  last trace = Some (if is_ok r then <[path := json_MarshalState state]> (dk_files d) else dk_files d).
Proof.
  intros Hne Hnew. unfold Save. set (t := dk_files d) in *. set (tmp := dk_temp d) in *.
  set (data := json_MarshalState state).
  assert (delete tmp t = t) as Hdel by (by apply delete_id).
  set (good := fun u : Tree => (u !! path = t !! path \/ u !! path = Some data) /\
    forall other, other <> path -> other <> tmp -> u !! other = t !! other).
  assert (good t) as Ht by (split; [by left|done]).
  assert (forall n u, u ∈ write_trace tmp data n t -> good u) as Hw.
  { intros n u Hu. split; [left; by eapply write_trace_other|]. intros other _ Ho. by eapply write_trace_other. }
  assert (forall n end_, good end_ -> Forall good (t :: write_trace tmp data n t ++ [end_])) as Hall.
  { intros n e He. constructor; [done|]. apply Forall_app_2; [apply Forall_forall, Hw|by constructor]. }
  destruct (dk_create_fails d); [split; [by constructor|done]|].
  destruct (dk_write_fails d) as [n|]; [rewrite Hdel; split; [by apply Hall|apply last_snoc_app]|].
  destruct (dk_close_fails d); [rewrite Hdel; split; [by apply Hall|apply last_snoc_app]|].
  destruct (dk_rename_fails d); [rewrite Hdel; split; [by apply Hall|apply last_snoc_app]|].
  rewrite Hdel. split; [|apply last_snoc_app]. apply Hall. split; [right; by rewrite lookup_insert_eq|].
  intros other Ho _. by rewrite lookup_insert_ne.
Qed.

Lemma Save_ok path state d :
  dk_create_fails d = false -> dk_write_fails d = None -> dk_close_fails d = false -> dk_rename_fails d = false ->
  exists d', save_to path state d = (Ok tt, d') /\ dk_files d' !! path = Some (json_MarshalState state) /\
    dk_read_fails d' = dk_read_fails d.
Proof.
  intros Hc Hw Hcl Hr. unfold save_to, Save. rewrite Hc, Hw, Hcl, Hr. eexists. split; [done|].
  cbn [with_files dk_files dk_read_fails]. rewrite last_snoc_app. cbn. by rewrite lookup_insert_eq.
Qed.

Lemma StateLoad_saved `{!StateJsonSpec} path state d :
  valid_State state -> dk_files d !! path = Some (json_MarshalState state) -> dk_read_fails d = false ->
  StateLoad path d = Ok state.
Proof. intros Hv Hf Hr. unfold StateLoad. by rewrite Hf, Hr, json_state_roundtrip. Qed.

End Save.

(** ** Replaying the overlay *)

Section Replay.
Context `{IPSetLib} `{!IPSetSpec} `{MaxMindLib} `{UnicodeTables} `{RegexpLib}.

Lemma spec_remove_effect c a d :
  in_effect (spec_edit (EditRemove c) a).2 d = if decide (d = c) then false else in_effect a d.
Proof.
  cbn [spec_edit]. destruct (in_effect a c) eqn:Hc; cbn [negb snd]; [|case_decide; congruence].
  unfold in_effect at 1. cbn. case_decide as Hd.
  - subst d. case_bool_decide as Hb; [by rewrite lookup_insert_eq|]. by rewrite lookup_delete_eq.
  - case_bool_decide; rewrite ?lookup_insert_ne, ?lookup_delete_ne by done; done.
Qed.

Lemma spec_add_effect c a d :
  valid_cidrb c = true ->
  in_effect (spec_edit (EditAdd c) a).2 d = if decide (d = c) then true else in_effect a d.
Proof.
  intros Hv. cbn [spec_edit]. rewrite Hv. cbn [negb]. destruct (in_effect a c) eqn:Hc; cbn [snd]; [case_decide; congruence|].
  unfold in_effect at 1. cbn. case_decide as Hd.
  - subst d. case_bool_decide as Hb; [by rewrite lookup_delete_eq|]. by rewrite lookup_insert_eq.
  - case_bool_decide; rewrite ?lookup_insert_ne, ?lookup_delete_ne by done; done.
Qed.

(** The edits a replay runs on one list, removals first. *)
Definition replay_list (removed added : list string) (s : listState) : listState :=
  foldl (fun s e => (run_edit e s).2) s ((EditRemove <$> removed) ++ (EditAdd <$> added)).

Definition replay_layers (removed added : list string) (a : layers) : layers :=
  foldl (fun a e => (spec_edit e a).2) a ((EditRemove <$> removed) ++ (EditAdd <$> added)).

Lemma replay_list_represents removed added s a :
  represents s a -> represents (replay_list removed added s) (replay_layers removed added a).
Proof.
  unfold replay_list, replay_layers. generalize ((EditRemove <$> removed) ++ (EditAdd <$> added)). intros es.
  revert s a. induction es as [|e es IH]; intros s a Hs; cbn; [done|]. apply IH. by apply run_edit_refines.
Qed.

Lemma replay_layers_effect removed added a d :
  Forall (fun c => valid_cidrb c = true) added ->
  in_effect (replay_layers removed added a) d =
  if decide (d ∈ added) then true else if decide (d ∈ removed) then false else in_effect a d.
Proof.
  intros Hv. unfold replay_layers. rewrite foldl_app.
  assert (forall a, in_effect (foldl (fun a e => (spec_edit e a).2) a (EditRemove <$> removed)) d =
            if decide (d ∈ removed) then false else in_effect a d) as Hrem.
  { clear. induction removed as [|c removed IH]; intros a; [done|]. rewrite fmap_cons. cbn [foldl].
    rewrite IH, spec_remove_effect. repeat case_decide; try done; set_solver. }
  assert (forall a, in_effect (foldl (fun a e => (spec_edit e a).2) a (EditAdd <$> added)) d =
            if decide (d ∈ added) then true else in_effect a d) as ->; [|by rewrite Hrem].
  clear Hrem. induction Hv as [|c added Hc Hv IH]; intros a'; [done|]. rewrite fmap_cons. cbn [foldl].
  rewrite IH, spec_add_effect by done. repeat case_decide; try done; set_solver.
Qed.

(** The filter's edits are the list's edits. *)
Lemma addCIDR_run c s : run_edit (EditAdd c) s = (reply_unit (addCIDR c s).1, (addCIDR c s).2).
Proof.
  unfold addCIDR, run_edit, run_body, edit_body. destruct (ParsePrefix c); [|done]. cbn. by destruct (addCIDR_body c s).
Qed.

Lemma removeCIDR_run c s : run_edit (EditRemove c) s = (reply_bool (removeCIDR c s).1, (removeCIDR c s).2).
Proof. unfold removeCIDR, run_edit, run_body, edit_body. by destruct (removeCIDR_body c s). Qed.

Lemma AddAllow_run c f : (AddAllow c f).2 = set_allow f (run_edit (EditAdd c) (f_allow f)).2.
Proof. unfold AddAllow. rewrite addCIDR_run. by destruct (addCIDR c (f_allow f)). Qed.

Lemma AddDeny_run c f : (AddDeny c f).2 = set_deny f (run_edit (EditAdd c) (f_deny f)).2.
Proof. unfold AddDeny. rewrite addCIDR_run. by destruct (addCIDR c (f_deny f)). Qed.

Lemma RemoveAllow_run c f : (RemoveAllow c f).2 = set_allow f (run_edit (EditRemove c) (f_allow f)).2.
Proof. unfold RemoveAllow. rewrite removeCIDR_run. by destruct (removeCIDR c (f_allow f)). Qed.

Lemma RemoveDeny_run c f : (RemoveDeny c f).2 = set_deny f (run_edit (EditRemove c) (f_deny f)).2.
Proof. unfold RemoveDeny. rewrite removeCIDR_run. by destruct (removeCIDR c (f_deny f)). Qed.

Lemma replay_edits_allow {R} (edit : string -> Filter -> result R * Filter) (mk : string -> list_edit) cs f :
  (forall c f, (edit c f).2 = set_allow f (run_edit (mk c) (f_allow f)).2) ->
  replay_edits edit cs f = set_allow f (foldl (fun s e => (run_edit e s).2) (f_allow f) (mk <$> cs)).
Proof.
  intros He. unfold replay_edits. revert f. induction cs as [|c cs IH]; intros f; [by destruct f|].
  rewrite fmap_cons. cbn [foldl]. by rewrite IH, He.
Qed.

Lemma replay_edits_deny {R} (edit : string -> Filter -> result R * Filter) (mk : string -> list_edit) cs f :
  (forall c f, (edit c f).2 = set_deny f (run_edit (mk c) (f_deny f)).2) ->
  replay_edits edit cs f = set_deny f (foldl (fun s e => (run_edit e s).2) (f_deny f) (mk <$> cs)).
Proof.
  intros He. unfold replay_edits. revert f. induction cs as [|c cs IH]; intros f; [by destruct f|].
  rewrite fmap_cons. cbn [foldl]. by rewrite IH, He.
Qed.

Lemma replay_filter state f e :
  (replayState state f e).1 =
  mkFilter (replay_list (AllowRemoved (st_IPLists state)) (AllowAdded (st_IPLists state)) (f_allow f))
    (replay_list (DenyRemoved (st_IPLists state)) (DenyAdded (st_IPLists state)) (f_deny f)) (f_geo f) (g_heap f).
Proof.
  unfold replayState, replay_list. rewrite !foldl_app. cbn [fst].
  rewrite (replay_edits_allow RemoveAllow EditRemove) by apply RemoveAllow_run.
  rewrite (replay_edits_allow AddAllow EditAdd) by apply AddAllow_run.
  rewrite (replay_edits_deny RemoveDeny EditRemove) by apply RemoveDeny_run.
  by rewrite (replay_edits_deny AddDeny EditAdd) by apply AddDeny_run.
Qed.

(** A list whose overlay is replayed on its own base is in effect as before. *)
Lemma replay_same_effect s a s0 c :
  represents s a -> represents s0 (mkLayers (l_base a) ∅) ->
  c ∈ effective (replay_list (adminRemoved s) (adminAdded s) s0) <-> c ∈ effective s.
Proof.
  intros Hs Hs0. 
  enough (bool_decide (c ∈ effective (replay_list (adminRemoved s) (adminAdded s) s0)) = bool_decide (c ∈ effective s)) as Heq.
  { by rewrite <- (bool_decide_eq_true (c ∈ effective (replay_list _ _ _))), Heq, bool_decide_eq_true. }
  rewrite <- (in_effect_spec _ _ _ (replay_list_represents _ _ _ _ Hs0)), <- (in_effect_spec _ _ _ Hs).
  rewrite replay_layers_effect.
  - unfold in_effect at 1. cbn [l_overlay l_base]. rewrite lookup_empty.
    pose proof (rep_added _ _ Hs c) as Ha. pose proof (rep_removed _ _ Hs c) as Hr.
    unfold in_effect. destruct Ha as [Ha1 Ha2], Hr as [Hr1 Hr2], (l_overlay a !! c) as [[]|]; repeat case_decide; try done; naive_solver.
  - apply Forall_forall. intros d Hd. apply valid_cidrb_spec. by apply (added_valid s a).
Qed.

(** ** Replaying the overrides *)

Lemma valid_action_spec ac : valid_action ac <-> ac = "" \/ ac = ActionBlock \/ ac = ActionLog.
Proof. unfold valid_action. rewrite !elem_of_cons, elem_of_nil. naive_solver. Qed.

(** [SetOverride] accepts the known rules with a valid action, and changes
    nothing else. *)
Lemma SetOverride_cases e id en ac :
  if bool_decide (known_rule e id = true /\ valid_action ac)
  then SetOverride e id en ac = (Ok tt, with_overrides e (<[id := mkOverride en ac]> (en_overrides e)))
  else (SetOverride e id en ac).2 = e /\ is_ok (SetOverride e id en ac).1 = false.
Proof.
  unfold SetOverride. case_bool_decide as Hd; rewrite valid_action_spec in Hd;
    destruct (String.eqb_spec ac ""), (String.eqb_spec ac ActionBlock), (String.eqb_spec ac ActionLog),
      (known_rule e id); cbn; try done; naive_solver.
Qed.

Lemma SetOverride_lookup e id en ac id' :
  en_overrides (SetOverride e id en ac).2 !! id' =
  if decide (id' = id /\ known_rule e id = true /\ valid_action ac) then Some (mkOverride en ac) else en_overrides e !! id'.
Proof.
  pose proof (SetOverride_cases e id en ac) as Hs. case_bool_decide as Hd.
  - rewrite Hs. cbn. case_decide as Hd'; [destruct Hd' as [-> _]; apply lookup_insert_eq|].
    apply lookup_insert_ne. naive_solver.
  - destruct Hs as [-> _]. rewrite decide_False; [done|tauto].
Qed.

Lemma SetOverride_rules e id en ac : en_ruleSet (SetOverride e id en ac).2 = en_ruleSet e.
Proof. unfold SetOverride. by repeat case_match. Qed.

Lemma replay_overrides_lookup os : forall e id,
  NoDup os.*1 -> Forall (fun kv => valid_action (ov_action kv.2)) os ->
  en_overrides (replay_overrides os e) !! id =
  match (list_to_map os : gmap Z override) !! id with
  | Some o => if known_rule e id then Some o else en_overrides e !! id
  | None => en_overrides e !! id
  end.
Proof.
  unfold replay_overrides. induction os as [|[k o] os IH]; intros e id Hnd Hv; [done|].
  cbn in Hnd. apply NoDup_cons in Hnd as [Hk Hnd]. apply Forall_cons in Hv as [Ho Hv]. cbn [foldl fst snd].
  rewrite IH by done. unfold known_rule. rewrite SetOverride_rules. fold (known_rule e id). rewrite SetOverride_lookup.
  rewrite list_to_map_cons. destruct (decide (id = k)) as [->|Hne].
  - rewrite lookup_insert_eq, (not_elem_of_list_to_map_1 (M := gmap Z)) by done.
    destruct (known_rule e k) eqn:Ek; [rewrite decide_True by done; by destruct o|]. rewrite decide_False; [done|]. by intros (_ & ? & _).
  - rewrite lookup_insert_ne by done. rewrite decide_False by tauto. done.
Qed.

End Replay.
