(* ===== verification/Dashboard.v ===== *)
(** * The dashboard: its invariant, its edits and a restart

    What every API request preserves, what an edit of a list does to the
    filter and to the state file, and what a restart brings back. *)
From S2P Require Import Prelude GoStrings Netip Netmatch Atomics Config Http Middleware AccessLog Geoip IPFilter.
From S2P Require Import IPFilterProofs Waf WafProofs Admin AdminProofs.

(** ** The invariant *)

Section Invariant.
Context `{IPSetLib} `{!IPSetSpec} `{MaxMindLib} `{UnicodeTables} `{RegexpLib}.

Definition valid_cidrs (cs : list string) : Prop := Forall (fun c => valid_cidrb c = true) cs.

(** A list whose caches agree with its layers and whose removals are CIDRs. *)
Definition list_ok (s : listState) : Prop := listState_wf s /\ valid_cidrs (adminRemoved s).

Definition engine_ok (e : option Engine) : Prop :=
  forall e', e = Some e' -> map_Forall (fun _ o => valid_action (ov_action o)) (en_overrides e').

Record dashboard_ok (f : Filter) (e : option Engine) : Prop := {
  do_allow : list_ok (f_allow f);
  do_deny : list_ok (f_deny f);
  do_engine : engine_ok e
}.

Lemma removed_after_edit ed s :
  (forall b, ed <> EditReload b) ->
  forall c, c ∈ adminRemoved (run_edit ed s).2 -> c ∈ adminRemoved s \/ c ∈ effective s.
Proof.
  intros Hed c. unfold run_edit, edit_body, run_body. destruct ed as [d|d|b]; [| |by destruct (Hed b)].
  - destruct (is_ok _); [|by left]. unfold addCIDR_body. destruct (containsStr _ d); [by left|].
    pose proof (newListState_spec (base s) (if negb (containsStr (base s) d) then adminAdded s ++ [d] else adminAdded s)
      (removeStr (adminRemoved s) d)) as Hn.
    destruct (newListState _ _ _); cbn; [|by left]. destruct Hn as (_ & _ & -> & _).
    rewrite elem_of_removeStr. tauto.
  - unfold removeCIDR_body. rewrite containsStr_elem. case_bool_decide as He; cbn [negb map_round snd]; [|by left].
    pose proof (newListState_spec (base s) (removeStr (adminAdded s) d)
      (if containsStr (base s) d then adminRemoved s ++ [d] else adminRemoved s)) as Hn.
    destruct (newListState _ _ _); cbn; [|by left]. destruct Hn as (_ & _ & -> & _).
    destruct (containsStr (base s) d); [|by left]. rewrite elem_of_app, list_elem_of_singleton. naive_solver.
Qed.

Lemma run_edit_list_ok ed s : (forall b, ed <> EditReload b) -> list_ok s -> list_ok (run_edit ed s).2.
Proof.
  intros Hed [[a Hs] Hv]. split; [exists (spec_edit ed a).2; by apply run_edit_refines|].
  apply Forall_forall. intros c [Hc|Hc]%removed_after_edit; [revert c Hc; by apply Forall_forall| |done].
  apply valid_cidrb_spec. by apply (effective_valid s a).
Qed.

Lemma SetOverride_engine_ok e id en ac :
  engine_ok (Some e) -> engine_ok (Some (SetOverride e id en ac).2).
Proof.
  intros He e' [= <-]. specialize (He e eq_refl). pose proof (SetOverride_cases e id en ac) as Hs.
  case_bool_decide as Hd; [|by destruct Hs as [-> _]]. rewrite Hs. cbn.
  apply (map_Forall_insert_2 (fun _ o => valid_action (ov_action o))); [cbn; tauto|done].
Qed.

Lemma valid_State_current f e : dashboard_ok f e -> valid_State (currentState f e).
Proof.
  intros [[[aA HA] HrA] [[aD HD] HrD] He].
  assert (forall s a, represents s a -> valid_cidrs (adminAdded s)) as Hadded.
  { intros s a Hs. apply Forall_forall. intros c Hc. apply valid_cidrb_spec. by apply (added_valid s a). }
  split; cbn.
  - apply Forall_app; split; [by apply (Hadded _ aA)|]. apply Forall_app; split; [done|].
    apply Forall_app; split; [by apply (Hadded _ aD)|done].
  - destruct e as [e|]; [by apply He|apply map_Forall_empty].
Qed.

End Invariant.

(** ** The handlers *)

Section Handlers.
Context `{IPSetLib} `{!IPSetSpec} `{MaxMindLib} `{UnicodeTables} `{RegexpLib} `{StateJson} `{!AdminEnv} `{!ApiJson}.
Context {C : Type} `{!Part Filter C} `{!Part (option Engine) C} `{!Part AccessLog C} `{!Part Disk C}.
Context `{!PartLaws Filter C} `{!PartLaws (option Engine) C} `{!PartLaws Disk C}.
Context `{!PartIndep Filter (option Engine) C} `{!PartIndep Filter Disk C}.
Context `{!PartIndep (option Engine) Filter C}.
Context `{!PartIndep Disk Filter C} `{!PartIndep Disk (option Engine) C}.
Implicit Types (w : World C) (s : Server).

Definition world_ok w : Prop := dashboard_ok (the_filter w) (the_engine w).

Lemma the_comp w w' : comp w = comp w' -> the_filter w = the_filter w' /\ the_engine w = the_engine w'.
Proof. unfold the_filter, the_engine. by intros ->. Qed.

Lemma persist_frame s rw w : the_filter (persist s rw w) = the_filter w /\ the_engine (persist s rw w) = the_engine w.
Proof.
  unfold persist. destruct (sv_store s) as [path|]; [|done].
  destruct (save_to _ _ _) as [[u|err] d]; unfold the_filter, the_engine; cbn;
    by rewrite (part_other (X := Disk) (Y := Filter)), (part_other (X := Disk) (Y := option Engine)).
Qed.

(** The reply of a list edit, as the handlers give it. *)
Definition reply_status (p : edit_reply) : Z :=
  match p with Edited => StatusNoContent | NotFound => StatusNotFound | Rejected => StatusBadRequest end.

Definition chosen (list : string) (f : Filter) : listState := if String.eqb list "allow" then f_allow f else f_deny f.
Definition set_chosen (list : string) (f : Filter) (l : listState) : Filter :=
  if String.eqb list "allow" then set_allow f l else set_deny f l.

Definition edit_of (add : bool) (c : string) : list_edit := if add then EditAdd c else EditRemove c.
Definition edit_handler s (add : bool) (list : string) : Handler C :=
  if add then handleAddIP s list else handleRemoveIP s list.

(** Both edit handlers run the edit on the list the path names. *)
Lemma edit_handler_run s add list rw r w c :
  dec_cidr (limited_body r) = Ok c -> list = "allow" \/ list = "deny" ->
  let p := run_edit (edit_of add c) (chosen list (the_filter w)) in
  let w' := upd_comp (set_part (set_chosen list (the_filter w) p.2)) w in
  exists msg, edit_handler s add list rw r w =
    match p.1 with
    | Edited => WriteHeader rw StatusNoContent (persist s rw w')
    | NotFound => WriteHeader rw StatusNotFound w'
    | Rejected => http_Error rw msg StatusBadRequest w'
    end.
Proof.
  intros Hc Hl. unfold edit_handler, edit_of, handleAddIP, handleRemoveIP, decodeJSON.
  destruct add; [rewrite addCIDR_run|rewrite removeCIDR_run]; cbn beta; rewrite Hc; cbn [fst snd];
    destruct Hl as [-> | ->]; cbn [String.eqb]; unfold chosen, set_chosen; cbn [String.eqb Ascii.eqb Bool.eqb].
  - unfold AddAllow. destruct (addCIDR c _) as [[u|err] l]; cbn; eauto.
  - unfold AddDeny. destruct (addCIDR c _) as [[u|err] l]; cbn; eauto.
  - unfold RemoveAllow. destruct (removeCIDR c _) as [[[]|err] l]; cbn; eauto.
  - unfold RemoveDeny. destruct (removeCIDR c _) as [[[]|err] l]; cbn; eauto.
  Unshelve. all: exact "".
Qed.

(** A handler that answers an error leaves every component alone. *)
Lemma edit_handler_error s add list rw r w :
  (forall c, dec_cidr (limited_body r) <> Ok c) \/ ~ (list = "allow" \/ list = "deny") ->
  comp (edit_handler s add list rw r w) = comp w.
Proof.
  intros Hn. unfold edit_handler, handleAddIP, handleRemoveIP, decodeJSON.
  destruct add; cbn beta; (destruct (dec_cidr (limited_body r)) as [c|err]; [|by rewrite comp_http_Error]).
  all: destruct Hn as [Hn|Hn]; [by destruct (Hn c)|].
  all: destruct (String.eqb_spec list "allow"), (String.eqb_spec list "deny"); try tauto; by rewrite comp_http_Error.
Qed.

Lemma dashboard_ok_set_chosen list f e l : dashboard_ok f e -> list_ok l -> dashboard_ok (set_chosen list f l) e.
Proof. intros [] Hl. unfold set_chosen. destruct (String.eqb _ _); by split. Qed.

Lemma chosen_ok list f e : dashboard_ok f e -> list_ok (chosen list f).
Proof. intros []. unfold chosen. by destruct (String.eqb _ _). Qed.

Lemma handlePatchRule_frame s id rw r w :
  the_filter (handlePatchRule s id rw r w) = the_filter w /\
  (world_ok w -> engine_ok (the_engine (handlePatchRule s id rw r w))).
Proof.
  assert (forall w', comp w' = comp w -> the_filter w' = the_filter w /\ (world_ok w -> engine_ok (the_engine w'))) as Hsame.
  { intros w' [-> ->]%the_comp. split; [done|]. by intros []. }
  unfold handlePatchRule. destruct (the_engine w) as [e|] eqn:He; [|by apply Hsame, comp_http_Error].
  destruct (Atoi id) as [n|]; [|by apply Hsame, comp_http_Error].
  unfold decodeJSON. destruct (dec_patch (limited_body r)) as [req|err]; [|by apply Hsame, comp_http_Error].
  destruct (patched _ _ _) as [en ac]. destruct (SetOverride e n en ac) as [res e'] eqn:Es.
  set (w1 := upd_comp _ w).
  assert (the_filter w1 = the_filter w /\ (world_ok w -> engine_ok (the_engine w1))) as [Hf Hok].
  { unfold w1, the_filter, the_engine. cbn. rewrite part_other, part_set. split; [done|].
    intros [_ _ Heng]. rewrite He in Heng. apply (SetOverride_engine_ok e n en ac) in Heng. by rewrite Es in Heng. }
  destruct res as [u|err].
  - destruct (the_comp _ _ (comp_WriteHeader rw StatusNoContent (persist s rw w1))) as [-> ->].
    by destruct (persist_frame s rw w1) as [-> ->].
  - by destruct (the_comp _ _ (comp_http_Error rw (error_Error err) StatusBadRequest w1)) as [-> ->].
Qed.

Lemma edit_handler_ok s add list rw r w : world_ok w -> world_ok (edit_handler s add list rw r w).
Proof.
  intros Hok.
  assert (forall w', comp w' = comp w -> world_ok w') as Hsame.
  { unfold world_ok. by intros w' [-> ->]%the_comp. }
  destruct (dec_cidr (limited_body r)) as [c|err] eqn:Hc; [|apply Hsame, edit_handler_error; left; congruence].
  destruct (decide (list = "allow" \/ list = "deny")) as [Hl|Hl]; [|by apply Hsame, edit_handler_error; right].
  destruct (edit_handler_run s add list rw r w c Hc Hl) as [msg ->].
  set (p := run_edit _ _). set (w1 := upd_comp _ w).
  assert (world_ok w1) as Hok1.
  { unfold world_ok, w1, the_filter, the_engine. cbn. rewrite part_set, part_other.
    apply dashboard_ok_set_chosen; [done|]. apply run_edit_list_ok; [by destruct add|by eapply chosen_ok]. }
  unfold world_ok. destruct p.1.
  - destruct (the_comp _ _ (comp_WriteHeader rw StatusNoContent (persist s rw w1))) as [-> ->].
    by destruct (persist_frame s rw w1) as [-> ->].
  - by destruct (the_comp _ _ (comp_WriteHeader rw StatusNotFound w1)) as [-> ->].
  - by destruct (the_comp _ _ (comp_http_Error rw msg StatusBadRequest w1)) as [-> ->].
Qed.

Lemma comp_writeJSON rw status body w : comp (writeJSON rw status body w) = comp w.
Proof. unfold writeJSON. by rewrite comp_Write, comp_WriteHeader. Qed.

Lemma world_ok_comp w w' : comp w' = comp w -> world_ok w -> world_ok w'.
Proof. unfold world_ok. by intros [-> ->]%the_comp. Qed.

(** Each request either leaves the components alone or is an edit of a list or
    a PATCH of a rule. *)
Lemma AdminHandler_cases (P : World C -> Prop) s static redirect rw r w :
  (forall rw r w, comp (static rw r w) = comp w) ->
  (forall path rw r w, comp (redirect path rw r w) = comp w) ->
  (forall w', comp w' = comp w -> P w') ->
  (forall id, P (handlePatchRule s id rw r w)) ->
  (forall add list, P (edit_handler s add list rw r w)) ->
  P (AdminHandler s static redirect rw r w).
Proof.
  intros Hs Hr Hsame Hpatch Hedit. pose proof (Hedit true) as Hadd. pose proof (Hedit false) as Hrm.
  cbn [edit_handler] in Hadd, Hrm.
  assert (forall msg code w0, comp w0 = comp w -> P (http_Error rw msg code w0)) as Herr
    by (intros; apply Hsame; by rewrite comp_http_Error).
  assert (forall body, P (writeJSON rw StatusOK body w)) as Hjson by (intros; apply Hsame, comp_writeJSON).
  unfold AdminHandler, requireAuth, api_mux, not_allowed, handleStatus, handleLogs, handleListIPLists, handleListRules.
  repeat first [by apply Herr | apply Hjson | apply Hpatch | apply Hadd | apply Hrm | case_match];
    apply Hsame; first [done | apply Hs | apply Hr | apply comp_WriteHeader].
Qed.

Lemma handlePatchRule_ok s id rw r w : world_ok w -> world_ok (handlePatchRule s id rw r w).
Proof.
  intros Hok. destruct (handlePatchRule_frame s id rw r w) as [Hf He]. unfold world_ok. rewrite Hf.
  destruct Hok as [Ha Hd Heng]. split; [done..|]. by apply He.
Qed.

Lemma AdminHandler_ok s static redirect rw r w :
  (forall rw r w, comp (static rw r w) = comp w) ->
  (forall path rw r w, comp (redirect path rw r w) = comp w) ->
  world_ok w -> world_ok (AdminHandler s static redirect rw r w).
Proof.
  intros Hs Hr Hok. apply AdminHandler_cases; [done|done| |intros id; by apply handlePatchRule_ok|].
  - intros w' Hc. by eapply world_ok_comp.
  - intros add list. by apply edit_handler_ok.
Qed.

(** The dashboard's invariant: whatever request its handler gets, with or
    without the token, both lists still represent a base under an overlay with
    caches that agree and removals that are CIDRs, and every override has a
    valid action; so what [currentState] captures always decodes back. *)
Theorem dashboard_invariant s static redirect rw r w :
  (forall rw r w, comp (static rw r w) = comp w) ->
  (forall path rw r w, comp (redirect path rw r w) = comp w) ->
  world_ok w ->
  let w' := AdminHandler s static redirect rw r w in
  world_ok w' /\ valid_State (currentState (the_filter w') (the_engine w')).
Proof.
  intros Hs Hr Hok. cbn zeta. pose proof (AdminHandler_ok s static redirect rw r w Hs Hr Hok) as Hok'.
  split; [done|by apply valid_State_current].
Qed.

(** ** What a dashboard request leaves alone *)

Lemma AdminHandler_geo s static redirect rw r w :
  (forall rw r w, comp (static rw r w) = comp w) ->
  (forall path rw r w, comp (redirect path rw r w) = comp w) ->
  let w' := AdminHandler s static redirect rw r w in
  f_geo (the_filter w') = f_geo (the_filter w) /\ g_heap (the_filter w') = g_heap (the_filter w).
Proof.
  intros Hs Hr. cbn zeta. apply AdminHandler_cases; [done|done| | |].
  - by intros w' [-> _]%the_comp.
  - intros id. by destruct (handlePatchRule_frame s id rw r w) as [-> _].
  - intros add list. destruct (dec_cidr (limited_body r)) as [c|err] eqn:Hc.
    2: { assert (comp (edit_handler s add list rw r w) = comp w) as [-> _]%the_comp; [|done].
         apply edit_handler_error. left. congruence. }
    destruct (decide (list = "allow" \/ list = "deny")) as [Hl|Hl].
    2: { assert (comp (edit_handler s add list rw r w) = comp w) as [-> _]%the_comp; [|done]. apply edit_handler_error. by right. }
    destruct (edit_handler_run s add list rw r w c Hc Hl) as [msg ->]. set (p := run_edit _ _). set (w1 := upd_comp _ w).
    assert (f_geo (the_filter w1) = f_geo (the_filter w) /\ g_heap (the_filter w1) = g_heap (the_filter w)) as Hw1.
    { unfold w1, the_filter. cbn. rewrite part_set. unfold set_chosen. by destruct (String.eqb list "allow"). }
    destruct p.1.
    + destruct (the_comp _ _ (comp_WriteHeader rw StatusNoContent (persist s rw w1))) as [-> _].
      by destruct (persist_frame s rw w1) as [-> _].
    + by destruct (the_comp _ _ (comp_WriteHeader rw StatusNotFound w1)) as [-> _].
    + by destruct (the_comp _ _ (comp_http_Error rw msg StatusBadRequest w1)) as [-> _].
Qed.

Section Other.
Context {Y : Type} `{!Part Y C} `{!PartIndep Filter Y C} `{!PartIndep (option Engine) Y C} `{!PartIndep Disk Y C}.

Lemma persist_other s rw w : (part (comp (persist s rw w)) : Y) = part (comp w).
Proof.
  unfold persist. destruct (sv_store s) as [path|]; [|done]. destruct (save_to _ _ _) as [[u|err] d]; cbn;
    apply (part_other (X := Disk) (Y := Y)).
Qed.

Lemma AdminHandler_other s static redirect rw r w :
  (forall rw r w, comp (static rw r w) = comp w) ->
  (forall path rw r w, comp (redirect path rw r w) = comp w) ->
  (part (comp (AdminHandler s static redirect rw r w)) : Y) = part (comp w).
Proof.
  intros Hs Hr. apply AdminHandler_cases; [done|done|by intros w' ->| |].
  - intros id. unfold handlePatchRule, decodeJSON. destruct (the_engine w) as [e|]; [|by rewrite comp_http_Error].
    destruct (Atoi id) as [n|]; [|by rewrite comp_http_Error].
    destruct (dec_patch _) as [req|err]; [|by rewrite comp_http_Error]. destruct (patched _ _ _) as [en ac].
    destruct (SetOverride e n en ac) as [[u|err] e']; rewrite ?comp_WriteHeader, ?comp_http_Error, ?persist_other; cbn;
      apply (part_other (X := option Engine) (Y := Y)).
  - intros add list. destruct (dec_cidr (limited_body r)) as [c|err] eqn:Hc.
    2: { rewrite edit_handler_error; [done|]. left. congruence. }
    destruct (decide (list = "allow" \/ list = "deny")) as [Hl|Hl]; [|rewrite edit_handler_error; [done|by right]].
    destruct (edit_handler_run s add list rw r w c Hc Hl) as [msg ->].
    destruct (run_edit _ _).1; rewrite ?comp_WriteHeader, ?comp_http_Error, ?persist_other; cbn;
      apply (part_other (X := Filter) (Y := Y)).
Qed.

End Other.

(** ** An edit request, from the body to the disk *)

Definition healthy (d : Disk) : Prop :=
  dk_read_fails d = false /\ dk_create_fails d = false /\ dk_write_fails d = None /\
  dk_close_fails d = false /\ dk_rename_fails d = false.

Context `{!StateJsonSpec}.

Lemma saved_loads path f e d :
  dashboard_ok f e -> healthy d ->
  exists d', save_to path (currentState f e) d = (Ok tt, d') /\ StateLoad path d' = Ok (currentState f e).
Proof.
  intros Hok (Hr & Hc & Hw & Hcl & Hrn). destruct (Save_ok path (currentState f e) d) as (d' & Hs & Hf & Hr'); [done..|].
  exists d'. split; [done|]. apply StateLoad_saved; [by apply valid_State_current|done|congruence].
Qed.

Definition the_disk w : Disk := part (comp w).

(** [persist] with a state file: the disk is what the save leaves, and a save
    that fails shows in a response header. *)
Lemma persist_spec s path rw w :
  sv_store s = Some path ->
  let saved := save_to path (currentState (the_filter w) (the_engine w)) (the_disk w) in
  the_disk (persist s rw w) = saved.2 /\
  conn (persist s rw w) =
    match saved.1 with
    | Ok _ => conn w
    | Err err => Conn_SetHeader (conn w) "X-Persistence-Warning" ("change applied but not persisted to disk: " +:+ error_Error err)
    end.
Proof.
  intros Hs. cbn zeta. unfold persist, the_disk. rewrite Hs. destruct (save_to _ _ _) as [[u|err] d]; cbn; by rewrite part_set.
Qed.

Lemma persist_wrote s rw w : c_wroteHeader (conn (persist s rw w)) = c_wroteHeader (conn w).
Proof.
  destruct (sv_store s) as [path|] eqn:Hs; [|unfold persist; by rewrite Hs].
  destruct (persist_spec s path rw w Hs) as [_ ->]. by destruct (save_to _ _ _).1.
Qed.

Lemma status_WriteHeader code w :
  c_wroteHeader (conn w) = false -> informational code = false ->
  c_status (conn (WriteHeader ConnWriter code w)) = code /\ c_wroteHeader (conn (WriteHeader ConnWriter code w)) = true.
Proof. intros Hw Hi. cbn. by apply Conn_WriteHeader_final. Qed.

Lemma status_http_Error msg code w :
  c_wroteHeader (conn w) = false -> informational code = false -> c_status (conn (http_Error ConnWriter msg code w)) = code.
Proof.
  intros Hw Hi. unfold http_Error. set (w1 := SetHeader _ _ _ (SetHeader _ _ _ w)).
  destruct (status_WriteHeader code w1 Hw Hi) as [Hst Hwr]. revert Hst Hwr. generalize (WriteHeader ConnWriter code w1).
  intros w2 Hst Hwr. cbn. destruct (Conn_Write (conn w2) _) as [n c] eqn:E. cbn.
  apply Conn_Write_spec in E as (_ & -> & _). by rewrite Hwr.
Qed.

Lemma chosen_set_chosen list f l : chosen list (set_chosen list f l) = l.
Proof. unfold chosen, set_chosen. by destruct (String.eqb list "allow"). Qed.

Lemma chosen_set_other list list' f l :
  list = "allow" \/ list = "deny" -> list' = "allow" \/ list' = "deny" -> list' <> list ->
  chosen list' (set_chosen list f l) = chosen list' f.
Proof. by intros [-> | ->] [-> | ->]. Qed.

Lemma header_WriteHeader rw code w : c_header (conn (WriteHeader rw code w)) = c_header (conn w).
Proof.
  rewrite conn_WriteHeader. unfold Conn_WriteHeader. destruct (c_wroteHeader _); [done|]. by destruct (informational code).
Qed.

(** Everything an edit of one list must leave alone: the other list, the geo
    state with its databases, the rules. *)
Definition rest_untouched (list : string) w w' : Prop :=
  (forall list', list' = "allow" \/ list' = "deny" -> list' <> list ->
     chosen list' (the_filter w') = chosen list' (the_filter w)) /\
  f_geo (the_filter w') = f_geo (the_filter w) /\ g_heap (the_filter w') = g_heap (the_filter w) /\
  the_engine w' = the_engine w.

Lemma rest_untouched_set list w l :
  list = "allow" \/ list = "deny" ->
  let w1 := upd_comp (set_part (set_chosen list (the_filter w) l)) w in
  the_filter w1 = set_chosen list (the_filter w) l /\ rest_untouched list w w1.
Proof.
  intros Hl. cbn zeta. unfold rest_untouched, the_filter, the_engine. cbn. rewrite part_set, part_other.
  split; [done|]. split_and!; [|unfold set_chosen; by destruct (String.eqb list "allow")..|done].
  intros list' Hl' Hne. by apply chosen_set_other.
Qed.

(** C15. An add or a remove request whose body decodes does what the layered
    specification says, and answers by its reply: 204 when the edit is made (or
    was already), 404 for a removal of what is not in effect, 400 for what is
    not a CIDR.  The other list, the geo state and its databases, and the rules
    are untouched.  The status does not depend on the disk: after a 204 with a
    state file configured, the disk is what the save of the current state
    leaves, and when that save fails the response carries an
    X-Persistence-Warning header and nothing else tells; when the disk works,
    the file loads back as the current state.  Without a state file, and after
    a 404 or a 400, nothing is saved. *)
Theorem edit_request_spec s add list w r c a :
  world_ok w -> represents (chosen list (the_filter w)) a -> list = "allow" \/ list = "deny" ->
  dec_cidr (limited_body r) = Ok c -> c_wroteHeader (conn w) = false ->
  let w' := edit_handler s add list ConnWriter r w in
  let reply := (spec_edit (edit_of add c) a).1 in
  let current := currentState (the_filter w') (the_engine w') in
  c_status (conn w') = reply_status reply /\
  represents (chosen list (the_filter w')) (spec_edit (edit_of add c) a).2 /\
  rest_untouched list w w' /\
  (reply <> Edited \/ sv_store s = None -> the_disk w' = the_disk w) /\
  forall path, reply = Edited -> sv_store s = Some path ->
    let saved := save_to path current (the_disk w) in
    the_disk w' = saved.2 /\
    c_header (conn w') =
      match saved.1 with
      | Ok _ => c_header (conn w)
      | Err err => Header_Set (c_header (conn w)) "X-Persistence-Warning"
                     ("change applied but not persisted to disk: " +:+ error_Error err)
      end /\
    (healthy (the_disk w) -> saved.1 = Ok tt /\ StateLoad path (the_disk w') = Ok current).
Proof.
  intros Hok Ha Hl Hc Hw. cbn zeta.
  pose proof (edit_handler_ok s add list ConnWriter r w Hok) as Hok'.
  destruct (edit_handler_run s add list ConnWriter r w c Hc Hl) as [msg Hrun].
  destruct (run_edit_refines (edit_of add c) _ a Ha) as [Hreply Hrep].
  rewrite Hrun in Hok' |- *. rewrite <- Hreply. clear Hrun Hreply.
  set (p := run_edit _ _) in *. destruct (rest_untouched_set list w p.2 Hl) as [Hf Hrest]. set (w1 := upd_comp _ w) in *.
  assert (forall w2, the_filter w2 = the_filter w1 -> the_engine w2 = the_engine w1 ->
    represents (chosen list (the_filter w2)) (spec_edit (edit_of add c) a).2 /\ rest_untouched list w w2) as Hcomp.
  { unfold rest_untouched in *. intros w2 -> ->. split; [|done]. by rewrite Hf, chosen_set_chosen. }
  assert (the_disk w1 = the_disk w) as Hdisk by (unfold the_disk, w1; cbn; by rewrite part_other).
  assert (conn w1 = conn w) as Hconn by done.
  destruct p.1 eqn:Ep; cbn [reply_status].
  - set (w2 := persist s ConnWriter w1) in *. destruct (persist_frame s ConnWriter w1) as [Hpf Hpe]. fold w2 in Hpf, Hpe.
    assert (comp (WriteHeader ConnWriter StatusNoContent w2) = comp w2) as Hc2 by apply comp_WriteHeader.
    destruct (the_comp _ _ Hc2) as [Hwf Hwe].
    assert (the_disk (WriteHeader ConnWriter StatusNoContent w2) = the_disk w2) as -> by (unfold the_disk; by rewrite Hc2).
    assert (dashboard_ok (the_filter w1) (the_engine w1)) as Hok1
      by (unfold world_ok in Hok'; by rewrite Hwf, Hwe, Hpf, Hpe in Hok').
    destruct (Hcomp (WriteHeader ConnWriter StatusNoContent w2)) as [Hrep1 Hrest1]; [congruence..|].
    rewrite header_WriteHeader, Hwf, Hwe, Hpf, Hpe in *. split_and!; [|done|done| |].
    + apply status_WriteHeader; [|done]. unfold w2. by rewrite persist_wrote.
    + intros [|Hs]; [done|]. unfold w2, persist. by rewrite Hs.
    + intros path _ Hs. destruct (persist_spec s path ConnWriter w1 Hs) as [Hd Hcn]. fold w2 in Hd, Hcn.
      rewrite Hdisk in Hd, Hcn. rewrite Hd, Hcn. split_and!; [done|by destruct (save_to _ _ _).1|]. intros Hh.
      destruct (saved_loads path (the_filter w1) (the_engine w1) (the_disk w)) as (d' & Hsave & Hload); [done|done|by rewrite Hsave].
  - destruct (Hcomp (WriteHeader ConnWriter StatusNotFound w1)) as [Hrep1 Hrest1]; [done..|].
    split_and!; [by apply status_WriteHeader|done|done|intros _; by apply Hdisk|done].
  - destruct (Hcomp (http_Error ConnWriter msg StatusBadRequest w1)) as [Hrep1 Hrest1]; [apply the_comp, comp_http_Error..|].
    split_and!; [by apply status_http_Error|done|done| |done].
    intros _. unfold the_disk in *. by rewrite comp_http_Error.
Qed.

End Handlers.

(** ** A restart *)

Section Restart.
Context `{IPSetLib} `{!IPSetSpec} `{MaxMindLib} `{UnicodeTables} `{RegexpLib} `{StateJson} `{!AdminEnv} `{!StateJsonSpec}.

Lemma lists_accept_ext f f' ip :
  (forall c, c ∈ ListAllow f' <-> c ∈ ListAllow f) -> (forall c, c ∈ ListDeny f' <-> c ∈ ListDeny f) ->
  lists_accept f' ip <-> lists_accept f ip.
Proof.
  intros Ha Hd. unfold lists_accept. rewrite !Exists_exists. setoid_rewrite Ha. setoid_rewrite Hd.
  assert (ListAllow f' = [] <-> ListAllow f = []) as ->; [|done].
  split; intros Hn; apply elem_of_nil_inv; intros c Hc; apply Ha in Hc; rewrite Hn in Hc; by apply elem_of_nil in Hc.
Qed.

(** Two filters whose lists accept the same addresses, under one geo
    configuration, decide alike. *)
Lemma same_decision cfg f1 f ip :
  listState_wf (f_allow f1) -> listState_wf (f_deny f1) -> listState_wf (f_allow f) -> listState_wf (f_deny f) ->
  geo_in_force cfg f1 -> geo_in_force cfg f -> lists_accept f1 ip <-> lists_accept f ip -> addr_wf ip ->
  Allowed f1 ip = Allowed f ip.
Proof.
  intros A1 D1 A D G1 G Hacc Hip. pose proof (geo_in_force_same cfg f1 f ip G1 G) as Hg.
  destruct (Allowed_lists f1 ip A1 D1 Hip) as [[-> H1']|[-> H1']], (Allowed_lists f ip A D Hip) as [[-> H2']|[-> H2']];
    done || tauto.
Qed.

(** The engine before the restart and the one built after it: same rules, no
    override yet. *)
Definition same_rules (e e0 : option Engine) : Prop :=
  match e, e0 with
  | Some e, Some e0 => en_ruleSet e0 = en_ruleSet e /\ en_overrides e0 = ∅
  | None, None => True
  | _, _ => False
  end.

Lemma replay_overrides_rules os e : en_ruleSet (replay_overrides os e) = en_ruleSet e.
Proof.
  unfold replay_overrides. revert e. induction os as [|kv os IH]; intros e; [done|]. cbn. by rewrite IH, SetOverride_rules.
Qed.

(** On an engine with the same rules and no override, the replayed overrides
    of the rules it has are those of the saved engine. *)
Lemma replay_overrides_restores e e0 id :
  en_ruleSet e0 = en_ruleSet e -> en_overrides e0 = ∅ -> engine_ok (Some e) -> known_rule e id = true ->
  en_overrides (replay_overrides (map_to_list (en_overrides e)) e0) !! id = en_overrides e !! id.
Proof.
  intros Hr Ho Hok Hid. rewrite replay_overrides_lookup.
  - rewrite list_to_map_to_list, Ho, lookup_empty. unfold known_rule in *. rewrite Hr, Hid. by destruct (_ !! id).
  - apply NoDup_fst_map_to_list.
  - apply Forall_forall. intros [k o] Hin. apply elem_of_map_to_list in Hin. by eapply (Hok e eq_refl).
Qed.

Lemma ListRules_ext e1 e :
  en_ruleSet e1 = en_ruleSet e ->
  (forall id, known_rule e id = true -> en_overrides e1 !! id = en_overrides e !! id) -> ListRules e1 = ListRules e.
Proof.
  intros Hr Ho. unfold ListRules. rewrite Hr. apply list_fmap_ext. intros i r Hi. unfold rule_info.
  rewrite Ho; [done|]. unfold known_rule. apply existsb_exists. exists r.
  split; [apply list_elem_of_In; by eapply list_elem_of_lookup_2|apply Z.eqb_refl].
Qed.

(** C14. A restart picks up where the dashboard left off.  The filter is under
    the configuration [lists] (its bases are the configured CIDRs, its geo state
    the configured one, its database as it was opened) with any edits on top; its
    current state is saved on a working disk.  Starting again, from the same
    configuration, database file and rules, gives back the same CIDRs in effect
    in both lists, the same decision of [Allowed] with the same reason for every
    address, the geo check included, and the same listing of the rules, overrides
    included. *)
Theorem restart_restores_edits cfg lists info now f e d f0 e0 :
  dashboard_ok f e -> geo_in_force lists f -> base (f_allow f) = il_Allow lists -> base (f_deny f) = il_Deny lists ->
  healthy d -> os_Getenv (ac_AuthTokenEnv cfg) <> "" -> ac_StateFile cfg <> "" ->
  NewFilter lists = Ok f0 -> same_rules e e0 ->
  exists sv f1 e1,
    New cfg info now (save_to (ac_StateFile cfg) (currentState f e) d).2 f0 e0 = Ok (sv, f1, e1) /\
    (forall c, c ∈ ListAllow f1 <-> c ∈ ListAllow f) /\ (forall c, c ∈ ListDeny f1 <-> c ∈ ListDeny f) /\
    (forall ip, addr_wf ip -> Allowed f1 ip = Allowed f ip) /\
    ListRules <$> e1 = ListRules <$> e.
Proof.
  intros Hok Hgeo HbA HbD Hd Htok Hsf Hnew Hrules.
  destruct (saved_loads (ac_StateFile cfg) f e d Hok Hd) as (d' & -> & Hload). cbn [snd].
  unfold New. apply String.eqb_neq in Htok, Hsf. rewrite Htok, Hsf, Hload. cbn [negb wrap_err result_bind].
  rewrite (surjective_pairing (replayState (currentState f e) f0 e0)). eexists _, _, _. split; [done|].
  pose proof (New_wf_lemma lists) as Hwf. rewrite Hnew in Hwf. destruct Hwf as (_ & HA0 & HD0).
  destruct Hok as [[[aA HA] _] [[aD HD] _] Heng].
  rewrite replay_filter.
  rewrite <- HbA, (rep_base _ _ HA) in HA0. rewrite <- HbD, (rep_base _ _ HD) in HD0.
  set (f1 := mkFilter _ _ _ _).
  assert (forall c, c ∈ ListAllow f1 <-> c ∈ ListAllow f) as Hallow by (intros c; exact (replay_same_effect _ _ _ c HA HA0)).
  assert (forall c, c ∈ ListDeny f1 <-> c ∈ ListDeny f) as Hdeny by (intros c; exact (replay_same_effect _ _ _ c HD HD0)).
  split_and!; [done|done| |].
  - intros ip Hip. apply (same_decision lists); [..|by apply lists_accept_ext|done].
    + by eexists; apply replay_list_represents.
    + by eexists; apply replay_list_represents.
    + by exists aA.
    + by exists aD.
    + by apply (geo_in_force_frame lists f0), geo_in_force_new.
    + done.
  - unfold replayState. cbn [snd]. destruct e as [e|], e0 as [e0|]; try done. cbn. f_equal.
    destruct Hrules as [Hrs Ho]. apply ListRules_ext; [by rewrite replay_overrides_rules|].
    intros id Hid. by apply replay_overrides_restores.
Qed.

End Restart.

(** ** What a PATCH stores *)

Section Patch.
Context `{RegexpLib}.

Lemma find_info_rule e id r :
  find (fun r => ru_ID r =? id) (rs_all (en_ruleSet e)) = Some r ->
  find (fun info => ri_ID info =? id) (ListRules e) = Some (rule_info (en_overrides e) r).
Proof.
  unfold ListRules. induction (rs_all (en_ruleSet e)) as [|r' rs IH]; [done|]. cbn.
  assert (ri_ID (rule_info (en_overrides e) r') = ru_ID r') as ->
    by (unfold rule_info; by destruct (_ !! _)).
  destruct (ru_ID r' =? id); [by intros [= ->]|done].
Qed.

(** A second PATCH that gives no action pins the one the rule file has now: the
    override no longer inherits it. *)
Theorem second_patch_pins_action e id r en :
  find (fun r => ru_ID r =? id) (rs_all (en_ruleSet e)) = Some r ->
  en_overrides e !! id = None ->
  let first := patched (ListRules e) id (mkPatch (Some false) None) in
  let e1 := (SetOverride e id first.1 first.2).2 in
  first = (false, "") /\
  patched (ListRules e1) id (mkPatch (Some en) None) = (en, ru_Action r).
Proof.
  intros Hr Ho. destruct (List.find_some _ _ Hr) as [Hin Hid]. apply Z.eqb_eq in Hid.
  assert (patched (ListRules e) id (mkPatch (Some false) None) = (false, "")) as ->.
  { unfold patched. rewrite (find_info_rule e id r Hr). unfold rule_info. by rewrite Hid, Ho. }
  cbn zeta. split; [done|]. cbn [fst snd].
  pose proof (SetOverride_cases e id false "") as Hs. rewrite bool_decide_true in Hs.
  - rewrite Hs. cbn [snd]. unfold patched.
    rewrite (find_info_rule (with_overrides e _) id r) by done. unfold rule_info. cbn [with_overrides en_overrides].
    by rewrite Hid, lookup_insert_eq.
  - split; [|apply valid_action_spec; by left]. apply existsb_exists. exists r. by rewrite Hid, Z.eqb_refl.
Qed.

End Patch.

(** ** Concrete inputs *)

Module Demo.

(** A state as a string: the code of its data, in binary. *)
#[export] Instance override_eq_dec : EqDecision override.
Proof. solve_decision. Defined.
#[export] Instance override_countable : Countable override :=
  inj_countable' (fun o => (ov_enabled o, ov_action o)) (fun p => mkOverride p.1 p.2) (fun o => ltac:(by destruct o)).

Definition pack (s : State) : list string * list string * list string * list string * gmap Z override :=
  let l := st_IPLists s in (AllowAdded l, AllowRemoved l, DenyAdded l, DenyRemoved l, st_WAFOverrides s).
Definition unpack (p : list string * list string * list string * list string * gmap Z override) : State :=
  let '(aa, ar, da, dr, os) := p in mkState (mkIPListState aa ar da dr) os.

Fixpoint digits (p : positive) : string :=
  match p with xH => "" | xO p => String "0" (digits p) | xI p => String "1" (digits p) end.
Fixpoint of_digits (s : string) : positive :=
  match s with "" => xH | String c s => if Ascii.eqb c "0" then xO (of_digits s) else xI (of_digits s) end.

Lemma of_digits_digits p : of_digits (digits p) = p.
Proof. induction p as [p IH|p IH|]; cbn; congruence. Qed.

#[export] Instance state_json : StateJson := {|
  json_MarshalState s := digits (encode (pack s));
  json_UnmarshalState d := unpack <$> decode (of_digits d) |}.

#[export] Instance state_json_spec : StateJsonSpec.
Proof. split. intros [[] ?] _. cbn -[decode encode digits of_digits]. by rewrite of_digits_digits, decode_encode. Qed.

#[export] Instance env : AdminEnv := {|
  os_Getenv name := if String.eqb name "TOKEN" then "s3cret" else "";
  error_Error _ := "error" |}.

(** A request body is a bare CIDR here. *)
#[export] Instance api_json : ApiJson := {|
  dec_cidr rd := match rd_data rd with [] => Err (LibError "json") | d => Ok (of_bytes d) end;
  dec_patch _ := Err (LibError "json");
  enc_status _ := []; enc_logs _ := []; enc_lists _ _ := []; enc_rules _ := [] |}.

Definition disk : Disk := mkDisk ∅ ".state-1.json.tmp" false false None false false.
Definition log : AccessLog := mkAccessLog 0 (NewRingBuffer 4) None [].
Definition server : Server := mkServer "s3cret" 0 (mkInfo "dev" [":8080"] ["http://app:9000"]) (Some "state.json").

Definition post (path auth body : string) : Request :=
  mkRequest "POST" path "" "admin" "127.0.0.1:5000"
    (if String.eqb auth "" then ∅ else {["Authorization" := [auth]]})
    (BodyReader (mkReader (to_bytes body) false)) (Z.of_nat (length (to_bytes body))) None None.

Definition silent {C} : Handler C := fun _ _ w => w.

End Demo.

Section Witnesses.
#[local] Existing Instance RangeSet.lib.
#[local] Existing Instance RangeSet.spec.
#[local] Existing Instance demo_maxmind.
#[local] Existing Instance demo_unicode.
Import WafProofs.Demo Dashboard.Demo.

Definition demo_state : Type := Filter * (option Engine * (AccessLog * Disk)).
Definition demo_parts : demo_state := (demo_filter, (Some (engine "block"), (Demo.log, Demo.disk))).
Definition demo_world : World demo_state := mkWorld [] [] (fresh_conn true) 0 (fun _ => 0) demo_parts.

Lemma demo_dashboard_ok : dashboard_ok demo_filter (Some (engine "block")).
Proof.
  destruct (filter_for_wf demo_cfg) as (_ & Ha & Hd); [vm_compute; reflexivity|].
  assert (forall s b, represents s (mkLayers b ∅) -> list_ok s) as Hnew.
  { intros s b Hs. split; [by eexists|]. apply Forall_forall. intros c Hc%(rep_removed _ _ Hs). done. }
  split; [by eapply Hnew|by eapply Hnew|]. intros e [= <-]. apply map_Forall_empty.
Qed.

Lemma api_needs_token_witness :
  AdminHandler server silent (fun _ => silent) ConnWriter (post "/admin/api/ip-lists/deny" "" "10.0.0.0/8") demo_world
    = WriteHeader ConnWriter StatusUnauthorized demo_world /\
  AdminHandler server silent (fun _ => silent) ConnWriter (post "/admin/api/ip-lists/deny" "Bearer s3cret" "10.0.0.0/8")
    demo_world
    = api_mux server ConnWriter (post "/admin/api/ip-lists/deny" "Bearer s3cret" "10.0.0.0/8") demo_world /\
  comp (AdminHandler server silent (fun _ => silent) ConnWriter (post "/admin/x/../api/ip-lists/deny" "" "10.0.0.0/8")
    demo_world) = demo_parts.
Proof.
  split; [|split].
  - by refine (proj2 (api_needs_token server silent (fun _ => silent) ConnWriter
      (post "/admin/api/ip-lists/deny" "" "10.0.0.0/8") demo_world _ _) _ _).
  - by refine (proj2 (api_needs_token server silent (fun _ => silent) ConnWriter
      (post "/admin/api/ip-lists/deny" "Bearer s3cret" "10.0.0.0/8") demo_world _ _) _ _).
  - by refine (proj1 (api_needs_token server silent (fun _ => silent) ConnWriter
      (post "/admin/x/../api/ip-lists/deny" "" "10.0.0.0/8") demo_world _ _) _).
Defined.

Lemma save_atomic_witness :
  last (Save "state.json" (currentState demo_filter None) Demo.disk).2 =
    Some {["state.json" := json_MarshalState (currentState demo_filter None)]}.
Proof.
  pose proof (save_atomic "state.json" (currentState demo_filter None) Demo.disk) as Hs.
  destruct (Save _ _ _) as [r trace] eqn:E. destruct Hs as [_ Hl]; [discriminate|reflexivity|].
  injection E as <- <-. exact Hl.
Defined.

Lemma dashboard_invariant_witness :
  world_ok (AdminHandler server silent (fun _ => silent) ConnWriter
    (post "/admin/api/ip-lists/deny" "Bearer s3cret" "10.0.0.0/8") demo_world).
Proof.
  apply (dashboard_invariant server silent (fun _ => silent) ConnWriter
    (post "/admin/api/ip-lists/deny" "Bearer s3cret" "10.0.0.0/8") demo_world); [reflexivity|reflexivity|].
  exact demo_dashboard_ok.
Defined.

Lemma edit_request_spec_witness :
  let r := post "/" "" "10.0.0.0/8" in
  let w' := edit_handler server true "deny" ConnWriter r demo_world in
  c_status (conn w') = 204 /\ f_geo (the_filter w') = f_geo demo_filter /\
  StateLoad "state.json" (the_disk w') = Ok (currentState (the_filter w') (the_engine w')).
Proof.
  intros r w'. destruct (filter_for_wf demo_cfg) as (_ & _ & Hd); [vm_compute; reflexivity|].
  destruct (edit_request_spec server true "deny" demo_world r "10.0.0.0/8"
    (mkLayers ["203.0.113.0/25"] ∅)) as (Hst & _ & (_ & Hg & _) & _ & Hsave).
  - exact demo_dashboard_ok.
  - exact Hd.
  - right. reflexivity.
  - reflexivity.
  - reflexivity.
  - split; [etrans; [exact Hst|vm_compute; reflexivity]|]. split; [exact Hg|].
    destruct (Hsave "state.json") as (_ & _ & Hload); [vm_compute; reflexivity|reflexivity|]. apply Hload. repeat split.
Defined.

Definition demo_admin_cfg : AdminConfig := mkAdminConfig true "127.0.0.1:9001" "TOKEN" "state.json".

(** An override on rule 1001 survives a restart, and an address that is not in
    the configured country is still refused. *)
Lemma restart_restores_edits_witness :
  let e := (SetOverride (engine "block") 1001 false "").2 in
  exists sv f1 e1,
    New demo_admin_cfg (mkInfo "" [] []) 0 (save_to "state.json" (currentState demo_filter (Some e)) Demo.disk).2
      demo_filter (Some (engine "block")) = Ok (sv, f1, e1) /\
    Allowed f1 (Addr4 0xC6336401) = (false, BlockReasonGeoDeny) /\
    ListRules <$> e1 = Some (ListRules e).
Proof.
  pose proof demo_dashboard_ok as [Ha Hd He].
  assert (is_ok (NewFilter demo_cfg) = true) as Hok by (vm_compute; reflexivity).
  destruct (filter_for_wf demo_cfg Hok) as (_ & Hra & Hrd).
  destruct (restart_restores_edits demo_admin_cfg demo_cfg (mkInfo "" [] []) 0 demo_filter
    (Some (SetOverride (engine "block") 1001 false "").2) Demo.disk demo_filter (Some (engine "block")))
    as (sv & f1 & e1 & Hnew & _ & _ & Hdec & Hrules).
  - split; [exact Ha|exact Hd|]. apply SetOverride_engine_ok. exact He.
  - exact (geo_in_force_new demo_cfg demo_filter (filter_for_new demo_cfg Hok)).
  - exact (rep_base _ _ Hra).
  - exact (rep_base _ _ Hrd).
  - repeat split.
  - discriminate.
  - discriminate.
  - exact (filter_for_new demo_cfg Hok).
  - split; [vm_compute; reflexivity|reflexivity].
  - exists sv, f1, e1. split; [exact Hnew|]. split; [|exact Hrules].
    rewrite Hdec; [vm_compute; reflexivity|vm_compute; split; [discriminate|reflexivity]].
Defined.

Lemma second_patch_pins_action_witness :
  let e1 := (SetOverride (engine "block") 1001 false "").2 in
  patched (ListRules e1) 1001 (mkPatch (Some true) None) = (true, "block").
Proof.
  destruct (rs_all ruleset) as [|r rs] eqn:E; [vm_compute in E; discriminate E|].
  destruct (second_patch_pins_action (engine "block") 1001 r true) as [_ Hp].
  - cbn. rewrite E. vm_compute in E. injection E as <- _. reflexivity.
  - reflexivity.
  - vm_compute in E. injection E as <- _. exact Hp.
Defined.

End Witnesses.
