(* ===== verification/PersistRace.v ===== *)
(** * Requests at once: which state the file ends with

    The dashboard's handlers run concurrently.  An edit of a list or of the
    overrides is a compare-and-swap loop, atomic by the refinement of Atomics;
    the [persist] that follows it is not: [currentState] loads the allow list,
    the deny list and the overrides one after the other, the save comes after,
    and nothing orders the loads and the saves of different requests.  Each of
    these is a step here. *)
From stdpp Require Import relations.
From S2P Require Import Prelude GoStrings Netip Netmatch Config Http Middleware AccessLog Geoip IPFilter.
From S2P Require Import IPFilterProofs Waf WafProofs Admin AdminProofs Dashboard.

Section Race.
Context `{IPSetLib} `{MaxMindLib} `{UnicodeTables} `{RegexpLib} `{!RulesYaml} `{StateJson}.
Context (path : string).

Inductive request : Type :=
  | ListRequest (add : bool) (list cidr : string)
  | RuleRequest (id : Z) (req : patchRuleRequest).

(** Where a request is: received, the override of a PATCH computed from the
    listing, the edit made, the loads of [currentState] made one by one, the
    status sent. *)
Inductive phase : Type :=
  | Received (q : request)
  | Patching (id : Z) (enabled : bool) (action : string)
  | Applied
  | AllowRead (allow : list string * list string)
  | DenyRead (allow deny : list string * list string)
  | Captured (st : State)
  | Answered (status : Z).

Record shared := mkShared { sh_filter : Filter; sh_engine : option Engine; sh_disk : Disk; sh_requests : list phase }.

Definition loaded_overrides (e : option Engine) : gmap Z override :=
  match e with Some e => Overrides e | None => ∅ end.

(** The state [currentState] builds from what it loaded. *)
Definition captured (allow deny : list string * list string) (os : gmap Z override) : State :=
  mkState (mkIPListState allow.1 allow.2 deny.1 deny.2) os.

(** The next step of request [i]. *)
Definition race_advance (i : nat) (s : shared) : option shared :=
  let '(mkShared f e d ps) := s in
  p ← ps !! i;
  match p with
  | Received (ListRequest add list c) =>
      if String.eqb list "allow" || String.eqb list "deny" then
        let r := run_edit (edit_of add c) (chosen list f) in
        Some (mkShared (set_chosen list f r.2) e d
                (<[i := match r.1 with Edited => Applied | _ => Answered (reply_status r.1) end]> ps))
      else Some (mkShared f e d (<[i := Answered StatusNotFound]> ps))
  | Received (RuleRequest id req) =>
      match e with
      | None => Some (mkShared f e d (<[i := Answered StatusNotFound]> ps))
      | Some en => let '(enabled, action) := patched (ListRules en) id req in
                   Some (mkShared f e d (<[i := Patching id enabled action]> ps))
      end
  | Patching id enabled action =>
      en ← e;
      let '(r, en) := SetOverride en id enabled action in
      Some (mkShared f (Some en) d (<[i := if is_ok r then Applied else Answered StatusBadRequest]> ps))
  | Applied => Some (mkShared f e d (<[i := AllowRead (AllowOverlay f)]> ps))
  | AllowRead allow => Some (mkShared f e d (<[i := DenyRead allow (DenyOverlay f)]> ps))
  | DenyRead allow deny => Some (mkShared f e d (<[i := Captured (captured allow deny (loaded_overrides e))]> ps))
  | Captured st => Some (mkShared f e (save_to path st d).2 (<[i := Answered StatusNoContent]> ps))
  | Answered _ => None
  end.

(** A step is one of some request; a step of a reload, which swaps the lists or
    the rules; or a change of what the next save meets: the name of its temporary
    file, which is not the state file's, and the operations that fail. *)
Inductive race_step : shared -> shared -> Prop :=
  | race_request i s s' : race_advance i s = Some s' -> race_step s s'
  | race_reload_lists cfg f e d ps : race_step (mkShared f e d ps) (mkShared (IPFilter.Reload cfg f).2 e d ps)
  | race_reload_rules (fs : Files) rules f e d ps :
      race_step (mkShared f (Some e) d ps) (mkShared f (Some (EngineReload e rules).2) d ps)
  | race_faults f e d d' ps :
      dk_files d' = dk_files d -> dk_temp d' <> path -> race_step (mkShared f e d ps) (mkShared f e d' ps).

(** A run, with all the states it goes through, oldest first. *)
Inductive race_run (s0 : shared) : list shared -> shared -> Prop :=
  | run_start : race_run s0 [s0] s0
  | run_step h s s' : race_run s0 h s -> race_step s s' -> race_run s0 (h ++ [s']) s'.

(** The requests of [order] advance in turn. *)
Fixpoint schedule (order : list nat) (s : shared) : option (list shared * shared) :=
  match order with
  | [] => Some ([], s)
  | i :: order' => s1 ← race_advance i s; '(h, s') ← schedule order' s1; Some (s1 :: h, s')
  end.

Lemma schedule_run order s0 h0 s h s' :
  race_run s0 h0 s -> schedule order s = Some (h, s') -> race_run s0 (h0 ++ h) s'.
Proof.
  revert h0 s h. induction order as [|i order IH]; intros h0 s h Hr; cbn.
  { intros [= <- <-]. by rewrite app_nil_r. }
  destruct (race_advance i s) as [s1|] eqn:Ha; cbn; [|done].
  destruct (schedule order s1) as [[h1 s1']|] eqn:Hs; cbn; [|done]. intros [= <- <-].
  rewrite cons_middle, app_assoc. apply (IH _ _ _ (run_step _ _ _ _ Hr (race_request _ _ _ Ha)) Hs).
Qed.

(** Loads that nothing disturbs give [currentState]. *)
Lemma captured_current f e : captured (AllowOverlay f) (DenyOverlay f) (loaded_overrides e) = currentState f e.
Proof. done. Qed.

Lemma save_to_file st d :
  dk_temp d <> path ->
  dk_temp (save_to path st d).2 = dk_temp d /\
  dk_files (save_to path st d).2 !! path =
    if is_ok (save_to path st d).1 then Some (json_MarshalState st) else dk_files d !! path.
Proof.
  intros Ht. unfold save_to, Save. destruct (dk_create_fails d); [done|].
  destruct (dk_write_fails d) as [n|]; [|destruct (dk_close_fails d); [|destruct (dk_rename_fails d)]];
    rewrite last_snoc_app; cbn -[json_MarshalState]; (split; [done|]);
    first [by rewrite lookup_delete_ne | by rewrite lookup_insert_eq].
Qed.

(** ** What a request has loaded, in the history *)

Definition loaded_allow (h : list shared) (q i : nat) (allow : list string * list string) : Prop :=
  exists s, h !! i = Some s /\ sh_requests s !! q = Some Applied /\ allow = AllowOverlay (sh_filter s).
Definition loaded_deny (h : list shared) (q j : nat) (deny : list string * list string) : Prop :=
  exists s allow, h !! j = Some s /\ sh_requests s !! q = Some (AllowRead allow) /\ deny = DenyOverlay (sh_filter s).
Definition loaded_rules (h : list shared) (q k : nat) (os : gmap Z override) : Prop :=
  exists s allow deny, h !! k = Some s /\ sh_requests s !! q = Some (DenyRead allow deny) /\
    os = loaded_overrides (sh_engine s).

(** Request [q] captured [st]: its edit made, it loaded the allow list, then
    the deny list, then the overrides. *)
Definition captured_by (h : list shared) (q : nat) (st : State) : Prop :=
  exists i j k allow deny os, (i < j < k)%nat /\ loaded_allow h q i allow /\ loaded_deny h q j deny /\
    loaded_rules h q k os /\ st = captured allow deny os.

Definition phase_history (h : list shared) (q : nat) (p : phase) : Prop :=
  match p with
  | AllowRead allow => exists i, (S i < length h)%nat /\ loaded_allow h q i allow
  | DenyRead allow deny =>
      exists i j, (i < j /\ S j < length h)%nat /\ loaded_allow h q i allow /\ loaded_deny h q j deny
  | Captured st => captured_by h q st
  | _ => True
  end.

Lemma loaded_grow h h' q i :
  (forall allow, loaded_allow h q i allow -> loaded_allow (h ++ h') q i allow) /\
  (forall deny, loaded_deny h q i deny -> loaded_deny (h ++ h') q i deny) /\
  (forall os, loaded_rules h q i os -> loaded_rules (h ++ h') q i os).
Proof.
  split_and!; intros x.
  - intros (s & Hs & Hx). exists s. split; [by apply lookup_app_l_Some|done].
  - intros (s & a & Hs & Hx). exists s, a. split; [by apply lookup_app_l_Some|done].
  - intros (s & a & d & Hs & Hx). exists s, a, d. split; [by apply lookup_app_l_Some|done].
Qed.

Lemma captured_by_grow h h' q st : captured_by h q st -> captured_by (h ++ h') q st.
Proof.
  intros (i & j & k & a & d & os & Hijk & Ha & Hd & Ho & ->). exists i, j, k, a, d, os.
  split_and!; try done; try lia; by apply loaded_grow.
Qed.

Lemma phase_history_grow h s' q p : phase_history h q p -> phase_history (h ++ [s']) q p.
Proof.
  destruct p; cbn; rewrite ?length_app; cbn [length]; [done..| | |by apply captured_by_grow|done].
  - intros (i & Hi & Ha). exists i. split; [lia|by apply loaded_grow].
  - intros (i & j & Hij & Ha & Hd). exists i, j. split_and!; [lia|lia|by apply loaded_grow..].
Qed.

Lemma run_last s0 h s : race_run s0 h s -> exists n, length h = S n /\ h !! n = Some s.
Proof.
  destruct 1 as [|h s s' _ _]; [by exists 0%nat|]. exists (length h).
  rewrite length_app, lookup_app_r, Nat.sub_diag by lia. cbn. split; [lia|done].
Qed.

(** The step of a request keeps the history of every request. *)
Lemma race_advance_history s0 h s i s' :
  race_run s0 h s -> race_advance i s = Some s' ->
  (forall q p, sh_requests s !! q = Some p -> phase_history h q p) ->
  forall q p, sh_requests s' !! q = Some p -> phase_history (h ++ [s']) q p.
Proof.
  intros Hrun Hs Hh q p Hq. destruct (run_last _ _ _ Hrun) as (n & Hn & Hlast).
  assert (length (h ++ [s']) = S (S n)) as Hlen by (rewrite length_app, Hn; cbn; lia).
  assert ((h ++ [s']) !! n = Some s) as Hlast' by (by apply lookup_app_l_Some).
  destruct s as [f e d ps]. unfold race_advance in Hs. destruct (ps !! i) as [p0|] eqn:Hi; cbn in Hs; [|done].
  assert (forall f' e' d' p', s' = mkShared f' e' d' (<[i := p']> ps) -> (p = p' -> q = i -> phase_history (h ++ [s']) i p') ->
    phase_history (h ++ [s']) q p) as Hins.
  { intros f' e' d' p' -> Hp'. cbn in Hq. apply list_lookup_insert_Some in Hq as [(<- & <- & _)|[_ Hq]]; [by apply Hp'|].
    apply phase_history_grow. by apply Hh. }
  specialize (Hh i p0 Hi). destruct p0 as [[add list c|id req]|id en ac| |allow|allow deny|st|status]; cbn in Hh.
  - destruct (_ || _); injection Hs as Hs; (eapply Hins; [by symmetry|]); intros _ _; [|done]. by destruct (run_edit _ _).1.
  - destruct e as [en|]; [destruct (patched _ _ _)|]; injection Hs as Hs; (eapply Hins; [by symmetry|done]).
  - destruct e as [e|]; cbn in Hs; [|done]. destruct (SetOverride _ _ _ _) as [r en']. injection Hs as Hs.
    eapply Hins; [by symmetry|]. intros _ _. by destruct (is_ok r).
  - injection Hs as Hs. eapply Hins; [by symmetry|]. intros _ _. exists n. split; [lia|]. eexists. split; [exact Hlast'|done].
  - injection Hs as Hs. eapply Hins; [by symmetry|]. intros _ _. destruct Hh as (j & Hj & Ha).
    exists j, n. split_and!; [lia|lia|by apply loaded_grow|]. do 2 eexists. split; [exact Hlast'|done].
  - injection Hs as Hs. eapply Hins; [by symmetry|]. intros _ _. destruct Hh as (j & k & Hjk & Ha & Hd).
    exists j, k, n, allow, deny, (loaded_overrides e). split_and!; [lia|lia|by apply loaded_grow..| |done].
    do 3 eexists. split; [exact Hlast'|done].
  - injection Hs as Hs. eapply Hins; [by symmetry|done].
  - done.
Qed.

(** What a step does to the state file. *)
Lemma race_advance_file i s s' :
  dk_temp (sh_disk s) <> path -> race_advance i s = Some s' ->
  dk_temp (sh_disk s') <> path /\
  (dk_files (sh_disk s') !! path = dk_files (sh_disk s) !! path \/
   exists st, sh_requests s !! i = Some (Captured st) /\ dk_files (sh_disk s') !! path = Some (json_MarshalState st)).
Proof.
  intros Ht Hs. destruct s as [f e d ps]. unfold race_advance in Hs. cbn [sh_disk sh_requests] in *.
  destruct (ps !! i) as [p|] eqn:Hi; cbn in Hs; [|done].
  destruct p as [[add list c|id req]|id en ac| |allow|allow deny|st|status]; try (injection Hs as <-; cbn; by auto).
  - destruct (_ || _); injection Hs as <-; cbn; by auto.
  - destruct e as [en|]; [destruct (patched _ _ _)|]; injection Hs as <-; cbn; by auto.
  - destruct e as [e|]; cbn in Hs; [|done]. destruct (SetOverride _ _ _ _). injection Hs as <-. cbn. by auto.
  - injection Hs as <-. cbn [sh_disk]. destruct (save_to_file st d Ht) as [-> ->]. split; [done|].
    destruct (is_ok _); [|by left]. right. by exists st.
  - done.
Qed.

(** C34. What concurrent requests leave in the state file.  Whatever the
    interleaving of their edits, loads and saves, reloads included, and whichever
    saves fail, the file holds what it held at the start of the run, or one
    state, whole, that a request of this run captured after making its own edit:
    its allow overlay, its deny overlay and its overrides were each the current
    ones at some moment of this run, in that order.  (They need not have been
    current together: [mixed_state_saved].) *)
Theorem saved_parts_were_current s0 h s :
  dk_temp (sh_disk s0) <> path ->
  Forall (fun p => exists q, p = Received q) (sh_requests s0) ->
  race_run s0 h s ->
  dk_files (sh_disk s) !! path = dk_files (sh_disk s0) !! path \/
  exists q i j k si sj sk, (i < j < k)%nat /\ h !! i = Some si /\ h !! j = Some sj /\ h !! k = Some sk /\
    sh_requests si !! q = Some Applied /\
    dk_files (sh_disk s) !! path = Some (json_MarshalState
      (captured (AllowOverlay (sh_filter si)) (DenyOverlay (sh_filter sj)) (loaded_overrides (sh_engine sk)))).
Proof.
  intros Ht Hreq Hrun.
  assert (dk_temp (sh_disk s) <> path /\ (forall q p, sh_requests s !! q = Some p -> phase_history h q p) /\
    (dk_files (sh_disk s) !! path = dk_files (sh_disk s0) !! path \/
     exists q st, captured_by h q st /\ dk_files (sh_disk s) !! path = Some (json_MarshalState st))) as (_ & _ & Hfile).
  { induction Hrun as [|h s s' Hrun IH Hs].
    - split_and!; [done| |by left]. intros q p Hp. by destruct (Forall_lookup_1 _ _ _ _ Hreq Hp) as [r ->].
    - destruct IH as (Htmp & Hph & Hfile).
      assert (forall x, dk_files (sh_disk s) !! path = x ->
        x = dk_files (sh_disk s0) !! path \/ exists q st, captured_by (h ++ [s']) q st /\ x = Some (json_MarshalState st)) as Hkeep.
      { intros x <-. destruct Hfile as [Hf|(q & st & Hc & Hf)]; [by left|]. right. exists q, st.
        split; [by apply captured_by_grow|done]. }
      destruct Hs as [i s s' Hs|cfg f e d ps|fs rules f e d ps|f e d d' ps Hd Htmp'].
      + destruct (race_advance_file i s s' Htmp Hs) as [Htmp' Hf]. split_and!; [done|by eapply race_advance_history|].
        destruct Hf as [Hf|(st & Hi & Hf)]; [by apply Hkeep|]. right. exists i, st.
        split; [|done]. apply captured_by_grow. exact (Hph i _ Hi).
      + split_and!; [done| |by apply Hkeep]. intros q p Hp. apply phase_history_grow. by apply Hph.
      + split_and!; [done| |by apply Hkeep]. intros q p Hp. apply phase_history_grow. by apply Hph.
      + split_and!; [done| |apply Hkeep; cbn; by rewrite Hd]. intros q p Hp. apply phase_history_grow. by apply Hph. }
  destruct Hfile as [Hf|(q & st & (i & j & k & a & d & os & Hijk & Ha & Hd & Ho & ->) & Hf)]; [by left|]. right.
  destruct Ha as (si & Hi & Hq & ->), Hd as (sj & ? & Hj & _ & ->), Ho as (sk & ? & ? & Hk & _ & ->).
  by exists q, i, j, k, si, sj, sk.
Qed.

End Race.

(** ** A lost edit, and a state that never was *)

Section LostEdit.
#[local] Existing Instance RangeSet.lib.
#[local] Existing Instance IPFilterProofs.demo_maxmind.
#[local] Existing Instance IPFilterProofs.demo_unicode.
#[local] Existing Instance WafProofs.Demo.regexp.
#[local] Existing Instance Dashboard.Demo.state_json.
#[local] Instance no_rules : RulesYaml := {| yaml_DecodeRules _ := None |}.

Definition requests (qs : list request) : shared := mkShared demo_filter None Dashboard.Demo.disk (Received <$> qs).

Definition two_edits : shared :=
  requests [ListRequest true "deny" "192.0.2.0/24"; ListRequest true "deny" "198.51.100.0/24"].

Definition state_file (s : shared) : option State :=
  json_UnmarshalState (default "" (dk_files (sh_disk s) !! ("state.json" : string))).

Definition lists_of (st : State) : list string * list string := (AllowAdded (st_IPLists st), DenyAdded (st_IPLists st)).
Definition answer (p : phase) : option Z := match p with Answered status => Some status | _ => None end.

(** A schedule, run by computation. *)
Lemma schedule_meets (P : list shared -> shared -> Prop) `{!forall h s, Decision (P h s)} order s0 :
  match schedule "state.json" order s0 with Some (h, s) => bool_decide (P ([s0] ++ h) s) | None => false end = true ->
  exists h s, race_run "state.json" s0 h s /\ P h s.
Proof.
  destruct (schedule _ _ _) as [[h s]|] eqn:E; [|done]. intros HP%bool_decide_eq_true.
  exists ([s0] ++ h), s. split; [eapply schedule_run; [apply run_start|exact E]|exact HP].
Qed.

(** The first request captures the state before the second edit, and saves it
    after the second save: both are answered 204, both edits are in force, and
    the file has the first only. *)
Theorem concurrent_save_loses_edit :
  exists h s, race_run "state.json" two_edits h s /\
    (answer <$> sh_requests s = [Some 204; Some 204] /\
     (lists_of (currentState (sh_filter s) None)).2 = ["192.0.2.0/24" : string; "198.51.100.0/24"] /\
     lists_of <$> state_file s = Some ([], ["192.0.2.0/24" : string])).
Proof.
  apply (schedule_meets _ [0; 0; 0; 0; 1; 1; 1; 1; 1; 0]%nat). vm_compute. reflexivity.
Qed.

(** Three requests: the first loads the allow overlay, the second and the third
    edit the allow list and then the deny list, and the first loads the deny
    overlay: it saves the later edit without the earlier one, a state the
    dashboard was in at no moment of the run. *)
Definition three_edits : shared :=
  requests [ListRequest true "deny" "192.0.2.0/24"; ListRequest true "allow" "198.51.100.0/24";
            ListRequest true "deny" "198.51.100.0/25"].

Theorem mixed_state_saved :
  exists h s, race_run "state.json" three_edits h s /\
    (lists_of <$> state_file s = Some ([], ["192.0.2.0/24" : string; "198.51.100.0/25"]) /\
     Forall (fun s1 => Some (lists_of (currentState (sh_filter s1) (sh_engine s1))) <> lists_of <$> state_file s) h).
Proof.
  apply (schedule_meets _ [0; 0; 1; 2; 0; 0; 0]%nat). vm_compute. reflexivity.
Qed.

(** The first request has saved; the second has still to load. *)
Lemma saved_parts_were_current_witness :
  exists h s, race_run "state.json" two_edits h s /\
    (dk_files (sh_disk s) !! ("state.json" : string) = None \/
     exists q i j k si sj sk, (i < j < k)%nat /\ h !! i = Some si /\ h !! j = Some sj /\ h !! k = Some sk /\
       sh_requests si !! q = Some Applied /\
       dk_files (sh_disk s) !! ("state.json" : string) = Some (json_MarshalState
         (captured (AllowOverlay (sh_filter si)) (DenyOverlay (sh_filter sj)) (loaded_overrides (sh_engine sk))))).
Proof.
  assert (exists h s, race_run "state.json" two_edits h s /\ answer <$> sh_requests s = [Some 204; None] /\ length h = 7%nat)
    as (h & s & Hr & _) by (apply (schedule_meets _ [0; 1; 0; 0; 0; 0]%nat); vm_compute; reflexivity).
  exists h, s. split; [exact Hr|].
  apply (saved_parts_were_current "state.json" two_edits h s).
  - discriminate.
  - repeat constructor; eexists; reflexivity.
  - exact Hr.
Defined.

End LostEdit.
