(* ===== verification/Metrics.v ===== *)
(** * internal/metrics: what each request adds to the collectors

    metrics.go.  The Prometheus client is a library: the state kept here is the
    sequence of calls the program makes on its collectors, and a collector's
    value is what those calls add up to. *)
From Corelib Require Import SpecFloat.
From stdpp Require Import pretty.
From S2P Require Import Prelude GoStrings Floats Netip Http Middleware AccessLog.

(** ** The collectors *)

Inductive collector : Type := requestsTotal | blockedTotal | requestDuration | upstreamErrorTotal.

Definition collector_eqb (a b : collector) : bool :=
  match a, b with
  | requestsTotal, requestsTotal | blockedTotal, blockedTotal
  | requestDuration, requestDuration | upstreamErrorTotal, upstreamErrorTotal => true
  | _, _ => false
  end.

(** A call on a collector: the gauge [activeConnections], a counter or a
    histogram with label values. *)
Inductive collector_call : Type :=
  | ActiveInc
  | ActiveDec
  | CounterInc (c : collector) (labels : list string)
  | HistogramObserve (c : collector) (labels : list string) (v : spec_float).

Record Metrics := mkMetrics {
  mt_path : string;
  mt_calls : list collector_call        (* oldest first *)
}.

Definition New (path : string) : Metrics := mkMetrics path [].

Definition Path (m : Metrics) : string := mt_path m.

Definition record (cs : list collector_call) (m : Metrics) : Metrics := mkMetrics (mt_path m) (mt_calls m ++ cs).

(** The gauge polled at scrape time. *)
Definition rateLimitBuckets (activeBuckets : option Z) : spec_float :=
  match activeBuckets with None => float64 0 | Some n => float64 n end.

(** ** The middleware *)

(** [Duration.Seconds] *)
Definition Seconds (d : Z) : spec_float :=
  fadd (float64 (Z.quot d 1000000000)) (fdiv (float64 (Z.rem d 1000000000)) (float64 1000000000)).

Definition snapshot_outcome (snap : Snapshot) : string :=
  if String.eqb (s_Outcome snap) "" then OutcomeAllowed else s_Outcome snap.

Definition rule_label (snap : Snapshot) : string :=
  if negb (s_WAFRuleID snap =? 0) then pretty (s_WAFRuleID snap) else "".

(** The calls after the handler returned, in order. *)
Definition request_calls (snap : Snapshot) (latency : spec_float) : list collector_call :=
  let outcome := snapshot_outcome snap in
  [CounterInc requestsTotal [outcome]; HistogramObserve requestDuration [outcome] latency] ++
  (if String.eqb (s_Outcome snap) OutcomeBlocked
   then [CounterInc blockedTotal [s_BlockReason snap; rule_label snap; s_WAFCategory snap]] else []) ++
  (if String.eqb (s_BlockReason snap) BlockReasonUpstreamError
   then [CounterInc upstreamErrorTotal [s_Upstream snap; s_UpstreamErrorReason snap]] else []).

Definition MetricsMiddleware {C} `{!Part Metrics C} : Middleware C := fun next rw r w =>
  let on (cs : list collector_call) := upd_comp (fun c => set_part (record cs (part c)) c) in
  let w := on [ActiveInc] w in
  let start := clock w in
  let w := next rw r w in
  let w :=
    if panicking w then w
    else
      let latency := Seconds (clock w - start) in
      on (request_calls (snapshot_of r w) latency) w in
  on [ActiveDec] w.                      (* deferred: a panic runs it too *)

(** ** What the collectors show *)

Definition is_inc (c : collector) (labels : list string) (call : collector_call) : bool :=
  match call with CounterInc c' ls => collector_eqb c' c && bool_decide (ls = labels) | _ => false end.
Definition is_any_inc (c : collector) (call : collector_call) : bool :=
  match call with CounterInc c' _ => collector_eqb c' c | _ => false end.
Definition is_observation (labels : list string) (call : collector_call) : bool :=
  match call with HistogramObserve _ ls _ => bool_decide (ls = labels) | _ => false end.

Definition bool_Z (b : bool) : Z := if b then 1 else 0.

Fixpoint count (p : collector_call -> bool) (cs : list collector_call) : Z :=
  match cs with [] => 0 | c :: cs' => bool_Z (p c) + count p cs' end.

Definition tally (p : collector_call -> bool) (m : Metrics) : Z := count p (mt_calls m).

(** A counter with label values, a counter over all label values, a
    histogram's count and the gauge. *)
Definition counter (c : collector) (labels : list string) (m : Metrics) : Z := tally (is_inc c labels) m.
Definition counter_sum (c : collector) (m : Metrics) : Z := tally (is_any_inc c) m.
Definition observations (labels : list string) (m : Metrics) : Z := tally (is_observation labels) m.
Definition active (m : Metrics) : Z :=
  tally (fun c => match c with ActiveInc => true | _ => false end) m -
  tally (fun c => match c with ActiveDec => true | _ => false end) m.

(** The collectors agree with each other. *)
Record metrics_agree (m : Metrics) : Prop := {
  ma_latency : forall o, observations [o] m = counter requestsTotal [o] m;
  ma_blocked : counter_sum blockedTotal m = counter requestsTotal [OutcomeBlocked] m;
  ma_outcomes : counter_sum requestsTotal m =
    counter requestsTotal [OutcomeAllowed] m + counter requestsTotal [OutcomeBlocked] m;
  ma_upstream : counter_sum upstreamErrorTotal m <= counter_sum blockedTotal m
}.

(** A snapshot a recorder that is in order gives. *)
Definition snapshot_wf (snap : Snapshot) : Prop :=
  (s_Outcome snap = OutcomeAllowed /\ s_BlockReason snap = "") \/
  (s_Outcome snap = OutcomeBlocked /\ s_BlockReason snap <> "").

Lemma count_app p cs cs' : count p (cs ++ cs') = count p cs + count p cs'.
Proof. induction cs as [|c cs IH]; cbn; [done|]. rewrite IH. lia. Qed.

Lemma tally_record p cs m : tally p (record cs m) = tally p m + count p cs.
Proof. apply count_app. Qed.

Lemma record_record cs cs' m : record cs' (record cs m) = record (cs ++ cs') m.
Proof. unfold record. cbn. by rewrite app_assoc. Qed.

(** What one request adds, once the gauge is back. *)
Definition request_trace (snap : Snapshot) (latency : spec_float) : list collector_call :=
  [ActiveInc] ++ request_calls snap latency ++ [ActiveDec].

Lemma request_trace_tallies snap latency m :
  snapshot_wf snap ->
  let m' := record (request_trace snap latency) m in
  let blocked := String.eqb (s_Outcome snap) OutcomeBlocked in
  active m' = active m /\
  (forall o, counter requestsTotal [o] m' = counter requestsTotal [o] m + bool_Z (bool_decide (o = s_Outcome snap))) /\
  (forall o, observations [o] m' = observations [o] m + bool_Z (bool_decide (o = s_Outcome snap))) /\
  counter_sum requestsTotal m' = counter_sum requestsTotal m + 1 /\
  counter_sum blockedTotal m' = counter_sum blockedTotal m + bool_Z blocked /\
  counter_sum upstreamErrorTotal m' =
    counter_sum upstreamErrorTotal m + bool_Z (String.eqb (s_BlockReason snap) BlockReasonUpstreamError).
Proof.
  intros Hwf. unfold request_trace, request_calls, snapshot_outcome, active, counter, observations, counter_sum.
  assert (forall o o' : string, bool_decide ([o] = [o']) = bool_decide (o' = o)) as Hsing
    by (intros; apply bool_decide_ext; split; [by intros [= ->]|by intros ->]).
  destruct Hwf as [[Ho Hb]|[Ho Hb]]; rewrite ?Ho, ?Hb; cbn [String.eqb Ascii.eqb Bool.eqb app];
    try (destruct (String.eqb (s_BlockReason snap) BlockReasonUpstreamError));
    cbn [app]; split_and!; intros; rewrite !tally_record; cbn -[Z.add Z.sub OutcomeBlocked OutcomeAllowed];
    rewrite ?Hsing; cbn -[Z.add Z.sub]; lia.
Qed.

Lemma New_agrees path : metrics_agree (New path).
Proof. by split. Qed.

Lemma request_keeps_agreement snap latency m :
  snapshot_wf snap -> metrics_agree m -> metrics_agree (record (request_trace snap latency) m).
Proof.
  intros Hwf [Hl Hb Ho Hu].
  destruct (request_trace_tallies snap latency m Hwf) as (_ & Hc & Hob & Hs & Hbl & Hup).
  split.
  - intros o. rewrite Hc, Hob. by rewrite Hl.
  - rewrite Hbl, Hc, Hb. f_equal. f_equal. destruct Hwf as [[-> _]|[-> _]]; done.
  - rewrite Hs, !Hc, Ho. destruct Hwf as [[-> _]|[-> _]]; repeat case_bool_decide; try done; cbn -[Z.add counter]; lia.
  - rewrite Hup, Hbl. destruct Hwf as [[-> ->]|[-> _]]; cbn -[Z.add]; [lia|].
    destruct (String.eqb (s_BlockReason snap) BlockReasonUpstreamError); cbn -[Z.add counter]; lia.
Qed.

Section Stage.
Context {C : Type} `{!Part Metrics C} `{!PartLaws Metrics C}.

Definition add_calls (cs : list collector_call) (w : World C) : World C :=
  upd_comp (fun c => set_part (record cs (part c)) c) w.

(** The calls of a request whose handler returned, or panicked. *)
Definition calls_of (r : Request) (start : Z) (w1 : World C) : list collector_call :=
  if panicking w1 then [ActiveInc; ActiveDec]
  else request_trace (snapshot_of r w1) (Seconds (clock w1 - start)).

(** The stage around a handler that does not touch the collectors. *)
Lemma MetricsMiddleware_run (next : Handler C) rw r w :
  let w1 := next rw r (add_calls [ActiveInc] w) in
  (part (comp w1) : Metrics) = record [ActiveInc] (part (comp w)) ->
  MetricsMiddleware next rw r w =
    upd_comp (set_part (record (calls_of r (clock w) w1) (part (comp w)))) w1.
Proof.
  intros w1 Hm. unfold MetricsMiddleware. fold (add_calls [ActiveInc] w). fold w1. unfold calls_of.
  destruct (panicking w1); [unfold upd_comp; by rewrite Hm, record_record|].
  unfold upd_comp at 1 2. cbn [comp recorders statuses conn clock entropy].
  rewrite part_set, set_part_twice, record_record, Hm, record_record. done.
Qed.

(** A panicking handler is in no counter; only the gauge went up and down. *)
Lemma calls_of_panic r start w1 (m : Metrics) :
  panicking w1 = true ->
  let m' := record (calls_of r start w1) m in
  active m' = active m /\ (forall o, counter requestsTotal [o] m' = counter requestsTotal [o] m) /\
  (metrics_agree m -> metrics_agree m').
Proof.
  intros Hp. unfold calls_of. rewrite Hp. cbn zeta.
  assert (forall p : collector_call -> bool, p ActiveInc = false -> p ActiveDec = false ->
    tally p (record [ActiveInc; ActiveDec] m) = tally p m) as Ht
    by (intros p H1 H2; rewrite tally_record; cbn; rewrite H1, H2; cbn; lia).
  split; [|split].
  - unfold active. rewrite !tally_record. cbn. lia.
  - intros o. by apply Ht.
  - intros [Hl Hb Ho Hu]. unfold observations, counter_sum, counter in *.
    split; unfold observations, counter_sum, counter; intros; by rewrite !Ht.
Qed.

Lemma calls_of_agree r start w1 (m : Metrics) :
  snapshot_wf (snapshot_of r w1) -> metrics_agree m -> metrics_agree (record (calls_of r start w1) m).
Proof.
  intros Hwf Hm. destruct (panicking w1) eqn:Hp; [by apply (calls_of_panic r start w1 m Hp)|].
  unfold calls_of. rewrite Hp. by apply request_keeps_agreement.
Qed.

(** Each request is counted once, under the outcome its recorder ends with,
    and timed once under the same label; it is counted as blocked exactly when
    it was blocked and as an upstream error exactly when that is the reason.  A
    request whose handler panics is in no counter.  Either way the in-flight
    gauge is back where it was, and the collectors go on agreeing with each
    other. *)
Theorem metrics_stage_spec (next : Handler C) rw r w :
  let w1 := next rw r (add_calls [ActiveInc] w) in
  let snap := snapshot_of r w1 in
  let m : Metrics := part (comp w) in
  let m' : Metrics := part (comp (MetricsMiddleware next rw r w)) in
  (part (comp w1) : Metrics) = record [ActiveInc] m -> snapshot_wf snap ->
  active m' = active m /\ (metrics_agree m -> metrics_agree m') /\
  if panicking w1 then forall o, counter requestsTotal [o] m' = counter requestsTotal [o] m
  else
    counter requestsTotal [s_Outcome snap] m' = counter requestsTotal [s_Outcome snap] m + 1 /\
    counter_sum requestsTotal m' = counter_sum requestsTotal m + 1 /\
    counter_sum blockedTotal m' = counter_sum blockedTotal m + bool_Z (String.eqb (s_Outcome snap) OutcomeBlocked) /\
    counter_sum upstreamErrorTotal m' =
      counter_sum upstreamErrorTotal m + bool_Z (String.eqb (s_BlockReason snap) BlockReasonUpstreamError).
Proof.
  intros w1 snap m m' Hm Hwf. unfold m'. rewrite (MetricsMiddleware_run next rw r w Hm).
  cbn [comp upd_comp]. rewrite part_set. fold w1 snap m. destruct (panicking w1) eqn:Hp.
  { by destruct (calls_of_panic r (clock w) w1 m Hp) as (Ha & Hc & Hk). }
  unfold calls_of. rewrite Hp. fold snap.
  destruct (request_trace_tallies snap (Seconds (clock w1 - clock w)) m Hwf) as (Ha & Hc & _ & Hs & Hb & Hu).
  split_and!; [done|by apply request_keeps_agreement| |done..]. by rewrite Hc, bool_decide_true.
Qed.

End Stage.

(** ** A concrete request: a handler that refuses it *)

Definition demo_request : Request :=
  mkRequest "GET" "/" "" "shop.example" "192.0.2.1:5000" ∅ NoBody 0 None (Some 0%nat).
Definition demo_world : World Metrics :=
  mkWorld [NewRecorder "id"] [] (fresh_conn true) 0 (fun _ => 0) (New "/metrics").
Definition demo_next : Handler Metrics := fun rw _ w =>
  WriteHeader rw StatusForbidden (at_recorder 0 (SetBlocked BlockReasonIPDeny) w).

Lemma metrics_stage_spec_witness :
  let m' : Metrics := part (comp (MetricsMiddleware demo_next ConnWriter demo_request demo_world)) in
  active m' = 0 /\ counter requestsTotal [OutcomeBlocked] m' = 1 /\ metrics_agree m'.
Proof.
  destruct (metrics_stage_spec demo_next ConnWriter demo_request demo_world) as (Ha & Hm & Hc).
  - reflexivity.
  - right. split; [reflexivity|discriminate].
  - split; [exact Ha|]. split; [exact (proj1 Hc)|]. apply Hm. apply New_agrees.
Defined.
