(* ===== verification/Server.v ===== *)
(** * internal/server: the public listeners

    server.go.  Loading a certificate, binding a socket, and what a serving
    listener ends with belong to the standard library: the first two are
    parameters, the last is the order in which the serving goroutines report. *)
From S2P Require Import Prelude GoStrings Config.

(** ** Parameters *)

Class ServerLib := {
  Certificate : Type;
  LoadX509KeyPair : string -> string -> option Certificate;
  (** the addresses already bound, the one asked for: the address bound *)
  net_Listen : list string -> string -> option string
}.

Section Server.
Context `{ServerLib}.

(** [tls.Config] as the code fills it. *)
Record TLSSettings := mkTLSSettings {
  ts_Certificates : list Certificate; ts_MinVersion : Z; ts_NextProtos : list string }.

Record HttpServer := mkHttpServer { hs_Addr : string; hs_TLSConfig : option TLSSettings }.

Record Server := mkServer {
  servers : list HttpServer;
  listeners : list string;               (* bound addresses, in listener order *)
  ready : bool                           (* the channel is closed *)
}.

Definition VersionTLS12 : Z := 0x0303.

Definition new_server (l : ListenConfig) : result HttpServer :=
  if tls_Enabled (lc_TLS l) then
    let! cert := wrap_err "server: load TLS cert for %s: %w" [lc_Address l]
                   (of_lib "tls.LoadX509KeyPair" (LoadX509KeyPair (tls_CertFile (lc_TLS l)) (tls_KeyFile (lc_TLS l)))) in
    Ok (mkHttpServer (lc_Address l) (Some (mkTLSSettings [cert] VersionTLS12 ["h2"; "http/1.1"])))
  else Ok (mkHttpServer (lc_Address l) None).

Fixpoint new_servers (ls : list ListenConfig) : result (list HttpServer) :=
  match ls with
  | [] => Ok []
  | l :: ls' => let! hs := new_server l in let! rest := new_servers ls' in Ok (hs :: rest)
  end.

Definition New (ls : list ListenConfig) : result Server :=
  match ls with
  | [] => Err (Errorf "server: at least one listener is required" [])
  | _ => let! hss := new_servers ls in Ok (mkServer hss [] false)
  end.

(** The binding loop of [Start]: its error and the listeners bound so far. *)
Fixpoint bind_all (hss : list HttpServer) (bound : list string) : result unit * list string :=
  match hss with
  | [] => (Ok tt, bound)
  | hs :: hss' =>
      match net_Listen bound (hs_Addr hs) with
      | None => (Err (Errorw "server: listen on %s: %w" [hs_Addr hs] (LibError "net.Listen")), bound)
      | Some addr => bind_all hss' (bound ++ [addr])
      end
  end.

(** What a serving goroutine's [Serve] ended with. *)
Inductive serve_end : Type := ServerClosed | ServeFailed (e : error).

(** What it sends: closing is not an error. *)
Definition sent (s : serve_end) : result unit :=
  match s with ServerClosed => Ok tt | ServeFailed e => Err e end.

(** The receive loop over the reports, in the order they arrive; [None] is
    still waiting. *)
Fixpoint await (n : nat) (reports : list serve_end) : option (result unit) :=
  match n, reports with
  | O, _ => Some (Ok tt)
  | S _, [] => None
  | S n', s :: reports' => match sent s with Err e => Some (Err e) | Ok _ => await n' reports' end
  end.

Definition Start (s : Server) (reports : list serve_end) : option (result unit) * Server :=
  match bind_all (servers s) (listeners s) with
  | (Err e, bound) => (Some (Err e), mkServer (servers s) bound (ready s))
  | (Ok _, bound) => (await (length (servers s)) reports, mkServer (servers s) bound true)
  end.

Definition Addrs (s : Server) : list string := listeners s.

(** [Shutdown]: every server is told, the first error is kept; the trace is the
    servers told. *)
Fixpoint shutdown_loop (drain : HttpServer -> result unit) (hss : list HttpServer) (firstErr : result unit)
    : result unit * list HttpServer :=
  match hss with
  | [] => (firstErr, [])
  | hs :: hss' =>
      let firstErr := match drain hs, firstErr with Err e, Ok _ => Err e | _, _ => firstErr end in
      let '(r, told) := shutdown_loop drain hss' firstErr in (r, hs :: told)
  end.

Definition Shutdown (drain : HttpServer -> result unit) (s : Server) : result unit * list HttpServer :=
  shutdown_loop drain (servers s) (Ok tt).

(** ** Lemmas *)

(** A listener's server: TLS 1.2 at least exactly when the section asks for
    TLS. *)
Definition serves (l : ListenConfig) (hs : HttpServer) : Prop :=
  hs_Addr hs = lc_Address l /\
  match hs_TLSConfig hs with
  | None => tls_Enabled (lc_TLS l) = false
  | Some t => tls_Enabled (lc_TLS l) = true /\ VersionTLS12 <= ts_MinVersion t /\
      exists cert, ts_Certificates t = [cert] /\
        LoadX509KeyPair (tls_CertFile (lc_TLS l)) (tls_KeyFile (lc_TLS l)) = Some cert
  end.

Definition loadable (l : ListenConfig) : Prop :=
  tls_Enabled (lc_TLS l) = true -> is_Some (LoadX509KeyPair (tls_CertFile (lc_TLS l)) (tls_KeyFile (lc_TLS l))).

Lemma new_server_spec l :
  match new_server l with Ok hs => serves l hs /\ loadable l | Err _ => ~ loadable l end.
Proof.
  unfold new_server, serves, loadable. destruct (tls_Enabled (lc_TLS l)); [|by cbn].
  destruct (LoadX509KeyPair _ _) as [cert|]; cbn.
  - split; [|by eexists]. split_and!; [done..|by exists cert].
  - intros Hl. by destruct (Hl eq_refl).
Qed.

Lemma new_servers_spec ls :
  match new_servers ls with
  | Ok hss => Forall2 serves ls hss /\ Forall loadable ls
  | Err _ => ~ Forall loadable ls
  end.
Proof.
  induction ls as [|l ls IH]; cbn; [done|]. pose proof (new_server_spec l) as Hl.
  destruct (new_server l) as [hs|e]; cbn; [|intros Hf; by inversion Hf].
  destruct (new_servers ls) as [hss|e]; cbn; [|intros Hf; by inversion Hf].
  destruct Hl, IH. split; by constructor.
Qed.

(** Each server's address can be bound once the earlier ones are: [addrs] are
    the addresses they get. *)
Fixpoint binds (bound : list string) (hss : list HttpServer) (addrs : list string) : Prop :=
  match hss, addrs with
  | [], [] => True
  | hs :: hss', a :: addrs' => net_Listen bound (hs_Addr hs) = Some a /\ binds (bound ++ [a]) hss' addrs'
  | _, _ => False
  end.

Lemma bind_all_spec hss : forall bound,
  match bind_all hss bound with
  | (Ok _, all) => exists addrs, binds bound hss addrs /\ all = bound ++ addrs
  | (Err _, _) => ~ exists addrs, binds bound hss addrs
  end.
Proof.
  induction hss as [|hs hss IH]; intros bound; cbn; [exists []; by rewrite app_nil_r|].
  destruct (net_Listen bound (hs_Addr hs)) as [a|] eqn:E; [|by intros ([|a addrs] & Hb); cbn in Hb; [|destruct Hb; congruence]].
  specialize (IH (bound ++ [a])). destruct (bind_all hss _) as [[u|e] all].
  - destruct IH as (addrs & Hb & ->). exists (a :: addrs). cbn. by rewrite <- app_assoc.
  - intros ([|a' addrs] & Hb); cbn in Hb; [done|]. destruct Hb as [Ha Hb]. apply IH. exists addrs. congruence.
Qed.

Lemma await_ok n reports :
  await n reports = Some (Ok tt) <-> (n <= length reports)%nat /\ Forall (fun s => s = ServerClosed) (take n reports).
Proof.
  revert reports. induction n as [|n IH]; intros reports; cbn.
  { split; [intros _|done]. split; [lia|constructor]. }
  destruct reports as [|[|e] reports]; cbn; [split; [done|intros [? _]; lia]| |split; [done|]].
  - rewrite IH, Forall_cons. split; [intros [? ?]; split_and!; [lia|done..]|intros (? & _ & ?); split; [lia|done]].
  - intros [_ Hf]. apply Forall_cons in Hf as [Hs _]. done.
Qed.

Lemma await_err n reports e :
  await n reports = Some (Err e) <->
  exists k, (k < n)%nat /\ reports !! k = Some (ServeFailed e) /\ Forall (fun s => s = ServerClosed) (take k reports).
Proof.
  revert reports. induction n as [|n IH]; intros reports; cbn; [split; [done|intros (k & ? & _); lia]|].
  destruct reports as [|[|e'] reports]; cbn; [split; [done|by intros (k & _ & ? & _)]| |].
  - rewrite IH. split.
    + intros (k & Hk & He & Hf). exists (S k). cbn. split_and!; [lia|done|by constructor].
    + intros ([|k] & Hk & He & Hf); [done|]. exists k. apply Forall_cons in Hf as [_ Hf]. split_and!; [lia|done..].
  - split; [intros [= ->]; exists 0%nat; split_and!; [lia|done|constructor]|].
    intros ([|k] & Hk & He & Hf); [by injection He as ->|]. by apply Forall_cons in Hf as [? _].
Qed.

Lemma shutdown_loop_spec drain hss first :
  (shutdown_loop drain hss first).2 = hss /\
  (shutdown_loop drain hss first).1 =
    match first with Err e => Err e | Ok _ => default first (find (fun r => negb (is_ok r)) (drain <$> hss)) end.
Proof.
  revert first. induction hss as [|hs hss IH]; intros first; [by destruct first|]. cbn.
  specialize (IH (match drain hs, first with Err e, Ok _ => Err e | _, _ => first end)).
  destruct (shutdown_loop drain hss _) as [r told]. cbn in IH |- *. destruct IH as [-> ->].
  split; [done|]. by destruct first, (drain hs).
Qed.

(** C38. The listeners: [New] succeeds exactly with at least one listener whose
    key pairs all load, and makes a server per listener in order, TLS 1.2 or
    later exactly where TLS is enabled.  [Start] signals that it is ready exactly
    when every listener could be bound in turn, the earlier ones being bound
    already, and once they are; it ends with nil only once every server was
    closed, otherwise with the first failure reported; [Shutdown] reaches every
    server even when some do not drain. *)
Theorem server_lifecycle ls :
  ((exists s, New ls = Ok s) <-> ls <> [] /\ Forall loadable ls) /\
  forall s reports drain, New ls = Ok s ->
    Forall2 serves ls (servers s) /\
    let '(r, s') := Start s reports in
    (ready s' = true <-> exists addrs, binds [] (servers s) addrs) /\
    (ready s' = true -> binds [] (servers s) (Addrs s')) /\
    (ready s' = true -> r = Some (Ok tt) ->
       Forall (fun x => x = ServerClosed) (take (length ls) reports) /\ (length ls <= length reports)%nat) /\
    (forall e, ready s' = true -> r = Some (Err e) -> exists k, (k < length ls)%nat /\
       reports !! k = Some (ServeFailed e) /\ Forall (fun x => x = ServerClosed) (take k reports)) /\
    (Shutdown drain s').2 = servers s.
Proof.
  pose proof (new_servers_spec ls) as Hn. unfold New. split.
  - destruct ls as [|l ls]; [split; [by intros []|by intros [? _]]|]. 
    destruct (new_servers (l :: ls)) as [hss|e]; cbn [result_bind].
    + split; [intros _; split; [done|apply Hn]|by eexists].
    + split; [by intros []|intros [_ ?]; by destruct Hn].
  - intros s reports drain Hs. destruct ls as [|l ls]; [done|]. set (ls' := l :: ls) in *.
    destruct (new_servers ls') as [hss|e]; cbn [result_bind] in Hs; [|done]. injection Hs as <-.
    destruct Hn as [Hserves _]. split; [done|]. unfold Start. cbn [servers listeners ready].
    rewrite (Forall2_length _ _ _ Hserves).
    pose proof (bind_all_spec hss []) as Hb. destruct (bind_all hss []) as [[u|e] bound]; cbn [ready servers Addrs listeners].
    + destruct Hb as (addrs & Hb & ->). cbn [app]. split_and!.
      * split; [intros _; by exists addrs|done].
      * done.
      * intros _ Hr. apply await_ok in Hr as [? ?]. done.
      * intros e _ Hr. by apply await_err in Hr.
      * apply shutdown_loop_spec.
    + split_and!; try done. apply shutdown_loop_spec.
Qed.

End Server.

(** ** Two listeners, one with TLS *)

Section Witness.

#[local] Instance demo_lib : ServerLib := {|
  Certificate := string;
  LoadX509KeyPair cert _ := if String.eqb cert "cert.pem" then Some "certificate" else None;
  net_Listen bound addr := if existsb (String.eqb addr) bound then None else Some addr |}.

Definition demo_listeners : list ListenConfig :=
  [mkListenConfig ":80" (mkTLSConfig false "" ""); mkListenConfig ":443" (mkTLSConfig true "cert.pem" "key.pem")].

Definition demo_server : Server :=
  mkServer [mkHttpServer ":80" None;
            mkHttpServer ":443" (Some (mkTLSSettings ["certificate"] VersionTLS12 ["h2"; "http/1.1"]))] [] false.

Lemma server_lifecycle_witness :
  New demo_listeners = Ok demo_server /\ Forall2 serves demo_listeners (servers demo_server).
Proof.
  split; [reflexivity|].
  destruct (server_lifecycle demo_listeners) as [_ Hrun].
  exact (proj1 (Hrun demo_server [ServerClosed; ServerClosed] (fun _ => Ok tt) eq_refl)).
Defined.

(** Two listeners on one address: the second is not bound. *)
Example same_address_twice :
  bind_all [mkHttpServer ":80" None; mkHttpServer ":80" None] [] =
    (Err (Errorw "server: listen on %s: %w" [":80"] (LibError "net.Listen")), [":80" : string]).
Proof. reflexivity. Qed.

End Witness.
