(* ===== verification/ProxyFrame.v ===== *)
(** * What serving a request leaves alone

    The proxy changes its own part of the state and reports to the request's
    recorder; it never runs out of the fuel its two round trips are given. *)
From S2P Require Import Prelude GoStrings Netip Config Http Middleware Proxy.

(** ** Recorders that evolve as reports allow *)

Section Evolve.
Context {C : Type}.
Implicit Types w : World C.

(** Every recorder is still there, with its client and identifier, and in
    order if it was. *)
Definition evolves (rec rec' : Recorder) : Prop :=
  clientIP rec' = clientIP rec /\ requestID rec' = requestID rec /\ (recorder_wf rec -> recorder_wf rec').

Definition recorders_evolve w w' : Prop := Forall2 evolves (recorders w) (recorders w').

#[export] Instance evolves_preorder : PreOrder evolves.
Proof. unfold evolves. split; [by intros x|]. intros x y z (H1 & H2 & H3) (H4 & H5 & H6). split_and!; [congruence..|auto]. Qed.

#[export] Instance recorders_evolve_preorder : PreOrder recorders_evolve.
Proof.
  unfold recorders_evolve. split; intros w; [done|]. intros w2 w3 H1 H2. by etrans.
Qed.

Lemma evolve_at l f w : (forall rec, evolves rec (f rec)) -> recorders_evolve w (at_recorder l f w).
Proof.
  intros Hf. apply Forall2_lookup. intros i. cbn. destruct (decide (i = l)) as [->|Hne].
  - rewrite list_lookup_alter_eq. destruct (recorders w !! l) as [rec|]; cbn; constructor. apply Hf.
  - rewrite list_lookup_alter_ne by done. destruct (recorders w !! i); by constructor.
Qed.

Lemma evolve_blocked reason : reason <> "" -> forall rec, evolves rec (SetBlocked reason rec).
Proof. intros Hr rec. split_and!; [done..|]. intros _. by right. Qed.

Lemma evolve_upstream addr status rec : evolves rec (SetUpstream addr status rec).
Proof. by split_and!. Qed.

Lemma evolve_reason reason rec : evolves rec (SetUpstreamErrorReason reason rec).
Proof. by split_and!. Qed.

Lemma evolve_waf id category rec : evolves rec (SetWAFMatch id category rec).
Proof. by split_and!. Qed.

End Evolve.

(** ** The proxy's frame *)

Section Frame.
Context `{Transport} {C : Type} `{!Part Proxy C} `{!PartLaws Proxy C}.
Implicit Types w : World C.

(** Nothing but the proxy's part changes, recorders evolve, writers stay. *)
Definition serves (w w' : World C) : Prop :=
  (recorders_evolve w w' /\ length (statuses w') = length (statuses w)) /\
  (exists p : Proxy, comp w' = set_part p (comp w) /\
     length (px_upstreams p) = length (px_upstreams (part (comp w)))).

#[export] Instance serves_preorder : PreOrder serves.
Proof.
  split.
  - intros w. split; [done|]. exists (part (comp w)). by rewrite set_part_part.
  - intros w1 w2 w3 [[E1 S1] (p1 & H1 & L1)] [[E2 S2] (p2 & H2 & L2)].
    split; [split; [by etrans|congruence]|]. exists p2.
    split; [by rewrite H2, H1, set_part_twice|]. by rewrite L2, H1, part_set.
Qed.

Lemma serves_same_comp w w' :
  recorders_evolve w w' -> comp w' = comp w -> length (statuses w') = length (statuses w) -> serves w w'.
Proof. intros He Hc Hs. split; [done|]. exists (part (comp w)). by rewrite Hc, set_part_part. Qed.

Lemma serves_WriteHeader rw code w : serves w (WriteHeader rw code w).
Proof.
  destruct (WriteHeader_frame rw code w) as (Hc & Hr & Hs). apply serves_same_comp; [|done..].
  unfold recorders_evolve. by rewrite Hr.
Qed.

Lemma serves_header rw f w : serves w (UpdHeader rw f w).
Proof. apply serves_same_comp; [by unfold recorders_evolve|done..]. Qed.

Lemma serves_early rw early w : serves w (pass_early rw early w).
Proof.
  unfold pass_early. revert w. induction early as [|e early IH]; intros w; cbn; [done|].
  etrans; [|apply IH]. etrans; [|apply serves_header]. etrans; [|apply serves_WriteHeader]. apply serves_header.
Qed.

Lemma serves_respond rw res w : serves w (respond rw res w).
Proof.
  destruct (respond_frame rw res w) as (Hc & Hr & Hs). apply serves_same_comp; [|done..].
  unfold recorders_evolve. by rewrite Hr.
Qed.

Lemma serves_upstream u f w : serves w (at_upstream u f w).
Proof.
  split; [by split; [unfold recorders_evolve|]|]. exists (upd_upstream u f (part (comp w))). split; [done|]. cbn. by rewrite length_alter.
Qed.

Lemma serves_recorder r f w : (forall rec, evolves rec (f rec)) -> serves w (with_recorder r f w).
Proof.
  intros Hf. unfold with_recorder. destruct (RecorderFrom r w) as [[l rec]|]; [|done].
  apply serves_same_comp; [by apply evolve_at|done..].
Qed.

Lemma serves_hook u r status w : serves w (hook_success u r status w).
Proof. unfold hook_success. etrans; [apply serves_upstream|]. apply serves_recorder, evolve_upstream. Qed.

Lemma serves_end_failed u err rw r w : serves w (end_failed u err rw r w).
Proof.
  unfold end_failed. etrans; [|apply serves_WriteHeader]. apply serves_recorder. intros rec.
  etrans; [|apply evolve_reason]. etrans; [|apply evolve_upstream]. by apply evolve_blocked.
Qed.

Lemma serves_clock dt w : serves w (upd_clock dt w).
Proof. apply serves_same_comp; [by unfold recorders_evolve|done..]. Qed.

#[local] Hint Resolve serves_WriteHeader serves_early serves_respond serves_upstream serves_hook serves_end_failed serves_clock : firewall.

(** With an upstream at hand, fuel for a trip and its retry is enough, and the
    run is a serving one. *)
Lemma rp_serves fuel : forall u (retry : bool) rw r w,
  (if retry then 1 < fuel else 0 < fuel)%nat -> is_Some (upstream_of u w) ->
  exists w', rp_ServeHTTP fuel u retry rw r w = Some w' /\ serves w w'.
Proof.
  induction fuel as [|fuel IH]; intros u retry rw r w Hf [up Hu]; [destruct retry; lia|].
  rewrite rp_ServeHTTP_trip. assert (exists res out w1, trip u rw r w = Some (res, out, w1) /\ serves w w1) as (res & out & w1 & -> & Hw1).
  { unfold trip. rewrite Hu. cbn [option_bind mbind]. destruct (negb _); do 3 eexists; (split; [done|]); [done|].
    etrans; [|apply serves_early]. auto with firewall. }
  assert (forall err w', serves w w' -> exists w'',
    match retry_target retry u (failed u w') with
    | Some next => rp_ServeHTTP fuel next false rw out (failed u w')
    | None => Some (end_failed u err rw out (failed u w'))
    end = Some w'' /\ serves w w'') as Herr.
  { intros err w' Hw'. assert (serves w (failed u w')) as Hw2 by (etrans; [done|apply serves_upstream]).
    unfold retry_target. destruct (retry && _) eqn:Er.
    - apply andb_prop in Er as [-> _]. destruct (pickOtherThan _ _ _) as [v|] eqn:Hp.
      + apply pickOtherThan_some in Hp as (_ & upv & Hv & _).
        destruct (IH v false rw out (failed u w')) as (w'' & -> & Hs); [lia|by eexists|].
        exists w''. split; [done|]. by etrans.
      + eexists. split; [done|]. etrans; [done|]. auto with firewall.
    - eexists. split; [done|]. etrans; [done|]. auto with firewall. }
  destruct res as [res|err]; [|by apply Herr].
  assert (serves w (hook_success u out (rs_status res) w1)) as Hh by (etrans; [done|apply serves_hook]).
  cbv zeta. destruct (rs_status res =? 101); [match goal with |- context [if ?b then _ else _] => destruct b end|].
  - eexists. split; [done|]. etrans; [done|]. auto with firewall.
  - by apply Herr.
  - eexists. split; [done|]. etrans; [done|]. apply serves_respond.
Qed.

(** The handler always ends, having changed only the proxy's part. *)
Lemma serveHTTP_serves rw r w :
  px_upstreams (part (comp w)) <> [] -> serves w (serveHTTP rw r w).
Proof.
  intros Hne. destruct (pick_finds_healthy_aux (part (comp w)) (clock w) Hne) as (u & up & Hpick & Hu).
  pose proof (pick_next (part (comp w)) (clock w) Hne) as [_ Hus].
  unfold serveHTTP. destruct (pick (part (comp w)) (clock w)) as [o p]. cbn [fst snd] in *. subst o.
  assert (serves w (upd_comp (set_part p) w)) as Hs.
  { split; [by split; [unfold recorders_evolve|]|]. exists p. split; [done|]. by rewrite Hus. }
  destruct (rp_serves 2 u (isRetryable r) rw r (upd_comp (set_part p) w)) as (w' & -> & Hw').
  - destruct (isRetryable r); lia.
  - unfold upstream_of. cbn. rewrite part_set, Hus, Hu. by eexists.
  - cbn. by etrans.
Qed.

Context {Y : Type} `{!Part Y C} `{!PartIndep Proxy Y C}.

Lemma serves_other w w' : serves w w' -> (part (comp w') : Y) = part (comp w).
Proof. intros [_ (p & -> & _)]. apply (part_other (X := Proxy) (Y := Y)). Qed.

End Frame.
