(* ===== verification/Main.v ===== *)
(** * cmd/go-firewall: the program put together

    main.go, with log/default.go and version.go: the components [run] builds, in
    its order and with its errors; the pipeline a request goes through;
    [reloadOnce] and the signal loop around it; the listeners of the metrics
    and of the dashboard; what [run] waits for, what it does when it ends, and
    the exit status.  The process is a record: what is deferred, the
    goroutines, the lines of the default logger, and what [run] holds. *)
From S2P Require Import Prelude GoStrings Patterns Netip Netmatch Config Http Middleware ClientIP Geoip IPFilter RateLimit.
From S2P Require Import RateStage Waf AccessLog Metrics Proxy Admin Server.

Section Main.
Context `{IPSetLib} `{MaxMindLib} `{UnicodeTables} `{RegexpLib} `{MapOrder} `{RateLib} `{Transport}.

(** ** The state the handlers share *)

Definition Components : Type :=
  Filter * (Limiter * (option Engine * (AccessLog * (Metrics * (Proxy * Disk))))).

(** The WAF stage holds the engine; [run] adds it only when there is one. *)
Definition waf_part (e : Engine) : Part Engine Components := {|
  part c := default e (part c : option Engine);
  set_part e' := set_part (Some e') |}.

(** ** The pipeline *)

Definition waf_stage (waf : option Engine) : list (Middleware Components) :=
  match waf with
  | Some e => [WafMiddleware (Part0 := waf_part e)]
  | None => []
  end.

Definition mws (trusted : Matcher) (waf : option Engine) : list (Middleware Components) :=
  [AttachRecorder; ResolveClientIP (Some trusted); AccessMiddleware; MetricsMiddleware;
   FilterMiddleware part; LimiterMiddleware] ++ waf_stage waf.

Definition pipeline (trusted : Matcher) (waf : option Engine) : Handler Components :=
  Chain serveHTTP (mws trusted waf).

(** ** [reloadOnce] *)

Context `{!RulesYaml} `{ConfigEnv} `{ConfigYaml}.

Definition reloadOnce `{Files} (configPath : string) (c : Components) : result unit * Components :=
  match wrap_err "load config: %w" [] (Load configPath) with
  | Err e => (Err e, c)
  | Ok newCfg =>
      let reload_rest (c : Components) : result unit * Components :=
        let '(r, f) := IPFilter.Reload (c_IPLists newCfg) (part c) in
        let c := set_part f c in
        match wrap_err "reload ip lists: %w" [] r with
        | Err e => (Err e, c)
        | Ok _ => (Ok tt, set_part (RateStage.Reload (part c) (c_RateLimit newCfg)) c)
        end in
      match (part c : option Engine) with
      | None => reload_rest c
      | Some e =>
          let '(r, e') := EngineReload e (wc_RulesFile (c_WAF newCfg)) in
          let c := set_part (Some e') c in
          match wrap_err "reload waf rules: %w" [] r with
          | Err err => (Err err, c)
          | Ok _ => reload_rest c
          end
      end
  end.

Context `{!UrlParse} `{!AppendFiles} `{ServerLib} `{StateJson} `{!AdminEnv} `{LetterTables}.

(** ** The process *)

(** internal/version: what the linker sets otherwise. *)
Definition Version : string := "dev".
Definition Commit : string := "none".

(** How a call ends. *)
Inductive ending (A : Type) : Type :=
  | Returned (r : result A)
  | Panicked (what : string).
#[global] Arguments Returned {A} _.
#[global] Arguments Panicked {A} _.

(** The calls [run] defers, and the goroutines it starts. *)
Inductive deferred : Type := StopNotify | CloseFilter | StopLimiter | CloseLog | CancelDrain.
Inductive goroutine : Type := WatchForReload | ServeMetrics | ServeAdmin | StartServer | LogReady.

(** A line of the default logger: its level, message and attributes. *)
Inductive attr : Type := AttrString (s : string) | AttrStrings (ss : list string) | AttrInt (n : Z) | AttrError (e : error).
Record line := mkLine { ln_level : Z; ln_msg : string; ln_attrs : list (string * attr) }.

Definition LevelInfo : Z := 0.
Definition LevelWarn : Z := 4.
Definition LevelError : Z := 8.

Record Process := mkProcess {
  pr_level : Z;                          (* of the default logger *)
  pr_lines : list line;                  (* oldest first *)
  pr_deferred : list deferred;           (* last deferred first *)
  pr_goroutines : list goroutine;        (* oldest first *)
  pr_notified : bool;                    (* SIGINT and SIGTERM are caught *)
  pr_filter : option Filter;
  pr_limiter : option Limiter;
  pr_log : option AccessLog;
  pr_file : option string;               (* the access-log file, while open *)
  pr_told : list HttpServer              (* the servers shut down, in order *)
}.

Definition fresh_process : Process := mkProcess LevelInfo [] [] [] false None None None None [].

Definition set_lines (f : list line -> list line) (p : Process) : Process :=
  mkProcess (pr_level p) (f (pr_lines p)) (pr_deferred p) (pr_goroutines p) (pr_notified p) (pr_filter p)
    (pr_limiter p) (pr_log p) (pr_file p) (pr_told p).
Definition set_deferred (f : list deferred -> list deferred) (p : Process) : Process :=
  mkProcess (pr_level p) (pr_lines p) (f (pr_deferred p)) (pr_goroutines p) (pr_notified p) (pr_filter p)
    (pr_limiter p) (pr_log p) (pr_file p) (pr_told p).
Definition spawn (g : goroutine) (p : Process) : Process :=
  mkProcess (pr_level p) (pr_lines p) (pr_deferred p) (pr_goroutines p ++ [g]) (pr_notified p) (pr_filter p)
    (pr_limiter p) (pr_log p) (pr_file p) (pr_told p).
Definition set_notified (b : bool) (p : Process) : Process :=
  mkProcess (pr_level p) (pr_lines p) (pr_deferred p) (pr_goroutines p) b (pr_filter p)
    (pr_limiter p) (pr_log p) (pr_file p) (pr_told p).
Definition tell (hss : list HttpServer) (p : Process) : Process :=
  mkProcess (pr_level p) (pr_lines p) (pr_deferred p) (pr_goroutines p) (pr_notified p) (pr_filter p)
    (pr_limiter p) (pr_log p) (pr_file p) (pr_told p ++ hss).
Definition hold (f : option Filter) (l : option Limiter) (a : option AccessLog) (p : Process) : Process :=
  mkProcess (pr_level p) (pr_lines p) (pr_deferred p) (pr_goroutines p) (pr_notified p) f l a (pr_file p) (pr_told p).
Definition set_file (file : option string) (p : Process) : Process :=
  mkProcess (pr_level p) (pr_lines p) (pr_deferred p) (pr_goroutines p) (pr_notified p) (pr_filter p)
    (pr_limiter p) (pr_log p) file (pr_told p).

Definition hold_filter (f : Filter) (p : Process) : Process := hold (Some f) (pr_limiter p) (pr_log p) p.
Definition hold_limiter (l : Limiter) (p : Process) : Process := hold (pr_filter p) (Some l) (pr_log p) p.
(** [accesslog.New] opened the log's file. *)
Definition hold_log (a : AccessLog) (p : Process) : Process :=
  set_file (al_file a) (hold (pr_filter p) (pr_limiter p) (Some a) p).

(** The components as requests, reloads and the dashboard leave them. *)
Definition hold_components (c : Components) (p : Process) : Process :=
  hold (Some (part c)) (Some (part c)) (Some (part c)) p.

Definition defer (d : deferred) : Process -> Process := set_deferred (cons d).

Definition slog (level : Z) (msg : string) (attrs : list (string * attr)) (p : Process) : Process :=
  if pr_level p <=? level then set_lines (fun ls => ls ++ [mkLine level msg attrs]) p else p.

(** [accesslog.ConfigureDefault] *)
Definition ConfigureDefault (cfg : LogConfig) (p : Process) : Process :=
  mkProcess (parseLevel (lg_Level cfg)) (pr_lines p) (pr_deferred p) (pr_goroutines p) (pr_notified p) (pr_filter p)
    (pr_limiter p) (pr_log p) (pr_file p) (pr_told p).

(** A deferred call acts on what its receiver has become. *)
Definition run_one (d : deferred) (p : Process) : Process :=
  match d with
  | StopNotify => set_notified false p
  | CloseFilter => hold (FilterClose <$> pr_filter p) (pr_limiter p) (pr_log p) p
  | StopLimiter => hold (pr_filter p) (RateStage.Stop <$> pr_limiter p) (pr_log p) p
  | CloseLog => match pr_log p ≫= AccessLog.Close with Some _ => set_file None p | None => p end
  | CancelDrain => p
  end.

Definition run_deferred (p : Process) : Process := set_deferred (fun _ => []) (foldl (fun p d => run_one d p) p (pr_deferred p)).

(** *** Code that runs in the process *)

Definition Proc (A : Type) : Type := Process -> ending A * Process.

Definition proc_ret {A} (a : A) : Proc A := fun p => (Returned (Ok a), p).
Definition proc_bind {A B} (m : Proc A) (k : A -> Proc B) : Proc B := fun p =>
  match m p with
  | (Returned (Ok a), p) => k a p
  | (Returned (Err e), p) => (Returned (Err e), p)
  | (Panicked what, p) => (Panicked what, p)
  end.
Definition proc_do {B} (f : Process -> Process) (m : Proc B) : Proc B := fun p => m (f p).
Definition try {A} (r : result A) : Proc A := fun p => (Returned r, p).
Definition proc_panic {A} (what : string) : Proc A := fun p => (Panicked what, p).

#[local] Notation "'do' x <- m ; k" := (proc_bind m (fun x => k)) (at level 10, x name, m at level 100, k at level 200).
#[local] Notation "'run_' f ; k" := (proc_do f k) (at level 10, f at level 100, k at level 200).

(** ** [watchForReload]

    One turn of its loop, for a SIGHUP; the end of the context ends the loop. *)
Definition watchForReload `{Files} (configPath : string) (c : Components) (p : Process) : Components * Process :=
  let '(r, c) := reloadOnce configPath c in
  let p := hold_components c p in
  match r with
  | Err e => (c, slog LevelError "config reload failed, keeping previous state" [("error", AttrError e)] p)
  | Ok _ => (c, slog LevelInfo "config reloaded" [] p)
  end.

(** ** Starting up *)

Context `{Files}.

Record Running := mkRunning {
  ru_components : Components;
  ru_handler : Handler Components;
  ru_server : Server.Server;
  ru_metricsSrv : option HttpServer;
  ru_admin : option Admin.Server;
  ru_adminSrv : option HttpServer
}.

Definition engine_of (cfg : WAFConfig) : result (option Engine) :=
  if wc_Enabled cfg then let! e := NewEngine cfg in Ok (Some e) else Ok None.

(** The mux of the metrics listener panics on a path that is no pattern. *)
Definition metrics_listener (cfg : MetricsConfig) (m : Metrics) : Proc (option HttpServer) :=
  if mc_Enabled cfg then
    if pattern_ok (Metrics.Path m) then
      run_ spawn ServeMetrics;
      proc_ret (Some (mkHttpServer (mc_Address cfg) None))
    else proc_panic "http: parsing pattern"
  else proc_ret None.

Definition admin_of (cfg : Config) (version : string) (now : Z) (d : Disk) (f : Filter) (e : option Engine)
    : result (option Admin.Server * Filter * option Engine) :=
  if ac_Enabled (c_Admin cfg) then
    let info := mkInfo version (lc_Address <$> c_Listen cfg) (uc_Addresses (c_Upstreams cfg)) in
    let! res := Admin.New (c_Admin cfg) info now d f e in
    let '(s, f, e) := res in Ok (Some s, f, e)
  else Ok (None, f, e).

Definition admin_listener (cfg : AdminConfig) (adm : option Admin.Server) : Proc (option HttpServer) :=
  match adm with
  | Some _ => run_ spawn ServeAdmin; proc_ret (Some (mkHttpServer (ac_Address cfg) None))
  | None => proc_ret None
  end.

(** [run] up to its final select. *)
Definition start (version commit : string) (cfg : Config) (now : Z) (d : Disk) : Proc Running :=
  run_ slog LevelInfo "starting go-firewall" [("version", AttrString version); ("commit", AttrString commit)];
  run_ set_notified true;
  run_ defer StopNotify;
  do p <- try (Proxy.New (c_Upstreams cfg));
  do f <- try (NewFilter (c_IPLists cfg));
  run_ hold_filter f;
  run_ defer CloseFilter;
  let l := RateStage.New (c_RateLimit cfg) in
  run_ hold_limiter l;
  run_ defer StopLimiter;
  do a <- try (AccessLog.New (c_Log cfg));
  run_ hold_log a;
  run_ defer CloseLog;
  let m := Metrics.New (mc_Path (c_Metrics cfg)) in
  do trusted <- try (NewMatcher (cc_TrustedProxies (c_ClientIP cfg)));
  do e <- try (engine_of (c_WAF cfg));
  run_ spawn WatchForReload;
  let handler := pipeline trusted e in
  do srv <- try (Server.New (c_Listen cfg));
  do metricsSrv <- metrics_listener (c_Metrics cfg) m;
  do res <- try (admin_of cfg version now d f e);
  let '(adm, f, e) := res in
  run_ hold_filter f;
  do adminSrv <- admin_listener (c_Admin cfg) adm;
  run_ spawn StartServer;
  run_ spawn LogReady;
  proc_ret (mkRunning (f, (l, (e, (a, (m, (p, d)))))) handler srv metricsSrv adm adminSrv).

(** ** Running

    What happens while [run] waits: requests, dashboard edits and the disk move
    the components; a SIGHUP; the public listeners are bound; the listener of
    the metrics or of the dashboard ends; and the two events it selects. *)
Inductive run_event : Type :=
  | Moved (c : Components)
  | Sighup (fs : Files)
  | BecameReady
  | MetricsEnded (e : serve_end)
  | AdminEnded (e : serve_end)
  | Signalled (drain : HttpServer -> result unit)
  | ServerEnded (r : result unit).

(** The goroutine of the metrics or of the dashboard's listener. *)
Definition side_ended (msg : string) (srv : option HttpServer) (e : serve_end) (p : Process) : Process :=
  match srv, e with
  | Some _, ServeFailed err => slog LevelError msg [("error", AttrError err)] p
  | _, _ => p
  end.

(** A signal drains the public listeners, then the two others. *)
Definition shutdown (timeout : Z) (ru : Running) (drain : HttpServer -> result unit) (p : Process) : Process :=
  let p := slog LevelInfo "shutdown signal received, draining connections" [("timeout", AttrInt timeout)] p in
  let p := defer CancelDrain p in
  let '(r, told) := Server.Shutdown drain (ru_server ru) in
  let p := tell told p in
  let p := match r with
           | Err e => slog LevelWarn "shutdown did not complete cleanly" [("error", AttrError e)] p
           | Ok _ => p
           end in
  let p := tell (option_list (ru_metricsSrv ru)) p in
  tell (option_list (ru_adminSrv ru)) p.

(** The final select, over the events so far; [None] is still waiting. *)
Fixpoint wait (configPath : string) (timeout : Z) (ru : Running) (evs : list run_event) (c : Components) (p : Process)
    : option (result unit) * Process :=
  match evs with
  | [] => (None, p)
  | ev :: evs' =>
      match ev with
      | Moved c => wait configPath timeout ru evs' c (hold_components c p)
      | Sighup fs =>
          let '(c, p) := watchForReload configPath c p in
          wait configPath timeout ru evs' c p
      | BecameReady =>
          let addrs := (bind_all (servers (ru_server ru)) []).2 in
          wait configPath timeout ru evs' c (slog LevelInfo "listening" [("addrs", AttrStrings addrs)] p)
      | MetricsEnded e =>
          wait configPath timeout ru evs' c (side_ended "metrics server exited unexpectedly" (ru_metricsSrv ru) e p)
      | AdminEnded e =>
          wait configPath timeout ru evs' c (side_ended "admin server exited unexpectedly" (ru_adminSrv ru) e p)
      | Signalled drain => (Some (Ok tt), shutdown timeout ru drain p)
      | ServerEnded r => (Some r, p)
      end
  end.

(** [run]: how it ends, if it does, after its deferred calls. *)
Definition run (configPath version commit : string) (cfg : Config) (now : Z) (d : Disk) (evs : list run_event)
    (p : Process) : option (ending unit) * Process :=
  match start version commit cfg now d p with
  | (Returned (Ok ru), p) =>
      match wait configPath (sc_DrainTimeout (c_Shutdown cfg)) ru evs (ru_components ru) p with
      | (Some r, p) => (Some (Returned r), run_deferred p)
      | (None, p) => (None, p)
      end
  | (Returned (Err e), p) => (Some (Returned (Err e)), run_deferred p)
  | (Panicked what, p) => (Some (Panicked what), run_deferred p)
  end.

(** [main]: the exit status, once there is one.  The runtime exits with 2 on a
    panic. *)
Definition main (configPath version commit : string) (now : Z) (d : Disk) (evs : list run_event) (p : Process)
    : option Z * Process :=
  match Load configPath with
  | Err e => (Some 1, slog LevelError "failed to load config" [("error", AttrError e)] p)
  | Ok cfg =>
      match run configPath version commit cfg now d evs (ConfigureDefault (c_Log cfg) p) with
      | (None, p) => (None, p)
      | (Some (Returned (Ok _)), p) => (Some 0, p)
      | (Some (Returned (Err e)), p) =>
          (Some 1, slog LevelError "go-firewall exited with error" [("error", AttrError e)] p)
      | (Some (Panicked _), p) => (Some 2, p)
      end
  end.

End Main.
