(* ===== verification/Pipeline.v ===== *)
(** * A request through the whole pipeline

    The four outer stages around any handler; the decision of the three inner
    ones; and the end of a request in each case: what the client is sent, what
    the access log and the collectors show, what of the state has changed. *)
From S2P Require Import Prelude GoStrings Netip Netmatch Config Http Middleware ClientIP Geoip IPFilter RateLimit.
From S2P Require Import RateStage Waf WafProofs AccessLog Metrics Proxy ProxyFrame Admin Server Main.

(** ** The outer stages *)

Section Outer.
Context `{IPSetLib} {C : Type} `{!Part AccessLog C} `{!Part Metrics C}.
Context `{!PartLaws Metrics C} `{!PartLaws AccessLog C} `{!PartIndep Metrics AccessLog C}.
Implicit Types w : World C.

Definition outer (trusted : Matcher) (next : Handler C) : Handler C :=
  AttachRecorder (ResolveClientIP (Some trusted) (AccessMiddleware (MetricsMiddleware next))).

(** The world the inner stages start from. *)
Definition entry_world (trusted : Matcher) (r : Request) w : World C :=
  let '(id, w) := newRequestID w in
  mkWorld (recorders w ++ [SetClientIP (resolveClientIP r (Some trusted)) (NewRecorder id)])
    (statuses w ++ [mkStatusRecorder StatusOK 0 false])
    (Conn_SetHeader (conn w) "X-Request-ID" id) (clock w) (entropy w)
    (set_part (record [ActiveInc] (part (comp w))) (comp w)).

Definition entry_request (r : Request) w : Request := WithRecorder r (length (recorders w)).
Definition entry_writer (rw : ResponseWriter) w : ResponseWriter := RecorderWriter (length (statuses w)) rw.

(** What the outer stages add when the inner ones are done. *)
Definition log_entry (r : Request) w w1 (rec : Recorder) (sr : StatusRecorder) : Entry :=
  make_entry (clock w) (clock w1 - clock w) (entry_request r w) (Snapshot_of rec) sr (newRequestID w).1.

Definition leave (a : AccessLog) (m : Metrics) w : World C := upd_comp (fun c => set_part a (set_part m c)) w.

Lemma entry_recorder trusted r w :
  RecorderFrom (entry_request r w) (entry_world trusted r w) =
  Some (length (recorders w), SetClientIP (resolveClientIP r (Some trusted)) (NewRecorder (newRequestID w).1)).
Proof. unfold RecorderFrom. cbn -[EncodeToString seq]. by rewrite lookup_app_r, Nat.sub_diag by lia. Qed.

Lemma entry_recorder_lookup trusted r w :
  recorders (entry_world trusted r w) !! length (recorders w) =
  Some (SetClientIP (resolveClientIP r (Some trusted)) (NewRecorder (newRequestID w).1)).
Proof. cbn -[EncodeToString seq]. by rewrite lookup_app_r, Nat.sub_diag by lia. Qed.

Lemma entry_status trusted r w :
  statuses (entry_world trusted r w) !! length (statuses w) = Some (mkStatusRecorder StatusOK 0 false).
Proof. cbn -[EncodeToString seq]. by rewrite lookup_app_r, Nat.sub_diag by lia. Qed.

Lemma entry_snapshot r w w1 rec :
  recorders w1 !! length (recorders w) = Some rec -> snapshot_of (entry_request r w) w1 = Snapshot_of rec.
Proof. intros Hr. unfold snapshot_of, RecorderFrom. cbn. by rewrite Hr. Qed.

Lemma alter_last {A} (f : A -> A) (l : list A) x : alter f (length l) (l ++ [x]) = l ++ [f x].
Proof. by rewrite <- (Nat.add_0_r (length l)), (alter_app_r f l [x] 0). Qed.

(** The log after a request whose handler ended in [w1]. *)
Definition logged (r : Request) w w1 (rec : Recorder) (sr : StatusRecorder) (a : AccessLog) : Prop :=
  if panicking w1 then a = part (comp w) else add_entry (log_entry r w w1 rec sr) (part (comp w)) = Some a.

Lemma logged_wf r w w1 rec sr a : access_wf (part (comp w)) -> logged r w w1 rec sr a -> access_wf a.
Proof. unfold logged. destruct (panicking w1); [by intros ? ->|]. apply add_entry_keeps. Qed.

(** The outer stages around a handler that leaves the log and the collectors
    alone. *)
Lemma outer_run trusted (next : Handler C) rw r w rec sr :
  let w1 := next (entry_writer rw w) (entry_request r w) (entry_world trusted r w) in
  access_wf (part (comp w)) ->
  (part (comp w1) : Metrics) = part (comp (entry_world trusted r w)) ->
  (part (comp w1) : AccessLog) = part (comp (entry_world trusted r w)) ->
  recorders w1 !! length (recorders w) = Some rec -> statuses w1 !! length (statuses w) = Some sr ->
  exists a, logged r w w1 rec sr a /\
    outer trusted next rw r w = leave a (record (calls_of (entry_request r w) (clock w) w1) (part (comp w))) w1.
Proof.
  intros w1 Hwf Hm Ha Hrec Hsr.
  assert (exists a, logged r w w1 rec sr a) as [a Hadd].
  { unfold logged. destruct (panicking w1); [by eexists|].
    destruct (add_entry_wf (log_entry r w w1 rec sr) _ Hwf) as (a & Hadd & _). by exists a. }
  exists a. split; [done|].
  unfold outer, AttachRecorder. destruct (newRequestID w) as [rid w'] eqn:Eid.
  assert (w' = mkWorld (recorders w) (statuses w) (conn w) (clock w) (entropy w') (comp w) /\ rid = (newRequestID w).1) as [Hw' Hid].
  { unfold newRequestID in *. cbn in *. by injection Eid as <- <-. }
  unfold ResolveClientIP. unfold RecorderFrom at 1. cbn [r_recorder WithRecorder mbind option_bind recorders upd_recorders].
  rewrite Hw'. cbn [recorders]. rewrite lookup_app_r, Nat.sub_diag by lia. cbn [lookup list_lookup mbind option_bind].
  unfold AccessMiddleware.
  unfold RecorderFrom at 1. unfold at_recorder, upd_recorders. cbn [r_recorder WithRecorder mbind option_bind recorders].
  rewrite !alter_last.
  rewrite lookup_app_r, Nat.sub_diag by lia. cbn [lookup list_lookup mbind option_bind].
  cbn [requestID SetClientIP NewRecorder WrapStatusRecorder statuses SetHeader upd_conn upd_statuses].
  match goal with |- context [MetricsMiddleware next ?rw' ?r' ?w'] => set (w2 := w') end.
  assert (add_calls [ActiveInc] w2 = entry_world trusted r w) as Hentry.
  { unfold entry_world. rewrite Eid, Hw'. reflexivity. }
  rewrite MetricsMiddleware_run; fold (entry_writer rw w); fold (entry_request r w); rewrite Hentry; fold w1.
  2: { rewrite Hm. unfold entry_world. rewrite Eid, Hw'. cbn. by rewrite part_set. }
  assert (forall g, snapshot_of (entry_request r w) (upd_comp g w1) = Snapshot_of rec) as Hsnap
    by (intros g; by apply entry_snapshot).
  change (clock w2) with (clock w). change (panicking (upd_comp _ w1)) with (panicking w1).
  unfold logged in Hadd. destruct (panicking w1) eqn:Hp.
  { subst a. unfold leave, upd_comp. f_equal. set (m := record _ _).
    assert ((part (comp w) : AccessLog) = part (set_part m (comp w1))) as ->; [|by rewrite set_part_part].
    rewrite (part_other (X := Metrics) (Y := AccessLog)), Ha. unfold entry_world. rewrite Eid, Hw'. cbn [comp].
    by rewrite (part_other (X := Metrics) (Y := AccessLog)). }
  rewrite Hsnap. cbn [statuses upd_comp comp clock]. rewrite Hsr. cbn [default from_option id].
  rewrite (part_other (X := Metrics) (Y := AccessLog)), Ha.
  unfold entry_world. rewrite Eid, Hw'. cbn [comp]. rewrite (part_other (X := Metrics) (Y := AccessLog)).
  unfold log_entry in Hadd. rewrite Eid in Hadd. cbn [fst] in Hadd. rewrite Hadd.
  reflexivity.
Qed.

End Outer.

(** ** The inner stages *)

Section Inner.
Context `{IPSetLib} `{MaxMindLib} `{UnicodeTables} `{RegexpLib} `{MapOrder} `{RateLib} `{Transport}.
Implicit Types w : World Components.

(** What the firewall decides about a request: to answer it itself, or to hand
    it to the proxy; with the limiter as the request leaves it. *)
Inductive verdict : Type :=
  | Refuse (reason : string) (status : Z) (rule : option Rule) (l : Limiter)
  | Forward (q : Request) (l : Limiter).

(** One token from the bucket of the address, when limiting is on. *)
Definition take_token (l : Limiter) (path : string) (ip : Addr) (now : Z) : bool * Limiter :=
  if ls_enabled (lm_state l) then default (false, l) (limiter_allow l path ip now) else (true, l).

Definition judge (waf : option Engine) (c : Components) (ip : Addr) (q : Request) (now : Z) : verdict :=
  let l : Limiter := part c in
  if negb (IsValid ip) then Refuse BlockReasonIPDeny StatusForbidden None l
  else
    let '(ok, reason) := Allowed (part c) ip in
    if negb ok then Refuse reason StatusForbidden None l
    else
      let '(ok, l) := take_token l (r_path q) ip now in
      if negb ok then Refuse BlockReasonRateLimit StatusTooManyRequests None l
      else
        match waf with
        | None => Forward q l
        | Some e0 =>
            match Inspect (default e0 (part c)) q with
            | (Ok (Some rule), _) => Refuse BlockReasonWAF StatusForbidden (Some rule) l
            | (_, q) => Forward q l
            end
        end.

Definition inner (waf : option Engine) : Handler Components :=
  FilterMiddleware part (LimiterMiddleware (Chain serveHTTP (waf_stage waf))).

Lemma pipeline_outer trusted waf : pipeline trusted waf = outer trusted (inner waf).
Proof. unfold pipeline, inner. rewrite !Chain_foldr. by destruct waf. Qed.

Definition mark (loc : nat) (reason : string) (rule : option Rule) w : World Components :=
  let w := at_recorder loc (SetBlocked reason) w in
  match rule with Some ru => at_recorder loc (SetWAFMatch (ru_ID ru) (ru_Category ru)) w | None => w end.

Lemma upd_comp_id w (l : Limiter) : l = part (comp w) -> upd_comp (set_part l) w = w.
Proof. intros ->. destruct w as [rs ss cn ck en [f [l [e [a [m [p d]]]]]]]. done. Qed.

Lemma Inspect_recorder e q res q' : Inspect e q = (res, q') -> r_recorder q' = r_recorder q.
Proof. unfold Inspect, captureBodyPrefix. intros Ei. repeat case_match; by simplify_eq/=. Qed.

(** The inner stages carry out the verdict. *)
Lemma inner_run waf rw q w loc rec :
  limiter_wf (part (comp w)) -> RecorderFrom q w = Some (loc, rec) ->
  inner waf rw q w =
  match judge waf (comp w) (clientIP rec) q (clock w) with
  | Refuse reason status rule l => WriteHeader rw status (mark loc reason rule (upd_comp (set_part l) w))
  | Forward q' l => serveHTTP rw q' (upd_comp (set_part l) w)
  end.
Proof.
  intros Hl Hr. unfold inner, FilterMiddleware. rewrite Hr. unfold judge.
  destruct (IsValid (clientIP rec)) eqn:Hv; cbn [negb]; [|by rewrite upd_comp_id].
  destruct (Allowed (part (comp w)) (clientIP rec)) as [[] reason]; cbn [negb]; [|by rewrite upd_comp_id].
  unfold LimiterMiddleware, take_token. rewrite Hr, Hv. cbn [negb].
  assert (forall l : Limiter, Chain serveHTTP (waf_stage waf) rw q (upd_comp (set_part l) w) =
    match waf with
    | None => serveHTTP rw q (upd_comp (set_part l) w)
    | Some e0 =>
        match Inspect (default e0 (part (comp w))) q with
        | (Ok (Some rule), _) => WriteHeader rw StatusForbidden (mark loc BlockReasonWAF (Some rule) (upd_comp (set_part l) w))
        | (_, q) => serveHTTP rw q (upd_comp (set_part l) w)
        end
    end) as Hwaf.
  { intros l. rewrite Chain_foldr. destruct waf as [e0|]; [|done]. cbn -[Inspect serveHTTP]. unfold WafMiddleware.
    cbn -[Inspect serveHTTP WriteHeader]. destruct (Inspect _ q) as [[[rule|]|err] q'] eqn:Ei; try done.
    pose proof (Inspect_recorder _ _ _ _ Ei) as Hq.
    assert (RecorderFrom q' (upd_comp (set_part l) w) = Some (loc, rec)) as Hr'
      by (unfold RecorderFrom in *; rewrite Hq; exact Hr).
    unfold RecorderFrom in Hr'. cbn in Hr' |- *. unfold RecorderFrom. cbn. by rewrite Hr'. }
  destruct (ls_enabled (lm_state (part (comp w)))) eqn:Hen; cbn [negb].
  - destruct (limiter_allow_spec _ (r_path q) (clientIP rec) (clock w) Hl Hen) as (ok & l' & Ha & _ & _).
    rewrite Ha. cbn [default from_option]. destruct ok; cbn [negb]; [|done]. rewrite Hwaf.
    destruct waf as [e0|]; [|done]. by destruct (Inspect _ q) as [[[rule|]|err] q'].
  - rewrite <- (upd_comp_id w (part (comp w)) eq_refl) at 1. rewrite Hwaf.
    destruct waf as [e0|]; [|done]. by destruct (Inspect _ q) as [[[rule|]|err] q'].
Qed.

(** ** How a request ends *)

Lemma judge_refuses waf c ip q now reason status rule l :
  judge waf c ip q now = Refuse reason status rule l -> reason <> "" /\ informational status = false.
Proof.
  unfold judge. destruct (negb (IsValid ip)); [by intros [= <- <- _ _]|].
  destruct (Allowed (part c) ip) as [ok reason0] eqn:Ea.
  assert (ok = false -> reason0 <> "") as Hreason.
  { unfold Allowed, geo_Allowed in Ea. intros ->. repeat case_match; by simplify_eq. }
  destruct ok; cbn [negb]; [|by intros [= <- <- _ _]; split; [apply Hreason|]].
  destruct (take_token _ _ _ _) as [[] l0]; cbn [negb]; [|by intros [= <- <- _ _]].
  destruct waf as [e0|]; [|done]. destruct (Inspect _ q) as [[[ru|]|err] q']; [|done..]. by intros [= <- <- _ _].
Qed.

(** The verdict depends on the filter, the limiter and the engine only. *)
Lemma judge_entry trusted waf r w ip q now :
  judge waf (comp (entry_world trusted r w)) ip q now = judge waf (comp w) ip q now.
Proof. destruct w as [rs ss cn ck en [f [l [e [a [m [p d]]]]]]]. done. Qed.

Definition final_recorder (reason : string) (rule : option Rule) (rec : Recorder) : Recorder :=
  let rec := SetBlocked reason rec in
  match rule with Some ru => SetWAFMatch (ru_ID ru) (ru_Category ru) rec | None => rec end.

Lemma mark_recorder loc reason rule w rec :
  recorders w !! loc = Some rec -> recorders (mark loc reason rule w) !! loc = Some (final_recorder reason rule rec).
Proof. intros Hl. unfold mark. destruct rule; cbn; by rewrite !list_lookup_alter_eq, Hl. Qed.

Lemma mark_frame loc reason rule w :
  comp (mark loc reason rule w) = comp w /\ statuses (mark loc reason rule w) = statuses w /\
  conn (mark loc reason rule w) = conn w.
Proof. unfold mark. by destruct rule. Qed.

Definition refused_entry (reason : string) (status : Z) (rule : option Rule) (e : Entry) : Prop :=
  e_Outcome e = OutcomeBlocked /\ e_BlockReason e = reason /\ e_StatusCode e = status /\
  e_WAFRuleID e = match rule with Some ru => ru_ID ru | None => 0 end /\ e_ResponseBytes e = 0.

(** No response yet: the state the server calls the handler in. *)
Definition unanswered w : Prop := c_wroteHeader (conn w) = false /\ panicking w = false.

(** The pipeline on a request that is refused: the world the inner stages leave,
    and what the outer ones add to it. *)
Lemma refused_run trusted waf r w reason status rule l :
  access_wf (part (comp w)) -> limiter_wf (part (comp w)) ->
  judge waf (comp w) (resolveClientIP r (Some trusted)) (entry_request r w) (clock w) = Refuse reason status rule l ->
  let rec := final_recorder reason rule (SetClientIP (resolveClientIP r (Some trusted)) (NewRecorder (newRequestID w).1)) in
  exists a w1,
    comp w1 = set_part l (comp (entry_world trusted r w)) /\
    conn w1 = Conn_WriteHeader (conn (entry_world trusted r w)) status /\
    snapshot_of (entry_request r w) w1 = Snapshot_of rec /\ snapshot_wf (Snapshot_of rec) /\
    logged r w w1 rec (mkStatusRecorder status 0 true) a /\
    pipeline trusted waf ConnWriter r w =
      leave a (record (calls_of (entry_request r w) (clock w) w1) (part (comp w))) w1.
Proof.
  intros Ha Hl Hj rec. destruct (judge_refuses _ _ _ _ _ _ _ _ _ Hj) as [Hreason Hinf].
  rewrite pipeline_outer. set (w0 := entry_world trusted r w). set (rw := entry_writer ConnWriter w).
  set (rec0 := SetClientIP (resolveClientIP r (Some trusted)) (NewRecorder (newRequestID w).1)) in *.
  set (w1 := inner waf rw (entry_request r w) w0).
  assert (w1 = WriteHeader rw status (mark (length (recorders w)) reason rule (upd_comp (set_part l) w0))) as Hw1.
  { unfold w1. rewrite (inner_run waf rw (entry_request r w) w0 (length (recorders w)) rec0); [|exact Hl|apply entry_recorder].
    unfold w0 at 1. rewrite judge_entry. change (clock w0) with (clock w). unfold rec0. cbn [clientIP SetClientIP]. by rewrite Hj. }
  set (w2 := mark (length (recorders w)) reason rule (upd_comp (set_part l) w0)) in Hw1.
  destruct (mark_frame (length (recorders w)) reason rule (upd_comp (set_part l) w0)) as (Hc2 & Hs2 & Hn2). fold w2 in Hc2, Hs2, Hn2.
  assert (comp w1 = set_part l (comp w0)) as Hcomp by (rewrite Hw1, comp_WriteHeader, Hc2; done).
  assert (recorders w1 !! length (recorders w) = Some rec) as Hrec.
  { rewrite Hw1, recorders_WriteHeader. apply mark_recorder. exact (entry_recorder_lookup trusted r w). }
  assert (statuses w1 !! length (statuses w) = Some (mkStatusRecorder status 0 true)) as Hst.
  { rewrite Hw1. change (alter (sr_note_header status) (length (statuses w)) (statuses w2) !! length (statuses w) =
      Some (sr_note_header status (mkStatusRecorder StatusOK 0 false))).
    rewrite Hs2, list_lookup_alter_eq. change (statuses (upd_comp (set_part l) w0)) with (statuses w0).
    unfold w0. by rewrite entry_status. }
  assert ((part (comp w1) : Metrics) = part (comp w0)) as HM by (by rewrite Hcomp).
  assert ((part (comp w1) : AccessLog) = part (comp w0)) as HA by (by rewrite Hcomp).
  destruct (outer_run trusted (inner waf) ConnWriter r w _ _ Ha HM HA Hrec Hst) as (a & Hadd & Hrun).
  exists a, w1. split_and!; [done| |by apply entry_snapshot|right; split; by destruct rule|done|done].
  rewrite Hw1. change (Conn_WriteHeader (conn w2) status = Conn_WriteHeader (conn w0) status). by rewrite Hn2.
Qed.

(** C1. A request the firewall refuses goes no further.  The client gets the
    stage's status and no body; the filter, the rules, the proxy and the disk
    are untouched, so nothing reaches an upstream; only a token may be gone from
    the limiter.  The newest entry of the access log is blocked with the stage's
    reason, the status sent and the rule that matched, and the collectors show
    one more request, blocked. *)
Theorem refused_request trusted waf r w reason status rule l :
  access_wf (part (comp w)) -> limiter_wf (part (comp w)) -> unanswered w ->
  judge waf (comp w) (resolveClientIP r (Some trusted)) (entry_request r w) (clock w) = Refuse reason status rule l ->
  let w' := pipeline trusted waf ConnWriter r w in
  (c_status (conn w') = status /\ c_body (conn w') = c_body (conn w)) /\
  ((part (comp w') : Filter) = part (comp w) /\ (part (comp w') : option Engine) = part (comp w) /\
   (part (comp w') : Proxy) = part (comp w) /\ (part (comp w') : Disk) = part (comp w) /\
   (part (comp w') : Limiter) = l) /\
  (exists e, Recent 1 "" "" (part (comp w')) = Some [e] /\ refused_entry reason status rule e) /\
  counter_sum requestsTotal (part (comp w')) = counter_sum requestsTotal (part (comp w)) + 1 /\
  counter_sum blockedTotal (part (comp w')) = counter_sum blockedTotal (part (comp w)) + 1.
Proof.
  intros Ha Hl [Hconn Hnp] Hj. cbn zeta. destruct (judge_refuses _ _ _ _ _ _ _ _ _ Hj) as [_ Hinf].
  destruct (refused_run trusted waf r w reason status rule l Ha Hl Hj) as (a & w1 & Hcomp & Hn & Hsnap & Hwf & Hadd & ->).
  set (rec := final_recorder _ _ _) in *.
  assert (panicking w1 = false) as Hnp1 by (unfold panicking in *; by rewrite Hn, Conn_WriteHeader_aborted).
  unfold logged in Hadd. unfold calls_of. rewrite Hnp1 in *. rewrite Hsnap.
  destruct (request_trace_tallies (Snapshot_of rec) (Seconds (clock w1 - clock w)) (part (comp w))) as (_ & _ & _ & Hreq & Hblk & _);
    [done|].
  split; [|split; [|split; [|split]]].
  - change (conn (leave a _ w1)) with (conn w1). rewrite Hn. unfold Conn_WriteHeader. cbn. by rewrite Hconn, Hinf.
  - cbn -[record]. rewrite Hcomp. done.
  - destruct Ha as [history Hh]. exists (log_entry r w w1 rec (mkStatusRecorder status 0 true)).
    split; [exact (add_entry_recent _ _ _ history Hh Hadd)|]. split_and!; try done; by destruct rule.
  - exact Hreq.
  - cbn. etrans; [exact Hblk|]. f_equal. by destruct rule.
Qed.

(** What a forwarded request may have lost: the body, to an engine that could
    not read it as far as its limit and lets the request pass. *)
Definition forwarded_as (waf : option Engine) (c : Components) (q q' : Request) : Prop :=
  q' = q \/
  exists e0, waf = Some e0 /\ body_unreadable (default e0 (part c)) q /\ q' = with_body q (BodyReader (mkReader [] true)).

Lemma judge_forwards waf c ip q now q' l :
  judge waf c ip q now = Forward q' l -> forwarded_as waf c q q'.
Proof.
  unfold judge. destruct (negb _); [done|]. destruct (Allowed _ _) as [[] reason]; cbn [negb]; [|done].
  destruct (take_token _ _ _ _) as [[] l0]; cbn [negb]; [|done].
  destruct waf as [e0|]; [|intros [= <- _]; by left].
  destruct (Inspect _ q) as [res q1] eqn:Ei. apply Inspect_request in Ei.
  destruct res as [[rule|]|err]; [done| |]; (intros [= <- _]; destruct Ei as [->|(_ & Hu & ->)]; [by left|right; by exists e0]).
Qed.

(** The pipeline on a request that is forwarded. *)
Lemma forwarded_run trusted waf r w q l :
  access_wf (part (comp w)) -> limiter_wf (part (comp w)) -> px_upstreams (part (comp w)) <> [] ->
  judge waf (comp w) (resolveClientIP r (Some trusted)) (entry_request r w) (clock w) = Forward q l ->
  let w0 := upd_comp (set_part l) (entry_world trusted r w) in
  let w1 := serveHTTP (entry_writer ConnWriter w) q w0 in
  exists a rec sr (p : Proxy),
    (recorders w1 !! length (recorders w) = Some rec /\
       snapshot_of (entry_request r w) w1 = Snapshot_of rec /\ recorder_wf rec) /\
    clientIP rec = resolveClientIP r (Some trusted) /\ statuses w1 !! length (statuses w) = Some sr /\
    (comp w1 = set_part p (comp w0) /\ px_upstreams p <> []) /\
    logged r w w1 rec sr a /\
    pipeline trusted waf ConnWriter r w =
      leave a (record (calls_of (entry_request r w) (clock w) w1) (part (comp w))) w1.
Proof.
  intros Ha Hl Hp Hj. cbn zeta.
  set (w0 := entry_world trusted r w). set (w0' := upd_comp (set_part l) w0). set (rw := entry_writer ConnWriter w).
  set (w1 := serveHTTP rw q w0').
  set (rec := SetClientIP (resolveClientIP r (Some trusted)) (NewRecorder (newRequestID w).1)).
  assert (inner waf rw (entry_request r w) w0 = w1) as Hinner.
  { rewrite (inner_run waf rw (entry_request r w) w0 (length (recorders w)) rec); [|exact Hl|apply entry_recorder].
    unfold w0 at 1. rewrite judge_entry. change (clock w0) with (clock w). unfold rec. cbn [clientIP SetClientIP]. by rewrite Hj. }
  assert ((part (comp w0') : Proxy) = part (comp w)) as HP by reflexivity. rewrite <- HP in Hp.
  destruct (serveHTTP_serves rw q w0' Hp) as [[Hev Hlen] (p & Hcomp & Hplen)]. fold w1 in Hev, Hlen, Hcomp.
  pose proof (Forall2_lookup_l _ _ _ _ _ Hev (entry_recorder_lookup trusted r w)) as (rec1 & Hrec & Hip & _ & Hwf).
  specialize (Hwf (or_introl (conj eq_refl eq_refl))).
  destruct (lookup_lt_is_Some_2 (statuses w1) (length (statuses w))) as [sr Hsr].
  { rewrite Hlen. change (statuses w0') with (statuses w0). by eapply lookup_lt_Some, entry_status. }
  rewrite pipeline_outer. rewrite <- Hinner in Hrec, Hsr.
  assert ((part (comp (inner waf rw (entry_request r w) w0)) : Metrics) = part (comp w0)) as HM by (by rewrite Hinner, Hcomp).
  assert ((part (comp (inner waf rw (entry_request r w) w0)) : AccessLog) = part (comp w0)) as HA by (by rewrite Hinner, Hcomp).
  destruct (outer_run trusted (inner waf) ConnWriter r w _ _ Ha HM HA Hrec Hsr) as (a & Hadd & Hrun).
  fold w0 rw in Hadd, Hrun. rewrite Hrun, Hinner. rewrite Hinner in Hrec, Hsr, Hadd.
  exists a, rec1, sr, p. split_and!; try done; [by apply entry_snapshot|]. intros Hnil. apply Hp, nil_length_inv. by rewrite <- Hplen, Hnil.
Qed.

(** C2. A request that passes every stage is handed to the proxy, once: the
    request is the client's, body included, with the recorder attached, unless
    the engine could not read its body as far as the limit and let it pass: then
    all of the body but its failure is gone; the writer is the status recorder
    around the connection, and the components are those that were there, less
    the limiter's token.  What the proxy sends is what the
    client gets.  When the proxy returns, the newest entry of the access log,
    and the collectors, show the outcome its recorder ended with and the status
    written; when it panics, on a response cut short, the request is neither
    logged nor counted. *)
Theorem forwarded_request trusted waf r w q l :
  access_wf (part (comp w)) -> limiter_wf (part (comp w)) -> px_upstreams (part (comp w)) <> [] ->
  judge waf (comp w) (resolveClientIP r (Some trusted)) (entry_request r w) (clock w) = Forward q l ->
  let w0 := upd_comp (set_part l) (entry_world trusted r w) in
  let w1 := serveHTTP (entry_writer ConnWriter w) q w0 in
  let w' := pipeline trusted waf ConnWriter r w in
  forwarded_as waf (comp w) (entry_request r w) q /\
  ((part (comp w0) : Proxy) = part (comp w) /\ clock w0 = clock w /\
   conn w0 = Conn_SetHeader (conn w) "X-Request-ID" (newRequestID w).1) /\
  (conn w' = conn w1 /\ (part (comp w') : Proxy) = part (comp w1)) /\
  ((part (comp w') : Filter) = part (comp w) /\ (part (comp w') : option Engine) = part (comp w) /\
   (part (comp w') : Disk) = part (comp w) /\ (part (comp w') : Limiter) = l) /\
  exists rec sr,
    recorders w1 !! length (recorders w) = Some rec /\ recorder_wf rec /\
    clientIP rec = resolveClientIP r (Some trusted) /\ statuses w1 !! length (statuses w) = Some sr /\
    active (part (comp w')) = active (part (comp w)) /\
    if panicking w1 then
      (part (comp w') : AccessLog) = part (comp w) /\
      forall o, counter requestsTotal [o] (part (comp w')) = counter requestsTotal [o] (part (comp w))
    else
      (exists e, Recent 1 "" "" (part (comp w')) = Some [e] /\
         e_Outcome e = outcome rec /\ e_BlockReason e = blockReason rec /\ e_StatusCode e = Status sr) /\
      counter requestsTotal [outcome rec] (part (comp w')) = counter requestsTotal [outcome rec] (part (comp w)) + 1.
Proof.
  intros Ha Hl Hp Hj. cbn zeta. split; [by eapply judge_forwards|]. split; [done|].
  destruct (forwarded_run trusted waf r w q l Ha Hl Hp Hj) as (a & rec & sr & p & (Hrec & Hsnap & Hwf) & Hip & Hsr & [Hcomp _] & Hadd & ->).
  set (w1 := serveHTTP _ _ _) in *.
  split; [done|]. split; [cbn -[record]; rewrite Hcomp; done|].
  exists rec, sr. do 4 (split; [done|]). unfold logged in Hadd.
  set (m := record (calls_of _ _ _) _).
  assert ((part (comp (leave a m w1)) : Metrics) = m) as -> by done.
  assert ((part (comp (leave a m w1)) : AccessLog) = a) as -> by done. unfold m. clear m.
  destruct (panicking w1) eqn:Hpanic.
  { destruct (calls_of_panic (entry_request r w) (clock w) w1 (part (comp w)) Hpanic) as (Hact & Hreq & _). done. }
  unfold calls_of. rewrite Hpanic, Hsnap.
  destruct (request_trace_tallies (Snapshot_of rec) (Seconds (clock w1 - clock w)) (part (comp w)))
    as (Hact & Hreq & _); [by destruct Hwf; [left|right]|].
  split; [exact Hact|]. split.
  - destruct Ha as [history Hh]. exists (log_entry r w w1 rec sr).
    split; [exact (add_entry_recent _ _ _ history Hh Hadd)|done].
  - by rewrite Hreq, bool_decide_true.
Qed.

End Inner.
