(* ===== verification/System.v ===== *)
(** * The running program: starting, reloading, and what always holds

    When [start] succeeds; what a reload does and when it is partial; and an
    invariant of every state the program reaches, whatever requests, reloads,
    dashboard edits and disk faults it goes through. *)
From stdpp Require Import relations.
From S2P Require Import Prelude GoStrings Patterns Netip Netmatch Config Http Httputil Middleware ClientIP Geoip IPFilter.
From S2P Require Import IPFilterProofs RateLimit RateStage Waf AccessLog Metrics Proxy ProxyFrame Admin.
From S2P Require Import AdminProofs Dashboard Server Main Pipeline.

Section System.
Context `{IPSetLib} `{!IPSetSpec} `{MaxMindLib} `{UnicodeTables} `{RegexpLib} `{MapOrder} `{RateLib} `{Transport}.
Context `{!RulesYaml} `{ConfigEnv} `{ConfigYaml} `{!UrlParse} `{!AppendFiles} `{ServerLib}.
Context `{StateJson} `{!AdminEnv} `{!ApiJson} `{LetterTables}.
Implicit Types c : Components.

(** ** The invariant *)

Record system_ok (c : Components) : Prop := {
  so_dashboard : dashboard_ok (part c) (part c);
  so_geo : geo_exclusive (f_geo (part c)) (g_heap (part c));
  so_limiter : loops_ok (part c);
  so_log : access_wf (part c);
  so_metrics : metrics_agree (part c);
  so_proxy : px_upstreams (part c) <> []
}.

Lemma Load_valid `{Files} path cfg : Load path = Ok cfg -> config_valid cfg.
Proof.
  unfold Load. intros Hl. bind_ok Hl. bind_ok Hl. cbn zeta in Hl. bind_ok Hl. injection Hl as <-.
  apply Validate_valid. destruct (Validate _) as [[]|]; [done|]. discriminate.
Qed.

(** ** [reloadOnce] *)

(** The parts a reload never touches. *)
Definition same_rest (c c' : Components) : Prop :=
  (part c' : AccessLog) = part c /\ (part c' : Metrics) = part c /\ (part c' : Proxy) = part c /\
  (part c' : Disk) = part c.

Definition reloaded_engine `{Files} (cfg : Config) (e e' : option Engine) : Prop :=
  match e, e' with
  | None, None => True
  | Some e, Some e' => exists rs, LoadRuleSet (wc_RulesFile (c_WAF cfg)) = Ok rs /\
      e' = mkEngine rs (en_overrides e) (en_maxBodyBytes e) (en_defaultAction e)
  | _, _ => False
  end.

(** The parts after the reload of the filter and the limiter, whose lists are
    valid. *)
Lemma reloadOnce_run `{Files} path (f : Filter) (l : Limiter) (e : option Engine) rest aA aD :
  represents (f_allow f) aA -> represents (f_deny f) aD -> geo_exclusive (f_geo f) (g_heap f) ->
  match Load path with
  | Err err => reloadOnce path (f, (l, (e, rest))) = (Err (Errorw "load config: %w" [] err), (f, (l, (e, rest))))
  | Ok cfg =>
      (exists err, reloadOnce path (f, (l, (e, rest))) = (Err err, (f, (l, (e, rest)))) /\
         exists e0, e = Some e0 /\ is_ok (LoadRuleSet (wc_RulesFile (c_WAF cfg))) = false) \/
      exists e', reloaded_engine cfg e e' /\
        ((exists err, reloadOnce path (f, (l, (e, rest))) = (Err err, (f, (l, (e', rest)))) /\
            is_ok (buildGeoState (il_Geo (c_IPLists cfg)) (g_heap f)) = false) \/
         (exists f' heap, reloadOnce path (f, (l, (e, rest))) = (Ok tt, (f', (RateStage.Reload l (c_RateLimit cfg), (e', rest)))) /\
            represents (f_allow f') (mkLayers (il_Allow (c_IPLists cfg)) (l_overlay aA)) /\
            represents (f_deny f') (mkLayers (il_Deny (c_IPLists cfg)) (l_overlay aD)) /\
            geo_exclusive (f_geo f') (g_heap f') /\
            buildGeoState (il_Geo (c_IPLists cfg)) (g_heap f) = Ok (f_geo f', heap)))
  end.
Proof.
  intros HA HD Hg. unfold reloadOnce. destruct (Load path) as [cfg|err] eqn:Hl; [|done]. cbn [wrap_err].
  apply Load_valid in Hl as (_ & _ & _ & (HvA & HvD & _) & _).
  pose proof (Reload_valid (c_IPLists cfg) f aA aD HvA HvD HA HD Hg) as Hrel.
  destruct (IPFilter.Reload (c_IPLists cfg) f) as [r f'] eqn:Hr.
  cbn. destruct e as [e0|].
  - unfold EngineReload. destruct (LoadRuleSet (wc_RulesFile (c_WAF cfg))) as [rs|err] eqn:Ers; cbn.
    + right. exists (Some (mkEngine rs (en_overrides e0) (en_maxBodyBytes e0) (en_defaultAction e0))).
      split; [by exists rs|]. rewrite Hr. destruct r as [[]|err]; cbn; [right|left].
      * destruct Hrel as (HrA & HrD & Hrg & heap & Hb). by exists f', heap.
      * destruct Hrel as [-> Hb]. by eexists.
    + left. eexists. split; [done|]. by exists e0.
  - right. exists None. split; [done|]. rewrite Hr. destruct r as [[]|err]; cbn; [right|left].
    + destruct Hrel as (HrA & HrD & Hrg & heap & Hb). by exists f', heap.
    + destruct Hrel as [-> Hb]. by eexists.
Qed.

(** C20. What a reload does.  When it reports success, the file was a valid
    configuration, the lists have its bases under the dashboard's overlays, the
    geo state and the limiter are built from it, and the engine has the new
    rules with its overrides.  When it reports an error, the lists and the
    limiter are untouched, and so is the engine, unless the new geo database did
    not open: then the engine already has the new rules.  Logs, collectors,
    upstreams and the disk are never touched. *)
Theorem reload_outcome `{Files} path c aA aD :
  represents (f_allow (part c)) aA -> represents (f_deny (part c)) aD ->
  geo_exclusive (f_geo (part c)) (g_heap (part c)) ->
  let '(r, c') := reloadOnce path c in
  same_rest c c' /\
  (r = Ok tt -> exists cfg, Load path = Ok cfg /\
     represents (f_allow (part c')) (mkLayers (il_Allow (c_IPLists cfg)) (l_overlay aA)) /\
     represents (f_deny (part c')) (mkLayers (il_Deny (c_IPLists cfg)) (l_overlay aD)) /\
     (exists heap, buildGeoState (il_Geo (c_IPLists cfg)) (g_heap (part c)) = Ok (f_geo (part c'), heap)) /\
     (part c' : Limiter) = RateStage.Reload (part c) (c_RateLimit cfg) /\
     reloaded_engine cfg (part c) (part c')) /\
  (forall err, r = Err err ->
     (part c' : Filter) = part c /\ (part c' : Limiter) = part c /\
     ((part c' : option Engine) = part c \/
      exists cfg, Load path = Ok cfg /\ reloaded_engine cfg (part c) (part c') /\
        is_ok (buildGeoState (il_Geo (c_IPLists cfg)) (g_heap (part c))) = false)).
Proof.
  destruct c as [f [l [e rest]]]. cbn. intros HA HD Hg. pose proof (reloadOnce_run path f l e rest aA aD HA HD Hg) as Hrun.
  destruct (Load path) as [cfg|err] eqn:Hl.
  - destruct Hrun as [(err & -> & _)|(e' & He & [(err & -> & Hb)|(f' & heap & -> & HrA & HrD & Hrg & Hb)])].
    + split_and!; [by destruct rest as [? [? [? ?]]]|done|]. intros err' [= <-]. split_and!; [done..|by left].
    + split_and!; [by destruct rest as [? [? [? ?]]]|done|]. intros err' [= <-]. split_and!; [done..|]. right. by exists cfg.
    + split_and!; [by destruct rest as [? [? [? ?]]]| |done]. intros _. exists cfg. split_and!; try done. by exists heap.
  - rewrite Hrun. split_and!; [by destruct rest as [? [? [? ?]]]|done|]. intros err' [= <-]. split_and!; [done..|by left].
Qed.

(** A running engine needs a rules file for every reload, also when the new
    configuration disables it, and is valid without one. *)
Lemma reload_needs_rules_file `{Files} path cfg c e :
  Load path = Ok cfg -> (part c : option Engine) = Some e -> wc_RulesFile (c_WAF cfg) = "" -> os_Open "" = None ->
  reloadOnce path c =
    (Err (Errorw "reload waf rules: %w" [] (Errorw "waf: open rules file: %w" [] (LibError "os.Open"))), set_part (Some e) c).
Proof.
  intros Hl He Hr Ho. unfold reloadOnce. rewrite Hl, He. cbn [wrap_err]. unfold EngineReload, LoadRuleSet. by rewrite Hr, Ho.
Qed.

(** ** Starting up *)

Lemma parse_upstreams_spec addrs :
  match parse_upstreams addrs with
  | Ok us => length us = length addrs /\ Forall (fun a => is_Some (url_Parse a)) addrs
  | Err _ => ~ Forall (fun a => is_Some (url_Parse a)) addrs
  end.
Proof.
  induction addrs as [|a addrs IH]; cbn; [done|].
  destruct (url_Parse a) as [u|] eqn:E; cbn; [|intros Hf; apply Forall_cons in Hf as [[u Hu] _]; congruence].
  destruct (parse_upstreams addrs) as [us|err]; cbn.
  - destruct IH as [-> Hf]. split; [done|]. constructor; [by eexists|done].
  - intros Hf. by apply Forall_cons in Hf as [_ ?].
Qed.

(** The validator and the proxy parse the same URLs. *)
Definition same_urls : Prop :=
  forall addr, url_parse addr = (fun u => (u_Scheme u, u_Host u)) <$> url_Parse addr.

Lemma Proxy_New_ok cfg :
  same_urls -> uc_Addresses cfg <> [] -> Forall upstream_valid (uc_Addresses cfg) ->
  exists p, Proxy.New cfg = Ok p.
Proof.
  intros Hu Hne Hv. unfold Proxy.New. pose proof (parse_upstreams_spec (uc_Addresses cfg)) as Hp.
  assert (Forall (fun a => is_Some (url_Parse a)) (uc_Addresses cfg)) as Hall.
  { eapply Forall_impl; [exact Hv|]. intros a (scheme & host & Ha & _). cbn. rewrite Hu in Ha.
    destruct (url_Parse a); [by eexists|done]. }
  destruct (uc_Addresses cfg) as [|a addrs]; [done|].
  destruct (parse_upstreams (a :: addrs)) as [us|err]; [by eexists|by destruct Hp].
Qed.

Lemma Proxy_New_upstreams cfg p : Proxy.New cfg = Ok p -> px_upstreams p <> [].
Proof.
  unfold Proxy.New. pose proof (parse_upstreams_spec (uc_Addresses cfg)) as Hp.
  destruct (uc_Addresses cfg) as [|a addrs]; [done|].
  destruct (parse_upstreams (a :: addrs)) as [us|err]; cbn [result_bind]; [|done]. intros [= <-].
  destruct Hp as [Hlen _]. cbn. by destruct us.
Qed.

(** What, beyond a valid configuration, the environment must provide: what
    [run] opens first, and what it looks at once the listeners are made. *)
Record env_opens `{Files} (cfg : Config) : Prop := {
  er_geo : is_ok (buildGeoState (il_Geo (c_IPLists cfg)) []) = true;
  er_log : is_ok (AccessLog.New (c_Log cfg)) = true;
  er_rules : wc_Enabled (c_WAF cfg) = true -> is_ok (LoadRuleSet (wc_RulesFile (c_WAF cfg))) = true;
  er_certs : Forall loadable (c_Listen cfg)
}.

Definition metrics_path_ok (cfg : Config) : Prop :=
  mc_Enabled (c_Metrics cfg) = true -> pattern_ok (mc_Path (c_Metrics cfg)) = true.

Definition dashboard_opens (cfg : Config) (d : Disk) : Prop :=
  ac_Enabled (c_Admin cfg) = true -> os_Getenv (ac_AuthTokenEnv (c_Admin cfg)) <> "" /\
  (ac_StateFile (c_Admin cfg) <> "" -> is_ok (StateLoad (ac_StateFile (c_Admin cfg)) d) = true).

Definition env_ready `{Files} (cfg : Config) (d : Disk) : Prop :=
  env_opens cfg /\ metrics_path_ok cfg /\ dashboard_opens cfg d.

Lemma admin_of_ok cfg version now d f e :
  is_ok (admin_of cfg version now d f e) = true <-> dashboard_opens cfg d.
Proof.
  unfold admin_of, dashboard_opens. destruct (ac_Enabled (c_Admin cfg)); [|by cbn].
  unfold Admin.New. destruct (String.eqb_spec (os_Getenv (ac_AuthTokenEnv (c_Admin cfg))) "") as [Ht|Ht]; [cbn; naive_solver|].
  destruct (String.eqb_spec (ac_StateFile (c_Admin cfg)) "") as [Hs|Hs]; cbn [negb]; [cbn; naive_solver|].
  destruct (StateLoad _ d) as [st|err]; cbn; [destruct (replayState st f e); cbn|]; naive_solver.
Qed.

Lemma metrics_listener_cases cfg path p :
  match metrics_listener cfg (Metrics.New path) p with
  | (Returned (Ok _), p') => (mc_Enabled cfg = true -> pattern_ok path = true) /\ (p' = p \/ p' = spawn ServeMetrics p)
  | (Returned (Err _), _) => False
  | (Panicked _, p') => ~ (mc_Enabled cfg = true -> pattern_ok path = true) /\ p' = p
  end.
Proof.
  unfold metrics_listener, Metrics.Path, Metrics.New. cbn [mt_path]. destruct (mc_Enabled cfg); [|split; [done|by left]].
  destruct (pattern_ok path); cbn; [split; [done|by right]|]. split; [|done]. intros Hp. by specialize (Hp eq_refl).
Qed.

Lemma engine_of_ok `{Files} cfg :
  is_ok (engine_of cfg) = true <-> (wc_Enabled cfg = true -> is_ok (LoadRuleSet (wc_RulesFile cfg)) = true).
Proof.
  unfold engine_of, NewEngine. destruct (wc_Enabled cfg); [|by cbn].
  destruct (LoadRuleSet _); cbn; naive_solver.
Qed.

Lemma Server_New_ok ls : ls <> [] -> is_ok (Server.New ls) = true <-> Forall loadable ls.
Proof.
  intros Hne. pose proof (new_servers_spec ls) as Hs. unfold Server.New. destruct ls as [|l ls]; [done|].
  destruct (new_servers (l :: ls)); cbn; naive_solver.
Qed.

Lemma NewFilter_ok cfg :
  Forall is_cidr (il_Allow cfg) -> Forall is_cidr (il_Deny cfg) ->
  is_ok (NewFilter cfg) = is_ok (buildGeoState (il_Geo cfg) []).
Proof.
  intros HA HD. pose proof (proj2 (newListState_ok _) HA) as [sA EA]. pose proof (proj2 (newListState_ok _) HD) as [sD ED].
  unfold NewFilter. rewrite EA, ED. cbn [result_bind]. by destruct (buildGeoState _ _) as [[g heap]|].
Qed.

(** How [start] ends, after a valid configuration. *)
Lemma start_ending `{Files} version commit cfg now d p0 :
  same_urls -> config_valid cfg ->
  match (start version commit cfg now d p0).1 with
  | Returned (Ok _) => env_ready cfg d
  | Returned (Err _) => ~ env_opens cfg \/ metrics_path_ok cfg /\ ~ dashboard_opens cfg d
  | Panicked _ => env_opens cfg /\ ~ metrics_path_ok cfg
  end.
Proof.
  intros Hurl ([Hlne Hlis] & [Hune Hups] & Hcidr & (HvA & HvD & _) & _).
  destruct (Proxy_New_ok _ Hurl Hune Hups) as [px Ep].
  destruct (proj2 (NewMatcher_ok _) Hcidr) as [trusted Et].
  pose proof (NewFilter_ok _ HvA HvD) as Hf. pose proof (engine_of_ok (c_WAF cfg)) as He.
  pose proof (Server_New_ok (c_Listen cfg) Hlne) as Hsrv.
  unfold start, proc_do, proc_bind, try. cbn beta zeta. rewrite Ep, Et.
  destruct (NewFilter (c_IPLists cfg)) as [f|err]; cbn [is_ok] in *.
  2: { left. intros [Hg _ _ _]. congruence. }
  destruct (AccessLog.New (c_Log cfg)) as [a|err] eqn:Ea.
  2: { left. intros [_ Hl _ _]. by rewrite Ea in Hl. }
  destruct (engine_of (c_WAF cfg)) as [e|err].
  2: { left. intros [_ _ Hr _]. by apply He in Hr. }
  destruct (Server.New (c_Listen cfg)) as [srv|err].
  2: { left. intros [_ _ _ Hc]. by apply Hsrv in Hc. }
  assert (env_opens cfg) as Hopens
    by (split; [by rewrite <- Hf|by rewrite Ea|exact (proj1 He eq_refl)|exact (proj1 Hsrv eq_refl)]).
  match goal with |- context [metrics_listener ?m (Metrics.New ?x) ?p] => pose proof (metrics_listener_cases m x p) as Hm end.
  destruct (metrics_listener _ _ _) as [[[msrv|err]|what] p1]; [|done|by destruct Hm].
  destruct Hm as [Hm _]. pose proof (admin_of_ok cfg version now d f e) as Hadm.
  destruct (admin_of cfg version now d f e) as [[[adm f'] e']|err]; cbn [is_ok] in Hadm.
  - assert (dashboard_opens cfg d) as Hd by (by apply Hadm). by destruct adm.
  - right. split; [done|]. intros Hd. by apply Hadm in Hd.
Qed.

(** C21. Starting from a valid configuration succeeds exactly when the
    environment provides what the configuration names: the geo database opens,
    the access log opens, the rules load, the key pairs load, the metrics path
    is a pattern, and the dashboard has a token and a readable state.  [run]
    panics exactly when all is there but the metrics path is no pattern, which
    no validation rules out; otherwise it returns an error. *)
Theorem start_succeeds_iff `{Files} version commit cfg now d p :
  same_urls -> config_valid cfg ->
  let e := (start version commit cfg now d p).1 in
  ((exists ru, e = Returned (Ok ru)) <-> env_ready cfg d) /\
  ((exists what, e = Panicked what) <-> env_opens cfg /\ ~ metrics_path_ok cfg).
Proof.
  intros Hurl Hv. pose proof (start_ending version commit cfg now d p Hurl Hv) as Hs. unfold env_ready in *.
  destruct (start version commit cfg now d p).1 as [[ru|err]|what]; cbn; naive_solver.
Qed.

(** ** The invariant holds from the start *)

Lemma foldl_list_ok es s :
  Forall (fun e => forall b, e <> EditReload b) es -> list_ok s -> list_ok (foldl (fun s e => (run_edit e s).2) s es).
Proof.
  intros He. revert s. induction He as [|e es He _ IH]; intros s Hs; [done|]. cbn. by apply IH, run_edit_list_ok.
Qed.

Lemma replay_list_ok removed added s : list_ok s -> list_ok (replay_list removed added s).
Proof.
  apply foldl_list_ok, Forall_app_2; apply Forall_fmap, Forall_forall; intros c _ b; cbn; discriminate.
Qed.

Lemma replay_overrides_ok os e : engine_ok (Some e) -> engine_ok (Some (replay_overrides os e)).
Proof.
  unfold replay_overrides. revert e. induction os as [|[id o] os IH]; intros e He; [done|]. cbn.
  by apply IH, SetOverride_engine_ok.
Qed.

Lemma replayState_ok state f e :
  dashboard_ok f e ->
  dashboard_ok (replayState state f e).1 (replayState state f e).2 /\
  f_geo (replayState state f e).1 = f_geo f /\ g_heap (replayState state f e).1 = g_heap f.
Proof.
  intros [Ha Hd He]. rewrite replay_filter. cbn [f_geo g_heap f_allow f_deny]. split; [|done].
  split; cbn [f_allow f_deny]; [by apply replay_list_ok..|]. unfold replayState. cbn. destruct e as [e|]; [|done].
  by apply replay_overrides_ok.
Qed.

Lemma NewFilter_dashboard_ok cfg f e :
  NewFilter cfg = Ok f -> engine_ok e -> dashboard_ok f e /\ geo_exclusive (f_geo f) (g_heap f).
Proof.
  intros Hn He. pose proof (New_wf_lemma cfg) as Hwf. rewrite Hn in Hwf. destruct Hwf as ([_ _ Hg] & HA & HD).
  split; [|done]. split; [..|done]; (split; [by eexists|]); apply Forall_forall; intros c Hc;
    [apply (rep_removed _ _ HA) in Hc|apply (rep_removed _ _ HD) in Hc]; done.
Qed.

Lemma engine_of_engine_ok `{Files} cfg e : engine_of cfg = Ok e -> engine_ok e.
Proof.
  unfold engine_of, NewEngine. destruct (wc_Enabled cfg); [|by intros [= <-]].
  destruct (LoadRuleSet _); cbn; [|done]. intros [= <-] e' [= <-]. apply map_Forall_empty.
Qed.

Lemma admin_of_dashboard_ok cfg version now d f e adm f' e' :
  admin_of cfg version now d f e = Ok (adm, f', e') -> dashboard_ok f e ->
  dashboard_ok f' e' /\ f_geo f' = f_geo f /\ g_heap f' = g_heap f.
Proof.
  unfold admin_of, Admin.New. intros Ha Hok. destruct (ac_Enabled (c_Admin cfg)); [|by injection Ha as _ <- <-].
  destruct (String.eqb (os_Getenv _) ""); [done|]. destruct (String.eqb (ac_StateFile _) ""); cbn [negb] in Ha.
  - by injection Ha as _ <- <-.
  - destruct (StateLoad _ d) as [st|err]; cbn [wrap_err result_bind] in Ha; [|done].
    pose proof (replayState_ok st f e Hok) as Hr. destruct (replayState st f e) as [f1 e1].
    cbn [result_bind] in Ha. by injection Ha as _ <- <-.
Qed.

Lemma start_ok `{Files} version commit cfg now d p ru p' :
  start version commit cfg now d p = (Returned (Ok ru), p') -> system_ok (ru_components ru).
Proof.
  unfold start, proc_do, proc_bind, try. cbn beta zeta. intros Hs.
  destruct (Proxy.New _) as [px|] eqn:Ep; [|done]. destruct (NewFilter _) as [f|] eqn:Ef; [|done].
  destruct (AccessLog.New _) as [a|] eqn:Ea; [|done]. destruct (NewMatcher _) as [trusted|] eqn:Et; [|done].
  destruct (engine_of _) as [e|] eqn:Ee; [|done]. destruct (Server.New _) as [srv|] eqn:Es; [|done].
  destruct (metrics_listener _ _ _) as [[[msrv|err]|what] p1]; [|done..].
  destruct (admin_of _ _ _ _ _ _) as [[[adm f'] e']|] eqn:Eadm; [|done].
  destruct (NewFilter_dashboard_ok _ _ e Ef (engine_of_engine_ok _ _ Ee)) as [Hd Hg].
  destruct (admin_of_dashboard_ok _ _ _ _ _ _ _ _ _ Eadm Hd) as (Hd' & Hgeo & Hheap).
  assert (system_ok (f', (RateStage.New (c_RateLimit cfg), (e', (a, (Metrics.New (mc_Path (c_Metrics cfg)), (px, d))))))) as Hok.
  { split; cbn; [done|by rewrite Hgeo, Hheap|apply New_loops_ok|by eapply New_access_wf|apply New_agrees|].
    by eapply Proxy_New_upstreams. }
  destruct adm as [adm|]; by injection Hs as <- _.
Qed.

(** ** The steps keep it *)

(** A step of the running program: a request through the pipeline, whatever the
    connection, the clock and the random bytes; a reload; a request to the
    dashboard; or the disk changing under it. *)
Inductive system_step : Components -> Components -> Prop :=
  | step_request trusted waf r (w : World Components) :
      system_step (comp w) (comp (pipeline trusted waf ConnWriter r w))
  | step_reload (fs : Files) path c :
      system_step c (reloadOnce path c).2
  | step_dashboard s static redirect r (w : World Components) :
      (forall rw r w, comp (static rw r w) = comp w) ->
      (forall path rw r w, comp (redirect path rw r w) = comp w) ->
      system_step (comp w) (comp (AdminHandler s static redirect ConnWriter r w))
  | step_disk (d : Disk) c :
      system_step c (set_part d c).

Lemma judge_limiter waf c ip q now :
  loops_ok (part c) ->
  loops_ok match judge waf c ip q now with Refuse _ _ _ l => l | Forward _ l => l end.
Proof.
  intros Hl. unfold judge. destruct (negb (IsValid ip)); [done|]. destruct (Allowed _ ip) as [ok reason].
  destruct (negb ok); [done|].
  assert (loops_ok (take_token (part c) (r_path q) ip now).2) as Ht.
  { unfold take_token. destruct (ls_enabled _) eqn:Hen; [|done]. pose proof Hl as [Hwf _].
    destruct (limiter_allow_spec _ (r_path q) ip now Hwf Hen) as (ok' & l' & E & _ & Hl'). rewrite E.
    by apply (limiter_allow_loops_ok _ _ _ _ _ _ E). }
  destruct (take_token _ _ ip now) as [ok' l]. cbn in Ht. destruct (negb ok'); [done|].
  destruct waf as [e0|]; [|done]. by destruct (Inspect _ q) as [[[rule|]|err] q'].
Qed.

Lemma pipeline_ok trusted waf r (w : World Components) :
  system_ok (comp w) -> system_ok (comp (pipeline trusted waf ConnWriter r w)).
Proof.
  intros [Hd Hg Hl Ha Hm Hp].
  pose proof (judge_limiter waf (comp w) (resolveClientIP r (Some trusted)) (entry_request r w) (clock w) Hl) as Hl'.
  destruct (judge waf (comp w) (resolveClientIP r (Some trusted)) (entry_request r w) (clock w)) as [reason status rule l|q l] eqn:Hj.
  - destruct (refused_run trusted waf r w reason status rule l Ha (proj1 Hl) Hj) as (a & w1 & Hcomp & _ & Hsnap & Hwf & Hlog & ->).
    pose proof (logged_wf _ _ _ _ _ _ Ha Hlog) as Ha'. rewrite <- Hsnap in Hwf.
    split; cbn -[record]; rewrite ?Hcomp; [done|done|done|done|by apply calls_of_agree|done].
  - destruct (forwarded_run trusted waf r w q l Ha (proj1 Hl) Hp Hj) as (a & rec & sr & p & (_ & Hsnap & Hwf) & _ & _ & [Hcomp Hp'] & Hlog & ->).
    pose proof (logged_wf _ _ _ _ _ _ Ha Hlog) as Ha'. set (w1 := serveHTTP _ _ _) in *. clearbody w1.
    split; cbn -[record]; rewrite ?Hcomp; [done|done|done|done| |done].
    apply calls_of_agree; [|done]. rewrite Hsnap. by destruct Hwf; [left|right].
Qed.

(** The parts a reload or the dashboard changes. *)
Record firewall_ok (c : Components) : Prop := {
  fo_dashboard : dashboard_ok (part c) (part c);
  fo_geo : geo_exclusive (f_geo (part c)) (g_heap (part c));
  fo_limiter : loops_ok (part c)
}.

(** Its three steps. *)
Lemma rules_firewall `{Files} e path c :
  firewall_ok c -> (part c : option Engine) = Some e -> firewall_ok (set_part (Some (EngineReload e path).2) c).
Proof.
  intros [[Ha Hd He] Hg Hl] Hpart. destruct c as [f [l [e0 rest]]]. cbn in *. subst e0. split; [split|..]; try done.
  unfold EngineReload. destruct (LoadRuleSet path) as [rs|err]; [|exact He]. intros e' [= <-]. exact (He e eq_refl).
Qed.

Lemma lists_firewall cfg c :
  Forall valid_cidr (il_Allow cfg) -> Forall valid_cidr (il_Deny cfg) ->
  firewall_ok c -> firewall_ok (set_part (IPFilter.Reload cfg (part c)).2 c).
Proof.
  intros HvA HvD Hok. destruct c as [f [l [e rest]]]. destruct Hok as [Hd Hg Hl]. cbn -[IPFilter.Reload] in *.
  pose proof Hd as [[[aA HA] HrA] [[aD HD] HrD] He].
  pose proof (Reload_valid cfg f aA aD HvA HvD HA HD Hg) as Hrel.
  destruct (IPFilter.Reload cfg f) as [[[]|err] f']; cbn [snd].
  - destruct Hrel as (HA' & HD' & Hg' & _). split; [|done|done].
    assert (forall a b s s', represents s a -> represents s' (mkLayers b (l_overlay a)) -> valid_cidrs (adminRemoved s) ->
      list_ok s') as Hlist.
    { intros a b s s' Hs Hs'. unfold list_ok, valid_cidrs. rewrite !Forall_forall. intros Hv. split; [by eexists|].
      intros x Hx. apply Hv, (rep_removed _ _ Hs). by apply (rep_removed _ _ Hs') in Hx. }
    split; [exact (Hlist aA _ _ _ HA HA' HrA)|exact (Hlist aD _ _ _ HD HD' HrD)|exact He].
  - destruct Hrel as [-> _]. by split.
Qed.

Lemma limits_firewall cfg c : firewall_ok c -> firewall_ok (set_part (RateStage.Reload (part c) cfg) c).
Proof. intros [Hd Hg Hl]. destruct c as [f [l [e rest]]]. split; [done..|]. by apply Reload_loops_ok. Qed.

(** The lists, then the limits. *)
Definition lists_then_limits (cfg : Config) (c : Components) : result unit * Components :=
  let '(r, f) := IPFilter.Reload (c_IPLists cfg) (part c) in
  let c := set_part f c in
  match wrap_err "reload ip lists: %w" [] r with
  | Err e => (Err e, c)
  | Ok _ => (Ok tt, set_part (RateStage.Reload (part c) (c_RateLimit cfg)) c)
  end.

Lemma lists_then_limits_firewall `{Files} path cfg c :
  Load path = Ok cfg -> firewall_ok c ->
  firewall_ok (lists_then_limits cfg c).2 /\ same_rest c (lists_then_limits cfg c).2.
Proof.
  intros (_ & _ & _ & (HvA & HvD & _) & _)%Load_valid Hok. pose proof (lists_firewall _ c HvA HvD Hok) as Hok'.
  unfold lists_then_limits. destruct (IPFilter.Reload _ _) as [[[]|err] f]; cbn [wrap_err snd] in *;
    (split; [|by destruct c as [f0 [l [e [a [m [p d]]]]]]]); [by apply limits_firewall|done].
Qed.

Lemma reloadOnce_firewall `{Files} path c :
  firewall_ok c -> firewall_ok (reloadOnce path c).2 /\ same_rest c (reloadOnce path c).2.
Proof.
  intros Hok. destruct (Load path) as [cfg|err] eqn:Hl; [|unfold reloadOnce; by rewrite Hl].
  destruct (part c : option Engine) as [e|] eqn:He.
  2: { assert (reloadOnce path c = lists_then_limits cfg c) as -> by (unfold reloadOnce; rewrite Hl; cbn [wrap_err]; by rewrite He).
    by eapply lists_then_limits_firewall. }
  pose proof (rules_firewall e (wc_RulesFile (c_WAF cfg)) c Hok He) as Hok'.
  destruct (EngineReload e (wc_RulesFile (c_WAF cfg))) as [[[]|err] e'] eqn:Er; cbn [snd] in Hok'.
  - assert (reloadOnce path c = lists_then_limits cfg (set_part (Some e') c)) as -> by (unfold reloadOnce; rewrite Hl; cbn [wrap_err]; by rewrite He, Er).
    destruct (lists_then_limits_firewall path cfg _ Hl Hok') as [Hok2 Hsame]. split; [exact Hok2|].
    by destruct c as [f0 [l [e0 [a [m [p d]]]]]].
  - assert ((reloadOnce path c).2 = set_part (Some e') c) as -> by (unfold reloadOnce; rewrite Hl; cbn [wrap_err]; by rewrite He, Er).
    split; [done|]. by destruct c as [f0 [l [e0 [a [m [p d]]]]]].
Qed.

Lemma reloadOnce_ok `{Files} path c : system_ok c -> system_ok (reloadOnce path c).2.
Proof.
  intros [Hd Hg Hl Ha Hm Hp]. destruct (reloadOnce_firewall path c) as [[Hd' Hg' Hl'] (HA & HM & HP & _)]; [by split|].
  split; [done..|by rewrite HA|by rewrite HM|by rewrite HP].
Qed.

Lemma system_step_ok c c' : system_step c c' -> system_ok c -> system_ok c'.
Proof.
  intros Hs Hok. destruct Hs as [trusted waf r w|fs path c|s static redirect r w Hst Hrd|d c].
  - by apply pipeline_ok.
  - by apply reloadOnce_ok.
  - destruct Hok as [Hd Hg Hl Ha Hm Hp].
    destruct (AdminHandler_geo s static redirect ConnWriter r w Hst Hrd) as [Hgeo Hheap]. unfold the_filter in Hgeo, Hheap.
    split; [by apply AdminHandler_ok|by rewrite Hgeo, Hheap|by rewrite AdminHandler_other..].
  - by destruct Hok as [Hd Hg Hl Ha Hm Hp], c as [f [l [e [a [m [p d0]]]]]].
Qed.

Lemma system_steps_ok c c' : rtc system_step c c' -> system_ok c -> system_ok c'.
Proof. intros Hr. induction Hr as [c|c1 c2 c3 Hstep _ IH]; intros Hok; [done|]. apply IH. by eapply system_step_ok. Qed.

(** C3. An invariant of the running program.  From the state [run] starts in,
    through any requests, reloads, dashboard requests and disk changes: both
    lists represent a base under an overlay and their caches agree; exactly one
    geo database is open, the one in use; every limiter is well formed and the
    eviction loops that run are those of the limiters in use; the log ring does
    not overrun; every override has a valid action; the collectors agree; and
    there is an upstream to send to. *)
Theorem reachable_states_ok `{Files} version commit cfg now d p ru p' c :
  start version commit cfg now d p = (Returned (Ok ru), p') -> rtc system_step (ru_components ru) c -> system_ok c.
Proof.
  intros Hs Hr. apply start_ok in Hs. by apply (system_steps_ok _ _ Hr).
Qed.

End System.
