(* ===== verification/Requests.v ===== *)
(** * Requests in flight together

    The server calls the pipeline in a goroutine per request.  Here a request
    is a sequence of steps, each a single action on the state the goroutines
    share: a read of the filter, a token of the limiter, an atomic store in an
    upstream, one call on a collector, one line of the log.  Run alone it is
    [pipeline]; run among others, reloads and dashboard edits, it is still
    accounted for. *)
From Corelib Require Import SpecFloat.
From stdpp Require Import relations.
From S2P Require Import Prelude GoStrings Patterns Netip Netmatch Config Http Httputil Middleware ClientIP Geoip IPFilter.
From S2P Require Import IPFilterProofs RateLimit RateStage Waf AccessLog Metrics Proxy Admin.
From S2P Require Import AdminProofs Dashboard Server Main Pipeline System ProxyFrame.

(** ** A request as a sequence of steps *)

(** Where a request is. *)
Inductive point : Type :=
  | AtEntry
  | AtFilter (q : Request)
  | AtLimiter (q : Request)
  | AtWaf (q : Request)
  | AtPick (q : Request)
  | AtTrip (u : nat) (retry : bool) (q : Request)
  | AtSuccess (u : nat) (retry : bool) (out : Request) (res : Response)
  | AtRevived (u : nat) (retry : bool) (out : Request) (res : Response)
  | AtFailure (u : nat) (retry : bool) (out : Request) (err : NetError)
  | AtCounted (n : Z) (u : nat) (retry : bool) (out : Request) (err : NetError)
  | AtRetry (u : nat) (retry : bool) (out : Request) (err : NetError)
  | AtReturned
  | AtCollect (cs : list collector_call)
  | AtGauge
  | AtRing
  | AtLine (e : Entry)
  | AtEnd.

Record flight := mkFlight {
  fl_request : Request;                  (* as the server received it *)
  fl_start : Z;                          (* start, in AccessMiddleware and MetricsMiddleware *)
  fl_id : string;                        (* requestID, in AccessMiddleware *)
  fl_point : point;
  fl_calls : list collector_call;        (* the collector calls it has made *)
  fl_entry : option Entry                (* what it added to the ring *)
}.

Definition arrival (r : Request) : flight := mkFlight r 0 "" AtEntry [] None.

Definition go (p : point) (fl : flight) : flight :=
  mkFlight (fl_request fl) (fl_start fl) (fl_id fl) p (fl_calls fl) (fl_entry fl).

Definition called (cs : list collector_call) (p : point) (fl : flight) : flight :=
  mkFlight (fl_request fl) (fl_start fl) (fl_id fl) p (fl_calls fl ++ cs) (fl_entry fl).

(** The recorder and the status recorder are the only ones of the request. *)
Definition the_request (fl : flight) : Request := WithRecorder (fl_request fl) 0.
Definition the_writer : ResponseWriter := RecorderWriter 0 ConnWriter.

(** The stores of [recordSuccess] and [recordFailure]. *)
Definition store_count (n : Z) (u : upstream) : upstream := mkUpstream (up_url u) n (downUntil u).
Definition store_until (t : Z) (u : upstream) : upstream := mkUpstream (up_url u) (failureCount u) t.

(** A success between the two operations of a failure: the third failure in a
    row is counted, a response comes and clears both fields, and then the
    failure marks the upstream down, with no failure since. *)
Lemma failure_overtakes_success url now :
  0 <= now < 2 ^ 62 ->
  let counted := store_count (int32 (2 + 1)) (mkUpstream url 2 0) in
  let cleared := store_until 0 (store_count 0 counted) in
  let marked := store_until (int64 (now + downCooldown)) cleared in
  failureCount marked = 0 /\ Proxy.healthy cleared now = true /\ Proxy.healthy marked now = false.
Proof.
  intros Hnow. unfold Proxy.healthy, store_until, store_count. cbn [failureCount downUntil].
  assert (int64 now = now) as -> by (apply wrapS_id; lia).
  assert (int64 (now + downCooldown) = now + downCooldown) as -> by (apply wrapS_id; unfold downCooldown, Second; lia).
  split_and!; [done..|]. unfold downCooldown, Second. rewrite orb_false_iff, Z.eqb_neq, Z.leb_gt. lia.
Qed.

Section Step.
Context `{IPSetLib} `{MaxMindLib} `{UnicodeTables} `{RegexpLib} `{MapOrder} `{RateLib} `{Transport}.
Context (trusted : Matcher) (waf : option Engine).
Implicit Types w : World Components.

(** An inner stage up to its call of [next], if it makes it: the point the
    request is at then, and the world. *)
Definition suspend (k : Request -> point) : Handler (point * Components) :=
  fun _ q s => upd_comp (set_part (k q)) s.

Definition stage (mw : Middleware (point * Components)) (k : Request -> point) (q : Request) w : point * World Components :=
  let s := mw (suspend k) the_writer q
             (mkWorld (recorders w) (statuses w) (conn w) (clock w) (entropy w) (AtReturned, comp w)) in
  ((comp s).1, mkWorld (recorders s) (statuses s) (conn s) (clock s) (entropy s) (comp s).2).

Definition waf_mw : Middleware (point * Components) :=
  match waf with
  | Some e => WafMiddleware (Part0 := @Part_snd _ _ _ (waf_part e))
  | None => fun next => next
  end.

Definition at_stage (fl : flight) (res : point * World Components) : option (flight * World Components) :=
  Some (go res.1 fl, res.2).

(** The proxy: [serveHTTP], the round trip, [recordSuccess] and
    [handleProxyError], each store in an upstream a step. *)
Definition proxy_step (fl : flight) w : option (flight * World Components) :=
  match fl_point fl with
  | AtPick q =>
      let '(u, p) := pick (part (comp w)) (clock w) in
      let w := upd_comp (set_part p) w in
      match u with
      | None => Some (go AtReturned fl, writeUnavailable the_writer q w)
      | Some u => Some (go (AtTrip u (isRetryable q) q) fl, w)
      end
  | AtTrip u retry q =>
      '(res, out, w) ← trip u the_writer q w;
      Some (go match res with
               | Responded res => AtSuccess u retry out res
               | Failed err => AtFailure u retry out err
               end fl, w)
  | AtSuccess u retry out res => Some (go (AtRevived u retry out res) fl, at_upstream u (store_count 0) w)
  | AtRevived u retry out res =>
      let w := at_upstream u (store_until 0) w in
      let w := with_recorder out (SetUpstream (upstreamAddr u w) (rs_status res)) w in
      if rs_status res =? 101 then
        if upgrades the_writer out res w then Some (go AtReturned fl, WriteHeader the_writer 101 w)
        else Some (go (AtFailure u retry out upgrade_error) fl, w)
      else Some (go AtReturned fl, respond the_writer res w)
  | AtFailure u retry out err =>
      up ← upstream_of u w;
      let n := int32 (failureCount up + 1) in
      Some (go (AtCounted n u retry out err) fl, at_upstream u (store_count n) w)
  | AtCounted n u retry out err =>
      Some (go (AtRetry u retry out err) fl,
            if failureThreshold <=? n then at_upstream u (store_until (int64 (clock w + downCooldown))) w else w)
  | AtRetry u retry out err =>
      match retry_target retry u w with
      | Some next => Some (go (AtTrip next false out) fl, w)
      | None => Some (go AtReturned fl, end_failed u err the_writer out w)
      end
  | _ => None
  end.

(** [MetricsMiddleware] after [next], a call on a collector at a time; a panic
    goes straight to the deferred one. *)
Definition metrics_step (fl : flight) w : option (flight * World Components) :=
  match fl_point fl with
  | AtReturned =>
      if panicking w then Some (go AtGauge fl, w)
      else
        let latency := Seconds (clock w - fl_start fl) in
        Some (go (AtCollect (request_calls (snapshot_of (the_request fl) w) latency)) fl, w)
  | AtCollect (c :: cs) => Some (called [c] (AtCollect cs) fl, add_calls [c] w)
  | AtCollect [] => Some (go AtGauge fl, w)
  | AtGauge => Some (called [ActiveDec] (if panicking w then AtEnd else AtRing) fl, add_calls [ActiveDec] w)
  | _ => None
  end.

(** [AccessMiddleware] after [next]: the ring, then the line. *)
Definition access_step (fl : flight) w : option (flight * World Components) :=
  match fl_point fl with
  | AtRing =>
      let a : AccessLog := part (comp w) in
      let sr := default (mkStatusRecorder StatusOK 0 false) (statuses w !! 0%nat) in
      let e := make_entry (fl_start fl) (clock w - fl_start fl) (the_request fl)
                 (snapshot_of (the_request fl) w) sr (fl_id fl) in
      ring ← ring_Add e (al_ring a);
      Some (mkFlight (fl_request fl) (fl_start fl) (fl_id fl) (AtLine e) (fl_calls fl) (Some e),
            upd_comp (set_part (mkAccessLog (al_level a) ring (al_file a) (al_lines a))) w)
  | AtLine e => Some (go AtEnd fl, upd_comp (fun c => set_part (logEntry e (part c)) c) w)
  | _ => None
  end.

(** The next step of a request; [None] when it has ended, or on a panic of the
    runtime, which there is none of ([Concurrent.requests_drain]). *)
Definition advance (fl : flight) w : option (flight * World Components) :=
  match fl_point fl with
  | AtEntry =>
      let r := fl_request fl in
      let w' := entry_world trusted r w in
      Some (mkFlight r (clock w) (newRequestID w).1 (AtFilter (the_request fl)) [ActiveInc] (fl_entry fl), w')
  | AtFilter q => at_stage fl (stage (FilterMiddleware part) AtLimiter q w)
  | AtLimiter q => at_stage fl (stage LimiterMiddleware AtWaf q w)
  | AtWaf q => at_stage fl (stage waf_mw AtPick q w)
  | AtReturned | AtCollect _ | AtGauge => metrics_step fl w
  | AtRing | AtLine _ => access_step fl w
  | AtEnd => None
  | _ => proxy_step fl w
  end.

(** *** How many steps are left, at most *)

Definition remaining (p : point) : nat :=
  match p with
  | AtEntry => 26
  | AtFilter _ => 25
  | AtLimiter _ => 24
  | AtWaf _ => 23
  | AtPick _ => 22
  | AtTrip _ retry _ => (if retry then 6 else 0) + 15
  | AtSuccess _ retry _ _ => (if retry then 6 else 0) + 14
  | AtRevived _ retry _ _ => (if retry then 6 else 0) + 13
  | AtFailure _ retry _ _ => (if retry then 6 else 0) + 12
  | AtCounted _ _ retry _ _ => (if retry then 6 else 0) + 11
  | AtRetry _ retry _ _ => (if retry then 6 else 0) + 10
  | AtReturned => 9
  | AtCollect cs => length cs + 4
  | AtGauge => 3
  | AtRing => 2
  | AtLine _ => 1
  | AtEnd => 0
  end.

Fixpoint run_alone (n : nat) (fl : flight) w : flight * World Components :=
  match n with
  | O => (fl, w)
  | S n' =>
      match advance fl w with
      | Some (fl, w) => run_alone n' fl w
      | None => (fl, w)
      end
  end.

(** *** The inner stages, up to [next] *)

Definition refused_at (loc : nat) (reason : string) (status : Z) (rule : option Rule) w : point * World Components :=
  (AtReturned, WriteHeader the_writer status (mark loc reason rule w)).

Lemma stage_filter q w :
  stage (FilterMiddleware part) AtLimiter q w =
  match RecorderFrom q w with
  | None => (AtReturned, WriteHeader the_writer StatusForbidden w)
  | Some (loc, rec) =>
      if negb (IsValid (clientIP rec)) then refused_at loc BlockReasonIPDeny StatusForbidden None w
      else
        let '(ok, reason) := Allowed (part (comp w)) (clientIP rec) in
        if negb ok then refused_at loc reason StatusForbidden None w else (AtLimiter q, w)
  end.
Proof.
  destruct w as [rs ss cn ck en c]. unfold stage, FilterMiddleware, RecorderFrom. cbn -[Allowed].
  destruct (r_recorder q) as [loc|]; [|done]. cbn -[Allowed]. destruct (rs !! loc) as [rec|]; [|done]. cbn -[Allowed].
  destruct (IsValid (clientIP rec)); [|done]. cbn -[Allowed]. by destruct (Allowed _ _) as [[] reason].
Qed.

Lemma stage_limiter q w :
  limiter_wf (part (comp w)) ->
  stage LimiterMiddleware AtWaf q w =
  match RecorderFrom q w with
  | None => if ls_enabled (lm_state (part (comp w))) then (AtReturned, WriteHeader the_writer StatusTooManyRequests w) else (AtWaf q, w)
  | Some (loc, rec) =>
      if ls_enabled (lm_state (part (comp w))) && negb (IsValid (clientIP rec))
      then refused_at loc BlockReasonRateLimit StatusTooManyRequests None w
      else
        let '(ok, l) := take_token (part (comp w)) (r_path q) (clientIP rec) (clock w) in
        let w := upd_comp (set_part l) w in
        if negb ok then refused_at loc BlockReasonRateLimit StatusTooManyRequests None w else (AtWaf q, w)
  end.
Proof.
  intros Hl. destruct w as [rs ss cn ck en [f [l rest]]]. unfold stage, LimiterMiddleware, RecorderFrom, take_token. cbn in *.
  destruct (ls_enabled (lm_state l)) eqn:Hen; cbn.
  2: by destruct (r_recorder q) as [loc|]; [|done]; cbn; destruct (rs !! loc).
  destruct (r_recorder q) as [loc|]; [|done]. cbn. destruct (rs !! loc) as [rec|]; [|done]. cbn.
  destruct (IsValid (clientIP rec)); [|done]. cbn.
  destruct (limiter_allow_spec l (r_path q) (clientIP rec) ck Hl Hen) as (ok & l' & Ha & _ & _).
  rewrite Ha. by destruct ok.
Qed.

Lemma stage_waf q w :
  stage waf_mw AtPick q w =
  match waf with
  | None => (AtPick q, w)
  | Some e0 =>
      match Inspect (default e0 (part (comp w))) q with
      | (Ok (Some rule), q') =>
          match RecorderFrom q' w with
          | Some (loc, _) => refused_at loc BlockReasonWAF StatusForbidden (Some rule) w
          | None => (AtReturned, WriteHeader the_writer StatusForbidden w)
          end
      | (_, q') => (AtPick q', w)
      end
  end.
Proof.
  destruct w as [rs ss cn ck en c]. unfold stage, waf_mw. destruct waf as [e0|]; [|done].
  unfold WafMiddleware, RecorderFrom. cbn -[Inspect].
  destruct (Inspect _ q) as [[[rule|]|err] q']; [|done..]. cbn.
  destruct (r_recorder q') as [loc|]; [|done]. cbn. by destruct (rs !! loc).
Qed.

(** *** Every step leaves fewer *)

Lemma retry_target_retry retry u w v : retry_target retry u w = Some v -> retry = true.
Proof. unfold retry_target. by destruct retry. Qed.

Lemma stage_point mw k q w n :
  (exists q', (stage mw k q w).1 = k q') \/ (stage mw k q w).1 = AtReturned ->
  (forall q', remaining (k q') < n)%nat -> (9 < n)%nat -> (remaining (stage mw k q w).1 < n)%nat.
Proof. intros [[q' ->]| ->] Hk Hn; [apply Hk|exact Hn]. Qed.

Lemma request_calls_length snap latency : (length (request_calls snap latency) <= 4)%nat.
Proof. unfold request_calls. rewrite !length_app. repeat case_match; cbn; lia. Qed.

Lemma stage_filter_point q w :
  (exists q', (stage (FilterMiddleware part) AtLimiter q w).1 = AtLimiter q') \/
  (stage (FilterMiddleware part) AtLimiter q w).1 = AtReturned.
Proof.
  rewrite stage_filter. destruct (RecorderFrom q w) as [[loc rec]|]; [|by right].
  destruct (negb (IsValid _)); [by right|]. destruct (Allowed _ _) as [[] reason]; [left; by exists q|by right].
Qed.

Lemma stage_limiter_point q w :
  (exists q', (stage LimiterMiddleware AtWaf q w).1 = AtWaf q') \/ (stage LimiterMiddleware AtWaf q w).1 = AtReturned.
Proof.
  unfold stage, LimiterMiddleware. cbn. destruct (ls_enabled _); cbn; [|left; by exists q].
  destruct (RecorderFrom _ _) as [[loc rec]|]; [|by right]. destruct (negb (IsValid _)); [by right|].
  destruct (limiter_allow _ _ _ _) as [[[] l]|]; [left; by exists q|by right..].
Qed.

Lemma stage_waf_point q w :
  (exists q', (stage waf_mw AtPick q w).1 = AtPick q') \/ (stage waf_mw AtPick q w).1 = AtReturned.
Proof.
  rewrite stage_waf. destruct waf as [e0|]; [|left; by exists q].
  destruct (Inspect _ q) as [[[rule|]|err] q']; [|left; by exists q'..].
  right. by destruct (RecorderFrom q' w) as [[loc rec]|].
Qed.

Lemma advance_remaining fl w fl' w' :
  advance fl w = Some (fl', w') -> (remaining (fl_point fl') < remaining (fl_point fl))%nat.
Proof.
  unfold advance, proxy_step, metrics_step, access_step, at_stage. intros Ha. destruct (fl_point fl) as [|q|q|q|q|u retry q|u retry out res|u retry out res|u retry out err|n u retry out err|u retry out err| |[|c cs]| | |e|]; cbn [remaining].
  - injection Ha as <- _. cbn. lia.
  - injection Ha as <- _. apply stage_point; [apply stage_filter_point|cbn; lia..].
  - injection Ha as <- _. apply stage_point; [apply stage_limiter_point|cbn; lia..].
  - injection Ha as <- _. apply stage_point; [apply stage_waf_point|cbn; lia..].
  - destruct (pick _ _) as [[u|] p]; injection Ha as <- _; cbn; [|lia]. destruct (isRetryable q); lia.
  - destruct (trip _ _ _ _) as [[[res out] w1]|]; [|done]. injection Ha as <- _. destruct res; cbn; lia.
  - injection Ha as <- _. cbn. lia.
  - cbv zeta in Ha. destruct (_ =? 101); [destruct (upgrades _ _ _ _)|]; injection Ha as <- _; cbn; lia.
  - destruct (upstream_of u w) as [up|]; [|done]. injection Ha as <- _. cbn. lia.
  - injection Ha as <- _. cbn. lia.
  - destruct (retry_target retry u w) as [v|] eqn:Hr; injection Ha as <- _; cbn; [|lia].
    rewrite (retry_target_retry _ _ _ _ Hr). lia.
  - destruct (panicking w); injection Ha as <- _; cbn [go fl_point remaining]; [lia|].
    pose proof (request_calls_length (snapshot_of (the_request fl) w) (Seconds (clock w - fl_start fl))). lia.
  - injection Ha as <- _. cbn. lia.
  - injection Ha as <- _. cbn. lia.
  - injection Ha as <- _. destruct (panicking w); cbn; lia.
  - destruct (ring_Add _ _) as [ring|]; [|done]. injection Ha as <- _. cbn. lia.
  - injection Ha as <- _. cbn. lia.
  - done.
Qed.

(** *** Being served: what changes *)

(** The proxy's upstreams, the limiter's tokens and the request's recorder. *)
Definition moved w w' : Prop :=
  (recorders_evolve w w' /\ length (statuses w') = length (statuses w)) /\
  (exists (l : Limiter) (p : Proxy), comp w' = set_part l (set_part p (comp w)) /\
     length (px_upstreams p) = length (px_upstreams (part (comp w))) /\
     (loops_ok (part (comp w)) -> loops_ok l)).

#[local] Instance moved_preorder : PreOrder moved.
Proof.
  split.
  - intros [rs ss cn ck en [f [l [e [a [m [p d]]]]]]]. split; [done|]. by exists l, p.
  - intros w1 w2 w3 [[E1 S1] (l1 & p1 & C1 & L1 & K1)] [[E2 S2] (l2 & p2 & C2 & L2 & K2)].
    split; [split; [by etrans|congruence]|]. exists l2, p2.
    destruct (comp w1) as [f [l [e [a [m [p d]]]]]]. rewrite C1 in *. cbn in *.
    split_and!; [done|congruence|auto].
Qed.

Lemma serves_moved w w' : serves w w' -> moved w w'.
Proof.
  intros [He (p & Hc & Hp)]. split; [done|]. exists (part (comp w)), p. split_and!; [|done..].
  rewrite Hc. by destruct (comp w) as [f [l [e [a [m [p0 d]]]]]].
Qed.

Lemma moved_refused loc reason status rule w : reason <> "" -> moved w (refused_at loc reason status rule w).2.
Proof.
  intros Hr. apply serves_moved. unfold refused_at, mark. cbn [snd]. etrans; [|apply serves_WriteHeader].
  assert (serves w (at_recorder loc (SetBlocked reason) w)) as Hs
    by (apply serves_same_comp; [by apply evolve_at, evolve_blocked|done..]).
  destruct rule; [|done]. etrans; [exact Hs|]. apply serves_same_comp; [by apply evolve_at, evolve_waf|done..].
Qed.

Lemma moved_limiter (l : Limiter) w :
  (loops_ok (part (comp w)) -> loops_ok l) -> moved w (upd_comp (set_part l) w).
Proof.
  intros Hl. split; [split; [by unfold recorders_evolve|done]|]. exists l, (part (comp w)).
  split_and!; [|done..]. by destruct w as [rs ss cn ck en [f [l0 [e [a [m [p d]]]]]]].
Qed.

(** Where a request is while it is served; its upstream is one of the [n]. *)
Definition serving (n : nat) (p : point) : Prop :=
  match p with
  | AtFilter _ | AtLimiter _ | AtWaf _ | AtPick _ => True
  | AtTrip u _ _ | AtSuccess u _ _ _ | AtRevived u _ _ _ | AtFailure u _ _ _ | AtCounted _ u _ _ _ | AtRetry u _ _ _ => (u < n)%nat
  | _ => False
  end.

Definition upstreams_of w : nat := length (px_upstreams (part (comp w))).

Definition served w (p : point) w' : Prop := moved w w' /\ (serving (upstreams_of w) p \/ p = AtReturned).

Lemma served_filter q w :
  let res := stage (FilterMiddleware part) AtLimiter q w in served w res.1 res.2.
Proof.
  cbn zeta. rewrite stage_filter. destruct (RecorderFrom q w) as [[loc rec]|].
  2: { split; [by apply serves_moved, serves_WriteHeader|by right]. }
  destruct (negb (IsValid _)); [by split; [apply moved_refused|right]|].
  destruct (Allowed _ _) as [ok reason] eqn:Ea. destruct ok; [by split; [|left]|].
  split; [|by right]. apply moved_refused. unfold Allowed, geo_Allowed in Ea. intros ->. repeat case_match; by simplify_eq.
Qed.

Lemma take_token_loops l path ip now : loops_ok l -> loops_ok (take_token l path ip now).2.
Proof.
  intros Hl. unfold take_token. destruct (ls_enabled _) eqn:Hen; [|done].
  destruct (limiter_allow_spec _ path ip now (proj1 Hl) Hen) as (ok & l' & E & _ & Hl'). rewrite E.
  by apply (limiter_allow_loops_ok _ _ _ _ _ _ E).
Qed.

Lemma served_limiter q w :
  loops_ok (part (comp w)) -> let res := stage LimiterMiddleware AtWaf q w in served w res.1 res.2.
Proof.
  intros Hl. cbn zeta. rewrite stage_limiter by apply Hl. destruct (RecorderFrom q w) as [[loc rec]|].
  2: { destruct (ls_enabled _); (split; [|by (left + right)]); [by apply serves_moved, serves_WriteHeader|done]. }
  destruct (_ && _); [by split; [apply moved_refused|right]|].
  pose proof (take_token_loops (part (comp w)) (r_path q) (clientIP rec) (clock w) Hl) as Ht.
  destruct (take_token _ _ _ _) as [ok l]. cbn [snd] in Ht. cbv zeta.
  assert (moved w (upd_comp (set_part l) w)) as Hm by (by apply moved_limiter).
  destruct ok; cbn [negb]; [by split; [|left]|]. split; [|by right]. etrans; [exact Hm|by apply moved_refused].
Qed.

Lemma served_waf q w : let res := stage waf_mw AtPick q w in served w res.1 res.2.
Proof.
  cbn zeta. rewrite stage_waf. destruct waf as [e0|]; [|by split; [|left]].
  destruct (Inspect _ q) as [[[rule|]|err] q']; [|by split; [|left]..].
  destruct (RecorderFrom q' w) as [[loc rec]|]; (split; [|by right]); [by apply moved_refused|].
  by apply serves_moved, serves_WriteHeader.
Qed.

Lemma upstream_of_lt u w : (u < upstreams_of w)%nat -> is_Some (upstream_of u w).
Proof. apply lookup_lt_is_Some_2. Qed.

(** A request that is served takes a step, and is served on or returns. *)
Lemma serving_step fl w :
  loops_ok (part (comp w)) -> px_upstreams (part (comp w)) <> [] -> serving (upstreams_of w) (fl_point fl) ->
  exists p w', advance fl w = Some (go p fl, w') /\ served w p w'.
Proof.
  intros Hl Hne Hs. unfold advance, proxy_step, metrics_step, access_step, at_stage.
  destruct (fl_point fl) as [|q|q|q|q|u retry q|u retry out res|u retry out res|u retry out err|n u retry out err|u retry out err| |cs| | |e|]; try done; cbn in Hs.
  - do 2 eexists. split; [done|]. apply served_filter.
  - do 2 eexists. split; [done|]. by apply served_limiter.
  - do 2 eexists. split; [done|]. apply served_waf.
  - destruct (pick_finds_healthy_aux _ (clock w) Hne) as (u & up & Hp & Hu).
    pose proof (pick_next _ (clock w) Hne) as [_ Hups]. destruct (pick _ _) as [o p]. cbn in Hp, Hups. subst o.
    do 2 eexists. split; [done|]. split; [|left; by eapply lookup_lt_Some]. apply serves_moved.
    split; [by split; [unfold recorders_evolve|]|]. exists p. split; [done|]. by rewrite Hups.
  - destruct (upstream_of_lt u w Hs) as [up Hu]. unfold trip. rewrite Hu. cbn [option_bind mbind].
    destruct (negb _); do 2 eexists; (split; [done|]).
    + by split; [|left].
    + split; [|left; by destruct (ex_result _)]. apply serves_moved. etrans; [apply serves_clock|apply serves_early].
  - do 2 eexists. split; [done|]. split; [by apply serves_moved, serves_upstream|by left].
  - set (w1 := with_recorder _ _ _). assert (serves w w1) as Hw1
      by (etrans; [apply serves_upstream|apply serves_recorder, evolve_upstream]).
    destruct (_ =? 101); [destruct (upgrades _ _ _ _)|]; do 2 eexists; (split; [done|]); (split; [apply serves_moved|by (left + right)]).
    + etrans; [exact Hw1|apply serves_WriteHeader].
    + exact Hw1.
    + etrans; [exact Hw1|apply serves_respond].
  - destruct (upstream_of_lt u w Hs) as [up Hu]. rewrite Hu. cbn [option_bind mbind].
    do 2 eexists. split; [done|]. split; [by apply serves_moved, serves_upstream|by left].
  - do 2 eexists. split; [done|]. split; [|by left]. destruct (_ <=? _); [by apply serves_moved, serves_upstream|done].
  - destruct (retry_target retry u w) as [v|] eqn:Hr; do 2 eexists; (split; [done|]).
    + split; [done|left]. unfold retry_target in Hr. destruct (_ && _); [|done].
      apply pickOtherThan_some in Hr as (_ & upv & Hv & _). by eapply lookup_lt_Some.
    + split; [by apply serves_moved, serves_end_failed|by right].
Qed.

(** *** Alone: the pipeline *)

Definition astep : relation (flight * World Components) := fun a b => advance a.1 a.2 = Some b.

Lemma astep_go p fl w p' w' : advance (go p fl) w = Some (go p' fl, w') -> rtc astep (go p fl, w) (go p' fl, w').
Proof. intros Ha. by apply rtc_once. Qed.

Lemma rtc_remaining a b : rtc astep a b -> (remaining (fl_point b.1) <= remaining (fl_point a.1))%nat.
Proof.
  intros Hr. induction Hr as [a|a [fl w] c Ha _ IH]; [done|]. apply advance_remaining in Ha. cbn in *. lia.
Qed.

Lemma run_alone_rtc a b n :
  rtc astep a b -> fl_point b.1 = AtEnd -> (remaining (fl_point a.1) <= n)%nat -> run_alone n a.1 a.2 = b.
Proof.
  intros Hr Hend. revert n. induction Hr as [[fl w]|[fl w] [fl1 w1] b Ha _ IH]; intros n Hn; cbn in *.
  - destruct n; [done|]. cbn. unfold advance. by rewrite Hend.
  - unfold astep in Ha. cbn in Ha. pose proof (advance_remaining _ _ _ _ Ha). destruct n as [|n]; [lia|]. cbn. rewrite Ha.
    apply IH; [done|lia].
Qed.

Lemma at_upstream_same u f g w up :
  upstream_of u w = Some up -> f up = g up -> at_upstream u f w = at_upstream u g w.
Proof.
  intros Hu Hf. unfold at_upstream, upd_comp, upd_upstream, upstream_of in *.
  assert (alter f u (px_upstreams (part (comp w))) = alter g u (px_upstreams (part (comp w)))) as ->; [|done].
  apply list_alter_ext; [|done]. intros x Hx. congruence.
Qed.

Lemma at_upstream_twice u f g h w up :
  upstream_of u w = Some up -> g (f up) = h up -> at_upstream u g (at_upstream u f w) = at_upstream u h w.
Proof.
  intros Hu Hg. rewrite <- (at_upstream_same u (g ∘ f) h w up Hu Hg).
  unfold at_upstream, upd_comp, upd_upstream. cbn. by rewrite <- list_alter_alter_eq.
Qed.

(** The stores of a success, and of a failure, together. *)
Lemma success_steps u retry out res fl w :
  is_Some (upstream_of u w) ->
  let w' := hook_success u out (rs_status res) w in
  rtc astep (go (AtSuccess u retry out res) fl, w)
    (if rs_status res =? 101 then
       if upgrades the_writer out res w' then (go AtReturned fl, WriteHeader the_writer 101 w')
       else (go (AtFailure u retry out upgrade_error) fl, w')
     else (go AtReturned fl, respond the_writer res w')).
Proof.
  intros [up Hu]. cbn zeta. eapply rtc_l; [reflexivity|]. cbn [fst snd].
  assert (at_upstream u (store_until 0) (at_upstream u (store_count 0) w) = at_upstream u recordSuccess w) as Ht
    by (by eapply at_upstream_twice).
  apply rtc_once. unfold astep. cbn -[at_upstream with_recorder upgrades WriteHeader respond]. rewrite Ht.
  unfold hook_success. destruct (_ =? 101); [|done]. by destruct (upgrades _ _ _ _).
Qed.

Lemma failure_steps u retry out err fl w :
  is_Some (upstream_of u w) ->
  rtc astep (go (AtFailure u retry out err) fl, w) (go (AtRetry u retry out err) fl, failed u w).
Proof.
  intros [up Hu]. set (n := int32 (failureCount up + 1)).
  eapply rtc_l; [unfold astep; cbn -[at_upstream]; rewrite Hu; reflexivity|]. apply rtc_once. unfold astep. cbn -[at_upstream].
  do 2 f_equal. fold n. unfold failed. destruct (failureThreshold <=? n) eqn:Hn.
  - eapply at_upstream_twice; [done|]. unfold recordFailure. fold n. by rewrite Hn.
  - eapply at_upstream_same; [done|]. unfold recordFailure. fold n. by rewrite Hn.
Qed.

Lemma trip_upstream u q w res out w1 : trip u the_writer q w = Some (res, out, w1) -> is_Some (upstream_of u w1).
Proof.
  unfold trip. destruct (upstream_of u w) as [up|] eqn:Hu; [|done]. cbn [option_bind mbind].
  destruct (negb _); intros [= <- <- <-]; [by rewrite Hu|]. apply upstream_of_lt. unfold upstreams_of.
  destruct (serves_early the_writer (ex_early (RoundTrip (u_Host (up_url up)) (rewrite (up_url up) q) (clock w)))
    (upd_clock (ex_time (RoundTrip (u_Host (up_url up)) (rewrite (up_url up) q) (clock w))) w)) as [_ (p & -> & Hlen)].
  rewrite part_set, Hlen. by eapply lookup_lt_Some.
Qed.

Lemma trip_steps fuel : forall u retry q fl w w',
  rp_ServeHTTP fuel u retry the_writer q w = Some w' ->
  rtc astep (go (AtTrip u retry q) fl, w) (go AtReturned fl, w').
Proof.
  induction fuel as [|fuel IH]; intros u retry q fl w w' Hrp; [done|]. rewrite rp_ServeHTTP_trip in Hrp.
  destruct (trip u the_writer q w) as [[[res out] w1]|] eqn:Ht; [|done].
  assert (forall err w2, is_Some (upstream_of u w2) ->
    match retry_target retry u (failed u w2) with
    | Some next => rp_ServeHTTP fuel next false the_writer out (failed u w2)
    | None => Some (end_failed u err the_writer out (failed u w2))
    end = Some w' -> rtc astep (go (AtFailure u retry out err) fl, w2) (go AtReturned fl, w')) as Herr.
  { intros err w2 Hu He. etrans; [by apply failure_steps|].
    destruct (retry_target retry u (failed u w2)) as [v|] eqn:Hr.
    - eapply rtc_l; [unfold astep; cbn -[retry_target]; rewrite Hr; reflexivity|]. exact (IH v false out fl _ _ He).
    - apply rtc_once. unfold astep. cbn -[retry_target end_failed]. rewrite Hr. by injection He as <-. }
  pose proof (trip_upstream _ _ _ _ _ _ Ht) as Hu1.
  eapply rtc_l; [unfold astep; cbn -[trip]; rewrite Ht; reflexivity|].
  destruct res as [res|err]; [|by apply Herr].
  etrans; [by apply success_steps|]. cbn zeta in Hrp.
  destruct (rs_status res =? 101); [destruct (upgrades _ _ _ _)|].
  - by injection Hrp as <-.
  - apply Herr; [|exact Hrp]. apply upstream_of_lt. unfold upstreams_of.
    destruct (serves_hook u out (rs_status res) w1) as [_ (p & -> & Hlen)]. rewrite part_set, Hlen.
    destruct Hu1 as [up Hu1]. by eapply lookup_lt_Some.
  - by injection Hrp as <-.
Qed.

Lemma proxy_steps q fl w :
  px_upstreams (part (comp w)) <> [] ->
  rtc astep (go (AtPick q) fl, w) (go AtReturned fl, serveHTTP the_writer q w).
Proof.
  intros Hne. destruct (pick_finds_healthy_aux _ (clock w) Hne) as (u & up & Hp & Hu).
  pose proof (pick_next _ (clock w) Hne) as [_ Hups]. unfold serveHTTP.
  destruct (pick _ _) as [o p] eqn:Epick. cbn in Hp, Hups. subst o.
  destruct (rp_serves 2 u (isRetryable q) the_writer q (upd_comp (set_part p) w)) as (w' & Hw' & _).
  - destruct (isRetryable q); lia.
  - unfold upstream_of. change (part _ : Proxy) with p. rewrite Hups. exists up. exact Hu.
  - rewrite Hw'. cbn [default from_option].
    eapply rtc_l; [unfold astep, advance, proxy_step; cbn [fst snd go fl_point]; rewrite Epick; reflexivity|].
    exact (trip_steps 2 u (isRetryable q) q fl _ _ Hw').
Qed.

Lemma refused_step p fl w loc reason status rule :
  advance (go p fl) w = at_stage (go p fl) (refused_at loc reason status rule w) ->
  rtc astep (go p fl, w) (go AtReturned fl, WriteHeader the_writer status (mark loc reason rule w)).
Proof. intros Ha. by apply rtc_once. Qed.

(** The inner stages. *)
Lemma inner_steps q fl w loc rec :
  loops_ok (part (comp w)) -> px_upstreams (part (comp w)) <> [] -> RecorderFrom q w = Some (loc, rec) ->
  rtc astep (go (AtFilter q) fl, w) (go AtReturned fl, inner waf the_writer q w).
Proof.
  intros Hl Hne Hr. rewrite (inner_run waf the_writer q w loc rec (proj1 Hl) Hr). unfold judge.
  assert (advance (go (AtFilter q) fl) w = at_stage (go (AtFilter q) fl) (stage (FilterMiddleware part) AtLimiter q w)) as Hf by done.
  rewrite stage_filter, Hr in Hf. destruct (IsValid (clientIP rec)) eqn:Hv; cbn [negb] in Hf |- *.
  2: { rewrite upd_comp_id by done. by apply refused_step. }
  destruct (Allowed (part (comp w)) (clientIP rec)) as [ok reason]. destruct ok; cbn [negb] in Hf |- *.
  2: { rewrite upd_comp_id by done. by apply refused_step. }
  eapply rtc_l; [exact Hf|]. clear Hf.
  assert (advance (go (AtLimiter q) fl) w = at_stage (go (AtLimiter q) fl) (stage LimiterMiddleware AtWaf q w)) as Hf by done.
  rewrite (stage_limiter q w (proj1 Hl)), Hr, Hv, andb_false_r in Hf.
  destruct (take_token (part (comp w)) (r_path q) (clientIP rec) (clock w)) as [ok l]. cbv zeta in Hf. destruct ok; cbn [negb] in Hf |- *.
  2: by apply rtc_once.
  eapply rtc_l; [exact Hf|]. clear Hf. set (w1 := upd_comp (set_part l) w) in *.
  assert (advance (go (AtWaf q) fl) w1 = at_stage (go (AtWaf q) fl) (stage waf_mw AtPick q w1)) as Hf by done.
  rewrite stage_waf in Hf. assert (px_upstreams (part (comp w1)) <> []) as Hne1 by done.
  destruct waf as [e0|]; [|eapply rtc_l; [exact Hf|]; by apply (proxy_steps q fl)].
  change (part (comp w1)) with (part (comp w) : option Engine) in Hf.
  destruct (Inspect (default e0 (part (comp w))) q) as [[[rule|]|err] q'] eqn:Ei.
  - pose proof (Inspect_recorder _ _ _ _ Ei) as Hq.
    assert (RecorderFrom q' w1 = Some (loc, rec)) as Hr' by (unfold RecorderFrom in *; rewrite Hq; exact Hr).
    rewrite Hr' in Hf. by apply rtc_once.
  - eapply rtc_l; [exact Hf|]. by apply (proxy_steps q' fl).
  - eapply rtc_l; [exact Hf|]. by apply (proxy_steps q' fl).
Qed.

(** What follows the inner stages. *)
Lemma add_calls_nil w : add_calls [] w = w.
Proof. destruct w as [rs ss cn ck en [f [l [e [a [[path calls] [p d]]]]]]]. unfold add_calls, record, upd_comp. cbn. by rewrite app_nil_r. Qed.

Lemma add_calls_app cs cs' w : add_calls cs' (add_calls cs w) = add_calls (cs ++ cs') w.
Proof.
  destruct w as [rs ss cn ck en [f [l [e [a [[path calls] [p d]]]]]]]. unfold add_calls, record, upd_comp. cbn.
  by rewrite app_assoc.
Qed.

Lemma collect_steps cs fl w : rtc astep (go (AtCollect cs) fl, w) (called cs AtGauge fl, add_calls cs w).
Proof.
  revert fl w. induction cs as [|c cs IH]; intros fl w.
  - apply rtc_once. unfold astep. cbn. unfold called. by rewrite app_nil_r, add_calls_nil.
  - eapply rtc_l; [reflexivity|]. change (c :: cs) with ([c] ++ cs). rewrite <- add_calls_app.
    unfold called at 2. rewrite app_assoc. exact (IH (called [c] AtReturned fl) (add_calls [c] w)).
Qed.

Definition last_calls (fl : flight) w : list collector_call :=
  (if panicking w then [] else request_calls (snapshot_of (the_request fl) w) (Seconds (clock w - fl_start fl))) ++ [ActiveDec].

Definition last_entry (fl : flight) w : Entry :=
  make_entry (fl_start fl) (clock w - fl_start fl) (the_request fl) (snapshot_of (the_request fl) w)
    (default (mkStatusRecorder StatusOK 0 false) (statuses w !! 0%nat)) (fl_id fl).

Lemma outer_steps fl w :
  access_wf (part (comp w)) ->
  exists a fl', (if panicking w then a = part (comp w) else add_entry (last_entry fl w) (part (comp w)) = Some a) /\
    fl_point fl' = AtEnd /\
    rtc astep (go AtReturned fl, w) (fl', leave a (record (last_calls fl w) (part (comp w))) w).
Proof.
  intros Ha. unfold last_calls. destruct (panicking w) eqn:Hp.
  - exists (part (comp w)), (called [ActiveDec] AtEnd fl). split_and!; [done..|].
    eapply rtc_l; [unfold astep; cbn; rewrite Hp; reflexivity|]. apply rtc_once. unfold astep. cbn. rewrite Hp.
    destruct w as [rs ss cn ck en [f [l [e [a [[path calls] [p d]]]]]]]. done.
  - set (cs := request_calls _ _).
    destruct (add_entry_wf (last_entry fl w) _ Ha) as (a & Hadd & _).
    destruct (ring_Add (last_entry fl w) (al_ring (part (comp w)))) as [ring|] eqn:Hring.
    2: { unfold add_entry in Hadd. by rewrite Hring in Hadd. }
    set (fl1 := called [ActiveDec] AtRing (called cs AtGauge fl)). set (w1 := add_calls [ActiveDec] (add_calls cs w)).
    set (fl2 := mkFlight (fl_request fl1) (fl_start fl1) (fl_id fl1) (AtLine (last_entry fl w)) (fl_calls fl1) (Some (last_entry fl w))).
    exists a, (go AtEnd fl2). split_and!; [done..|].
    eapply rtc_l; [unfold astep; cbn; rewrite Hp; reflexivity|]. etrans; [apply (collect_steps cs fl w)|].
    apply rtc_l with (fl1, w1).
    { unfold astep, advance, proxy_step, metrics_step, access_step. cbn [fst snd fl_point called go]. change (panicking (add_calls cs w)) with (panicking w).
      by rewrite Hp. }
    eapply rtc_l.
    { unfold astep, advance, proxy_step, metrics_step, access_step. cbn [fst snd fl_point called go fl1]. change (al_ring (part (comp w1))) with (al_ring (part (comp w))).
      change (ring_Add _ _) with (ring_Add (last_entry fl w) (al_ring (part (comp w)))). rewrite Hring. reflexivity. }
    apply rtc_once. unfold astep, advance, proxy_step, metrics_step, access_step. cbn [fst snd fl_point go]. unfold add_entry in Hadd. rewrite Hring in Hadd.
    injection Hadd as <-. do 2 f_equal. unfold w1. rewrite add_calls_app.
    by destruct w as [rs ss cn ck en [f [l [e [a [[path calls] [p d]]]]]]].
Qed.

(** Through to the return of the inner stages, only what being served changes. *)
Lemma moved_ok w w' :
  moved w w' -> loops_ok (part (comp w)) -> px_upstreams (part (comp w)) <> [] ->
  loops_ok (part (comp w')) /\ px_upstreams (part (comp w')) <> [] /\ upstreams_of w' = upstreams_of w.
Proof.
  intros [_ (l & p & Hc & Hlen & Hk)] Hl Hne. unfold upstreams_of. rewrite Hc. destruct (comp w) as [f [l0 [e [a [m [p0 d]]]]]].
  cbn in *. split_and!; [auto| |done]. intros Hnil. apply Hne, nil_length_inv. by rewrite <- Hlen, Hnil.
Qed.

Lemma run_served a b :
  rtc astep a b -> loops_ok (part (comp a.2)) -> px_upstreams (part (comp a.2)) <> [] ->
  serving (upstreams_of a.2) (fl_point a.1) \/ fl_point a.1 = AtReturned -> fl_point b.1 = AtReturned -> moved a.2 b.2.
Proof.
  intros Hr. induction Hr as [a|[fl w] [fl1 w1] b Ha Hr IH]; intros Hl Hne Hs Hb; [done|]. cbn [fst snd] in *.
  unfold astep in Ha. cbn [fst snd] in Ha. destruct Hs as [Hs|Hs].
  - destruct (serving_step fl w Hl Hne Hs) as (p & w' & Ha' & Hm & Hp). rewrite Ha in Ha'. injection Ha' as -> ->.
    destruct (moved_ok _ _ Hm Hl Hne) as (Hl1 & Hne1 & Hu). etrans; [exact Hm|]. apply IH; [done|done| |done].
    by rewrite Hu.
  - apply advance_remaining in Ha. pose proof (rtc_remaining _ _ Hr) as Hrem. rewrite Hs in Ha. cbn [fst] in Hrem.
    rewrite Hb in Hrem. cbn in *. lia.
Qed.

(** The whole of a request that runs alone. *)
Lemma alone_steps r w :
  recorders w = [] -> statuses w = [] ->
  access_wf (part (comp w)) -> loops_ok (part (comp w)) -> px_upstreams (part (comp w)) <> [] ->
  exists fl, fl_point fl = AtEnd /\ rtc astep (arrival r, w) (fl, pipeline trusted waf ConnWriter r w).
Proof.
  intros Hrs Hss Ha Hl Hne. destruct w as [rs ss cn ck en c]. cbn in Hrs, Hss. subst rs ss. cbn [comp] in *.
  set (w := mkWorld [] [] cn ck en c). set (q := WithRecorder r 0). set (w0 := entry_world trusted r w).
  set (fl0 := mkFlight r ck (newRequestID w).1 (AtFilter q) [ActiveInc] None).
  set (w1 := inner waf the_writer q w0).
  assert (rtc astep (fl0, w0) (go AtReturned fl0, w1)) as Hin.
  { exact (inner_steps q fl0 w0 0%nat _ Hl Hne (entry_recorder trusted r w)). }
  pose proof (run_served _ _ Hin Hl Hne (or_introl I) eq_refl) as [[Hev Hlen] (l & p & Hc & _)]. cbn [fst snd] in *.
  pose proof (Forall2_lookup_l _ _ _ _ _ Hev (entry_recorder_lookup trusted r w)) as (rec & Hrec & _).
  destruct (lookup_lt_is_Some_2 (statuses w1) 0) as [sr Hsr]; [rewrite Hlen; cbn; lia|].
  assert ((part (comp w1) : Metrics) = record [ActiveInc] (part c)) as HM by (by rewrite Hc).
  assert ((part (comp w1) : AccessLog) = part c) as HA by (by rewrite Hc).
  destruct (outer_run trusted (inner waf) ConnWriter r w rec sr) as (a & Hlog & Hrun); [exact Ha|exact HM|exact HA|exact Hrec|exact Hsr|].
  change (inner waf (entry_writer ConnWriter w) (entry_request r w) (entry_world trusted r w)) with w1 in Hlog, Hrun.
  destruct (outer_steps fl0 w1) as (a' & fl' & Hlog' & Hend & Hout); [by rewrite HA|].
  assert (snapshot_of (the_request fl0) w1 = Snapshot_of rec) as Hsnap by (by apply (entry_snapshot r w)).
  assert (a' = a) as ->.
  { unfold logged in Hlog. unfold last_entry in Hlog'. rewrite Hsnap, Hsr, HA in Hlog'. cbn [default from_option id] in Hlog'.
    destruct (panicking w1); [exact (eq_trans Hlog' (eq_sym Hlog))|].
    pose proof (eq_trans (eq_sym Hlog') Hlog : Some a' = Some a) as [= He]. exact He. }
  exists fl'. split; [done|]. rewrite pipeline_outer, Hrun. eapply rtc_l; [reflexivity|].
  etrans; [exact Hin|]. etrans; [exact Hout|]. rewrite HM, record_record.
  unfold last_calls, calls_of, request_trace. change (entry_request r w) with (the_request fl0).
  change (fl_start fl0) with (clock w). by destruct (panicking w1).
Qed.

(** C5. A request that runs alone is the pipeline: in at most 26 steps it ends, and
    the connection, the components and all else are what [pipeline] makes of
    them. *)
Theorem alone_is_pipeline r w n :
  recorders w = [] -> statuses w = [] ->
  access_wf (part (comp w)) -> loops_ok (part (comp w)) -> px_upstreams (part (comp w)) <> [] -> (26 <= n)%nat ->
  fl_point (run_alone n (arrival r) w).1 = AtEnd /\
  (run_alone n (arrival r) w).2 = pipeline trusted waf ConnWriter r w.
Proof.
  intros Hrs Hss Ha Hl Hne Hn. destruct (alone_steps r w Hrs Hss Ha Hl Hne) as (fl & Hend & Hr).
  pose proof (run_alone_rtc _ _ n Hr Hend Hn) as Hrun. cbn [fst snd] in Hrun. by rewrite Hrun.
Qed.

End Step.
