(* ===== verification/Concurrent.v ===== *)
(** * Any number of requests at once

    The requests in flight, each where Requests puts it, share the components;
    what else a request needs (its recorder, its connection) is its own.  A
    step of the whole is the arrival of a request, a step of one of them, a
    reload, a request to the dashboard, or a change of the disk: whatever the
    order, the collectors and the access log account for every request. *)
From Corelib Require Import SpecFloat.
From stdpp Require Import relations.
From S2P Require Import Prelude GoStrings Patterns Netip Netmatch Config Http Httputil Middleware ClientIP Geoip IPFilter.
From S2P Require Import IPFilterProofs RateLimit RateStage Waf AccessLog Metrics Proxy Admin.
From S2P Require Import AdminProofs Dashboard Server Main Pipeline System ProxyFrame Requests.

(** ** Sums over the requests *)

Section Sums.
Context {A : Type}.

Fixpoint total (f : A -> Z) (xs : list A) : Z :=
  match xs with [] => 0 | x :: xs' => f x + total f xs' end.

Lemma total_ext (f g : A -> Z) xs : Forall (fun x => f x = g x) xs -> total f xs = total g xs.
Proof. induction 1 as [|x xs Hx _ IH]; cbn; [done|]. by rewrite Hx, IH. Qed.

Lemma total_minus (f g : A -> Z) xs : total (fun x => f x - g x) xs = total f xs - total g xs.
Proof. induction xs as [|x xs IH]; cbn; [done|]. rewrite IH. lia. Qed.

(** One element of a list replaced by one that has more. *)
Lemma bind_insert {B} (f : A -> list B) xs i x y d :
  xs !! i = Some x -> f y = f x ++ d -> (<[i := y]> xs ≫= f) ≡ₚ (xs ≫= f) ++ d.
Proof.
  intros Hi Hf. rewrite <- (take_drop_middle xs i x Hi) at 2. rewrite (insert_take_drop xs i y) by (by eapply lookup_lt_Some).
  rewrite !bind_app, !bind_cons, Hf. rewrite <- !(assoc_L (++)). apply Permutation_app_head, Permutation_app_head, Permutation_app_comm.
Qed.

End Sums.

Lemma count_perm p cs cs' : cs ≡ₚ cs' -> count p cs = count p cs'.
Proof. induction 1; cbn; lia. Qed.

Lemma count_bind {A} p (f : A -> list collector_call) xs : count p (xs ≫= f) = total (fun x => count p (f x)) xs.
Proof. induction xs as [|x xs IH]; cbn; [done|]. by rewrite count_app, IH. Qed.

(** ** The program with its requests *)

Section Pool.
Context `{IPSetLib} `{!IPSetSpec} `{MaxMindLib} `{UnicodeTables} `{RegexpLib} `{MapOrder} `{RateLib} `{Transport}.
Context `{!RulesYaml} `{ConfigEnv} `{ConfigYaml} `{!UrlParse} `{!AppendFiles} `{ServerLib}.
Context `{StateJson} `{!AdminEnv} `{!ApiJson} `{LetterTables}.
Context (trusted : Matcher) (waf : option Engine).

(** A request in flight: where it is, and the world but for the components. *)
Definition in_flight : Type := flight * World unit.

Definition land (c : Components) (now : Z) (l : World unit) : World Components :=
  mkWorld (recorders l) (statuses l) (conn l) now (entropy l) c.

Definition take_off (w : World Components) : World unit :=
  mkWorld (recorders w) (statuses w) (conn w) (clock w) (entropy w) tt.

(** What moves the components other than requests.  A reload swaps the rules,
    the lists and the limits one after the other ([reload_is_outside]). *)
Inductive outside_step : Components -> Components -> Prop :=
  | outside_rules (fs : Files) path e c :
      (part c : option Engine) = Some e ->
      outside_step c (set_part (Some (EngineReload e path).2) c)
  | outside_lists cfg c :
      Forall valid_cidr (il_Allow cfg) -> Forall valid_cidr (il_Deny cfg) ->
      outside_step c (set_part (IPFilter.Reload cfg (part c)).2 c)
  | outside_limits cfg c :
      outside_step c (set_part (RateStage.Reload (part c) cfg) c)
  | outside_dashboard s static redirect r (w : World Components) :
      (forall rw r w, comp (static rw r w) = comp w) ->
      (forall path rw r w, comp (redirect path rw r w) = comp w) ->
      outside_step (comp w) (comp (AdminHandler s static redirect ConnWriter r w))
  | outside_disk (d : Disk) c :
      outside_step c (set_part d c).

Inductive pool_step : Components * list in_flight -> Components * list in_flight -> Prop :=
  | pool_arrives r hijackable now en c fs :
      pool_step (c, fs) (c, fs ++ [(arrival r, mkWorld [] [] (fresh_conn hijackable) now en tt)])
  | pool_advances i now c fs fl l fl' w' :
      fs !! i = Some (fl, l) -> advance trusted waf fl (land c now l) = Some (fl', w') ->
      pool_step (c, fs) (comp w', <[i := (fl', take_off w')]> fs)
  | pool_outside c c' fs :
      outside_step c c' -> pool_step (c, fs) (c', fs).

Lemma reload_is_outside `{Files} path c : rtc outside_step c (reloadOnce path c).2.
Proof.
  destruct (Load path) as [cfg|err] eqn:Hl; [|unfold reloadOnce; by rewrite Hl].
  pose proof (Load_valid _ _ Hl) as (_ & _ & _ & (HA & HD & _) & _).
  assert (forall c, rtc outside_step c (lists_then_limits cfg c).2) as Hrest.
  { clear c. intros c. eapply rtc_l; [by apply (outside_lists (c_IPLists cfg))|]. unfold lists_then_limits.
    destruct (IPFilter.Reload _ _) as [[[]|err] f]; cbn [wrap_err snd]; [|done]. apply rtc_once, outside_limits. }
  unfold reloadOnce. rewrite Hl. cbn [wrap_err]. destruct (part c : option Engine) as [e|] eqn:He; [|apply Hrest].
  eapply rtc_l; [by apply (outside_rules _ (wc_RulesFile (c_WAF cfg)) e)|].
  destruct (EngineReload e _) as [[[]|err] e']; cbn [wrap_err snd]; [apply Hrest|done].
Qed.

Lemma outside_keeps c c' :
  outside_step c c' -> firewall_ok c ->
  firewall_ok c' /\ (part c' : AccessLog) = part c /\ (part c' : Metrics) = part c /\ (part c' : Proxy) = part c.
Proof.
  intros Hs Hok. destruct Hs as [fs path e c He|cfg c HA HD|cfg c|s static redirect r w Hst Hrd|d c].
  - split; [by apply rules_firewall|]. by destruct c as [f [l [e0 [a [m [p d]]]]]].
  - split; [by apply lists_firewall|]. by destruct c as [f [l [e0 [a [m [p d]]]]]].
  - split; [by apply limits_firewall|]. by destruct c as [f [l [e0 [a [m [p d]]]]]].
  - destruct Hok as [Hd Hg Hl].
    destruct (AdminHandler_geo s static redirect ConnWriter r w Hst Hrd) as [Hgeo Hheap]. unfold the_filter in Hgeo, Hheap.
    split; [split; [by apply AdminHandler_ok|by rewrite Hgeo, Hheap|by rewrite AdminHandler_other]|].
    by rewrite !AdminHandler_other.
  - by destruct Hok, c as [f [l [e [a [m [p d0]]]]]].
Qed.

(** ** What a request has done so far *)

Definition snap_of (x : in_flight) : Snapshot := snapshot_of (the_request x.1) x.2.

(** The calls of its collectors after the first, when all are made. *)
Definition later_calls (x : in_flight) (latency : Z) : list collector_call :=
  (if panicking x.2 then [] else request_calls (snap_of x) (Seconds latency)) ++ [ActiveDec].

Definition its_entry (x : in_flight) (latency : Z) : Entry :=
  make_entry (fl_start x.1) latency (the_request x.1) (snap_of x)
    (default (mkStatusRecorder StatusOK 0 false) (statuses x.2 !! 0%nat)) (fl_id x.1).

(** How a request ends: it has called the collectors for what its recorder says,
    and logged that, or neither when its handler panicked. *)
Definition well_ended (x : in_flight) : Prop :=
  snapshot_wf (snap_of x) /\
  (exists d, fl_calls x.1 = ActiveInc :: later_calls x d) /\
  if panicking x.2 then fl_entry x.1 = None else exists d, fl_entry x.1 = Some (its_entry x d).

Definition owed (p : point) : list collector_call :=
  match p with AtCollect cs => cs ++ [ActiveDec] | AtGauge => [ActiveDec] | _ => [] end.

Definition has_recorder (l : World unit) : Prop := exists rec, recorders l !! 0%nat = Some rec /\ recorder_wf rec.

(** The entry, by where the request is. *)
Definition entry_ok (x : in_flight) : Prop :=
  match fl_point x.1 with
  | AtCollect _ | AtRing => panicking x.2 = false /\ fl_entry x.1 = None
  | AtLine e => panicking x.2 = false /\ fl_entry x.1 = Some e /\ exists d, e = its_entry x d
  | AtEnd => if panicking x.2 then fl_entry x.1 = None else exists d, fl_entry x.1 = Some (its_entry x d)
  | _ => fl_entry x.1 = None
  end.

Definition flight_ok (n : nat) (x : in_flight) : Prop :=
  entry_ok x /\
  match fl_point x.1 with
  | AtEntry => recorders x.2 = [] /\ statuses x.2 = [] /\ fl_calls x.1 = []
  | AtCollect _ | AtGauge | AtRing | AtLine _ | AtEnd =>
      has_recorder x.2 /\ exists made d, fl_calls x.1 = ActiveInc :: made /\ made ++ owed (fl_point x.1) = later_calls x d
  | p => has_recorder x.2 /\ fl_calls x.1 = [ActiveInc] /\ (serving n p \/ p = AtReturned)
  end.

(** The lines of the log it has written. *)
Definition fl_lines (x : in_flight) : list Entry :=
  match fl_point x.1 with AtEnd => option_list (fl_entry x.1) | _ => [] end.

(** The components after a step of a request, and what the request has done. *)
Record effect (x y : in_flight) (c c' : Components) : Prop := {
  ef_request : fl_request y.1 = fl_request x.1;
  ef_filter : (part c' : Filter) = part c;
  ef_engine : (part c' : option Engine) = part c;
  ef_limiter : loops_ok (part c) -> loops_ok (part c');
  ef_proxy : length (px_upstreams (part c')) = length (px_upstreams (part c));
  ef_calls : exists cs, fl_calls y.1 = fl_calls x.1 ++ cs /\ mt_calls (part c') = mt_calls (part c) ++ cs;
  ef_ring : exists es, option_list (fl_entry y.1) = option_list (fl_entry x.1) ++ es /\
    forall h, ring_wf (al_ring (part c)) h -> ring_wf (al_ring (part c')) (h ++ es);
  ef_lines : exists ls, fl_lines y = fl_lines x ++ ls /\
    al_lines (part c') = al_lines (part c) ++ (if al_level (part c) <=? 0 then ls else []);
  ef_level : al_level (part c') = al_level (part c)
}.

(** ** Each step keeps it *)

Lemma flight_ok_served n fl l :
  serving n (fl_point fl) \/ fl_point fl = AtReturned ->
  flight_ok n (fl, l) <-> fl_entry fl = None /\ has_recorder l /\ fl_calls fl = [ActiveInc].
Proof.
  intros Hs. unfold flight_ok, entry_ok. cbn [fst snd].
  destruct (fl_point fl); try (by destruct Hs); naive_solver.
Qed.

Lemma has_recorder_evolves (w w' : World Components) :
  recorders_evolve w w' -> has_recorder (take_off w) -> has_recorder (take_off w').
Proof.
  intros Hev (rec & Hrec & Hwf). pose proof (Forall2_lookup_l _ _ _ _ _ Hev Hrec) as (rec' & Hrec' & _ & _ & Hk).
  exists rec'. split; [exact Hrec'|auto].
Qed.

(** A step that changes no component, and does not end the request. *)
Lemma effect_idle fl l p l' c : fl_point fl <> AtEnd -> p <> AtEnd -> effect (fl, l) (go p fl, l') c c.
Proof.
  intros Hp Hp'. split; try done; exists []; rewrite ?app_nil_r; try done.
  - split; [done|]. intros h. by rewrite app_nil_r.
  - unfold fl_lines. cbn. destruct (fl_point fl), p; try done; by destruct (al_level _ <=? 0); rewrite app_nil_r.
Qed.

Lemma effect_served fl l p now c (w' : World Components) :
  fl_point fl <> AtEnd -> p <> AtEnd -> moved (land c now l) w' -> effect (fl, l) (go p fl, take_off w') c (comp w').
Proof.
  intros Hp Hp' [_ (lm & px & Hc & Hlen & Hl)]. cbn in Hc, Hlen, Hl. destruct (effect_idle fl l p (take_off w') c Hp Hp').
  rewrite Hc. destruct c as [f [l0 [e [a [m [p0 d]]]]]]. by split.
Qed.

Lemma serving_not_ended n p : serving n p \/ p = AtReturned -> p <> AtEnd.
Proof. intros [Hs|Hs] He; subst; done. Qed.

Section One.
Variables (c : Components) (now : Z).
Hypothesis Hlimiter : loops_ok (part c).
Hypothesis Hproxy : px_upstreams (part c) <> [].
Hypothesis Hlog : access_wf (part c).

Let n := length (px_upstreams (part c)).

Definition steps_well (fl : flight) (l : World unit) : Prop :=
  exists fl' w', advance trusted waf fl (land c now l) = Some (fl', w') /\
    flight_ok n (fl', take_off w') /\ effect (fl, l) (fl', take_off w') c (comp w').

Lemma serving_steps_well fl l :
  serving n (fl_point fl) -> flight_ok n (fl, l) -> steps_well fl l.
Proof.
  intros Hs Hok. apply flight_ok_served in Hok as (He & Hr & Hc); [|by left].
  destruct (serving_step trusted waf fl (land c now l) Hlimiter Hproxy Hs) as (p & w' & Ha & Hm & Hp).
  exists (go p fl), w'. split; [exact Ha|]. split.
  - apply flight_ok_served; [exact Hp|]. split_and!; [done| |done]. destruct Hm as [[Hev _] _]. by apply (has_recorder_evolves (land c now l)).
  - apply (effect_served fl l p now c w'); [|by eapply serving_not_ended|exact Hm]. by eapply serving_not_ended; left.
Qed.

Lemma entry_steps_well fl l : fl_point fl = AtEntry -> flight_ok n (fl, l) -> steps_well fl l.
Proof.
  intros Hp [He Hok]. unfold entry_ok in He. cbn [fst snd] in He, Hok. rewrite Hp in He, Hok. destruct Hok as (Hr & Hs & Hc).
  set (w := land c now l). eexists _, (entry_world trusted (fl_request fl) w).
  split; [unfold advance; rewrite Hp; reflexivity|]. split.
  - apply flight_ok_served; [by left|]. split_and!; [done| |done].
    pose proof (entry_recorder_lookup trusted (fl_request fl) w) as Hlook.
    change (recorders w) with (recorders l) in Hlook. rewrite Hr in Hlook. eexists. split; [exact Hlook|by left].
  - destruct c as [f [l0 [e [a [m [p0 d]]]]]]. split; try done; cbn [fst snd fl_calls fl_entry].
    + exists [ActiveInc]. split; [by rewrite Hc|done].
    + exists []. rewrite app_nil_r. split; [done|]. intros h. by rewrite app_nil_r.
    + exists []. unfold fl_lines. cbn. rewrite Hp. split; [done|]. by destruct (al_level a <=? 0); rewrite app_nil_r.
Qed.

Lemma returned_steps_well fl l : fl_point fl = AtReturned -> flight_ok n (fl, l) -> steps_well fl l.
Proof.
  intros Hp Hok. apply flight_ok_served in Hok as (He & Hr & Hc); [|by right]. unfold steps_well, advance, metrics_step, access_step. rewrite Hp.
  change (panicking (land c now l)) with (panicking l).
  destruct (panicking l) eqn:Hpan; eexists _, _; (split; [reflexivity|]); (split; [|apply effect_idle; by rewrite ?Hp]).
  - split; [done|]. split; [done|]. exists [], 0. split; [exact Hc|]. unfold later_calls.
    change (panicking (go AtGauge fl, take_off (land c now l)).2) with (panicking l). by rewrite Hpan.
  - split; [done|]. split; [done|]. exists [], (now - fl_start fl). split; [exact Hc|]. unfold later_calls.
    match goal with |- context [if panicking ?w then _ else _] => change (panicking w) with (panicking l) end. by rewrite Hpan.
Qed.

(** A call on a collector. *)
Lemma effect_calls fl l cs p l' (w' : World Components) :
  fl_point fl <> AtEnd -> (p = AtEnd -> fl_entry fl = None) -> comp w' = set_part (record cs (part c)) c ->
  effect (fl, l) (called cs p fl, l') c (comp w').
Proof.
  intros Hp Hp' ->. destruct c as [f [l0 [e [a [m [p0 d]]]]]]. split; try done; cbn [fst snd called fl_calls fl_entry].
  - by exists cs.
  - exists []. rewrite app_nil_r. split; [done|]. intros h. by rewrite app_nil_r.
  - exists []. unfold fl_lines. cbn. split; [|by destruct (al_level a <=? 0); rewrite app_nil_r].
    destruct (fl_point fl), p; try done; by rewrite (Hp' eq_refl).
Qed.

Lemma collect_steps_well cs fl l : fl_point fl = AtCollect cs -> flight_ok n (fl, l) -> steps_well fl l.
Proof.
  intros Hp [He Hok]. unfold entry_ok in He. cbn [fst snd] in He, Hok. rewrite Hp in He, Hok. destruct He as [Hpan He].
  destruct Hok as (Hr & made & d & Hc & Hm). unfold steps_well, advance, metrics_step, access_step. rewrite Hp.
  destruct cs as [|call cs]; eexists _, _; (split; [reflexivity|]).
  - split; [|apply effect_idle; by rewrite ?Hp]. split; [exact He|]. split; [done|]. by exists made, d.
  - split; [|apply effect_calls; [by rewrite Hp|done|done]]. split; [done|]. split; [done|].
    exists (made ++ [call]), d. split; [cbn; by rewrite Hc|]. rewrite <- (assoc_L (++)). exact Hm.
Qed.

Lemma gauge_steps_well fl l : fl_point fl = AtGauge -> flight_ok n (fl, l) -> steps_well fl l.
Proof.
  intros Hp [He Hok]. unfold entry_ok in He. cbn [fst snd] in He, Hok. rewrite Hp in He, Hok.
  destruct Hok as (Hr & made & d & Hc & Hm). unfold steps_well, advance, metrics_step, access_step. rewrite Hp.
  change (panicking (land c now l)) with (panicking l).
  eexists _, _; (split; [reflexivity|]). split; [|apply effect_calls; [by rewrite Hp|done|done]].
  assert (exists made' d', fl_calls fl ++ [ActiveDec] = ActiveInc :: made' /\ made' ++ [] = later_calls (fl, l) d') as Hlater.
  { exists (made ++ [ActiveDec]), d. split; [by rewrite Hc|]. by rewrite app_nil_r. }
  destruct (panicking l) eqn:Hpan; (split; [|by split]); unfold entry_ok; cbn [fst snd called fl_point fl_entry].
  - change (panicking (take_off _)) with (panicking l). by rewrite Hpan.
  - done.
Qed.

Lemma ring_steps_well fl l : fl_point fl = AtRing -> flight_ok n (fl, l) -> steps_well fl l.
Proof.
  intros Hp [He Hok]. unfold entry_ok in He. cbn [fst snd] in He, Hok. rewrite Hp in He, Hok. destruct He as [Hpan He].
  destruct Hok as (Hr & made & d & Hc & Hm). unfold steps_well, advance, metrics_step, access_step. rewrite Hp.
  set (e := make_entry _ _ _ _ _ _). destruct Hlog as [h0 Hh0].
  destruct (ring_Add_wf e (al_ring (part c)) h0 Hh0) as (rb & Hadd & _ & _).
  change (al_ring (part (comp (land c now l)))) with (al_ring (part c)). rewrite Hadd. cbn [option_bind mbind].
  eexists _, _; (split; [reflexivity|]). split.
  - split; [split_and!; [done|done|by exists (now - fl_start fl)]|]. split; [done|]. by exists made, d.
  - destruct c as [f [l0 [e0 [a [m [p0 d0]]]]]]. split; try done; cbn [fst snd fl_calls fl_entry].
    + exists []. by rewrite !app_nil_r.
    + exists [e]. rewrite He. split; [done|]. intros h Hh. destruct (ring_Add_wf e _ h Hh) as (rb' & Hadd' & Hwf & _).
      cbn in Hadd, Hadd'. rewrite Hadd in Hadd'. by injection Hadd' as ->.
    + exists []. unfold fl_lines. cbn. rewrite Hp. split; [done|]. by destruct (al_level a <=? 0); rewrite app_nil_r.
Qed.

Lemma line_steps_well e fl l : fl_point fl = AtLine e -> flight_ok n (fl, l) -> steps_well fl l.
Proof.
  intros Hp [He Hok]. unfold entry_ok in He. cbn [fst snd] in He, Hok. rewrite Hp in He, Hok. destruct He as (Hpan & He & d & ->).
  destruct Hok as (Hr & made & d' & Hc & Hm). unfold steps_well, advance, metrics_step, access_step. rewrite Hp.
  eexists _, _; (split; [reflexivity|]). split.
  - split; [|split; [done|]; by exists made, d']. unfold entry_ok. cbn [fst snd go fl_point fl_entry].
    change (panicking (take_off _)) with (panicking l). rewrite Hpan. by exists d.
  - destruct c as [f [l0 [e0 [a [m [p0 d0]]]]]]. split; try done; cbn [fst snd fl_calls fl_entry go].
    + exists []. by rewrite !app_nil_r.
    + exists []. rewrite app_nil_r. split; [done|]. intros h. rewrite app_nil_r. cbn. unfold logEntry. by destruct (al_level a <=? 0).
    + exists [its_entry (fl, l) d]. unfold fl_lines. cbn [fst snd go fl_point fl_entry]. rewrite Hp, He. split; [done|].
      cbn. unfold logEntry. by destruct (al_level a <=? 0); rewrite ?app_nil_r.
    + cbn. unfold logEntry. by destruct (al_level a <=? 0).
Qed.

(** A request that has not ended takes a step. *)
Lemma flight_steps_well fl l : flight_ok n (fl, l) -> fl_point fl <> AtEnd -> steps_well fl l.
Proof.
  intros Hok Hne. destruct (fl_point fl) eqn:Hp; try done;
    first [by apply entry_steps_well | by apply returned_steps_well | by eapply collect_steps_well
          | by apply gauge_steps_well | by apply ring_steps_well | by eapply line_steps_well
          | apply serving_steps_well; [|done]; rewrite Hp; destruct Hok as [_ Hok]; cbn in Hok; rewrite Hp in Hok;
            destruct Hok as (_ & _ & [Hs|Hs]); [exact Hs|discriminate Hs]].
Qed.

End One.

(** ** The invariant of the whole *)

(** What the shared collectors and log hold is what the requests did, in the
    order in which they did it, which need not be the same for the ring and the
    lines. *)
Record accounted (c0 c : Components) (fs : list in_flight) : Prop := {
  ac_calls : mt_calls (part c) ≡ₚ mt_calls (part c0) ++ (fs ≫= fun x => fl_calls x.1);
  ac_ring : forall h0, ring_wf (al_ring (part c0)) h0 ->
    exists h, ring_wf (al_ring (part c)) (h0 ++ h) /\ h ≡ₚ (fs ≫= fun x => option_list (fl_entry x.1));
  ac_lines : exists ls, al_lines (part c) = al_lines (part c0) ++ (if al_level (part c0) <=? 0 then ls else []) /\
    ls ≡ₚ (fs ≫= fl_lines);
  ac_level : al_level (part c) = al_level (part c0)
}.

Record pool_ok (c0 c : Components) (fs : list in_flight) : Prop := {
  po_firewall : firewall_ok c;
  po_log : access_wf (part c);
  po_proxy : px_upstreams (part c) <> [];
  po_flights : Forall (flight_ok (length (px_upstreams (part c)))) fs;
  po_accounted : accounted c0 c fs
}.

Lemma pool_ok_start c : system_ok c -> pool_ok c c [].
Proof.
  intros [Hd Hg Hl Ha Hm Hp]. split; [by split|done|done|done|]. split; [by rewrite app_nil_r| | |done].
  - intros h0 Hh0. exists []. by rewrite app_nil_r.
  - exists []. split; [|done]. by destruct (_ <=? 0); rewrite app_nil_r.
Qed.

Lemma effect_accounted c0 c c' fs i x y :
  fs !! i = Some x -> effect x y c c' -> accounted c0 c fs -> accounted c0 c' (<[i := y]> fs).
Proof.
  intros Hi [_ _ _ _ _ (cs & Hcs & Hmt) (es & Hes & Hring) (ls & Hls & Hlines) Hlevel] [Ac Ar (ls0 & Hl0 & Hp0) Alv]. split.
  - rewrite Hmt, Ac. rewrite (bind_insert (fun x : in_flight => fl_calls x.1) fs i x y cs Hi Hcs). by rewrite (assoc_L (++)).
  - intros h0 Hh0. destruct (Ar h0 Hh0) as (h & Hh & Hperm). exists (h ++ es). split; [rewrite (assoc_L (++)); by apply Hring|].
    by rewrite Hperm, (bind_insert (fun x : in_flight => option_list (fl_entry x.1)) fs i x y es Hi Hes).
  - exists (ls0 ++ ls). split; [|by rewrite Hp0, (bind_insert fl_lines fs i x y ls Hi Hls)].
    rewrite Hlines, Hl0, Alv. destruct (al_level (part c0) <=? 0); [by rewrite (assoc_L (++))|by rewrite !app_nil_r].
  - by rewrite Hlevel.
Qed.

Lemma pool_step_ok c0 c fs c' fs' :
  access_wf (part c0) -> pool_step (c, fs) (c', fs') -> pool_ok c0 c fs -> pool_ok c0 c' fs'.
Proof.
  intros [h0 Hh0] Hs [Hf Ha Hp Hfs Hac].
  inversion Hs as [r hj now en ? ? Ec Efs|i now ? ? fl l fl' w' Hi Hadv Ec Efs|? ? ? Hout Ec Efs]; subst.
  - split; try done; [apply Forall_app_2; [done|by constructor]|]. destruct Hac as [Ac Ar Al Alv].
    split; rewrite ?bind_app; cbn; rewrite ?app_nil_r; done.
  - pose proof (Forall_lookup_1 _ _ _ _ Hfs Hi) as Hok.
    assert (fl_point fl <> AtEnd) as Hne by (intros He; unfold advance in Hadv; by rewrite He in Hadv).
    destruct (flight_steps_well c now (fo_limiter _ Hf) Hp Ha fl l Hok Hne) as (fl1 & w1 & Hadv' & Hok' & Heff).
    rewrite Hadv in Hadv'. injection Hadv' as <- <-.
    pose proof (effect_accounted _ _ _ _ _ _ _ Hi Heff Hac) as Hac'.
    destruct Heff as [_ Hfil Heng Hlim Hpx _ _ _ _]. destruct Hf as [Hd Hg Hl].
    split; [split; [by rewrite Hfil, Heng|by rewrite Hfil|auto]| | |by rewrite Hpx; apply Forall_insert|done].
    + destruct (ac_ring _ _ _ Hac' h0 Hh0) as (h & Hh & _). by eexists.
    + intros Hnil. apply Hp, nil_length_inv. by rewrite <- Hpx, Hnil.
  - destruct (outside_keeps _ _ Hout Hf) as (Hf' & HA & HM & HP). destruct Hac as [Ac Ar Al Alv].
    split; rewrite ?HA, ?HP; try done. split; by rewrite ?HA, ?HM.
Qed.

Lemma pool_steps_ok c0 c fs :
  system_ok c0 -> rtc pool_step (c0, []) (c, fs) -> pool_ok c0 c fs.
Proof.
  intros Hok Hr. pose proof (so_log _ Hok) as Ha. pose proof (pool_ok_start c0 Hok) as Hpool.
  assert (forall s s', rtc pool_step s s' -> pool_ok c0 s.1 s.2 -> pool_ok c0 s'.1 s'.2) as Hall.
  { intros s s' Hsteps. induction Hsteps as [s|[c1 fs1] [c2 fs2] s Hstep _ IH]; intros Hs; [done|].
    apply IH. by eapply pool_step_ok. }
  exact (Hall _ _ Hr Hpool).
Qed.

(** ** What the collectors show meanwhile *)

(** Between the gauge's two calls. *)
Definition gauged (x : in_flight) : bool :=
  match fl_point x.1 with AtEntry | AtRing | AtLine _ | AtEnd => false | _ => true end.

(** Answered without a panic, with this outcome. *)
Definition counted (o : string) (x : in_flight) : bool := negb (panicking x.2) && String.eqb (s_Outcome (snap_of x)) o.

Definition ended (x : in_flight) : Prop := fl_point x.1 = AtEnd.

Definition quiet (c : collector_call) : Prop := match c with ActiveInc | ActiveDec => False | _ => True end.

Definition net (cs : list collector_call) : Z :=
  count (fun c => match c with ActiveInc => true | _ => false end) cs -
  count (fun c => match c with ActiveDec => true | _ => false end) cs.

Lemma net_app cs cs' : net (cs ++ cs') = net cs + net cs'.
Proof. unfold net. rewrite !count_app. lia. Qed.

Lemma net_quiet cs : Forall quiet cs -> net cs = 0.
Proof. unfold net. induction 1 as [|c cs Hc _ IH]; [done|]. destruct c; cbn -[Z.add] in *; done || lia. Qed.

Lemma request_calls_quiet snap latency : Forall quiet (request_calls snap latency).
Proof. unfold request_calls. repeat case_match; cbn; by repeat constructor. Qed.

Lemma flight_gauge n x : flight_ok n x -> net (fl_calls x.1) = bool_Z (gauged x).
Proof.
  intros [_ Hok]. unfold gauged.
  assert (forall made d cs, made ++ cs = later_calls x d -> exists rest, Forall quiet rest /\ made ++ cs = rest ++ [ActiveDec]) as Hlater.
  { intros made d cs ->. unfold later_calls. eexists. split; [|reflexivity]. destruct (panicking x.2); [done|apply request_calls_quiet]. }
  destruct (fl_point x.1) as [| | | | | | | | | | | |cs| | |e|]; cbn [owed] in Hok; try (by destruct Hok as (_ & -> & _)); try (by destruct Hok as (_ & _ & ->)).
  all: destruct Hok as (_ & made & d & -> & Hm); apply Hlater in Hm as (rest & Hq & Hm); change (ActiveInc :: made) with ([ActiveInc] ++ made); rewrite net_app.
  - rewrite (assoc_L (++)) in Hm. apply app_inj_tail in Hm as [Hm _]. rewrite <- Hm in Hq. apply Forall_app in Hq as [Hq _]. by rewrite (net_quiet _ Hq).
  - apply app_inj_tail in Hm as [-> _]. by rewrite (net_quiet _ Hq).
  - rewrite app_nil_r in Hm. rewrite Hm, net_app, (net_quiet _ Hq). done.
  - rewrite app_nil_r in Hm. rewrite Hm, net_app, (net_quiet _ Hq). done.
  - rewrite app_nil_r in Hm. rewrite Hm, net_app, (net_quiet _ Hq). done.
Qed.

Lemma accounted_tally p c0 c fs :
  accounted c0 c fs -> tally p (part c) = tally p (part c0) + total (fun x => count p (fl_calls x.1)) fs.
Proof. intros [Hc _ _ _]. unfold tally. by rewrite (count_perm p _ _ Hc), count_app, count_bind. Qed.

Lemma flight_ended n x : flight_ok n x -> ended x -> well_ended x.
Proof.
  intros [He Hok] Hend. unfold ended in Hend. unfold entry_ok in He. rewrite Hend in *.
  destruct Hok as ((rec & Hrec & Hwf) & made & d & Hc & Hm). split; [|split; [|exact He]].
  - unfold snap_of, snapshot_of, RecorderFrom. cbn. rewrite Hrec. cbn. by destruct Hwf; [left|right].
  - exists d. cbn in Hm. rewrite app_nil_r in Hm. by rewrite Hc, Hm.
Qed.

(** A request that has ended counts once, under its outcome, or not at all. *)
Lemma ended_agrees x (m : Metrics) : well_ended x -> metrics_agree m -> metrics_agree (record (fl_calls x.1) m).
Proof.
  intros (Hwf & (d & ->) & _) Hm. unfold later_calls. destruct (panicking x.2) eqn:Hp.
  - pose proof (calls_of_panic (the_request x.1) 0 x.2 m Hp) as (_ & _ & Hk). unfold calls_of in Hk. rewrite Hp in Hk. by apply Hk.
  - exact (request_keeps_agreement _ (Seconds d) m Hwf Hm).
Qed.

Lemma ended_counts o x :
  well_ended x -> count (is_inc requestsTotal [o]) (fl_calls x.1) = bool_Z (counted o x).
Proof.
  intros (Hwf & (d & ->) & _). unfold later_calls, counted. destruct (panicking x.2); [done|]. cbn [negb andb].
  destruct (request_trace_tallies (snap_of x) (Seconds d) (Metrics.New "") Hwf) as (_ & Hc & _). specialize (Hc o).
  unfold counter in Hc. rewrite tally_record in Hc. cbn [app] in Hc. change (tally _ (Metrics.New "")) with 0 in Hc.
  rewrite !Z.add_0_l in Hc. change (ActiveInc :: ?l) with (request_trace (snap_of x) (Seconds d)). etrans; [exact Hc|].
  f_equal. destruct (String.eqb_spec (s_Outcome (snap_of x)) o); case_bool_decide; congruence.
Qed.

Lemma agree_perm path path' cs cs' : cs ≡ₚ cs' -> metrics_agree (mkMetrics path cs) -> metrics_agree (mkMetrics path' cs').
Proof.
  intros Hp [Hl Hb Ho Hu]. unfold observations, counter, counter_sum, tally in *. cbn [mt_calls] in *.
  split; unfold observations, counter, counter_sum, tally; cbn [mt_calls]; intros; by rewrite <- !(count_perm _ _ _ Hp).
Qed.

Lemma ended_all_agree fs (m : Metrics) :
  Forall well_ended fs -> metrics_agree m -> metrics_agree (record (fs ≫= fun x => fl_calls x.1) m).
Proof.
  intros Hfs. revert m. induction Hfs as [|x fs Hx _ IH]; intros m Hm.
  - cbn. destruct m. unfold record. cbn. by rewrite app_nil_r.
  - rewrite bind_cons, <- record_record. apply IH. by apply ended_agrees.
Qed.

Lemma pool_active c0 c fs :
  pool_ok c0 c fs -> active (part c) = active (part c0) + total (fun x => bool_Z (gauged x)) fs.
Proof.
  intros [_ _ _ Hfs Hac]. unfold active. rewrite !(accounted_tally _ _ _ _ Hac).
  assert (total (fun x => net (fl_calls x.1)) fs = total (fun x => bool_Z (gauged x)) fs) as <-.
  { apply total_ext. eapply Forall_impl; [exact Hfs|]. intros x. apply flight_gauge. }
  unfold net. rewrite total_minus. lia.
Qed.

(** C4. However requests interleave with each other, with reloads and with the
    dashboard: the calls the collectors got are those of the requests, each made
    once; the ring and the lines of the access log hold the entries the requests
    made, each once; the gauge is the number of requests between its two calls;
    a request that has ended is logged and counted as its recorder says, or, if
    its handler panicked, in neither; and once all have ended the collectors
    agree, with one request more under its outcome for each that returned. *)
Theorem requests_accounted c0 c fs :
  system_ok c0 -> rtc pool_step (c0, []) (c, fs) ->
  (firewall_ok c /\ access_wf (part c) /\ px_upstreams (part c) <> []) /\
  accounted c0 c fs /\
  active (part c) = active (part c0) + total (fun x => bool_Z (gauged x)) fs /\
  Forall (fun x => ended x -> well_ended x) fs /\
  (Forall ended fs ->
     metrics_agree (part c) /\ active (part c) = active (part c0) /\
     forall o, counter requestsTotal [o] (part c) =
       counter requestsTotal [o] (part c0) + total (fun x => bool_Z (counted o x)) fs).
Proof.
  intros Hok Hr. pose proof (pool_steps_ok c0 c fs Hok Hr) as Hpool. pose proof (pool_active _ _ _ Hpool) as Hact.
  destruct Hpool as [Hf Ha Hp Hfs Hac]. split; [done|]. split; [done|]. split; [exact Hact|].
  assert (Forall (fun x => ended x -> well_ended x) fs) as Hwell
    by (eapply Forall_impl; [exact Hfs|]; intros x; apply flight_ended).
  split; [done|]. intros Hend.
  assert (Forall well_ended fs) as Hall.
  { apply Forall_forall. intros x Hx. rewrite Forall_forall in Hwell, Hend. auto. }
  split_and!.
  - pose proof (ended_all_agree fs (part c0) Hall (so_metrics _ Hok)) as Hm.
    destruct (part c : Metrics) as [path cs] eqn:Ec. eapply agree_perm; [|exact Hm]. symmetry.
    pose proof (ac_calls _ _ _ Hac) as Hcalls. by rewrite Ec in Hcalls.
  - rewrite Hact. rewrite (total_ext _ (fun _ => 0)).
    + assert (total (fun _ : in_flight => 0) fs = 0) as ->; [|lia]. clear. induction fs as [|x fs IH]; cbn; [done|]. by rewrite IH.
    + eapply Forall_impl; [exact Hend|]. intros x Hx. unfold gauged. by rewrite Hx.
  - intros o. unfold counter. rewrite (accounted_tally _ _ _ _ Hac). f_equal. apply total_ext.
    eapply Forall_impl; [exact Hall|]. intros x. apply ended_counts.
Qed.

(** ** Every request comes to its end *)

Definition left (fs : list in_flight) : nat := list_sum ((fun x => remaining (fl_point x.1)) <$> fs).

Lemma list_sum_insert_lt (ns : list nat) i n m :
  ns !! i = Some n -> (m < n)%nat -> (list_sum (<[i := m]> ns) < list_sum ns)%nat.
Proof.
  revert i. induction ns as [|k ns IH]; intros [|i] Hi Hm; try done; unfold list_sum in *; simpl in *.
  - injection Hi as ->. lia.
  - specialize (IH i Hi Hm). lia.
Qed.

Lemma pool_flies c0 c fs i fl l now :
  pool_ok c0 c fs -> fs !! i = Some (fl, l) -> fl_point fl <> AtEnd ->
  exists fl' w', advance trusted waf fl (land c now l) = Some (fl', w') /\
    (remaining (fl_point fl') < remaining (fl_point fl))%nat /\ fl_request fl' = fl_request fl.
Proof.
  intros [Hf Ha Hp Hfs _] Hi Hne. pose proof (Forall_lookup_1 _ _ _ _ Hfs Hi) as Hok.
  destruct (flight_steps_well c now (fo_limiter _ Hf) Hp Ha fl l Hok Hne) as (fl' & w' & Hadv & _ & Heff).
  exists fl', w'. split_and!; [done| |exact (ef_request _ _ _ _ Heff)]. by eapply advance_remaining.
Qed.

Lemma pool_remaining s s' :
  rtc pool_step s s' -> Forall (fun x => remaining (fl_point x.1) <= 26)%nat s.2 ->
  Forall (fun x => remaining (fl_point x.1) <= 26)%nat s'.2.
Proof.
  intros Hr. induction Hr as [s|s1 s2 s3 Hs _ IH]; intros Hle; [done|]. apply IH. clear IH.
  destruct Hs as [r hj now en c fs|i now c fs fl l fl' w' Hi Hadv|c c' fs _]; cbn [snd] in *; [| |done].
  - apply Forall_app_2; [done|by repeat constructor].
  - apply Forall_insert; [done|]. pose proof (Forall_lookup_1 _ _ _ _ Hle Hi) as Hfl.
    apply advance_remaining in Hadv. cbn [fst] in *. lia.
Qed.

Lemma pool_drains c0 n : forall c fs,
  access_wf (part c0) -> (left fs <= n)%nat -> pool_ok c0 c fs ->
  exists c' fs', rtc pool_step (c, fs) (c', fs') /\ Forall ended fs' /\
    (fun x => fl_request x.1) <$> fs' = (fun x => fl_request x.1) <$> fs.
Proof.
  induction n as [|n IH]; intros c fs Ha0 Hn Hpool.
  all: destruct (decide (Forall (fun x => remaining (fl_point x.1) = 0%nat) fs)) as [Hall|Hex].
  1, 3: exists c, fs; split_and!; [done| |done]; eapply Forall_impl; [exact Hall|]; intros [fl l] H0'; unfold ended; cbn in *;
    destruct (fl_point fl); cbn in H0'; done || lia.
  all: apply not_Forall_Exists in Hex; [|apply _]; apply Exists_exists in Hex as ([fl l] & Hin & Hrem);
    apply list_elem_of_lookup in Hin as [i Hi]; cbn in Hrem.
  all: assert (fl_point fl <> AtEnd) as Hne by (intros He; by rewrite He in Hrem).
  all: destruct (pool_flies c0 c fs i fl l 0 Hpool Hi Hne) as (fl' & w' & Hadv & Hlt & Hreq).
  all: assert (left (<[i := (fl', take_off w')]> fs) < left fs)%nat as Hleft
    by (unfold left; rewrite list_fmap_insert; eapply list_sum_insert_lt; [by rewrite list_lookup_fmap, Hi|exact Hlt]).
  1: lia.
  pose proof (pool_advances i 0 c fs fl l fl' w' Hi Hadv) as Hstep.
  destruct (IH (comp w') (<[i := (fl', take_off w')]> fs) Ha0 ltac:(lia) (pool_step_ok _ _ _ _ _ Ha0 Hstep Hpool))
    as (c' & fs' & Hr & Hend & Hreqs).
  exists c', fs'. split_and!; [by eapply rtc_l|done|]. rewrite Hreqs, list_fmap_insert. cbn. rewrite Hreq.
  apply list_insert_id. by rewrite list_lookup_fmap, Hi.
Qed.

(** C6. No request is ever stuck, whatever the others, the reloads and the
    dashboard have done: until it has ended it has a next step, at any time,
    after which it has fewer to go, at most 26 from its arrival; so from every
    reachable state all the requests in flight can be brought to their end. *)
Theorem requests_drain c0 c fs :
  system_ok c0 -> rtc pool_step (c0, []) (c, fs) ->
  (forall i fl l now, fs !! i = Some (fl, l) -> fl_point fl <> AtEnd ->
     exists fl' w', advance trusted waf fl (land c now l) = Some (fl', w') /\
       (remaining (fl_point fl') < remaining (fl_point fl) <= 26)%nat) /\
  exists c' fs', rtc pool_step (c, fs) (c', fs') /\ Forall ended fs' /\
    (fun x => fl_request x.1) <$> fs' = (fun x => fl_request x.1) <$> fs.
Proof.
  intros Hok Hr. pose proof (pool_steps_ok c0 c fs Hok Hr) as Hpool. split.
  - intros i fl l now Hi Hne. destruct (pool_flies c0 c fs i fl l now Hpool Hi Hne) as (fl' & w' & Hadv & Hlt & _).
    exists fl', w'. split_and!; [done|done|]. exact (Forall_lookup_1 _ _ _ _ (pool_remaining _ _ Hr (Forall_nil_2 _)) Hi).
  - by eapply (pool_drains c0 (left fs)); [apply Hok| |].
Qed.

End Pool.
