(* ===== verification/Lifecycle.v ===== *)
(** * The life of the process: what [run] gives back, and how it exits

    Whatever way [run] returns, by an error on the way up, a panic, a signal or
    a listener that ends, its deferred calls release all that it holds; and the
    exit status of [main] in every case. *)
From stdpp Require Import relations.
From S2P Require Import Prelude GoStrings Patterns Netip Netmatch Config Http Httputil Middleware ClientIP Geoip IPFilter.
From S2P Require Import IPFilterProofs RateLimit RateStage Waf AccessLog Metrics Proxy ProxyFrame Admin.
From S2P Require Import AdminProofs Dashboard Server Main Pipeline System.

Section Lifecycle.
Context `{IPSetLib} `{!IPSetSpec} `{MaxMindLib} `{UnicodeTables} `{RegexpLib} `{MapOrder} `{RateLib} `{Transport}.
Context `{!RulesYaml} `{ConfigEnv} `{ConfigYaml} `{!UrlParse} `{!AppendFiles} `{ServerLib}.
Context `{StateJson} `{!AdminEnv} `{!ApiJson} `{LetterTables}.
Implicit Types (p : Process) (c : Components).

(** ** The deferred calls *)

Definition all_closed (f : Filter) : Prop := Forall (fun db => db_closed db = true) (g_heap f).
Definition all_stopped (l : Limiter) : Prop := forall id, ~ running l id.

(** What is held is released already, or a deferred call of [ds] will. *)
Record covered (ds : list deferred) p : Prop := {
  cv_notify : pr_notified p = true -> StopNotify ∈ ds;
  cv_filter : forall f, pr_filter p = Some f -> all_closed f \/ geo_exclusive (f_geo f) (g_heap f) /\ CloseFilter ∈ ds;
  cv_limiter : forall l, pr_limiter p = Some l -> all_stopped l \/ loops_ok l /\ StopLimiter ∈ ds;
  cv_log : forall file, pr_file p = Some file -> pr_log p ≫= AccessLog.Close = Some file /\ CloseLog ∈ ds
}.

Lemma closed_alter l heap :
  Forall (fun db => db_closed db = true) heap -> Forall (fun db => db_closed db = true) (alter Geoip.Close l heap).
Proof. intros Hh. by apply Forall_alter. Qed.

Lemma FilterClose_closes f : geo_exclusive (f_geo f) (g_heap f) \/ all_closed f -> all_closed (FilterClose f).
Proof.
  unfold all_closed, FilterClose, close_geo. cbn. intros [[Hin Hout]|Hc]; [|destruct (geo_db (f_geo f)); [by apply closed_alter|done]].
  apply Forall_lookup_2. intros i db. destruct (geo_db (f_geo f)) as [l|]; [|intros Hdb; by apply (Hout _ _ Hdb)].
  destruct (decide (l = i)) as [<-|Hne].
  - rewrite list_lookup_alter_eq. destruct (g_heap f !! l); [by intros [= <-]|done].
  - rewrite list_lookup_alter_ne by done. intros Hdb. apply (Hout _ _ Hdb). by intros [= ->].
Qed.

Lemma Stop_keeps_stopped l : all_stopped l -> all_stopped (RateStage.Stop l).
Proof.
  intros Hs. assert (forall heap i, Forall (fun sl => sl_stopped sl = true) heap ->
    Forall (fun sl => sl_stopped sl = true) (alter RateLimit.Stop i heap)) as Hal by (intros; by apply Forall_alter).
  assert (Forall (fun sl => sl_stopped sl = true) (lm_heap l)) as Hf.
  { apply Forall_lookup_2. intros i sl Hi. destruct (sl_stopped sl) eqn:E; [done|]. destruct (Hs i). by exists sl. }
  assert (Forall (fun sl => sl_stopped sl = true) (lm_heap (RateStage.Stop l))) as Hf'.
  { unfold RateStage.Stop, stop. cbn. destruct (ls_enabled _); [|done].
    assert (Forall (fun sl => sl_stopped sl = true)
      (match ls_def (lm_state l) with Some d => alter RateLimit.Stop d (lm_heap l) | None => lm_heap l end)) as Hd
      by (destruct (ls_def _); auto).
    revert Hd. generalize (match ls_def (lm_state l) with Some d => alter RateLimit.Stop d (lm_heap l) | None => lm_heap l end).
    induction (ls_routes (lm_state l)) as [|r rs IH]; intros heap Hh; cbn; [done|]. apply IH. by apply Hal. }
  intros id (sl & Hsl & Hns). rewrite (Forall_lookup_1 _ _ _ _ Hf' Hsl) in Hns. done.
Qed.

Lemma other_call (d d' : deferred) ds : d' ∈ d :: ds -> d' <> d -> d' ∈ ds.
Proof. intros [->|?]%elem_of_cons; done. Qed.

Lemma run_one_covered d ds p : covered (d :: ds) p -> covered ds (run_one d p).
Proof.
  intros [Hn Hf Hl Ha].
  assert (d <> StopNotify -> pr_notified p = true -> StopNotify ∈ ds) as Hn' by (intros Hd Hp; by apply (other_call d); auto).
  assert (d <> CloseFilter -> forall f, pr_filter p = Some f ->
    all_closed f \/ geo_exclusive (f_geo f) (g_heap f) /\ CloseFilter ∈ ds) as Hf'.
  { intros Hd f Ef. destruct (Hf f Ef) as [?|[? ?]]; [by left|right]. split; [done|]. by apply (other_call d); auto. }
  assert (d <> StopLimiter -> forall l, pr_limiter p = Some l ->
    all_stopped l \/ loops_ok l /\ StopLimiter ∈ ds) as Hl'.
  { intros Hd l El. destruct (Hl l El) as [?|[? ?]]; [by left|right]. split; [done|]. by apply (other_call d); auto. }
  assert (d <> CloseLog -> forall file, pr_file p = Some file -> pr_log p ≫= AccessLog.Close = Some file /\ CloseLog ∈ ds) as Ha'.
  { intros Hd file Efile. destruct (Ha file Efile). split; [done|]. by apply (other_call d); auto. }
  destruct d; cbn [run_one]; try by (split; auto; done).
  - split; cbn; [auto| |auto|auto]. intros f Ef. left. destruct (pr_filter p) as [f0|]; [|done].
    cbn in Ef. injection Ef as <-. apply FilterClose_closes. destruct (Hf f0 eq_refl) as [?|[? _]]; auto.
  - split; cbn; [auto|auto| |auto]. intros l El. left. destruct (pr_limiter p) as [l0|]; [|done].
    cbn in El. injection El as <-. destruct (Hl l0 eq_refl) as [?|[? _]]; [by apply Stop_keeps_stopped|].
    intros id. by apply Stop_ends_loops.
  - destruct (pr_log p ≫= AccessLog.Close) eqn:E; [split; cbn; [auto..|done]|split; [auto..|]].
    intros file Efile. by destruct (Ha file Efile).
Qed.

Lemma foldl_covered ds p : covered ds p -> covered [] (foldl (fun p d => run_one d p) p ds).
Proof. revert p. induction ds as [|d ds IH]; intros p Hp; [done|]. by apply IH, run_one_covered. Qed.

(** Everything is given back. *)
Record released p : Prop := {
  re_databases : forall f, pr_filter p = Some f -> all_closed f;
  re_loops : forall l, pr_limiter p = Some l -> all_stopped l;
  re_file : pr_file p = None;
  re_signals : pr_notified p = false;
  re_deferred : pr_deferred p = []
}.

Lemma run_deferred_releases p : covered (pr_deferred p) p -> released (run_deferred p).
Proof.
  intros [Hn Hf Hl Ha]%foldl_covered. unfold run_deferred. set (q := foldl _ _ _) in *.
  split; cbn.
  - intros f Ef. destruct (Hf f Ef) as [?|[_ ?%elem_of_nil]]; done.
  - intros l El. destruct (Hl l El) as [?|[_ ?%elem_of_nil]]; done.
  - destruct (pr_file q) as [file|]; [|done]. destruct (Ha file eq_refl) as [_ ?%elem_of_nil]. done.
  - destruct (pr_notified q); [|done]. by apply elem_of_nil in Hn.
  - done.
Qed.

(** ** While it runs *)

Definition own_calls : list deferred := [CloseLog; StopLimiter; CloseFilter; StopNotify].

(** The process holds the components, in order, and has deferred their
    releases. *)
Record serving c p : Prop := {
  sv_ok : system_ok c;
  sv_filter : pr_filter p = Some (part c);
  sv_limiter : pr_limiter p = Some (part c);
  sv_log : pr_log p = Some (part c);
  sv_file : pr_file p = al_file (part c);
  sv_deferred : forall d, d ∈ own_calls -> d ∈ pr_deferred p
}.

Lemma serving_covered c p : serving c p -> covered (pr_deferred p) p.
Proof.
  intros [Hok Hf Hl Ha Hfile Hd]. split.
  - intros _. apply Hd. set_solver.
  - rewrite Hf. intros f [= <-]. right. split; [apply Hok|]. apply Hd. set_solver.
  - rewrite Hl. intros l [= <-]. right. split; [apply Hok|]. apply Hd. set_solver.
  - rewrite Ha, Hfile. intros file Efile. split; [done|]. apply Hd. set_solver.
Qed.

(** Changes of the process that leave what it holds alone. *)
Record same_held p p' : Prop := {
  sh_filter : pr_filter p' = pr_filter p;
  sh_limiter : pr_limiter p' = pr_limiter p;
  sh_log : pr_log p' = pr_log p;
  sh_file : pr_file p' = pr_file p;
  sh_deferred : forall d, d ∈ pr_deferred p -> d ∈ pr_deferred p'
}.

#[local] Instance same_held_preorder : PreOrder same_held.
Proof. split; [by intros p; split|]. intros p q r [] []. split; [congruence..|auto]. Qed.

Lemma held_slog level msg attrs p : same_held p (slog level msg attrs p).
Proof. unfold slog. by destruct (_ <=? _). Qed.
Lemma held_spawn g p : same_held p (spawn g p).
Proof. done. Qed.
Lemma held_tell hss p : same_held p (tell hss p).
Proof. done. Qed.
Lemma held_defer d p : same_held p (defer d p).
Proof. split; [done..|]. intros d' Hd. by right. Qed.
Lemma held_side_ended msg srv e p : same_held p (side_ended msg srv e p).
Proof. unfold side_ended. destruct srv, e; try done. apply held_slog. Qed.

Lemma held_shutdown timeout ru drain p : same_held p (shutdown timeout ru drain p).
Proof.
  unfold shutdown. destruct (Server.Shutdown drain (ru_server ru)) as [r told].
  etransitivity; [|apply held_tell]. etransitivity; [|apply held_tell].
  assert (same_held p (tell told (defer CancelDrain (slog LevelInfo "shutdown signal received, draining connections"
    [("timeout", AttrInt timeout)] p)))) as Hp.
  { etransitivity; [|apply held_tell]. etransitivity; [apply held_slog|apply held_defer]. }
  destruct r; [done|]. etransitivity; [exact Hp|apply held_slog].
Qed.

Lemma serving_held c p p' : same_held p p' -> serving c p -> serving c p'.
Proof. intros [Hf Hl Ha Hfile Hd] []. split; [congruence..|auto]. Qed.

(** No step changes the file the access log is written to. *)
Lemma system_step_file c c' :
  system_step c c' -> system_ok c -> al_file (part c' : AccessLog) = al_file (part c : AccessLog).
Proof.
  assert (forall r (w w1 : World Components) rec sr a, logged r w w1 rec sr a -> al_file a = al_file (part (comp w) : AccessLog)) as Hlogged.
  { intros r w w1 rec sr a. unfold logged. destruct (panicking w1); [by intros ->|]. unfold add_entry.
    destruct (ring_Add _ _); [|done]. intros [= <-]. unfold logEntry. by destruct (_ <=? _). }
  intros Hs [Hd Hg Hl Ha Hm Hp]. destruct Hs as [trusted waf r w|fs path c|s static redirect r w Hst Hrd|d c].
  - destruct (judge waf (comp w) (resolveClientIP r (Some trusted)) (entry_request r w) (clock w)) as [reason status rule l|q l] eqn:Hj.
    + destruct (refused_run trusted waf r w reason status rule l Ha (proj1 Hl) Hj) as (a & w1 & _ & _ & _ & _ & Hlog & ->).
      by apply Hlogged in Hlog.
    + destruct (forwarded_run trusted waf r w q l Ha (proj1 Hl) Hp Hj) as (a & rec & sr & px & _ & _ & _ & _ & Hlog & ->).
      by apply Hlogged in Hlog.
  - destruct Hd as [[[aA HA] _] [[aD HD] _] _]. destruct c as [f [l [e rest]]].
    pose proof (reloadOnce_run path f l e rest aA aD HA HD Hg) as Hrun. destruct (Load path) as [cfg|err]; [|by rewrite Hrun].
    by destruct Hrun as [(err & -> & _)|(e' & _ & [(err & -> & _)|(f' & heap & -> & _)])].
  - by rewrite AdminHandler_other.
  - by destruct c as [f [l [e [a [m [px d0]]]]]].
Qed.

Lemma system_steps_file c c' :
  rtc system_step c c' -> system_ok c -> al_file (part c' : AccessLog) = al_file (part c : AccessLog).
Proof.
  intros Hr. induction Hr as [c|c1 c2 c3 Hstep _ IH]; intros Hok; [done|].
  rewrite IH by (by eapply system_step_ok). by apply system_step_file.
Qed.

Lemma serving_moves c c' p : rtc system_step c c' -> serving c p -> serving c' (hold_components c' p).
Proof.
  intros Hr [Hok Hf Hl Ha Hfile Hd].
  split; cbn; [by apply (system_steps_ok c)|done|done|done| |done].
  rewrite Hfile. symmetry. by apply (system_steps_file c c').
Qed.

(** The events of a run: the components move by steps of the program. *)
Fixpoint moves (path : string) (evs : list run_event) (c : Components) : Prop :=
  match evs with
  | [] => True
  | Moved c' :: evs' => rtc system_step c c' /\ moves path evs' c'
  | Sighup fs :: evs' => moves path evs' (reloadOnce path c).2
  | _ :: evs' => moves path evs' c
  end.

Lemma wait_serving path timeout ru evs : forall c p,
  moves path evs c -> serving c p -> exists c', serving c' (wait path timeout ru evs c p).2.
Proof.
  induction evs as [|ev evs IH]; intros c p Hm Hs; [by exists c|]. destruct ev; cbn [wait moves] in *.
  - destruct Hm as [Hr Hm]. apply IH; [done|]. by eapply serving_moves.
  - assert (serving (reloadOnce path c).2 (hold_components (reloadOnce path c).2 p)) as Hs'
      by (eapply serving_moves; [|exact Hs]; apply rtc_once, step_reload).
    unfold watchForReload. destruct (reloadOnce path c) as [[u|err] c']; cbn [snd] in Hs', Hm;
      (apply IH; [done|]; eapply serving_held; [apply held_slog|exact Hs']).
  - apply IH; [done|]. eapply serving_held; [apply held_slog|done].
  - apply IH; [done|]. eapply serving_held; [apply held_side_ended|done].
  - apply IH; [done|]. eapply serving_held; [apply held_side_ended|done].
  - exists c. eapply serving_held; [apply held_shutdown|done].
  - by exists c.
Qed.

(** ** Starting up *)

(** The process as it comes to [run]. *)
Definition launched (level : Z) (lines : list line) : Process := mkProcess level lines [] [] false None None None None [].

#[local] Ltac leaf := split; cbn; (try set_solver); (try done); intros ? [= <-]; (split || (right; split)); (try done); set_solver.

(** [run] defers the release of each thing before anything can go wrong after
    it. *)
Lemma start_covers `{Files} version commit cfg now d level lines :
  match start version commit cfg now d (launched level lines) with
  | (Returned (Ok ru), p') => serving (ru_components ru) p'
  | (_, p') => covered (pr_deferred p') p'
  end.
Proof.
  pose proof (start_ok version commit cfg now d (launched level lines)) as Hok.
  revert Hok. unfold start, proc_do, proc_bind, try. cbn beta zeta.
  assert (exists ls, slog LevelInfo "starting go-firewall" [("version", AttrString version); ("commit", AttrString commit)]
    (launched level lines) = launched level ls) as [ls ->] by (unfold slog; destruct (_ <=? _); by eexists).
  destruct (Proxy.New _) as [px|]; [|intros _; leaf]. destruct (NewFilter _) as [f|] eqn:Ef; [|intros _; leaf].
  pose proof (NewFilter_dashboard_ok _ _ None Ef ltac:(done)) as [_ Hg].
  pose proof (New_loops_ok (c_RateLimit cfg)) as Hl.
  destruct (AccessLog.New _) as [a|]; [|intros _; leaf]. destruct (NewMatcher _) as [trusted|]; [|intros _; leaf].
  destruct (engine_of _) as [e|] eqn:Ee; [|intros _; leaf]. destruct (Server.New _) as [srv|]; [|intros _; leaf].
  match goal with |- context [metrics_listener ?m (Metrics.New ?x) ?p] => pose proof (metrics_listener_cases m x p) as Hm end.
  destruct (metrics_listener _ _ _) as [[[msrv|err]|what] p1]; [|done|destruct Hm as [_ ->]; intros _; leaf].
  destruct Hm as [_ Hp1].
  destruct (admin_of _ _ _ _ _ _) as [[[adm f'] e']|] eqn:Eadm; [|intros _; destruct Hp1 as [-> | ->]; leaf].
  destruct adm as [adm|]; intros Hok; specialize (Hok _ _ eq_refl); (split; [exact Hok|..]); destruct Hp1 as [-> | ->]; cbn; try done; set_solver.
Qed.

(** ** What is left when [run] returns *)

(** What a signal shuts down, in order. *)
Definition listening (ru : Running) : list HttpServer :=
  servers (ru_server ru) ++ option_list (ru_metricsSrv ru) ++ option_list (ru_adminSrv ru).

(** The event that ends the run: a signal, or the public listeners' error. *)
Fixpoint run_end (evs : list run_event) : option (result unit) :=
  match evs with
  | [] => None
  | Signalled _ :: _ => Some (Ok tt)
  | ServerEnded r :: _ => Some r
  | _ :: evs' => run_end evs'
  end.

Fixpoint signalled (evs : list run_event) : bool :=
  match evs with
  | [] | ServerEnded _ :: _ => false
  | Signalled _ :: _ => true
  | _ :: evs' => signalled evs'
  end.

Lemma told_slog level msg attrs p : pr_told (slog level msg attrs p) = pr_told p.
Proof. unfold slog. by destruct (_ <=? _). Qed.

Lemma told_side_ended msg srv e p : pr_told (side_ended msg srv e p) = pr_told p.
Proof. unfold side_ended. destruct srv, e; try done. apply told_slog. Qed.

Lemma told_shutdown timeout ru drain p : pr_told (shutdown timeout ru drain p) = pr_told p ++ listening ru.
Proof.
  unfold shutdown, listening, Server.Shutdown. destruct (shutdown_loop_spec drain (servers (ru_server ru)) (Ok tt)) as [Htold _].
  destruct (shutdown_loop _ _ _) as [r told]. cbn [snd] in Htold. subst told.
  destruct r; cbn; rewrite ?told_slog; cbn; by rewrite ?told_slog, <- !app_assoc.
Qed.

Lemma wait_end path timeout ru evs : forall c p,
  (wait path timeout ru evs c p).1 = run_end evs /\
  pr_told (wait path timeout ru evs c p).2 = pr_told p ++ (if signalled evs then listening ru else []).
Proof.
  induction evs as [|ev evs IH]; intros c p; cbn [wait run_end signalled]; [by rewrite app_nil_r|].
  destruct ev; cbn [wait run_end signalled].
  - apply (IH _ (hold_components _ p)).
  - unfold watchForReload. destruct (reloadOnce path c) as [[u|err] c'];
      (split; [apply IH|]; rewrite (proj2 (IH _ _)), told_slog; done).
  - split; [apply IH|]. by rewrite (proj2 (IH _ _)), told_slog.
  - split; [apply IH|]. by rewrite (proj2 (IH _ _)), told_side_ended.
  - split; [apply IH|]. by rewrite (proj2 (IH _ _)), told_side_ended.
  - split; [done|]. apply told_shutdown.
  - split; [done|]. by rewrite app_nil_r.
Qed.

Lemma told_run_deferred p : pr_told (run_deferred p) = pr_told p.
Proof.
  unfold run_deferred. cbn. generalize (pr_deferred p). intros ds. revert p. induction ds as [|dc ds IH]; intros p; [done|].
  cbn. rewrite IH. destruct dc; cbn; try done. by destruct (_ ≫= _).
Qed.

(** C22. However [run] ends, everything it opened is given back: every geo
    database it ever opened is closed, reloads included, no eviction loop is
    left running, the access log's file is closed and signals are no longer
    caught.  This holds of an error on the way up, of a panic, and after any
    requests, reloads and dashboard edits, whether the end is a signal or a
    listener that failed.  On a signal every server is shut down: the public
    ones, then the metrics', then the dashboard's. *)
Theorem run_releases `{Files} path version commit cfg now d evs level lines e p' :
  (forall ru p, start version commit cfg now d (launched level lines) = (Returned (Ok ru), p) ->
     moves path evs (ru_components ru)) ->
  run path version commit cfg now d evs (launched level lines) = (Some e, p') ->
  released p' /\
  forall ru p, start version commit cfg now d (launched level lines) = (Returned (Ok ru), p) -> signalled evs = true ->
    pr_told p' = pr_told p ++ listening ru.
Proof.
  intros Hmoves. pose proof (start_covers version commit cfg now d level lines) as Hstart. unfold run.
  destruct (start _ _ _ _ _ _) as [[[ru|err]|what] p].
  2, 3: intros [= _ <-]; split; [by apply run_deferred_releases|done].
  specialize (Hmoves ru p eq_refl).
  destruct (wait_serving path (sc_DrainTimeout (c_Shutdown cfg)) ru evs _ _ Hmoves Hstart) as [c' Hs].
  pose proof (wait_end path (sc_DrainTimeout (c_Shutdown cfg)) ru evs (ru_components ru) p) as [_ Htold].
  destruct (wait _ _ _ _ _ _) as [[r|] p1]; [|done]. intros [= _ <-]. split.
  - apply run_deferred_releases. by apply (serving_covered c').
  - intros ru' p0 [= <- <-] Hsig. rewrite told_run_deferred. cbn in Htold. by rewrite Htold, Hsig.
Qed.

(** C23. The exit status.  [main] exits with 1 when the configuration does not
    load, or names something the environment does not provide; with 2, a panic,
    when all is there but the metrics path is no pattern; otherwise it runs
    until a signal, 0, or until the public listeners end, 0 or 1 by their
    error.  Failed reloads and the listeners of the metrics and of the
    dashboard never end it. *)
Theorem main_exit_status `{Files} path version commit now d evs p :
  same_urls ->
  let status := (main path version commit now d evs p).1 in
  match Load path with
  | Err _ => status = Some 1
  | Ok cfg =>
      (env_ready cfg d -> status = (fun r : result unit => if is_ok r then 0 else 1) <$> run_end evs) /\
      (env_opens cfg -> ~ metrics_path_ok cfg -> status = Some 2) /\
      (~ env_opens cfg \/ metrics_path_ok cfg /\ ~ dashboard_opens cfg d -> status = Some 1)
  end.
Proof.
  intros Hurl. unfold main. destruct (Load path) as [cfg|err] eqn:Hload; [|done].
  pose proof (Load_valid _ _ Hload) as Hv. unfold run. set (p0 := ConfigureDefault (c_Log cfg) p).
  pose proof (start_ending version commit cfg now d p0 Hurl Hv) as Hs. unfold env_ready in *.
  destruct (start version commit cfg now d p0) as [[[ru|err]|what] p1]; cbn [fst] in Hs.
  - pose proof (wait_end path (sc_DrainTimeout (c_Shutdown cfg)) ru evs (ru_components ru) p1) as [Hw _].
    destruct (wait _ _ _ _ _ _) as [[r|] p2]; cbn [fst] in Hw; rewrite <- Hw; [destruct r|]; cbn; naive_solver.
  - cbn. naive_solver.
  - cbn. naive_solver.
Qed.

End Lifecycle.
