(* ===== verification/SystemDemo.v ===== *)
(** * The whole program on concrete inputs

    A configuration, a start, requests that are refused and forwarded, a reload
    and a dashboard edit: the theorems on the running program applied to them. *)
From Corelib Require Import SpecFloat.
From stdpp Require Import relations.
From S2P Require Import Prelude GoStrings Patterns Netip Netmatch Config Http Httputil Middleware ClientIP Geoip IPFilter.
From S2P Require Import IPFilterProofs RateLimit RateStage Waf WafProofs AccessLog Metrics Proxy ProxyFrame Admin.
From S2P Require Import AdminProofs Dashboard Server Main Pipeline System Requests Concurrent Lifecycle.

Section Demo.
#[local] Existing Instance RangeSet.lib.
#[local] Existing Instance RangeSet.spec.
#[local] Existing Instance IPFilterProofs.demo_maxmind.
#[local] Existing Instance IPFilterProofs.demo_unicode.
#[local] Existing Instance TokenBucket.lib.
#[local] Existing Instance WafProofs.Demo.regexp.
#[local] Existing Instance WafProofs.Demo.order.
#[local] Existing Instance WafProofs.Demo.yaml.
#[local] Existing Instance Dashboard.Demo.state_json.
#[local] Existing Instance Dashboard.Demo.env.
#[local] Existing Instance Dashboard.Demo.api_json.

#[local] Instance urls : UrlParse := {|
  url_Parse s := if String.eqb s "http://app:9000" then Some (mkURL "http" "app:9000" "" "") else None |}.
#[local] Instance config_env : ConfigEnv := {|
  url_parse s := (fun u => (u_Scheme u, u_Host u)) <$> url_Parse s;
  file_exists _ := true |}.
#[local] Instance append_files : AppendFiles := {| os_OpenFile _ := true |}.
#[local] Instance ascii_names : LetterTables := {| unicode_wildcard_name _ := false |}.
#[local] Instance server_lib : ServerLib := {|
  Certificate := unit; LoadX509KeyPair _ _ := None; net_Listen _ addr := Some addr |}.
#[local] Instance transport : Transport := {|
  RoundTrip host q now := mkExchange [] (Responded (mkResponse 200 ∅ [to_bytes "welcome"] true)) 7 NoBody |}.

Definition lists (geo : GeoConfig) : IPListConfig := mkIPListConfig [] ["203.0.113.0/24"] geo.

Definition config_with (geo : GeoConfig) (log : string) (metrics : MetricsConfig) : Config :=
  applyDefaults (mkConfig [mkListenConfig ":8080" (mkTLSConfig false "" "")]
    (mkUpstreamConfig ["http://app:9000"] 0 0 0 0) (mkClientIPConfig []) (lists geo)
    (mkAdminConfig true "" "TOKEN" "state.json")
    (mkRateLimitConfig true (mkRateLimitRule (S754_finite false 10 0) 20) [] 0)
    (mkWAFConfig true "/rules.yaml" (mkBodyInspectionConfig 0) "block")
    (mkLogConfig "info" "" log 4) metrics (mkShutdownConfig 0)).

Definition config (geo : GeoConfig) : Config := config_with geo "" (mkMetricsConfig false "" "").

Definition no_geo : GeoConfig := mkGeoConfig false "" [].
(** Passes validation, which only looks for the file, but does not open. *)
Definition bad_geo : GeoConfig := mkGeoConfig true "corrupt.mmdb" ["NZ"].

(** A geo database, a log file and the metrics, and the same with a metrics path
    that has no slash. *)
Definition good_geo : GeoConfig := mkGeoConfig true "geo.mmdb" ["NZ"].
Definition full_config : Config := config_with good_geo "/var/log/access.log" (mkMetricsConfig true "" "").
Definition slashless_config : Config := config_with good_geo "/var/log/access.log" (mkMetricsConfig true "" "metrics").

#[local] Instance config_yaml : ConfigYaml := {|
  yaml_Decode s := if String.eqb s "good" then Some (config no_geo)
                   else if String.eqb s "bad" then Some (config bad_geo)
                   else if String.eqb s "full" then Some full_config
                   else if String.eqb s "slashless" then Some slashless_config else None |}.

Definition files_with (contents : string) : Files := {|
  os_Open p := if String.eqb p "/rules.yaml" then Some "rules" else if String.eqb p "/config.yaml" then Some contents else None |}.
#[local] Instance files : Files := files_with "good".

Definition started : ending Running * Process :=
  start Version Commit (config no_geo) 0 Dashboard.Demo.disk fresh_process.

Definition is_started (e : ending Running) : bool := match e with Returned (Ok _) => true | _ => false end.

Lemma started_ok : is_started started.1 = true.
Proof. vm_compute. reflexivity. Qed.

Lemma config_ok : config_valid (config no_geo).
Proof. apply Validate_valid. vm_compute. reflexivity. Qed.

Lemma start_succeeds_iff_witness : env_ready (config no_geo) Dashboard.Demo.disk.
Proof.
  apply (start_succeeds_iff Version Commit (config no_geo) 0 Dashboard.Demo.disk fresh_process).
  - intros addr. reflexivity.
  - exact config_ok.
  - pose proof started_ok as Hs. unfold started in Hs.
    destruct (start _ _ _ _ _ _) as [[[ru|err]|what] p]; [exists ru; reflexivity|discriminate Hs..].
Defined.

(** What validation lets through: a disabled engine without a rules file, and a
    negative limit on bodies. *)
Definition with_waf (waf : WAFConfig) : Config :=
  let c := config no_geo in
  mkConfig (c_Listen c) (c_Upstreams c) (c_ClientIP c) (c_IPLists c) (c_Admin c) (c_RateLimit c) waf (c_Log c)
    (c_Metrics c) (c_Shutdown c).

Example lenient_validation :
  is_ok (Validate (with_waf (mkWAFConfig false "" (mkBodyInspectionConfig 0) "block"))) = true /\
  is_ok (Validate (applyDefaults (with_waf (mkWAFConfig true "/rules.yaml" (mkBodyInspectionConfig (-1)) "block")))) = true.
Proof. vm_compute. split; reflexivity. Qed.

(** The components of the started program, and a world for a request. *)
Definition components : option Components :=
  match started.1 with Returned (Ok ru) => Some (ru_components ru) | _ => None end.

Definition world (c : Components) : World Components := mkWorld [] [] (fresh_conn true) 1000 (fun i => Z.of_nat i) c.

Definition get (from path query : string) : Request :=
  mkRequest "GET" path query "shop.example" from ∅ NoBody 0 None None.

Definition trusted : Matcher := linearMatcher [].

(** The stage that refuses a request, and its status; none when it is forwarded. *)
Definition refused_by (c : Components) (r : Request) : option (string * Z) :=
  match judge (part c) c (resolveClientIP r (Some trusted)) (entry_request r (world c)) 1000 with
  | Refuse reason status _ _ => Some (reason, status)
  | Forward _ _ => None
  end.

Lemma components_ok c : components = Some c -> system_ok c.
Proof.
  unfold components, started. intros Hc. destruct (start _ _ _ _ _ _) as [[[ru|]|] p] eqn:E; [|done..]. injection Hc as <-.
  by eapply start_ok.
Qed.

Definition denied : Request := get "203.0.113.9:5000" "/" "".
Definition attack : Request := get "198.51.100.7:5000" "/search" "q=%3Cscript%3E".
Definition visit : Request := get "198.51.100.7:5000" "/" "".

Example the_verdicts :
  (fun c => (refused_by c denied, refused_by c attack, refused_by c visit)) <$> components =
  Some (Some ("ip-deny", 403), Some ("waf", 403), None).
Proof. vm_compute. reflexivity. Qed.

Lemma refused_request_witness :
  exists c, components = Some c /\
    let w' := pipeline trusted (part c) ConnWriter attack (world c) in
    c_status (conn w') = 403 /\ (part (comp w') : Proxy) = part c /\
    exists e, Recent 1 "" "" (part (comp w')) = Some [e] /\ e_BlockReason e = "waf".
Proof.
  pose proof the_verdicts as Hv. destruct components as [c|] eqn:Hc; [|discriminate Hv].
  destruct (components_ok c Hc) as [_ _ [Hl _] Ha _ _]. exists c. split; [reflexivity|].
  injection Hv as _ Hv _. unfold refused_by in Hv.
  destruct (judge _ _ _ _ _) as [reason status rule l|q l] eqn:Hj; [|discriminate Hv]. injection Hv as -> ->.
  destruct (refused_request trusted (part c) attack (world c) "waf" 403 rule l) as ([Hst _] & (_ & _ & Hp & _) & (e & He & _ & Hb & _) & _).
  - exact Ha.
  - exact Hl.
  - split; reflexivity.
  - exact Hj.
  - split; [exact Hst|]. split; [exact Hp|]. exists e. split; [exact He|exact Hb].
Defined.

Lemma forwarded_request_witness :
  exists c q (l : Limiter), components = Some c /\
    conn (pipeline trusted (part c) ConnWriter visit (world c)) =
    conn (serveHTTP (entry_writer ConnWriter (world c)) q (upd_comp (set_part l) (entry_world trusted visit (world c)))).
Proof.
  pose proof the_verdicts as Hv. destruct components as [c|] eqn:Hc; [|discriminate Hv].
  destruct (components_ok c Hc) as [_ _ [Hl _] Ha _ Hp].
  injection Hv as _ _ Hv. unfold refused_by in Hv.
  destruct (judge _ _ _ _ _) as [reason status rule l|q l] eqn:Hj; [discriminate Hv|].
  exists c, q, l. split; [reflexivity|].
  destruct (forwarded_request trusted (part c) visit (world c) q l) as (_ & _ & [Hconn _] & _).
  - exact Ha.
  - exact Hl.
  - exact Hp.
  - exact Hj.
  - exact Hconn.
Defined.

(** A dashboard request, a refused request and a reload, from the start. *)
Lemma reachable_states_ok_witness :
  exists ru p c, started = (Returned (Ok ru), p) /\ rtc system_step (ru_components ru) c /\ system_ok c.
Proof.
  pose proof started_ok as Hs. destruct started as [[[ru|]|] p] eqn:E; [|discriminate Hs..]. exists ru, p.
  set (c0 := ru_components ru).
  set (c1 := comp (AdminHandler Dashboard.Demo.server Dashboard.Demo.silent (fun _ => Dashboard.Demo.silent) ConnWriter
    (Dashboard.Demo.post "/admin/api/ip-lists/deny" "Bearer s3cret" "10.0.0.0/8") (world c0))).
  set (c2 := comp (pipeline trusted (part c1) ConnWriter denied (world c1))).
  set (c3 := (reloadOnce "/config.yaml" c2).2).
  assert (rtc system_step c0 c3) as Hr.
  { eapply rtc_l; [exact (step_dashboard Dashboard.Demo.server Dashboard.Demo.silent (fun _ => Dashboard.Demo.silent)
      (Dashboard.Demo.post "/admin/api/ip-lists/deny" "Bearer s3cret" "10.0.0.0/8") (world c0)
      (fun _ _ _ => eq_refl) (fun _ _ _ _ => eq_refl))|].
    eapply rtc_l; [exact (step_request trusted (part c1) denied (world c1))|].
    eapply rtc_l; [exact (step_reload files "/config.yaml" c2)|]. apply rtc_refl. }
  exists c3. split; [reflexivity|]. split; [exact Hr|].
  exact (reachable_states_ok Version Commit (config no_geo) 0 Dashboard.Demo.disk fresh_process ru p c3 E Hr).
Defined.

(** ** Requests in flight together *)

Lemma components_some : exists c, components = Some c.
Proof. pose proof the_verdicts as Hv. destruct components as [c|]; [by exists c|discriminate Hv]. Qed.

Lemma alone_is_pipeline_witness :
  exists c, components = Some c /\
    (run_alone trusted (part c) 26 (arrival visit) (world c)).2 = pipeline trusted (part c) ConnWriter visit (world c).
Proof.
  destruct components_some as [c Hc].
  destruct (components_ok c Hc) as [_ _ Hl Ha _ Hp]. exists c. split; [exact Hc|].
  apply (alone_is_pipeline trusted (part c) visit (world c) 26).
  - reflexivity.
  - reflexivity.
  - exact Ha.
  - exact Hl.
  - exact Hp.
  - lia.
Defined.

(** A schedule: arrivals, and steps of the requests in flight. *)
Inductive action : Type := Arrive (r : Request) | Advance (i : nat) (now : Z).

Section Schedule.
Context (waf : option Engine).

Definition act (s : Components * list in_flight) (a : action) : Components * list in_flight :=
  match a with
  | Arrive r => (s.1, s.2 ++ [(arrival r, mkWorld [] [] (fresh_conn true) 0 (fun i => Z.of_nat i) tt)])
  | Advance i now =>
      match s.2 !! i with
      | Some (fl, l) =>
          match advance trusted waf fl (land s.1 now l) with
          | Some (fl', w') => (comp w', <[i := (fl', take_off w')]> s.2)
          | None => s
          end
      | None => s
      end
  end.

Lemma act_steps s as_ : rtc (pool_step trusted waf) s (foldl act s as_).
Proof.
  revert s. induction as_ as [|a as_ IH]; intros s; [done|]. cbn. etrans; [|apply IH]. destruct s as [c fs], a as [r|i now]; cbn.
  - apply rtc_once. apply pool_arrives.
  - destruct (fs !! i) as [[fl l]|] eqn:Hi; [|done]. destruct (advance _ _ _ _) as [[fl' w']|] eqn:Ha; [|done].
    apply rtc_once. by eapply pool_advances.
Qed.

End Schedule.

(** A refused, a forwarded and an attacking request, in turns: after nine turns
    each is in flight; after thirty all have ended. *)
Definition turns (n : nat) : list action :=
  [Arrive denied; Arrive visit; Arrive attack] ++
  ((fun i => Advance (Nat.modulo i 3) (1000 + Z.of_nat i)) <$> seq 0 (3 * n)).

Definition shows (n : nat) (c : Components) : Z * Z * Z * list string :=
  let c' := (foldl (act (part c)) (c, []) (turns n)).1 in
  (active (part c'), counter requestsTotal [OutcomeAllowed] (part c'), counter requestsTotal [OutcomeBlocked] (part c'),
   e_BlockReason <$> default [] (Recent 9 "" "" (part c'))).

Example three_requests :
  (fun c => (shows 2 c, shows 30 c)) <$> components =
  Some ((3, 0, 0, []), (0, 1, 2, [""; "waf"; "ip-deny"])).
Proof. vm_compute. reflexivity. Qed.

Lemma requests_accounted_witness :
  exists c c' fs, components = Some c /\ foldl (act (part c)) (c, []) (turns 30) = (c', fs) /\
    active (part c') = active (part c) + total (fun x => bool_Z (gauged x)) fs /\ Forall (fun x => ended x -> well_ended x) fs.
Proof.
  destruct components_some as [c Hc]. pose proof (components_ok c Hc) as Hok.
  pose proof (act_steps (part c) (c, []) (turns 30)) as Hr. destruct (foldl _ _ _) as [c' fs] eqn:Hf.
  exists c, c', fs. split; [exact Hc|]. split; [exact Hf|].
  destruct (requests_accounted trusted (part c) c c' fs Hok Hr) as (_ & _ & Hact & Hwell & _).
  split; [exact Hact|exact Hwell].
Defined.

Lemma requests_drain_witness :
  exists c c1 fs1 c' fs', components = Some c /\ foldl (act (part c)) (c, []) (turns 2) = (c1, fs1) /\
    rtc (pool_step trusted (part c)) (c1, fs1) (c', fs') /\ Forall ended fs'.
Proof.
  destruct components_some as [c Hc]. pose proof (components_ok c Hc) as Hok.
  pose proof (act_steps (part c) (c, []) (turns 2)) as Hr. destruct (foldl _ _ _) as [c1 fs1] eqn:Hf.
  destruct (requests_drain trusted (part c) c c1 fs1 Hok Hr) as (_ & c' & fs' & Hr' & Hend & _).
  exists c, c1, fs1, c', fs'. split_and!; [exact Hc|exact Hf|exact Hr'|exact Hend].
Defined.

(** ** A life of the process *)

Definition full_started : ending Running * Process :=
  start Version Commit full_config 0 Dashboard.Demo.disk fresh_process.

(** A request, a reload that opens the database again, one that fails, the
    metrics listener lost, and a signal. *)
Definition full_events : list run_event :=
  match full_started.1 with
  | Returned (Ok ru) =>
      [BecameReady; Moved (comp (pipeline trusted None ConnWriter denied (world (ru_components ru))));
       Sighup (files_with "full"); Sighup (files_with "bad");
       MetricsEnded (ServeFailed (LibError "net.Listen")); Signalled (fun _ => Ok tt)]
  | _ => []
  end.

Definition full_run : option (ending unit) * Process :=
  run "/config.yaml" Version Commit full_config 0 Dashboard.Demo.disk full_events fresh_process.

Example the_life :
  match full_run with
  | (Some e, p) =>
      Some (e, ln_msg <$> pr_lines p, hs_Addr <$> pr_told p, (fun f => db_closed <$> g_heap f) <$> pr_filter p)
  | _ => None
  end =
  Some (Returned (Ok tt),
        ["starting go-firewall"; "listening"; "config reloaded"; "config reload failed, keeping previous state";
         "metrics server exited unexpectedly"; "shutdown signal received, draining connections"],
        [":8080"; "127.0.0.1:9090"; "127.0.0.1:9091"], Some [true; true]).
Proof. vm_compute. reflexivity. Qed.

Lemma full_moves ru p :
  full_started = (Returned (Ok ru), p) -> moves "/config.yaml" full_events (ru_components ru).
Proof.
  unfold full_events. intros ->. cbn [fst moves]. split; [|done].
  exact (rtc_once _ _ (step_request trusted None denied (world (ru_components ru)))).
Qed.

Lemma run_releases_witness :
  exists p', full_run = (Some (Returned (Ok tt)), p') /\ released p'.
Proof.
  pose proof the_life as Hl. destruct full_run as [[e|] p'] eqn:Er; [|discriminate Hl].
  injection Hl as -> _ _ _. exists p'. split; [reflexivity|].
  destruct (run_releases "/config.yaml" Version Commit full_config 0 Dashboard.Demo.disk full_events LevelInfo []
    (Returned (Ok tt)) p') as [Hr _].
  - intros ru p Hs. exact (full_moves ru p Hs).
  - exact Er.
  - exact Hr.
Defined.

Section Slashless.
#[local] Instance slashless_files : Files := files_with "slashless".

(** A valid configuration whose metrics path has no slash: the process panics. *)
Lemma main_exit_status_witness :
  is_ok (Validate slashless_config) = true /\
  (main "/config.yaml" Version Commit 0 Dashboard.Demo.disk [] fresh_process).1 = Some 2.
Proof.
  split; [vm_compute; reflexivity|].
  pose proof (main_exit_status "/config.yaml" Version Commit 0 Dashboard.Demo.disk [] fresh_process (fun _ => eq_refl)) as Hm.
  assert (Load "/config.yaml" = Ok slashless_config) as Hl by (vm_compute; reflexivity).
  cbv zeta in Hm. rewrite Hl in Hm. destruct Hm as (_ & Hp & _). apply Hp.
  - split; try (vm_compute; reflexivity). repeat constructor. intros Ht. discriminate Ht.
  - intros Hm. specialize (Hm eq_refl). vm_compute in Hm. discriminate Hm.
Defined.

End Slashless.

Section Bad.
#[local] Instance bad_files : Files := files_with "bad".

(** A reload whose geo database does not open reports an error, with the rules
    already swapped and the lists as they were. *)
Lemma reload_outcome_witness :
  exists c, components = Some c /\
    let '(r, c') := reloadOnce "/config.yaml" c in
    is_ok r = false /\ (part c' : Filter) = part c /\ (part c' : Limiter) = part c.
Proof.
  assert ((fun c => is_ok (reloadOnce "/config.yaml" c).1) <$> components = Some false) as Hv
    by (vm_compute; reflexivity).
  destruct components as [c|] eqn:Hc; [|discriminate Hv]. exists c. split; [reflexivity|].
  change (Some (is_ok (reloadOnce "/config.yaml" c).1) = Some false) in Hv.
  destruct (components_ok c Hc) as [[[[aA HA] _] [[aD HD] _] _] Hg _ _ _ _].
  pose proof (reload_outcome "/config.yaml" c aA aD HA HD Hg) as Hr.
  destruct (reloadOnce "/config.yaml" c) as [[u|err] c']; [discriminate Hv|].
  destruct Hr as (_ & _ & Herr). destruct (Herr err eq_refl) as (Hf & Hl & _).
  split; [reflexivity|]. split; [exact Hf|exact Hl].
Defined.

End Bad.

End Demo.
